(* ===== verification/_CoqProject ===== *)
-Q . S2P
Prelude.v
GoStrings.v
GoHeap.v
DeepCopy.v
Wildcard.v
WildcardCost.v
K8s.v
PolicyAPI.v
Scheme.v
Approver.v
Validation.v
Samples.v
Allowed.v
AllowedSpec.v
Constraints.v
Client.v
Predicate.v
PredicateSpec.v
Manager.v
ManagerSpec.v
CacheConcurrency.v
ServiceAccount.v
Registry.v
Webhook.v
WebhookSpec.v
SSAClient.v
ApiServer.v
SampleServer.v
SampleCluster.v
ManagerCost.v
Watches.v
CertificateRequests.v
CertificateRequestsSpec.v
CertificateRequestPolicies.v
CertificateRequestPoliciesSpec.v
Lifecycle.v
Rollout.v
PolicyRollout.v
Cluster.v
StaleReads.v
StateMachine.v
Fake.v
ImageTool.v
ImageToolSpec.v
Metrics.v
Options.v
Flags.v
Cmd.v
System.v
NoPanic.v
Gatekeeping.v
