(* ===== verification/Prelude.v ===== *)
(** * approver-policy: a verification library

    approver-policy is a Kubernetes controller.  It watches cert-manager
    CertificateRequests and approves or denies each of them according to the
    CertificateRequestPolicies of the cluster.  This library models its Go code
    (under src/cmd and src/pkg, and the image tool under src/make) as executable
    definitions and proves what makes it correct.

    ** How the program works

    A policy has an "allowed" block (which attributes of a certificate may be
    asked for), a "constraints" block (bounds on duration and key), plugin data
    and a selector.  Approver plugins implement one interface: an evaluator
    (does the policy deny the request?), a webhook (may the policy be stored?)
    and a reconciler (is the policy ready?).  The registry collects the
    plugins, of which "allowed" and "constraints" are built in.  The
    CertificateRequest controller asks the manager for a review; the manager
    lists the policies, filters them through four predicates (ready, issuer,
    namespace, RBAC) and asks all the evaluators about the policies left; the
    first policy that no evaluator denies approves, and when every one is
    denied the request is denied.  The controller writes the decision as a
    condition by server-side apply.  The CertificateRequestPolicy controller
    writes the Ready condition the first predicate reads.

    ** Files

    - [Prelude] (this file): errors, outcomes of calls, the state monad the
      stateful code is written in, the loop shapes, sorting; the reasoning the
      components share: [returns] (a call implements a pure function under an
      invariant), [run] (the successful runs of a loop), [follows] (a call takes
      the state along a preorder) and its case [keeps] (it leaves an observation
      of the state alone), the hint database [go].
    - [GoStrings]: strings as bytes and runes, and the printing routines of
      Go's library the messages go through.
    - [GoHeap], [DeepCopy]: a heap with pointers, slices and maps, and
      zz_generated.deepcopy.go of the policy API on it.
    - [Wildcard], [WildcardCost]: internal/util/wildcard.go, the language of a
      pattern, and the number of steps the matcher takes.
    - [K8s], [Client]: the API types of other projects that the program reads,
      and their routines as type classes, the parameters of the development.
      Classes named [..Laws] state the documented behaviour that is relied on.
    - [PolicyAPI]: apis/policy/v1alpha1, one record per struct.
    - [Scheme]: register.go of the same package, the types its init registers.
    - [Approver]: the interfaces of pkg/approver and pkg/approver/manager.
    - [Validation], [CacheConcurrency], [ServiceAccount]:
      internal/approver/validation.  [Validation.Cache] is the interface of the
      cache of compiled CEL rules and [Validation.CacheLaws] its contract; the
      implementation [cache_Get] is an instance, and the allowed approver is
      proved against the contract.  [CacheConcurrency] is the same code as a
      step relation of concurrent calls.
    - [Allowed], [AllowedSpec]: internal/approver/allowed.
    - [Constraints]: internal/approver/constraints.
    - [Predicate], [PredicateSpec]: internal/approver/manager/predicate.
    - [Manager], [ManagerSpec], [ManagerCost]: internal/approver/manager/review.go,
      what it decides and what it costs.
    - [Registry]: pkg/registry.
    - [Webhook], [WebhookSpec]: internal/webhook.
    - [SSAClient]: internal/controllers/ssa_client.
    - [CertificateRequests], [CertificateRequestsSpec],
      [CertificateRequestPolicies], [CertificateRequestPoliciesSpec]: the two
      controllers of internal/controllers.  [Watches] has the objects, events
      and watches that controllers are built from; how controller-runtime turns
      an event into requests is a parameter with laws.
    - [ApiServer], [Lifecycle]: the objects an API server stores and what a
      status patch does to them, and the two controllers run against it.
    - [Rollout]: the controller of requests working off its queue, from the
      event that queues the undecided requests to the state it settles in.
    - [PolicyRollout]: the controller of policies, whose writes trigger itself,
      coming to rest.
    - [Cluster]: both controllers together.
    - [StaleReads]: the controller of requests when reads lag behind the server, with
      the field ownership of server-side apply.
    - [StateMachine]: what the two controllers promise, as a state machine over phases
      and names, which every execution of the code follows, with reads that lag
      and others that interfere.
    - [Metrics]: internal/metrics, the collector and its registration.
    - [Fake]: approver/fake and approver/manager/fake.
    - [ImageTool], [ImageToolSpec]: make/_shared/oci-build/image_tool, the tool
      that builds the images of the program.
    - [Options], [Flags], [Cmd]: internal/cmd, internal/controllers/controllers.go
      and pkg/cmd: the options and their defaults, how their flags reach the
      command, and the startup.
    - [Samples], [SampleCluster], [SampleServer]: concrete instances of the parameters, on which
      the theorems are instantiated.
    - [System]: the parts put together.
    - [NoPanic]: the process as it serves any sequence of events.
    - [Gatekeeping]: what the webhook keeps out, and why the reviews need it.

    A definition has the name of the Go function it translates.  A function
    with several stages is split at its loops and branches, and the manifest
    says which lines each piece translates.

    ** How Go is modelled

    A function that returns a value and an error is an [outcome]: a value, an
    error or a panic.  [M S A] is a call over a state [S], which stands for the
    memory of the process and for the outside world: every call of the API
    server may answer, change or fail in any way between two steps.  A
    function whose two results are both used (validate, Reconcile) returns a
    pair.  Loops are [for_range] and [collect], structural on the list they
    range over.  Fuel is used once, in the image tool, for the depth to which
    indexes nest; its theorems hold for the depth of the layout ([holds n]) and
    so say that the calls end.  A pointer is an [option], except in [GoHeap],
    where what is shared matters and pointers are locations of a heap; the
    order in which Go visits a map is an argument.  [os.Exit] is a panic.
    Integers are [Z]: the code compares durations and sizes and never adds to
    them; the counters of the metrics cannot reach the limits of an int.
    Contexts, loggers and tracing are left out.

    ** What is proved

    - Decisions ([System], [ManagerSpec], [PredicateSpec]): the safety theorems
      [approval_end_to_end] and [Review_approved_sound] hold in every world.
      [Review_correct] and [system_review_correct] say exactly what is decided
      in a world that stands still, [reviewPolicies_refines] gives the possible
      runs when it does not, [Review_order_independent] that the order of the
      listing does not matter among reviews that answer (it can decide which of
      them fail, [errors_depend_on_order]); the predicates are characterised one
      by one.
    - Evaluation and admission ([AllowedSpec], [Constraints], [WebhookSpec]):
      each evaluator decides a declarative reading of its block, each webhook
      its well-formedness, what is admitted can be satisfied, and asking for
      less is never denied.
    - CEL ([Validation], [CacheConcurrency], [ServiceAccount]): the cache is
      coherent, linearizes, and every call returns within three steps of its own
      whatever the others do; the library functions are typed and
      convert back and forth.
    - What becomes of it ([Lifecycle], [Rollout], [PolicyRollout], [Cluster]; these
      assume that reads have caught up, class [CaughtUp], and that others act
      between reconciliations): over any execution no request is both approved and denied; a decision reached is
      stored and stays; a policy counts as ready for the reviews exactly when its
      reconcilers said so.
    - The queue worked off ([Rollout]): once every queued request has been
      reconciled, in whatever order, each request is decided as the policies say
      or left alone where none applies, and nothing moves any more.  The
      controller of policies rests too ([PolicyRollout]): what it would write the
      second time is what is stored.  Together ([Cluster]) they bring the cluster
      to the state its policies describe, whatever statuses it starts from, and
      leave it there under any interleaving.
    - The specification ([StateMachine]): the abstract machine knows whether a
      request is open, approved, denied or both, and which policies are ready.
      [controllers_refine_machine] is the refinement: every step of the code,
      whatever its outcome, whatever its reads answer and whatever others do
      meanwhile, is some steps of the machine, which decides with evidence only,
      and only requests that are open or not as they were read.
      [decisions_accounted_for] traces each decision back to the reconciliation
      that made it and to what was answered there; for a denial this includes
      why each other ready policy of the listing did not count.  When the reads
      have caught up and nobody interferes, decisions fall on open requests only
      ([never_overtaken]).
    - Robustness ([NoPanic], [Gatekeeping]): no input makes the process panic
      ([process_never_panics]); and no policy that the webhook let in makes the
      review fail of a request that can be read ([let_in_policies_never_block]),
      where one that it refuses would block the review of every request
      ([bad_labels_would_block]).  Requests with Ed25519 keys cannot be read, and
      do fail on policies that were let in ([admitted_policy_blocks_ed25519]).
    - Lagging reads ([StaleReads]): no request is ever both approved and denied
      whatever the reads answer, because each patch takes back what the last one
      declared; that a decision is final does need reads that are up to date
      ([stale_decision_flips]).
    - Cost ([ManagerCost], [WildcardCost]): the requests and evaluations of a
      review, and the steps of a match, with the patterns that make it
      exponential in the number of stars.
    - Triggers and writes ([CertificateRequestsSpec],
      [CertificateRequestPoliciesSpec]): which events queue which objects, what
      is sent and when, finality of decisions, transition times, requeues, the
      watcher of the enqueue channels.
    - Startup ([Scheme], [Flags], [Cmd]): the package that registers the types
      panics or knows every kind the client is used with; the flags do not depend
      on the order of a map as long as no two sets share a name (and do when they
      share one); the manager is started in one place, with every part
      configured before.
    - The rest: wildcards denote a language; deep copies share nothing with
      their originals and change nothing else; the gauges are exact; the image
      tool appends to every image of a layout whose digests do not collide (and
      loses one when they do, [appended_twice_lost]); a fake behaves like what it stands for; registered
      names stay unique (with the case in which they do not).

    ** What is not modelled

    The generated protobuf message (reflection data for the CEL interpreter),
    the test environments, logging and tracing.  The API server,
    controller-runtime, cel-go, crypto/x509, pflag and cobra, prometheus,
    cert-manager's utilities, the OCI library and the file system are
    parameters. *)

From stdpp Require Export base tactics option list list_numbers strings gmap sorting pretty.
From Stdlib Require Export Ascii ZArith Lia.
From Stdlib Require String.

#[global] Open Scope list_scope.
#[global] Open Scope stdpp_scope.
#[global] Open Scope Z_scope.

(** ** Go errors

    An [error] is known by its construction.  [errors_New] is [errors.New] or
    [fmt.Errorf] without [%w]; [Errorf_w m e] is [fmt.Errorf("m: %w", e)], the
    only shape in which the program wraps; [foreign_error] is an error value
    made by code outside the repository, known by its reason and message. *)
Inductive error :=
  | errors_New (msg : string)
  | Errorf_w (msg : string) (cause : error)
  | foreign_error (reason msg : string).

(** The method [Error() string]. *)
Fixpoint error_Error (e : error) : string :=
  match e with
  | errors_New msg => msg
  | Errorf_w msg cause => msg +:+ ": " +:+ error_Error cause
  | foreign_error _ msg => msg
  end.

#[export] Instance error_eq_dec : EqDecision error.
Proof. solve_decision. Defined.

(** ** Outcomes of a call

    A Go function of type [(A, error)] returns a value, returns an error, or
    panics.  A panic is an outcome of its own: nothing in the program
    recovers from one. *)
Inductive outcome (A : Type) :=
  | Ok (a : A)
  | Err (e : error)
  | Panic (why : string).
Arguments Ok {A} a.
Arguments Err {A} e.
Arguments Panic {A} why.

#[export] Instance outcome_ret : MRet outcome := fun A a => Ok a.
#[export] Instance outcome_bind : MBind outcome := fun A B f o =>
  match o with
  | Ok a => f a
  | Err e => Err e
  | Panic w => Panic w
  end.
#[export] Instance outcome_fmap : FMap outcome := fun A B f o =>
  match o with
  | Ok a => Ok (f a)
  | Err e => Err e
  | Panic w => Panic w
  end.

#[export] Instance outcome_eq_dec {A} `{EqDecision A} : EqDecision (outcome A).
Proof. solve_decision. Defined.

Lemma outcome_bind_Ok {A B} (o : outcome A) (f : A → outcome B) b :
  o ≫= f = Ok b → ∃ a, o = Ok a ∧ f a = Ok b.
Proof. destruct o; naive_solver. Qed.

Definition is_Ok {A} (o : outcome A) : Prop := ∃ a, o = Ok a.

(** ** Stateful calls

    [M S A] is a call that may read and change a state [S]: the part of the
    program's own memory and of the outside world that the component can
    reach.  The state survives an error or a panic, as it does in Go. *)
Definition M (S A : Type) : Type := S → outcome A * S.

#[export] Instance M_ret {S} : MRet (M S) := fun A a s => (Ok a, s).
#[export] Instance M_bind {S} : MBind (M S) := fun A B f m s =>
  match m s with
  | (Ok a, s') => f a s'
  | (Err e, s') => (Err e, s')
  | (Panic w, s') => (Panic w, s')
  end.

Definition fail {S A} (e : error) : M S A := fun s => (Err e, s).
Definition panic {S A} (why : string) : M S A := fun s => (Panic why, s).

(** A call that touches no state. *)
Definition pure_call {S A} (o : outcome A) : M S A := fun s => (o, s).

(** [try m] hands the error of [m] to the caller as a value, the way
    [x, err := f(); if err != nil { ... }] does when the caller goes on. *)
Definition try {S A} (m : M S A) : M S (A + error) := fun s =>
  match m s with
  | (Ok a, s') => (Ok (inl a), s')
  | (Err e, s') => (Ok (inr e), s')
  | (Panic w, s') => (Panic w, s')
  end.

(** [wrap_err msg m] is [if err := m; err != nil { return fmt.Errorf("msg: %w", err) }]. *)
Definition wrap_err {S A} (msg : string) (m : M S A) : M S A := fun s =>
  match m s with
  | (Err e, s') => (Err (Errorf_w msg e), s')
  | r => r
  end.

(** ** Loops

    The two loop shapes of the program, over any monad so that the pure and
    the stateful components share them (and their lemmas). *)
Section loops.
Context {F : Type → Type} `{MRet F, MBind F}.

(** [for _, x := range l { acc = f(acc, x) }] with early return. *)
Fixpoint for_range {A B} (l : list A) (acc : B) (f : B → A → F B) : F B :=
  match l with
  | [] => mret acc
  | x :: l' => acc' ← f acc x; for_range l' acc' f
  end.

(** [for i, x := range l { out = append(out, f(i, x)...) }]. *)
Fixpoint collect_from {A B} (i : nat) (f : nat → A → F (list B)) (l : list A)
    : F (list B) :=
  match l with
  | [] => mret []
  | x :: l' => a ← f i x; b ← collect_from (S i) f l'; mret (a ++ b)
  end.

(** The same loop when the body does not use the index. *)
Definition collect {A B} (f : A → F (list B)) (l : list A) : F (list B) :=
  collect_from 0 (λ _ x, f x) l.
End loops.

(** The loop [for idx, c := range l { if !same(c) { continue }; l[idx] = f(c); return }]
    followed by [l = append(l, new)]. *)
Fixpoint overwriteFirst {A} (same : A → bool) (f : A → A) (new : A) (l : list A) : list A :=
  match l with
  | [] => [new]
  | c :: l => if negb (same c) then c :: overwriteFirst same f new l else f c :: l
  end.

Lemma NoDup_fmap_inj {A B} (key : A → B) l x y :
  NoDup (key <$> l) → x ∈ l → y ∈ l → key x = key y → x = y.
Proof.
  intros Hnd [i Hi]%list_elem_of_lookup [j Hj]%list_elem_of_lookup Hk.
  assert (i = j) as ->; [|congruence].
  eapply (NoDup_lookup (key <$> l)); [done|by rewrite list_lookup_fmap, Hi|].
  by rewrite list_lookup_fmap, Hj, Hk.
Qed.

Section overwriteFirst.
Context {A K : Type} `{EqDecision K} (key : A → K) (k : K) (f : A → A) (new : A).
Context (Hf : ∀ c, key c = k → key (f c) = k) (Hnew : key new = k).
Let same (c : A) : bool := bool_decide (key c = k).

Lemma overwriteFirst_elem l d :
  NoDup (key <$> l) →
  d ∈ overwriteFirst same f new l ↔
    (d ∈ l ∧ key d ≠ k) ∨ (∃ c, c ∈ l ∧ key c = k ∧ d = f c) ∨
    ((∀ c, c ∈ l → key c ≠ k) ∧ d = new).
Proof.
  induction l as [|c l IH]; simpl; intros Hnd.
  - rewrite list_elem_of_singleton. setoid_rewrite elem_of_nil. naive_solver.
  - apply NoDup_cons in Hnd as [Hc Hnd]. unfold same at 1.
    destruct (decide (key c = k)) as [E|E].
    + rewrite bool_decide_eq_true_2 by done. simpl. setoid_rewrite elem_of_cons.
      assert (∀ e, e ∈ l → key e ≠ k) as Hl.
      { intros e He Ee. apply Hc. apply list_elem_of_fmap. exists e. split; [congruence|done]. }
      naive_solver.
    + rewrite bool_decide_eq_false_2 by done. simpl. setoid_rewrite elem_of_cons.
      rewrite (IH Hnd). naive_solver.
Qed.
Lemma overwriteFirst_NoDup l :
  NoDup (key <$> l) → NoDup (key <$> overwriteFirst same f new l).
Proof.
  induction l as [|c l IH]; simpl; intros Hnd; [apply NoDup_singleton|].
  pose proof Hnd as [Hc Hnd']%NoDup_cons. unfold same at 1.
  destruct (decide (key c = k)) as [E|E].
  - rewrite bool_decide_eq_true_2 by done. simpl. apply NoDup_cons.
    split; [|done]. by rewrite (Hf _ E), <-E.
  - rewrite bool_decide_eq_false_2 by done. simpl. apply NoDup_cons. split; [|by apply IH].
    intros (d & Ed & Hd)%list_elem_of_fmap. apply overwriteFirst_elem in Hd; [|done].
    destruct Hd as [[Hd _]|[(e & _ & He & ->)|[_ ->]]].
    + apply Hc. rewrite Ed. by apply list_elem_of_fmap_2.
    + by rewrite Ed, (Hf _ He) in E.
    + by rewrite Ed in E.
Qed.
End overwriteFirst.

(** A loop that overwrites a variable on the elements that match keeps the
    value of the last one. *)
Lemma foldl_keep {A B} (f : B → A → B) (matches : A → Prop) `{!∀ x, Decision (matches x)}
    (get : A → B) l b :
  (∀ b x, f b x = if decide (matches x) then get x else b) →
  (foldl f b l = b ∧ ∀ x, x ∈ l → ¬ matches x) ∨ (∃ x, x ∈ l ∧ matches x ∧ foldl f b l = get x).
Proof.
  intros Hf. revert b. induction l as [|x l IH]; intros b; simpl;
    [left; split; [done|]; by intros x ?%elem_of_nil|].
  destruct (IH (f b x)) as [[E Hl]|(y & Hy & Hm & E)].
  - rewrite E, Hf. case_decide as Hx; [right; exists x; split_and!; [by left|done|done]|left].
    split; [done|]. intros y [->|Hy]%elem_of_cons; [done|by apply Hl].
  - right. exists y. split_and!; [by right|done|done].
Qed.

(** ** Sorting

    [sort.SliceStable] and [sort.Strings].  A stable sort under a strict weak
    order has one possible result, so insertion sort stands for Go's. *)
Fixpoint sort_insert {A} (less : A → A → bool) (x : A) (l : list A) : list A :=
  match l with
  | [] => [x]
  | y :: l' => if less y x then y :: sort_insert less x l' else x :: y :: l'
  end.
Definition sort_SliceStable {A} (less : A → A → bool) (l : list A) : list A :=
  foldr (sort_insert less) [] l.

(** Go's [a < b] on strings: bytewise lexicographic. *)
Definition string_less (a b : string) : bool := String.ltb a b.
Definition sort_Strings (l : list string) : list string :=
  sort_SliceStable string_less l.

Lemma string_less_false a b : string_less a b = false → (b ≤ a)%string.
Proof.
  unfold string_less, String.ltb, String.le, String.leb.
  rewrite (String.compare_antisym a b).
  by destruct (b ?= a)%string.
Qed.
Lemma string_less_true a b : string_less a b = true → (a ≤ b)%string ∧ a ≠ b.
Proof.
  unfold string_less, String.ltb, String.le, String.leb. intros Hlt.
  destruct (a ?= b)%string eqn:E; try done. split; [done|].
  intros ->. pose proof (String.compare_antisym b b) as Hs. by rewrite E in Hs.
Qed.

Section sorting.
Context {A : Type} (key : A → string).
Let less (x y : A) : bool := string_less (key x) (key y).
Let R (x y : A) : Prop := (key x ≤ key y)%string.

Lemma sort_insert_Permutation x l : sort_insert less x l ≡ₚ x :: l.
Proof.
  induction l as [|y l IH]; simpl; [done|]. case_match; [|done].
  rewrite IH. apply Permutation_swap.
Qed.
Lemma sort_SliceStable_Permutation l : sort_SliceStable less l ≡ₚ l.
Proof.
  unfold sort_SliceStable. induction l as [|x l IH]; simpl; [done|].
  by rewrite sort_insert_Permutation, IH.
Qed.

Lemma sort_insert_Sorted x l : StronglySorted R l → StronglySorted R (sort_insert less x l).
Proof.
  induction 1 as [|y l Hl IH Hy]; simpl; [repeat constructor|].
  destruct (less y x) eqn:E.
  - constructor; [done|]. rewrite sort_insert_Permutation. constructor; [|done].
    by apply string_less_true in E as [??].
  - apply string_less_false in E. constructor; [by constructor|].
    constructor; [done|]. eapply Forall_impl; [exact Hy|]. intros z Hz. unfold R in *.
    by trans (key y).
Qed.
Lemma sort_SliceStable_Sorted l : StronglySorted R (sort_SliceStable less l).
Proof.
  unfold sort_SliceStable. induction l; simpl; [constructor|].
  by apply sort_insert_Sorted.
Qed.

(** Sorting forgets the order in which the elements came, as long as no two
    of them share a key. *)
Lemma sort_SliceStable_perm_eq l1 l2 :
  NoDup (key <$> l1) → l1 ≡ₚ l2 → sort_SliceStable less l1 = sort_SliceStable less l2.
Proof.
  intros Hnd Hperm. apply (StronglySorted_unique_strong R);
    [|apply sort_SliceStable_Sorted..|by rewrite !sort_SliceStable_Permutation].
  intros x y Hx Hy Hxy Hyx.
  rewrite sort_SliceStable_Permutation in Hx, Hy. rewrite <-Hperm in Hy.
  assert (key x = key y) as Hk by (by apply (anti_symm String.le)).
  by eapply NoDup_fmap_inj.
Qed.
End sorting.

Lemma sort_Strings_perm_eq l1 l2 : l1 ≡ₚ l2 → sort_Strings l1 = sort_Strings l2.
Proof.
  intros Hperm. apply (StronglySorted_unique String.le);
    [apply (sort_SliceStable_Sorted id)..|].
  unfold sort_Strings. by rewrite !(sort_SliceStable_Permutation id).
Qed.
Lemma sort_Strings_Permutation l : sort_Strings l ≡ₚ l.
Proof. apply (sort_SliceStable_Permutation id). Qed.

(** ** Reasoning about stateful calls

    [returns I m o]: from every state that satisfies [I] the call [m] has the
    outcome [o], and it re-establishes [I].  It is how a stateful routine is
    shown to implement a pure function. *)
Definition returns {S A} (I : S → Prop) (m : M S A) (o : outcome A) : Prop :=
  ∀ s, I s → ∃ s', m s = (o, s') ∧ I s'.

Create HintDb go discriminated.
#[export] Hint Constants Opaque : go.
#[export] Hint Variables Opaque : go.

Section returns.
Context {S : Type} (I : S → Prop).

Lemma returns_ret {A} (a : A) : returns I (mret a) (Ok a).
Proof. intros s Hs. by exists s. Qed.
Lemma returns_pure_call {A} (o : outcome A) : returns I (pure_call o) o.
Proof. intros s Hs. by exists s. Qed.
Lemma returns_bind {A B} (m : M S A) o (f : A → M S B) (g : A → outcome B) :
  returns I m o → (∀ a, returns I (f a) (g a)) → returns I (m ≫= f) (o ≫= g).
Proof.
  intros Hm Hf s Hs. destruct (Hm s Hs) as (s' & E & Hs').
  unfold mbind, M_bind. rewrite E. destruct o; simpl; [by apply Hf|by exists s'..].
Qed.
Lemma returns_try {A} (m : M S A) o :
  returns I m o →
  returns I (try m) (match o with Ok a => Ok (inl a) | Err e => Ok (inr e) | Panic w => Panic w end).
Proof.
  intros Hm s Hs. destruct (Hm s Hs) as (s' & E & Hs'). exists s'.
  unfold try. rewrite E. by destruct o.
Qed.
Lemma returns_collect_from {A B} (f : nat → A → M S (list B)) (g : nat → A → outcome (list B)) l i :
  (∀ i x, returns I (f i x) (g i x)) → returns I (collect_from i f l) (collect_from i g l).
Proof.
  intros Hf. revert i. induction l as [|x l IH]; intros i; simpl; [apply returns_ret|].
  apply returns_bind; [done|]. intros a. apply returns_bind; [done|].
  intros b. apply returns_ret.
Qed.
Lemma returns_collect {A B} (f : A → M S (list B)) (g : A → outcome (list B)) l :
  (∀ x, returns I (f x) (g x)) → returns I (collect f l) (collect g l).
Proof. intros Hf. by apply returns_collect_from. Qed.
Lemma returns_for_range {A B} (f : B → A → M S B) (g : B → A → outcome B) l acc :
  (∀ acc x, returns I (f acc x) (g acc x)) → returns I (for_range l acc f) (for_range l acc g).
Proof.
  intros Hf. revert acc. induction l as [|x l IH]; intros acc; simpl; [apply returns_ret|].
  by apply returns_bind.
Qed.
Lemma returns_eq {A} (m : M S A) o o' : returns I m o → o = o' → returns I m o'.
Proof. by intros ? ->. Qed.
End returns.

#[export] Hint Resolve returns_ret returns_pure_call returns_bind returns_try
  returns_collect_from returns_collect returns_for_range : go.

Lemma list_fmap_mono {A B} (f : A → B) (l k : list A) : l ⊆ k → f <$> l ⊆ f <$> k.
Proof.
  intros Hl y (x & -> & Hx)%list_elem_of_fmap. apply list_elem_of_fmap. eauto.
Qed.
Lemma forall_Some {A} (a : A) (P : A → Prop) : (∀ x, Some a = Some x → P x) ↔ P a.
Proof. naive_solver. Qed.
Lemma forall_None {A} (P : A → Prop) : (∀ x, None = Some x → P x) ↔ True.
Proof. naive_solver. Qed.

Lemma forallb_Forall {A} (f : A → bool) l : forallb f l = true ↔ Forall (λ x, f x = true) l.
Proof.
  induction l as [|x l IH]; simpl; [by rewrite Forall_nil|].
  by rewrite andb_true_iff, Forall_cons, IH.
Qed.

(** A proposition with a decision procedure is decidable. *)
Definition decide_iff {P Q : Prop} (H : P ↔ Q) (d : Decision P) : Decision Q :=
  match d with
  | left p => left (proj1 H p)
  | right np => right (λ q, np (proj2 H q))
  end.

(** ** Inversion of successful calls *)
Lemma M_bind_Ok {S A B} (m : M S A) (f : A → M S B) b s s' :
  (m ≫= f) s = (Ok b, s') → ∃ a s1, m s = (Ok a, s1) ∧ f a s1 = (Ok b, s').
Proof. unfold mbind, M_bind. destruct (m s) as [[] ?]; naive_solver. Qed.
Lemma M_bind_step {S A B} (m : M S A) (f : A → M S B) s :
  (m ≫= f) s =
    match m s with
    | (Ok a, s') => f a s'
    | (Err e, s') => (Err e, s')
    | (Panic w, s') => (Panic w, s')
    end.
Proof. done. Qed.
Lemma for_range_cons {S A B} x (l : list A) (acc : B) (f : B → A → M S B) s :
  for_range (x :: l) acc f s = (f acc x ≫= λ acc', for_range l acc' f) s.
Proof. done. Qed.
Lemma M_bind_run {S A B} (m : M S A) (f : A → M S B) a s s' :
  m s = (Ok a, s') → (m ≫= f) s = f a s'.
Proof. intros E. unfold mbind, M_bind. by rewrite E. Qed.
Lemma M_bind_Err {S A B} (m : M S A) (f : A → M S B) e s s' :
  m s = (Err e, s') → (m ≫= f) s = (Err e, s').
Proof. intros E. unfold mbind, M_bind. by rewrite E. Qed.
Lemma M_ret_Ok {S A} (a b : A) (s s' : S) : mret (M:=M S) a s = (Ok b, s') → a = b ∧ s = s'.
Proof. by intros [= -> ->]. Qed.

(** ** Runs over a list

    [calls f] is the relation of the successful calls of [f]; [run R s l ys s']
    says that from [s] the steps [R] for the elements of [l], in turn, produce
    the values [ys] and lead to [s']. *)
Definition calls {S A B} (f : A → M S B) : S → A → B → S → Prop :=
  λ s x y s', f x s = (Ok y, s').

Inductive run {S A B} (R : S → A → B → S → Prop) : S → list A → list B → S → Prop :=
  | run_nil s : run R s [] [] s
  | run_cons s x y s1 l ys s2 :
      R s x y s1 → run R s1 l ys s2 → run R s (x :: l) (y :: ys) s2.
Abbreviation answers f := (run (calls f)).

Section run.
Context {S A B : Type} (R : S → A → B → S → Prop).

Lemma run_nil_inv s ys s' : run R s [] ys s' ↔ ys = [] ∧ s' = s.
Proof. split; [by inversion 1|]. intros [-> ->]. constructor. Qed.
Lemma run_cons_inv s x l zs s' :
  run R s (x :: l) zs s' ↔ ∃ y s1 ys, R s x y s1 ∧ run R s1 l ys s' ∧ zs = y :: ys.
Proof.
  split; [inversion 1; naive_solver|]. intros (y & s1 & ys & ? & ? & ->). by econstructor.
Qed.
Lemma run_length s l ys s' : run R s l ys s' → length ys = length l.
Proof. induction 1; simpl; congruence. Qed.
(** Every value of the run was produced by a step of the run. *)
Lemma run_lookup s l ys s' i y :
  run R s l ys s' → ys !! i = Some y →
  ∃ x s1 s2, l !! i = Some x ∧ run R s (take i l) (take i ys) s1 ∧ R s1 x y s2 ∧
    run R s2 (drop (Datatypes.S i) l) (drop (Datatypes.S i) ys) s'.
Proof.
  intros Ha. revert i. induction Ha as [|s x z s1 l ys s2 Hf Ha IH]; intros i Hi; [done|].
  destruct i as [|i]; simpl in *.
  - simplify_eq. exists x, s, s1. split_and!; [done|constructor|done|by rewrite !drop_0].
  - destruct (IH i Hi) as (x' & t & t' & Hx & Hpre & Hy & Hpost).
    exists x', t, t'. split_and!; [done|by econstructor|done..].
Qed.
(** A run that is made of steps of [C]. *)
Lemma run_rtc (C : S → S → Prop) s l ys s' :
  (∀ s x y s', x ∈ l → R s x y s' → rtc C s s') → run R s l ys s' → rtc C s s'.
Proof.
  intros HC. induction 1 as [|s x y s1 l ys s2 Hx _ IH]; [done|].
  etrans; [eapply HC; [by left|done]|]. apply IH. intros. eapply HC; [by right|done].
Qed.
End run.

Lemma run_calls_det {S A B} (f : A → M S B) s l ys ys' s1 s2 :
  answers f s l ys s1 → answers f s l ys' s2 → ys = ys'.
Proof.
  intros H1. revert ys' s2. induction H1 as [|s x y s1 l ys s3 Hf _ IH]; intros ys' s2 H2.
  - by apply run_nil_inv in H2 as [-> _].
  - apply run_cons_inv in H2 as (y' & s1' & ys0 & Hf' & H2 & ->). unfold calls in *.
    assert (y' = y ∧ s1' = s1) as [-> ->] by (split; congruence). f_equal. by eapply IH.
Qed.
Lemma for_range_ext {S A B} (f g : B → A → M S B) l acc s :
  (∀ acc x s, f acc x s = g acc x s) → for_range l acc f s = for_range l acc g s.
Proof.
  intros Hfg. revert acc s. induction l as [|x l IH]; intros acc s; [done|].
  rewrite !for_range_cons, !M_bind_step, Hfg. by destruct (g acc x s) as [[] ?].
Qed.

Lemma answers_wrap_err {S A B} msg (f : A → M S B) s l ys s' :
  answers (λ x, wrap_err msg (f x)) s l ys s' ↔ answers f s l ys s'.
Proof.
  assert (∀ s x y s', calls (λ x, wrap_err msg (f x)) s x y s' ↔ calls f s x y s') as Hc.
  { intros t x y t'. unfold calls, wrap_err. by destruct (f x t) as [[] ?]. }
  split; induction 1; econstructor; try done; by apply Hc.
Qed.
Lemma try_Ok_inl {S A} (m : M S A) a s s' : try m s = (Ok (inl a), s') ↔ m s = (Ok a, s').
Proof. unfold try. destruct (m s) as [[] ?]; naive_solver. Qed.
Lemma try_Ok_inr {S A} (m : M S A) e s s' : try m s = (Ok (inr e), s') ↔ m s = (Err e, s').
Proof. unfold try. destruct (m s) as [[] ?]; naive_solver. Qed.

(** A loop that makes one call per element and folds the answers. *)
Lemma for_range_answers {S A B C} (call : A → M S B) (upd : C → B → C) l acc s acc' s' :
  for_range l acc (λ acc x, r ← call x; mret (upd acc r)) s = (Ok acc', s') ↔
    ∃ rs, answers call s l rs s' ∧ acc' = foldl upd acc rs.
Proof.
  revert acc s. induction l as [|x l IH]; intros acc s.
  - setoid_rewrite run_nil_inv. split.
    + intros [<- <-]%M_ret_Ok. by exists [].
    + by intros (rs & [-> ->] & ->).
  - rewrite for_range_cons, !M_bind_step. setoid_rewrite run_cons_inv. unfold calls at 1.
    destruct (call x s) as [[r| |] s1] eqn:E. 2-3: split; [done|]; naive_solver.
    unfold mret at 1, M_ret at 1. rewrite IH. split.
    + intros (rs & Hrun & ->). exists (r :: rs). split; [|done]. by exists r, s1, rs.
    + intros (rs & (r' & s1' & rs' & [= <- <-] & Hrun & ->) & ->). by exists rs'.
Qed.
(** The same loop when one of the calls fails. *)
Lemma for_range_fails {S A B C} (call : A → M S B) (upd : C → B → C) pre x post acc s rs s1 e s2 :
  answers call s pre rs s1 → call x s1 = (Err e, s2) →
  for_range (pre ++ x :: post) acc (λ acc x, r ← call x; mret (upd acc r)) s = (Err e, s2).
Proof.
  intros Hpre Hx. revert acc. induction Hpre as [s|s y r s0 l rs' s3 Hy _ IH]; intros acc;
    simpl app; rewrite for_range_cons, !M_bind_step.
  - by rewrite Hx.
  - unfold calls in Hy. rewrite Hy. by apply IH.
Qed.

(** ** What a call does to the state

    [follows R m]: whatever [m] does, it takes the state along the preorder [R].
    [keeps g m] is the case in which the observation [g] of the state is the same
    afterwards. *)
Definition follows {S A} (R : S → S → Prop) (m : M S A) : Prop :=
  ∀ s o s', m s = (o, s') → R s s'.

Section follows.
Context {S : Type} (R : S → S → Prop) `{!PreOrder R}.
Lemma follows_ret {A} (a : A) : follows R (mret a).
Proof. by intros s o s' [= _ <-]. Qed.
Lemma follows_bind {A B} (m : M S A) (f : A → M S B) :
  follows R m → (∀ a, follows R (f a)) → follows R (m ≫= f).
Proof.
  intros Hm Hf s o s'. rewrite M_bind_step. destruct (m s) as [[a| |] s1] eqn:E; intros E'.
  - trans s1; [by eapply Hm|by eapply Hf].
  - injection E' as _ <-. by eapply Hm.
  - injection E' as _ <-. by eapply Hm.
Qed.
Lemma follows_fail {A} e : follows R (fail (A:=A) e).
Proof. by intros s o s' [= _ <-]. Qed.
Lemma follows_panic {A} w : follows R (panic (A:=A) w).
Proof. by intros s o s' [= _ <-]. Qed.
Lemma follows_pure_call {A} (o : outcome A) : follows R (pure_call o).
Proof. by intros s o' s' [= _ <-]. Qed.
Lemma follows_try {A} (m : M S A) : follows R m → follows R (try m).
Proof.
  intros Hm s o s'. unfold try. destruct (m s) as [[a| |] s1] eqn:E; intros [= _ <-]; by eapply Hm.
Qed.
Lemma follows_wrap_err {A} msg (m : M S A) : follows R m → follows R (wrap_err msg m).
Proof.
  intros Hm s o s'. unfold wrap_err. destruct (m s) as [[a| |] s1] eqn:E; intros [= _ <-]; by eapply Hm.
Qed.
Lemma follows_for_range_in {A B} (l : list A) (f : B → A → M S B) acc :
  (∀ acc x, x ∈ l → follows R (f acc x)) → follows R (for_range l acc f).
Proof.
  revert acc. induction l as [|x l IH]; intros acc Hf; [apply follows_ret|].
  apply follows_bind; [apply Hf; by left|]. intros b. apply IH. intros. apply Hf. by right.
Qed.
Lemma follows_for_range {A B} (l : list A) (f : B → A → M S B) acc :
  (∀ acc x, follows R (f acc x)) → follows R (for_range l acc f).
Proof. intros Hf. apply follows_for_range_in. auto. Qed.
End follows.
#[export] Hint Resolve follows_ret follows_fail follows_panic follows_pure_call follows_bind follows_try
  follows_wrap_err follows_for_range : go.

Definition same {S T} (g : S → T) (s s' : S) : Prop := g s' = g s.
#[export] Instance same_preorder {S T} (g : S → T) : PreOrder (same g).
Proof. split; [done|]. intros s1 s2 s3 E1 E2. unfold same in *. by rewrite E2. Qed.

Definition keeps {S T A} (g : S → T) (m : M S A) : Prop :=
  ∀ s o s', m s = (o, s') → g s' = g s.

Section keeps.
Context {S T : Type} (g : S → T).
Lemma keeps_ret {A} (a : A) : keeps g (mret a).
Proof. exact (follows_ret (same g) a). Qed.
Lemma keeps_bind {A B} (m : M S A) (f : A → M S B) :
  keeps g m → (∀ a, keeps g (f a)) → keeps g (m ≫= f).
Proof. exact (follows_bind (same g) m f). Qed.
Lemma keeps_fail {A} e : keeps g (fail (A:=A) e).
Proof. exact (follows_fail (same g) e). Qed.
Lemma keeps_pure_call {A} (o : outcome A) : keeps g (pure_call o).
Proof. exact (follows_pure_call (same g) o). Qed.
Lemma keeps_try {A} (m : M S A) : keeps g m → keeps g (try m).
Proof. exact (follows_try (same g) m). Qed.
Lemma keeps_wrap_err {A} msg (m : M S A) : keeps g m → keeps g (wrap_err msg m).
Proof. exact (follows_wrap_err (same g) msg m). Qed.
Lemma keeps_for_range_in {A B} (l : list A) (f : B → A → M S B) acc :
  (∀ acc x, x ∈ l → keeps g (f acc x)) → keeps g (for_range l acc f).
Proof. exact (follows_for_range_in (same g) l f acc). Qed.
Lemma keeps_for_range {A B} (l : list A) (f : B → A → M S B) acc :
  (∀ acc x, keeps g (f acc x)) → keeps g (for_range l acc f).
Proof. exact (follows_for_range (same g) l f acc). Qed.
End keeps.
#[export] Hint Resolve keeps_ret keeps_fail keeps_pure_call keeps_bind keeps_try keeps_wrap_err keeps_for_range : go.

Ltac inv_call :=
  repeat match goal with
  | H : (_ ≫= _) _ = (Ok _, _) |- _ =>
      apply M_bind_Ok in H as (? & ? & ? & H)
  | H : mret _ _ = (Ok _, _) |- _ => apply M_ret_Ok in H as [? ?]; subst
  | H : (_ ≫= _) = Ok _ |- _ => apply outcome_bind_Ok in H as (? & ? & H)
  end.

Ltac destruct_conds :=
  repeat match goal with
  | H : context [ match ?x with _ => _ end ] |- _ => destruct x eqn:?; simplify_eq/=
  | |- context [ match ?x with _ => _ end ] => destruct x eqn:?; simplify_eq/=
  end.
