(* ===== verification/GoStrings.v ===== *)
(** * The parts of Go's language and standard library that the program prints with

    Strings are byte sequences; [[]rune(s)] decodes them as UTF-8.  The
    conversions ([strconv.Itoa], [strconv.FormatBool], [strconv.Quote] behind
    [%q], [strings.Join], [time.Duration.String], [net.IP.String]) are written
    out because messages and wildcard matches go through them. *)
From S2P Require Import Prelude.

(** ** Bytes and runes *)
Definition byte_of (c : ascii) : Z := Z.of_N (N_of_ascii c).
Definition bytes (s : string) : list Z := byte_of <$> String.list_ascii_of_string s.
Definition string_of_bytes (l : list Z) : string :=
  String.string_of_list_ascii ((λ b, ascii_of_N (Z.to_N b)) <$> l).

Definition RuneError : Z := 0xFFFD.
Definition cont (b : Z) : bool := (0x80 <=? b) && (b <=? 0xBF).
Definition rune2 (b0 b1 : Z) : Z :=
  Z.lor (Z.shiftl (Z.land b0 0x1F) 6) (Z.land b1 0x3F).
Definition rune3 (b0 b1 b2 : Z) : Z :=
  Z.lor (Z.lor (Z.shiftl (Z.land b0 0x0F) 12) (Z.shiftl (Z.land b1 0x3F) 6)) (Z.land b2 0x3F).
Definition rune4 (b0 b1 b2 b3 : Z) : Z :=
  Z.lor (Z.lor (Z.lor (Z.shiftl (Z.land b0 0x07) 18) (Z.shiftl (Z.land b1 0x3F) 12))
    (Z.shiftl (Z.land b2 0x3F) 6)) (Z.land b3 0x3F).

(** [for _, r := range s]: the runes of a byte string, each with the bytes it
    was decoded from.  A byte that starts no valid sequence is a rune of its
    own, [RuneError]. *)
Fixpoint chunks (l : list Z) : list (Z * list Z) :=
  match l with
  | [] => []
  | b0 :: l1 =>
      if b0 <? 0x80 then (b0, [b0]) :: chunks l1
      else match l1 with
      | b1 :: l2 =>
          if (0xC0 <=? b0) && (b0 <? 0xE0) then
            if cont b1 && (0x7F <? rune2 b0 b1)
            then (rune2 b0 b1, [b0; b1]) :: chunks l2
            else (RuneError, [b0]) :: chunks l1
          else match l2 with
          | b2 :: l3 =>
              if (0xE0 <=? b0) && (b0 <? 0xF0) then
                if cont b1 && cont b2 && (0x7FF <? rune3 b0 b1 b2)
                   && negb ((0xD800 <=? rune3 b0 b1 b2) && (rune3 b0 b1 b2 <=? 0xDFFF))
                then (rune3 b0 b1 b2, [b0; b1; b2]) :: chunks l3
                else (RuneError, [b0]) :: chunks l1
              else match l3 with
              | b3 :: l4 =>
                  if (0xF0 <=? b0) && (b0 <? 0xF8) && cont b1 && cont b2 && cont b3
                     && (0xFFFF <? rune4 b0 b1 b2 b3) && (rune4 b0 b1 b2 b3 <=? 0x10FFFF)
                  then (rune4 b0 b1 b2 b3, [b0; b1; b2; b3]) :: chunks l4
                  else (RuneError, [b0]) :: chunks l1
              | [] => (RuneError, [b0]) :: chunks l1
              end
          | [] => (RuneError, [b0]) :: chunks l1
          end
      | [] => (RuneError, [b0]) :: chunks l1
      end
  end.

(** [[]rune(s)]. *)
Definition runes (s : string) : list Z := fst <$> chunks (bytes s).

(** [utf8.AppendRune] on a valid rune. *)
Definition utf8_encode (r : Z) : list Z :=
  if r <=? 0x7F then [r]
  else if r <=? 0x7FF then
    [Z.lor 0xC0 (Z.shiftr r 6); Z.lor 0x80 (Z.land r 0x3F)]
  else if r <=? 0xFFFF then
    [Z.lor 0xE0 (Z.shiftr r 12); Z.lor 0x80 (Z.land (Z.shiftr r 6) 0x3F);
     Z.lor 0x80 (Z.land r 0x3F)]
  else
    [Z.lor 0xF0 (Z.shiftr r 18); Z.lor 0x80 (Z.land (Z.shiftr r 12) 0x3F);
     Z.lor 0x80 (Z.land (Z.shiftr r 6) 0x3F); Z.lor 0x80 (Z.land r 0x3F)].

(** [utf8.ValidRune]. *)
Definition ValidRune (r : Z) : bool :=
  ((0 <=? r) && (r <? 0xD800)) || ((0xDFFF <? r) && (r <=? 0x10FFFF)).

(** A string holds valid UTF-8 when it is the encoding of some runes. *)
Definition ValidString (s : string) : Prop :=
  ∃ rs, Forall (λ r, ValidRune r = true) rs ∧ bytes s = rs ≫= utf8_encode.

(** ** Conversions *)
Definition strconv_Itoa (n : Z) : string := pretty n.
Definition strconv_FormatBool (b : bool) : string := if b then "true" else "false".

Fixpoint strings_Join (elems : list string) (sep : string) : string :=
  match elems with
  | [] => ""
  | [x] => x
  | x :: l => x +:+ sep +:+ strings_Join l sep
  end.

Definition char (n : Z) : string := String (ascii_of_N (Z.to_N n)) "".
Definition lowerhex (n : Z) : string :=
  char (if n <? 10 then 48 + n else 87 + n).

(** Unicode's table of printable characters above U+00FF is the standard
    library's data. *)
Class UnicodeTables := isPrint16_32 : Z → bool.

Section quote.
Context `{UnicodeTables}.

Definition IsPrint (r : Z) : bool :=
  if r <=? 0xFF then
    ((0x20 <=? r) && (r <? 0x7F)) || ((0xA1 <=? r) && negb (r =? 0xAD))
  else isPrint16_32 r.

Definition hex_digits (n : nat) (r : Z) : string :=
  foldr (λ i s, s +:+ lowerhex (Z.land (Z.shiftr r (4 * Z.of_nat i)) 0xF)) "" (seq 0 n).

Definition appendEscapedRune (r : Z) (raw : list Z) : string :=
  if (r =? 34) || (r =? 92) then char 92 +:+ char r
  else if IsPrint r then string_of_bytes raw
  else if r =? 7 then char 92 +:+ "a"
  else if r =? 8 then char 92 +:+ "b"
  else if r =? 12 then char 92 +:+ "f"
  else if r =? 10 then char 92 +:+ "n"
  else if r =? 13 then char 92 +:+ "r"
  else if r =? 9 then char 92 +:+ "t"
  else if r =? 11 then char 92 +:+ "v"
  else if (r <? 32) || (r =? 0x7F) then char 92 +:+ "x" +:+ hex_digits 2 r
  else if r <? 0x10000 then char 92 +:+ "u" +:+ hex_digits 4 r
  else char 92 +:+ "U" +:+ hex_digits 8 r.

Definition quote_chunk (c : Z * list Z) : string :=
  match c with
  | (r, [b]) =>
      if r =? RuneError then char 92 +:+ "x" +:+ hex_digits 2 b
      else appendEscapedRune r [b]
  | (r, raw) => appendEscapedRune r raw
  end.

(** [strconv.Quote], which [%q] prints a string with. *)
Definition strconv_Quote (s : string) : string :=
  char 34 +:+ strings_Join (quote_chunk <$> chunks (bytes s)) "" +:+ char 34.
End quote.

(** ** [time.Duration.String]

    A duration is an [int64] count of nanoseconds. *)
Fixpoint fmtFrac (prec : nat) (print : bool) (v : Z) (buf : string) : string * Z :=
  match prec with
  | O => (if print then "." +:+ buf else buf, v)
  | S prec =>
      let digit := v mod 10 in
      let print := print || negb (digit =? 0) in
      fmtFrac prec print (v / 10) (if print then char (48 + digit) +:+ buf else buf)
  end.

Definition Duration_String (d : Z) : string :=
  let u := Z.abs d in
  let body :=
    if u <? 1000000000 then
      if u =? 0 then "0s"
      else
        let '(prec, unit) :=
          if u <? 1000 then (0%nat, "ns")
          else if u <? 1000000 then (3%nat, char 0xC2 +:+ char 0xB5 +:+ "s")
          else (6%nat, "ms") in
        let '(frac, u) := fmtFrac prec false u "" in
        strconv_Itoa u +:+ frac +:+ unit
    else
      let '(frac, u) := fmtFrac 9 false u "" in
      let secs := strconv_Itoa (u mod 60) +:+ frac +:+ "s" in
      let u := u / 60 in
      if 0 <? u then
        let mins := strconv_Itoa (u mod 60) +:+ "m" +:+ secs in
        let u := u / 60 in
        if 0 <? u then strconv_Itoa u +:+ "h" +:+ mins else mins
      else secs in
  if d <? 0 then "-" +:+ body else body.

(** ** [net.IP.String]

    An IP is a byte slice, 4 or 16 bytes long when it is well formed. *)
Definition hexString (l : list Z) : string :=
  strings_Join ((λ b, lowerhex (Z.shiftr b 4) +:+ lowerhex (Z.land b 0xF)) <$> l) "".
Definition To4 (ip : list Z) : option (list Z) :=
  match ip with
  | [_; _; _; _] => Some ip
  | [0; 0; 0; 0; 0; 0; 0; 0; 0; 0; 0xFF; 0xFF; a; b; c; d] => Some [a; b; c; d]
  | _ => None
  end.

Fixpoint groups16 (l : list Z) : list Z :=
  match l with
  | hi :: lo :: l => Z.lor (Z.shiftl hi 8) lo :: groups16 l
  | _ => []
  end.
Definition appendHex (g : Z) : string :=
  if 0x1000 <=? g then hex_digits 4 g
  else if 0x100 <=? g then hex_digits 3 g
  else if 0x10 <=? g then hex_digits 2 g
  else hex_digits 1 g.
Fixpoint leading_zeros (l : list Z) : nat :=
  match l with 0 :: l => S (leading_zeros l) | _ => 0%nat end.
(** The first of the longest runs of at least two zero groups. *)
Fixpoint zero_run (i : nat) (l : list Z) (best : nat * nat) : nat * nat :=
  match l with
  | [] => best
  | _ :: l' =>
      let n := leading_zeros l in
      zero_run (S i) l'
        (if (2 <=? n)%nat && (best.2 - best.1 <? n)%nat then (i, (i + n)%nat) else best)
  end.
Definition appendTo6 (ip : list Z) : string :=
  let gs := groups16 ip in
  let hex := strings_Join (appendHex <$> gs) ":" in
  match zero_run 0 gs (255, 255)%nat with
  | (255, _)%nat => hex
  | (start, stop) =>
      strings_Join (appendHex <$> take start gs) ":" +:+ "::"
      +:+ strings_Join (appendHex <$> drop stop gs) ":"
  end.
Definition IP_String (ip : list Z) : string :=
  if (length ip =? 0)%nat then "<nil>"
  else if negb (length ip =? 4)%nat && negb (length ip =? 16)%nat then "?" +:+ hexString ip
  else match To4 ip with
  | Some p4 => strings_Join (strconv_Itoa <$> p4) "."
  | None => appendTo6 ip
  end.

Example Duration_String_ex :
  Duration_String <$> [0; 1; 1500; -2000000; 3600000000000; 5400000000000; 1100000000]
  = ["0s"; "1ns"; "1.5" +:+ char 0xC2 +:+ char 0xB5 +:+ "s"; "-2ms"; "1h0m0s"; "1h30m0s"; "1.1s"].
Proof. vm_compute. reflexivity. Qed.
Example IP_String_ex :
  IP_String <$> [[]; [10; 0; 0; 1]; [0;0;0;0;0;0;0;0;0;0;255;255;1;2;3;4];
    [32;1;13;184;0;0;0;0;0;0;0;0;0;0;0;1]; [0;0;0;0;0;0;0;0;0;0;0;0;0;0;0;0]; [1; 171]]
  = ["<nil>"; "10.0.0.1"; "1.2.3.4"; "2001:db8::1"; "::"; "?01ab"].
Proof. vm_compute. reflexivity. Qed.

(** ** Decoding inverts encoding *)
Ltac euclid := Z.to_euclidean_division_equations; lia.
Ltac bool_lia :=
  repeat first [rewrite andb_true_iff | rewrite orb_true_iff | rewrite negb_true_iff
    | rewrite andb_false_iff | rewrite Z.leb_le | rewrite Z.ltb_lt | rewrite Z.leb_gt | rewrite Z.ltb_ge].

Lemma lor_add a b n : 0 ≤ n → 0 ≤ b < 2 ^ n → Z.lor (a * 2 ^ n) b = a * 2 ^ n + b.
Proof.
  intros Hn Hb. rewrite <-Z.lxor_lor, Z.add_nocarry_lxor; [done|..].
  all: apply Z.bits_inj'; intros i Hi; rewrite Z.land_spec, Z.bits_0;
    destruct (decide (i < n)); [by rewrite Z.mul_pow2_bits_low|].
  all: rewrite andb_comm; destruct (decide (b = 0)) as [->|]; [by rewrite Z.bits_0|].
  all: rewrite (Z.bits_above_log2 b i); [done|lia|].
  all: assert (Z.log2 b < n) by (apply Z.log2_lt_pow2; lia); lia.
Qed.

Lemma rune2_eq b0 b1 : 0 ≤ b0 → 0 ≤ b1 → rune2 b0 b1 = b0 mod 32 * 64 + b1 mod 64.
Proof.
  intros. unfold rune2. change 0x1F with (Z.ones 5). change 0x3F with (Z.ones 6).
  rewrite !Z.land_ones, Z.shiftl_mul_pow2 by lia. rewrite lor_add by (lia || euclid). reflexivity.
Qed.
Lemma rune3_eq b0 b1 b2 :
  0 ≤ b0 → 0 ≤ b1 → 0 ≤ b2 →
  rune3 b0 b1 b2 = b0 mod 16 * 4096 + b1 mod 64 * 64 + b2 mod 64.
Proof.
  intros. unfold rune3. change 0x0F with (Z.ones 4). change 0x3F with (Z.ones 6).
  rewrite !Z.land_ones, !Z.shiftl_mul_pow2 by lia. rewrite lor_add by (lia || euclid).
  replace (b0 mod 2 ^ 4 * 2 ^ 12 + b1 mod 2 ^ 6 * 2 ^ 6)
    with ((b0 mod 16 * 64 + b1 mod 64) * 2 ^ 6) by euclid.
  rewrite lor_add by (lia || euclid). euclid.
Qed.
Lemma rune4_eq b0 b1 b2 b3 :
  0 ≤ b0 → 0 ≤ b1 → 0 ≤ b2 → 0 ≤ b3 →
  rune4 b0 b1 b2 b3 = b0 mod 8 * 262144 + b1 mod 64 * 4096 + b2 mod 64 * 64 + b3 mod 64.
Proof.
  intros. unfold rune4. change 0x07 with (Z.ones 3). change 0x3F with (Z.ones 6).
  rewrite !Z.land_ones, !Z.shiftl_mul_pow2 by lia. rewrite lor_add by (lia || euclid).
  replace (b0 mod 2 ^ 3 * 2 ^ 18 + b1 mod 2 ^ 6 * 2 ^ 12)
    with ((b0 mod 8 * 64 + b1 mod 64) * 2 ^ 12) by euclid.
  rewrite lor_add by (lia || euclid).
  replace ((b0 mod 8 * 64 + b1 mod 64) * 2 ^ 12 + b2 mod 2 ^ 6 * 2 ^ 6)
    with ((b0 mod 8 * 4096 + b1 mod 64 * 64 + b2 mod 64) * 2 ^ 6) by euclid.
  rewrite lor_add by (lia || euclid). euclid.
Qed.

Lemma utf8_encode_eq r :
  ValidRune r = true →
  utf8_encode r =
    if r <=? 0x7F then [r]
    else if r <=? 0x7FF then [0xC0 + r / 64; 0x80 + r mod 64]
    else if r <=? 0xFFFF then [0xE0 + r / 4096; 0x80 + (r / 64) mod 64; 0x80 + r mod 64]
    else [0xF0 + r / 262144; 0x80 + (r / 4096) mod 64; 0x80 + (r / 64) mod 64; 0x80 + r mod 64].
Proof.
  unfold ValidRune, utf8_encode. bool_lia. intros Hr. change 0x3F with (Z.ones 6).
  rewrite !Z.land_ones, !Z.shiftr_div_pow2 by lia.
  change 0x80 with (1 * 2 ^ 7). change 0xC0 with (3 * 2 ^ 6).
  change 0xE0 with (7 * 2 ^ 5). change 0xF0 with (15 * 2 ^ 4).
  destruct (Z.leb_spec r 0x7F); [done|].
  destruct (Z.leb_spec r 0x7FF); [rewrite !lor_add by (lia || euclid); done|].
  destruct (Z.leb_spec r 0xFFFF); rewrite !lor_add by (lia || euclid); done.
Qed.

Ltac bool_true t := replace t with true by (symmetry; bool_lia; lia).
Ltac bool_false t := replace t with false by (symmetry; bool_lia; lia).

Lemma chunks_encode r l :
  ValidRune r = true → chunks (utf8_encode r ++ l) = (r, utf8_encode r) :: chunks l.
Proof.
  intros Hr. rewrite !utf8_encode_eq by done. revert Hr. unfold ValidRune. bool_lia. intros Hr.
  destruct (Z.leb_spec r 0x7F) as [?|H1].
  { simpl. by bool_true (r <? 128). }
  destruct (Z.leb_spec r 0x7FF) as [?|H2]; [|destruct (Z.leb_spec r 0xFFFF) as [?|H3]].
  - set (b0 := 0xC0 + r / 64). set (b1 := 0x80 + r mod 64).
    assert (192 ≤ b0 < 224 ∧ 128 ≤ b1 < 192) as [Hb0 Hb1] by (unfold b0, b1; euclid).
    assert (rune2 b0 b1 = r) as Hrune by (rewrite rune2_eq by lia; unfold b0, b1; euclid).
    clearbody b0 b1. cbn [chunks app]. rewrite Hrune. unfold cont.
    bool_false (b0 <? 128). bool_true (0xC0 <=? b0). bool_true (b0 <? 0xE0).
    bool_true (0x80 <=? b1). bool_true (b1 <=? 0xBF). by bool_true (0x7F <? r).
  - set (b0 := 0xE0 + r / 4096). set (b1 := 0x80 + (r / 64) mod 64). set (b2 := 0x80 + r mod 64).
    assert (224 ≤ b0 < 240 ∧ 128 ≤ b1 < 192 ∧ 128 ≤ b2 < 192) as (Hb0 & Hb1 & Hb2)
      by (unfold b0, b1, b2; euclid).
    assert (rune3 b0 b1 b2 = r) as Hrune by (rewrite rune3_eq by lia; unfold b0, b1, b2; euclid).
    clearbody b0 b1 b2. cbn [chunks app]. rewrite Hrune. unfold cont.
    bool_false (b0 <? 128). bool_false ((0xC0 <=? b0) && (b0 <? 0xE0)).
    bool_true ((0xE0 <=? b0) && (b0 <? 0xF0)).
    bool_true (0x80 <=? b1). bool_true (b1 <=? 0xBF). bool_true (0x80 <=? b2).
    bool_true (b2 <=? 0xBF). bool_true (0x7FF <? r).
    by bool_false ((0xD800 <=? r) && (r <=? 0xDFFF)).
  - set (b0 := 0xF0 + r / 262144). set (b1 := 0x80 + (r / 4096) mod 64).
    set (b2 := 0x80 + (r / 64) mod 64). set (b3 := 0x80 + r mod 64).
    assert (240 ≤ b0 < 248 ∧ 128 ≤ b1 < 192 ∧ 128 ≤ b2 < 192 ∧ 128 ≤ b3 < 192)
      as (Hb0 & Hb1 & Hb2 & Hb3) by (unfold b0, b1, b2, b3; euclid).
    assert (rune4 b0 b1 b2 b3 = r) as Hrune
      by (rewrite rune4_eq by lia; unfold b0, b1, b2, b3; euclid).
    clearbody b0 b1 b2 b3. cbn [chunks app]. rewrite Hrune. unfold cont.
    bool_false (b0 <? 128). bool_false ((0xC0 <=? b0) && (b0 <? 0xE0)).
    bool_false ((0xE0 <=? b0) && (b0 <? 0xF0)).
    by bool_true ((240 <=? b0) && (b0 <? 248) && ((128 <=? b1) && (b1 <=? 191))
      && ((128 <=? b2) && (b2 <=? 191)) && ((128 <=? b3) && (b3 <=? 191))
      && (65535 <? r) && (r <=? 1114111)).
Qed.

Lemma chunks_encode_all rs :
  Forall (λ r, ValidRune r = true) rs →
  chunks (rs ≫= utf8_encode) = (λ r, (r, utf8_encode r)) <$> rs.
Proof.
  induction 1 as [|r rs Hr _ IH]; [done|].
  rewrite bind_cons, chunks_encode by done. by rewrite IH.
Qed.

Lemma byte_of_inj : Inj (=) (=) byte_of.
Proof.
  intros c d. unfold byte_of. intros E%N2Z.inj.
  by rewrite <-(ascii_N_embedding c), <-(ascii_N_embedding d), E.
Qed.
Lemma bytes_inj : Inj (=) (=) bytes.
Proof.
  intros s t E. apply (list_fmap_eq_inj byte_of byte_of_inj) in E.
  by rewrite <-(String.string_of_list_ascii_of_string s), <-(String.string_of_list_ascii_of_string t), E.
Qed.
#[export] Existing Instances byte_of_inj bytes_inj.

(** On valid UTF-8 the rune view of a string determines the string.  It does
    not on other byte sequences: every undecodable byte is [RuneError]. *)
Lemma runes_inj_valid s t :
  ValidString s → ValidString t → runes s = runes t → s = t.
Proof.
  unfold runes. intros (rs & Hrs & Es) (ts & Hts & Et).
  rewrite Es, Et, !chunks_encode_all, <-!list_fmap_compose, !list_fmap_id by done.
  intros ->. apply bytes_inj. congruence.
Qed.

Lemma chunks_nil l : chunks l = [] → l = [].
Proof. destruct l as [|b0 l]; [done|]. simpl. by repeat case_match. Qed.
Lemma runes_nil s : runes s = [] ↔ s = "".
Proof.
  split; [|by intros ->]. unfold runes. intros E%fmap_nil_inv%chunks_nil.
  by destruct s.
Qed.

Lemma chunks_ascii l :
  Forall (λ b, b < 0x80) l → chunks l = (λ b, (b, [b])) <$> l.
Proof.
  induction 1 as [|b l Hb _ IH]; [done|]. simpl. apply Z.ltb_lt in Hb as ->. by rewrite IH.
Qed.
Lemma runes_ascii s : Forall (λ b, b < 0x80) (bytes s) → runes s = bytes s.
Proof.
  intros Hs. unfold runes. by rewrite chunks_ascii, <-list_fmap_compose, list_fmap_id.
Qed.
