(* ===== verification/GoHeap.v ===== *)
(** * Go values in memory, and deep copies

    What the generated deep copy functions need of Go: structs whose fields
    may be pointers, slices and maps into a heap.  A type [ty] says where the
    references of a value are; [value] reads the whole value a reference
    stands for as a finite tree, and [foot] collects the locations it goes
    through.  The combinators are the statements the generator emits; each
    is proved to copy deeply when its parts do. *)
From S2P Require Import Prelude.

(** ** Memory *)
Abbreviation loc := nat.

Inductive prim :=
  | PString (s : string)
  | PBool (b : bool)
  | PInt (z : Z).

(** A slice is a window on an array in the heap. *)
Record slice := { sl_array : loc; sl_offset : nat; sl_len : nat }.

(** A struct holds its fields; pointers, slices and maps may be nil. *)
Inductive gval :=
  | VPrim (p : prim)
  | VStruct (fields : gmap string gval)
  | VPtr (p : option loc)
  | VSlice (s : option slice)
  | VMap (m : option loc).

Inductive cell :=
  | CVal (v : gval)
  | CArray (l : list gval)
  | CMap (m : gmap string gval).

Abbreviation heap := (gmap loc cell).

Definition alloc (c : cell) : M heap loc := λ h,
  let l := fresh (dom h) in (Ok l, <[l:=c]> h).

Definition nil_dereference : string := "invalid memory address or nil pointer dereference".
(** [*p], the elements a slice stands for, and the entries of a map. *)
Definition load (l : loc) : M heap gval := λ h,
  match h !! l with Some (CVal v) => (Ok v, h) | _ => (Panic nil_dereference, h) end.
Definition window (s : slice) (l : list gval) : list gval :=
  take (sl_len s) (drop (sl_offset s) l).
Definition loadSlice (s : slice) : M heap (list gval) := λ h,
  match h !! sl_array s with
  | Some (CArray l) => (Ok (window s l), h)
  | _ => (Panic nil_dereference, h)
  end.
Definition loadMap (l : loc) : M heap (gmap string gval) := λ h,
  match h !! l with Some (CMap m) => (Ok m, h) | _ => (Panic nil_dereference, h) end.

(** ** Types and the values they give to memory *)
Inductive ty :=
  | TPrim
  | TStruct (fields : list (string * ty))
  | TPtr (T : ty)
  | TSlice (T : ty)
  | TMap (T : ty).       (* the keys are strings *)

Inductive tree :=
  | LPrim (p : prim)
  | LStruct (fields : list (string * tree))
  | LNil
  | LPtr (t : tree)
  | LSlice (l : list tree)
  | LMap (m : gmap string tree).

(** What [reflect.DeepEqual] compares: two values are deeply equal when their
    trees are the same.  [None] when the memory does not fit the type. *)
Fixpoint value (h : heap) (T : ty) (v : gval) {struct T} : option tree :=
  match T, v with
  | TPrim, VPrim p => Some (LPrim p)
  | TStruct Ts, VStruct fields =>
      LStruct <$> mapM (λ nT, v ← fields !! nT.1; pair nT.1 <$> value h nT.2 v) Ts
  | TPtr T, VPtr None => Some LNil
  | TPtr T, VPtr (Some l) =>
      match h !! l with Some (CVal v) => LPtr <$> value h T v | _ => None end
  | TSlice T, VSlice None => Some LNil
  | TSlice T, VSlice (Some s) =>
      match h !! sl_array s with
      | Some (CArray l) => LSlice <$> mapM (value h T) (window s l)
      | _ => None
      end
  | TMap T, VMap None => Some LNil
  | TMap T, VMap (Some l) =>
      match h !! l with
      | Some (CMap m) =>
          LMap ∘ list_to_map <$> mapM (λ kv, pair kv.1 <$> value h T kv.2) (map_to_list m)
      | _ => None
      end
  | _, _ => None
  end.

Fixpoint foot (h : heap) (T : ty) (v : gval) {struct T} : gset loc :=
  match T, v with
  | TStruct Ts, VStruct fields =>
      ⋃ ((λ nT, match fields !! nT.1 with Some v => foot h nT.2 v | None => ∅ end) <$> Ts)
  | TPtr T, VPtr (Some l) =>
      {[l]} ∪ match h !! l with Some (CVal v) => foot h T v | _ => ∅ end
  | TSlice T, VSlice (Some s) =>
      {[sl_array s]} ∪
        match h !! sl_array s with Some (CArray l) => ⋃ (foot h T <$> window s l) | _ => ∅ end
  | TMap T, VMap (Some l) =>
      {[l]} ∪
        match h !! l with
        | Some (CMap m) => ⋃ ((λ kv, foot h T kv.2) <$> map_to_list m)
        | _ => ∅
        end
  | _, _ => ∅
  end.

(** Types without references: copying such a value copies all of it. *)
Fixpoint flat (T : ty) : bool :=
  match T with
  | TPrim => true
  | TStruct Ts => forallb (λ nT, flat nT.2) Ts
  | _ => false
  end.

(** ** The statements of the generated functions

    A [DeepCopyInto] is given the value behind [in] and answers what it leaves
    behind [out].  An object is allocated when its content is known, where Go
    first makes a zero object and then fills it: nothing reads it between. *)

(** [**out = **in]: Go's assignment. *)
Definition assign : gval → M heap gval := mret.

(** If the pointer is not nil, a new object with a copy of what it points to. *)
Definition copyPtr (copy : gval → M heap gval) (v : gval) : M heap gval :=
  match v with
  | VPtr None => mret (VPtr None)
  | VPtr (Some l) => x ← load l; y ← copy x; l' ← alloc (CVal y); mret (VPtr (Some l'))
  | _ => panic "not a pointer"
  end.

(** The same for a slice: a new array of the length of the old window, each
    element copied. *)
Definition copySlice (copy : gval → M heap gval) (v : gval) : M heap gval :=
  match v with
  | VSlice None => mret (VSlice None)
  | VSlice (Some s) =>
      xs ← loadSlice s;
      ys ← collect (λ x, y ← copy x; mret [y]) xs;
      l' ← alloc (CArray ys);
      mret (VSlice (Some {| sl_array := l'; sl_offset := 0; sl_len := length ys |}))
  | _ => panic "not a slice"
  end.

(** Go visits the entries of a map in any order. *)
Class MapOrder := visit : gmap string gval → list (string * gval).
Class MapOrderLaws `{MapOrder} := visit_perm m : visit m ≡ₚ map_to_list m.

(** The same for a map. *)
Definition copyMap `{MapOrder} (copy : gval → M heap gval) (v : gval) : M heap gval :=
  match v with
  | VMap None => mret (VMap None)
  | VMap (Some l) =>
      m ← loadMap l;
      m' ← for_range (visit m) ∅ (λ m' kv, y ← copy kv.2; mret (<[kv.1:=y]> m'));
      l' ← alloc (CMap m');
      mret (VMap (Some l'))
  | _ => panic "not a map"
  end.

Definition field (n : string) (v : gval) : option gval :=
  match v with VStruct fields => fields !! n | _ => None end.
Definition set_field (n : string) (x v : gval) : gval :=
  match v with VStruct fields => VStruct (<[n:=x]> fields) | v => v end.

(** [*out = *in], then one statement per field that needs more. *)
Definition copyStruct (steps : list (string * (gval → M heap gval))) (v : gval) : M heap gval :=
  for_range steps v (λ out step,
    match field step.1 v with
    | Some x => y ← step.2 x; mret (set_field step.1 y out)
    | None => panic "no such field"
    end).

(** [DeepCopy]: nil for nil, a new object that [DeepCopyInto] fills otherwise. *)
Definition DeepCopy (DeepCopyInto : gval → M heap gval) (p : option loc) : M heap (option loc) :=
  match p with
  | None => mret None
  | Some l => x ← load l; y ← DeepCopyInto x; l' ← alloc (CVal y); mret (Some l')
  end.

(** ** Reading memory *)
Lemma ty_ind' (P : ty → Prop) :
  P TPrim → (∀ Ts, Forall (λ nT, P nT.2) Ts → P (TStruct Ts)) →
  (∀ T, P T → P (TPtr T)) → (∀ T, P T → P (TSlice T)) → (∀ T, P T → P (TMap T)) →
  ∀ T, P T.
Proof.
  intros Hp Hst Hptr Hsl Hm. fix IH 1. intros [|Ts|T|T|T]; [done| |apply Hptr, IH|apply Hsl, IH|apply Hm, IH].
  apply Hst. induction Ts as [|[n T] Ts IHTs]; constructor; [apply IH|done].
Qed.

Lemma elem_of_union_fmap {A} (f : A → gset loc) l i :
  i ∈ ⋃ (f <$> l) ↔ ∃ x, x ∈ l ∧ i ∈ f x.
Proof.
  rewrite elem_of_union_list. split.
  - intros (X & (x & -> & Hx)%list_elem_of_fmap & Hi). eauto.
  - intros (x & Hx & Hi). exists (f x). split; [by apply list_elem_of_fmap_2|done].
Qed.

(** Two memories that agree on the footprint of a value read it alike. *)
Lemma mapM_frame {A B} (f g : A → option B) (F G : A → gset loc) l k :
  mapM f l = Some k →
  Forall (λ x, ∀ y, f x = Some y → g x = Some y ∧ G x = F x) l →
  mapM g l = Some k ∧ ⋃ (G <$> l) = ⋃ (F <$> l).
Proof.
  rewrite mapM_Some. intros Hl. induction Hl as [|x y l k Hx Hl IH]; [done|].
  intros [Hxy Hall]%Forall_cons. destruct (Hxy y Hx) as [Hg HG]. destruct (IH Hall) as [Hm HU].
  split; [|rewrite !fmap_cons; unfold union_list in *; by simpl; rewrite HG, HU]. apply mapM_Some. constructor; [done|]. by apply mapM_Some.
Qed.

Lemma value_frame T : ∀ h h' v t,
  value h T v = Some t → (∀ i, i ∈ foot h T v → h' !! i = h !! i) →
  value h' T v = Some t ∧ foot h' T v = foot h T v.
Proof.
  induction T as [|Ts IH|T IH|T IH|T IH] using ty_ind'; intros h h' v t Hv Ha;
    destruct v as [p|fields|[l|]|[s|]|[l|]]; simpl in *; try done.
  - apply fmap_Some in Hv as (ts & Hm & ->).
    destruct (mapM_frame _ (λ nT, v ← fields !! nT.1; pair nT.1 <$> value h' nT.2 v)
      (λ nT, match fields !! nT.1 with Some v => foot h nT.2 v | None => ∅ end)
      (λ nT, match fields !! nT.1 with Some v => foot h' nT.2 v | None => ∅ end)
      Ts ts Hm) as [-> ->]; [|done].
    rewrite Forall_forall in IH |- *. intros [n T] Hin y. specialize (IH _ Hin). simpl in *.
    destruct (fields !! n) as [x|] eqn:Ex; simpl; [|done].
    intros (z & Hz & ->)%fmap_Some. destruct (IH h h' x z Hz) as [-> ->]; [|done].
    intros i Hi. apply Ha. apply elem_of_union_fmap. exists (n, T). simpl. by rewrite Ex.
  - rewrite (Ha l) by set_solver. destruct (h !! l) as [[x| |]|]; try done.
    apply fmap_Some in Hv as (z & Hz & ->). destruct (IH h h' x z Hz) as [-> ->]; [|done].
    intros i Hi. apply Ha. set_solver.
  - rewrite (Ha (sl_array s)) by set_solver. destruct (h !! sl_array s) as [[|xs|]|]; try done.
    apply fmap_Some in Hv as (ts & Hm & ->).
    destruct (mapM_frame _ (value h' T) (foot h T) (foot h' T) _ ts Hm) as [-> ->]; [|done].
    rewrite Forall_forall. intros x Hx y Hy. apply IH; [done|]. intros i Hi. apply Ha.
    apply elem_of_union. right. apply elem_of_union_fmap. eauto.
  - rewrite (Ha l) by set_solver. destruct (h !! l) as [[| |m]|]; try done.
    apply fmap_Some in Hv as (ts & Hm & ->).
    destruct (mapM_frame _ (λ kv, pair kv.1 <$> value h' T kv.2) (λ kv, foot h T kv.2)
      (λ kv, foot h' T kv.2) _ ts Hm) as [-> ->]; [|done].
    rewrite Forall_forall. intros [k x] Hx y (z & Hz & ->)%fmap_Some. simpl in *.
    destruct (IH h h' x z Hz) as [-> ->]; [|done]. intros i Hi. apply Ha.
    apply elem_of_union. right. apply elem_of_union_fmap. by exists (k, x).
Qed.

Lemma mapM_elem {A B} (f : A → option B) l k x :
  mapM f l = Some k → x ∈ l → ∃ y, f x = Some y.
Proof.
  intros Hm Hx. assert (is_Some (mapM f l)) as Hall%mapM_is_Some_1 by eauto.
  rewrite Forall_forall in Hall. by apply Hall.
Qed.

(** What can be read lies in memory. *)
Lemma foot_dom T : ∀ h v t, value h T v = Some t → foot h T v ⊆ dom h.
Proof.
  induction T as [|Ts IH|T IH|T IH|T IH] using ty_ind'; intros h v t Hv i;
    destruct v as [p|fields|[l|]|[s|]|[l|]]; simpl in *; try set_solver.
  - apply fmap_Some in Hv as (ts & Hm & ->). intros ([n T] & Hin & Hi)%elem_of_union_fmap.
    rewrite Forall_forall in IH. specialize (IH _ Hin). simpl in *.
    destruct (mapM_elem _ _ _ (n, T) Hm Hin) as [y Hy]. simpl in Hy.
    destruct (fields !! n) as [x|]; simpl in *; [|done]. apply fmap_Some in Hy as (z & Hz & _).
    by eapply IH.
  - destruct (h !! l) as [[x| |]|] eqn:El; try done. apply fmap_Some in Hv as (z & Hz & ->).
    apply elem_of_dom_2 in El. apply IH in Hz. set_solver.
  - destruct (h !! sl_array s) as [[|xs|]|] eqn:El; try done. apply fmap_Some in Hv as (ts & Hm & ->).
    apply elem_of_dom_2 in El.
    intros [->%elem_of_singleton|(x & Hx & Hi)%elem_of_union_fmap]%elem_of_union; [done|].
    destruct (mapM_elem _ _ _ x Hm Hx) as [y Hy]. by eapply IH.
  - destruct (h !! l) as [[| |m]|] eqn:El; try done. apply fmap_Some in Hv as (ts & Hm & ->).
    apply elem_of_dom_2 in El.
    intros [->%elem_of_singleton|([k x] & Hx & Hi)%elem_of_union_fmap]%elem_of_union; [done|].
    destruct (mapM_elem _ _ _ _ Hm Hx) as [y Hy]. simpl in *.
    apply fmap_Some in Hy as (z & Hz & _). by eapply IH.
Qed.

Lemma flat_foot T : ∀ h v, flat T = true → foot h T v = ∅.
Proof.
  induction T as [|Ts IH| | |] using ty_ind'; intros h v Hf; try done.
  destruct v as [|fields| | |]; try done. simpl in *. apply forallb_Forall in Hf.
  apply (anti_symm (⊆)); [|set_solver]. intros i ([n T] & Hin & Hi)%elem_of_union_fmap.
  rewrite Forall_forall in IH, Hf. specialize (IH _ Hin). specialize (Hf _ Hin). simpl in *.
  destruct (fields !! n); [|done]. by rewrite IH in Hi.
Qed.

(** ** Deep copies

    [copies T copy]: from any memory in which a value of type [T] can be read,
    [copy] ends, changes nothing that was there, and answers a value that reads
    the same and shares no memory with what was there. *)
Definition copies (T : ty) (copy : gval → M heap gval) : Prop :=
  ∀ h v t, value h T v = Some t →
  ∃ v' h', copy v h = (Ok v', h') ∧ h ⊆ h' ∧ value h' T v' = Some t ∧ foot h' T v' ## dom h.

Create HintDb deepcopy discriminated.

Lemma value_mono T h h' v t :
  value h T v = Some t → h ⊆ h' → value h' T v = Some t ∧ foot h' T v = foot h T v.
Proof.
  intros Hv Hsub. apply value_frame; [done|]. intros i Hi%(foot_dom _ _ _ _ Hv).
  apply elem_of_dom in Hi as [c Hc]. rewrite Hc. by eapply lookup_weaken.
Qed.

Lemma alloc_run c h : ∃ l, alloc c h = (Ok l, <[l:=c]> h) ∧ l ∉ dom h ∧ h ⊆ <[l:=c]> h.
Proof.
  exists (fresh (dom h)). split; [done|]. assert (fresh (dom h) ∉ dom h) as Hf by apply is_fresh.
  split; [done|]. by apply insert_subseteq, not_elem_of_dom.
Qed.

Lemma copies_assign T : flat T = true → copies T assign.
Proof.
  intros Hf h v t Hv. exists v, h. split_and!; try done. rewrite (flat_foot _ _ _ Hf). set_solver.
Qed.

(** The memory after the content was copied and a cell allocated for it. *)
Lemma copies_alloc (h h1 : heap) l c (A B : gset loc) :
  h ⊆ h1 → l ∉ dom h1 → A = B → B ## dom h → {[l]} ∪ A ## dom h ∧ h ⊆ <[l:=c]> h1.
Proof.
  intros Hs Hl -> HB. apply subseteq_dom in Hs as Hd. split; [set_solver|].
  etrans; [exact Hs|]. by apply insert_subseteq, not_elem_of_dom.
Qed.

Lemma copies_ptr T copy : copies T copy → copies (TPtr T) (copyPtr copy).
Proof.
  intros Hc h v t Hv. destruct v as [| |[l|]| |]; simpl in Hv; try done.
  2:{ exists (VPtr None), h. by split_and!. }
  destruct (h !! l) as [[x| |]|] eqn:El; try done. apply fmap_Some in Hv as (z & Hz & ->).
  destruct (Hc h x z Hz) as (y & h1 & Hrun & Hs & Hy & Hf).
  destruct (alloc_run (CVal y) h1) as (l' & Ha & Hl' & Hs').
  destruct (value_mono _ _ _ _ _ Hy Hs') as [Hy' Hf'].
  destruct (copies_alloc h h1 l' (CVal y) _ _ Hs Hl' Hf' Hf) as [Hd Hs''].
  exists (VPtr (Some l')), (<[l':=CVal y]> h1). split_and!; [|done|simpl..].
  - simpl. rewrite M_bind_step. unfold load. rewrite El, M_bind_step, Hrun, M_bind_step, Ha. done.
  - by rewrite lookup_insert_eq, Hy'.
  - by rewrite lookup_insert_eq.
Qed.

Lemma collect_copies T copy i xs h ts :
  copies T copy → Forall2 (λ x t, value h T x = Some t) xs ts →
  ∃ ys h', collect_from i (λ _ x, y ← copy x; mret [y]) xs h = (Ok ys, h') ∧ h ⊆ h' ∧
    Forall2 (λ y t, value h' T y = Some t ∧ foot h' T y ## dom h) ys ts.
Proof.
  intros Hc Hxs. revert i h ts Hxs. induction xs as [|x xs IH]; intros i h ts Hxs.
  { apply Forall2_nil_inv_l in Hxs as ->. by exists [], h. }
  apply Forall2_cons_inv_l in Hxs as (t & ts' & Hx & Hxs & ->).
  destruct (Hc h x t Hx) as (y & h1 & Hrun & Hs & Hy & Hf).
  destruct (IH (S i) h1 ts') as (ys & h2 & Hrun' & Hs' & Hys).
  { eapply Forall2_impl; [exact Hxs|]. intros a b Hab. by apply (value_mono _ h). }
  destruct (value_mono _ _ _ _ _ Hy Hs') as [Hy' Hf'].
  exists (y :: ys), h2. split_and!; [|by etrans|].
  - simpl. rewrite !M_bind_step, Hrun. unfold mret at 1, M_ret at 1. by rewrite M_bind_step, Hrun'.
  - constructor; [by rewrite Hf'|]. eapply Forall2_impl; [exact Hys|]. intros a b [? Hd].
    apply subseteq_dom in Hs. split; [done|set_solver].
Qed.

Lemma union_foot_fresh (F : gval → gset loc) ys (ts : list tree) (P : gval → tree → Prop) D :
  Forall2 (λ y t, P y t ∧ F y ## D) ys ts → ⋃ (F <$> ys) ## D.
Proof.
  intros Hys i (y & Hy & Hi)%elem_of_union_fmap HD.
  apply list_elem_of_lookup in Hy as [j Hj].
  destruct (Forall2_lookup_l _ _ _ _ _ Hys Hj) as (t & _ & _ & Hd). set_solver.
Qed.

Lemma copies_slice T copy : copies T copy → copies (TSlice T) (copySlice copy).
Proof.
  intros Hc h v t Hv. destruct v as [| | |[s|]|]; simpl in Hv; try done.
  2:{ exists (VSlice None), h. by split_and!. }
  destruct (h !! sl_array s) as [[|xs|]|] eqn:El; try done.
  apply fmap_Some in Hv as (ts & Hts%mapM_Some & ->).
  destruct (collect_copies T copy 0 _ h ts Hc Hts) as (ys & h1 & Hrun & Hs & Hys).
  destruct (alloc_run (CArray ys) h1) as (l' & Ha & Hl' & Hs').
  assert (Forall2 (λ y t, value (<[l':=CArray ys]> h1) T y = Some t ∧
    foot (<[l':=CArray ys]> h1) T y ## dom h) ys ts) as Hys'.
  { eapply Forall2_impl; [exact Hys|]. intros y t [Hy Hd].
    destruct (value_mono _ _ _ _ _ Hy Hs') as [? ->]. done. }
  assert (window {| sl_array := l'; sl_offset := 0; sl_len := length ys |} ys = ys) as Hw.
  { unfold window. simpl. by rewrite drop_0, take_ge. }
  destruct (copies_alloc h h1 l' (CArray ys) (⋃ (foot (<[l':=CArray ys]> h1) T <$> ys)) _ Hs Hl' eq_refl
    (union_foot_fresh _ _ _ _ _ Hys')) as [Hd Hs''].
  exists (VSlice (Some {| sl_array := l'; sl_offset := 0; sl_len := length ys |})), (<[l':=CArray ys]> h1).
  split_and!; [|done|simpl..].
  - simpl. rewrite M_bind_step. unfold loadSlice. rewrite El, M_bind_step.
    unfold collect. rewrite Hrun, M_bind_step, Ha. done.
  - rewrite lookup_insert_eq, Hw. apply fmap_Some. exists ts. split; [|done]. apply mapM_Some.
    eapply Forall2_impl; [exact Hys'|]. naive_solver.
  - by rewrite lookup_insert_eq, Hw.
Qed.

(** Reading a map entry by entry. *)
Lemma mapM_map {A B} (f : A → option B) (m : gmap string A) ts :
  mapM (λ kv, pair kv.1 <$> f kv.2) (map_to_list m) = Some ts →
  ∀ k, (list_to_map ts : gmap string B) !! k = m !! k ≫= f.
Proof.
  rewrite mapM_Some. intros Hts k.
  assert (ts.*1 = (map_to_list m).*1) as Hkeys.
  { clear k. induction Hts as [|[k x] y l ts Hx _ IH]; [done|]. simpl in Hx.
    apply fmap_Some in Hx as (z & _ & ->). by rewrite !fmap_cons, IH. }
  assert (NoDup ts.*1) as Hnd by (rewrite Hkeys; apply NoDup_fst_map_to_list).
  destruct (m !! k) as [x|] eqn:E; simpl.
  - apply elem_of_map_to_list, list_elem_of_lookup in E as [j Hj].
    destruct (Forall2_lookup_l _ _ _ _ _ Hts Hj) as (y & Hy & Hxy). simpl in Hxy.
    apply fmap_Some in Hxy as (z & -> & ->). simpl.
    apply elem_of_list_to_map; [done|]. by apply list_elem_of_lookup_2 in Hy.
  - apply not_elem_of_list_to_map. rewrite Hkeys. intros ([k' x] & -> & Hx)%list_elem_of_fmap.
    simpl in *. apply elem_of_map_to_list in Hx. congruence.
Qed.
Lemma mapM_map_Some {A B} (f : A → option B) (m : gmap string A) (tm : gmap string B) :
  (∀ k, m !! k ≫= f = tm !! k) → (∀ k, is_Some (m !! k) → is_Some (tm !! k)) →
  list_to_map <$> mapM (λ kv, pair kv.1 <$> f kv.2) (map_to_list m) = Some tm.
Proof.
  intros Hm Hd. destruct (mapM _ (map_to_list m)) as [ts|] eqn:E.
  - simpl. f_equal. apply map_eq. intros k. by rewrite (mapM_map _ _ _ E), Hm.
  - exfalso. apply mapM_None, Exists_exists in E as ([k x] & Hx & Hn).
    apply elem_of_map_to_list in Hx. simpl in Hn.
    specialize (Hm k). rewrite Hx in Hm. simpl in Hm.
    destruct (Hd k) as [z Hz]; [by rewrite Hx|]. by rewrite Hm, Hz in Hn.
Qed.

(** The loop that fills the new map. *)
Lemma for_range_copies T copy kvs (h : heap) (acc : gmap string gval) (ts : string → option tree) :
  copies T copy → NoDup kvs.*1 →
  (∀ k x, (k, x) ∈ kvs → ∃ t, ts k = Some t ∧ value h T x = Some t) →
  ∃ m' h', for_range kvs acc (λ m' kv, y ← copy kv.2; mret (<[kv.1:=y]> m')) h = (Ok m', h') ∧
    h ⊆ h' ∧
    (∀ k, k ∉ kvs.*1 → m' !! k = acc !! k) ∧
    (∀ k, k ∈ kvs.*1 → ∃ y, m' !! k = Some y ∧ value h' T y = ts k ∧ foot h' T y ## dom h).
Proof.
  intros Hc. revert h acc. induction kvs as [|[k x] kvs IH]; intros h acc Hnd Hts.
  { exists acc, h. split_and!; [done..|]. by intros k ?%elem_of_nil. }
  apply NoDup_cons in Hnd as [Hk Hnd]. simpl in Hk.
  destruct (Hts k x) as (t & Ht & Hx); [by left|].
  destruct (Hc h x t Hx) as (y & h1 & Hrun & Hs & Hy & Hf).
  destruct (IH h1 (<[k:=y]> acc) Hnd) as (m' & h2 & Hrun' & Hs' & Hout & Hin).
  { intros k' x' Hx'. destruct (Hts k' x') as (t' & Ht' & Hv'); [by right|].
    exists t'. split; [done|]. by apply (value_mono _ h). }
  destruct (value_mono _ _ _ _ _ Hy Hs') as [Hy' Hf']. pose proof (subseteq_dom _ _ Hs) as Hd.
  exists m', h2. split_and!; [|by etrans|..].
  - rewrite for_range_cons, !M_bind_step. simpl. by rewrite Hrun.
  - intros k' [Hne Hn]%not_elem_of_cons. simpl in Hne. by rewrite Hout, lookup_insert_ne by done.
  - intros k' [->|Hk']%elem_of_cons.
    + exists y. simpl. rewrite Hout, lookup_insert_eq, Ht by done. by rewrite Hf'.
    + destruct (Hin k' Hk') as (y' & ? & ? & ?). exists y'. split_and!; [done..|set_solver].
Qed.

Lemma copies_map `{MapOrderLaws} T copy : copies T copy → copies (TMap T) (copyMap copy).
Proof.
  intros Hc h v t Hv. destruct v as [| | | |[l|]]; simpl in Hv; try done.
  2:{ exists (VMap None), h. by split_and!. }
  destruct (h !! l) as [[| |m]|] eqn:El; try done. apply fmap_Some in Hv as (ts & Hts & ->).
  set (tm := list_to_map ts : gmap string tree).
  pose proof (mapM_map _ _ _ Hts) as Htm. fold tm in Htm.
  assert (∀ k x, m !! k = Some x → ∃ t, tm !! k = Some t ∧ value h T x = Some t) as Hm.
  { intros k x Hx. rewrite Htm, Hx. simpl. apply elem_of_map_to_list in Hx.
    destruct (mapM_elem _ _ _ _ Hts Hx) as [y Hy]. simpl in Hy.
    apply fmap_Some in Hy as (z & Hz & _). eauto. }
  assert (∀ k, k ∈ (visit m).*1 ↔ is_Some (m !! k)) as Hkeys.
  { intros k. rewrite visit_perm, list_elem_of_fmap. split.
    - intros ([k' x] & -> & Hx%elem_of_map_to_list). eauto.
    - intros [x Hx]. exists (k, x). split; [done|]. by apply elem_of_map_to_list. }
  destruct (for_range_copies T copy (visit m) h ∅ (λ k, tm !! k) Hc)
    as (m' & h1 & Hrun & Hs & Hout & Hin).
  { rewrite visit_perm. apply NoDup_fst_map_to_list. }
  { intros k x. rewrite visit_perm, elem_of_map_to_list. apply Hm. }
  destruct (alloc_run (CMap m') h1) as (l' & Ha & Hl' & Hs').
  assert (∀ k y, m' !! k = Some y → is_Some (m !! k) ∧ value (<[l':=CMap m']> h1) T y = tm !! k ∧
    foot (<[l':=CMap m']> h1) T y ## dom h) as Hm'.
  { intros k y Hy. destruct (decide (is_Some (m !! k))) as [Hk|Hk].
    - destruct (Hin k) as (y' & Hy' & Hv & Hf); [by apply Hkeys|]. simplify_eq.
      destruct Hk as [x Hx]. destruct (Hm k x Hx) as (t & Ht & _). rewrite Ht in Hv |- *.
      destruct (value_mono _ _ _ _ _ Hv Hs') as [-> ->]. eauto.
    - rewrite Hout in Hy by (by rewrite Hkeys). by rewrite lookup_empty in Hy. }
  assert (∀ k, m' !! k ≫= value (<[l':=CMap m']> h1) T = tm !! k) as Hval.
  { intros k. destruct (m' !! k) as [y|] eqn:Ey; simpl; [by apply Hm'|].
    rewrite Htm. destruct (m !! k) as [x|] eqn:Ex; [|done]. exfalso.
    destruct (Hin k) as (y & Hy & _); [apply Hkeys; eauto|congruence]. }
  destruct (copies_alloc h h1 l' (CMap m')
    (⋃ ((λ kv, foot (<[l':=CMap m']> h1) T kv.2) <$> map_to_list m')) _ Hs Hl' eq_refl) as [Hd Hs''].
  { intros i ([k y] & Hy & Hi)%elem_of_union_fmap Hd. apply elem_of_map_to_list in Hy.
    destruct (Hm' k y Hy) as (_ & _ & Hf). set_solver. }
  exists (VMap (Some l')), (<[l':=CMap m']> h1). split_and!; [|done|simpl..].
  - simpl. rewrite M_bind_step. unfold loadMap. by rewrite El, M_bind_step, Hrun, M_bind_step, Ha.
  - rewrite lookup_insert_eq. cbn [mret]. rewrite option_fmap_compose.
    rewrite (mapM_map_Some _ m' tm); [done|done|].
    intros k [y Hy]. destruct (Hm' k y Hy) as ([x Hx] & _). destruct (Hm k x Hx) as (t & -> & _). eauto.
  - by rewrite lookup_insert_eq.
Qed.

(** A struct on the way: the fields [D] have been copied, the others are still
    those of the original. *)
Definition partly (h : heap) (fields : gmap string gval) (Ts : list (string * ty))
    (D : list string) (h1 : heap) (out : gmap string gval) : Prop :=
  ∀ n T, (n, T) ∈ Ts → ∃ x y t, fields !! n = Some x ∧ value h T x = Some t ∧
    out !! n = Some y ∧ value h1 T y = Some t ∧ (n ∈ D → foot h1 T y ## dom h) ∧ (n ∉ D → y = x).

Lemma partly_step h fields Ts D h1 out n T copy :
  NoDup Ts.*1 → h ⊆ h1 → partly h fields Ts D h1 out → (n, T) ∈ Ts → copies T copy →
  ∃ x y h2, fields !! n = Some x ∧ copy x h1 = (Ok y, h2) ∧ h1 ⊆ h2 ∧
    partly h fields Ts (n :: D) h2 (<[n:=y]> out).
Proof.
  intros Hnd Hs Hp Hn Hc. destruct (Hp n T Hn) as (x & _ & t & Hx & Hvx & _).
  destruct (value_mono _ _ _ _ _ Hvx Hs) as [Hvx' _].
  destruct (Hc h1 x t Hvx') as (y & h2 & Hrun & Hs' & Hy & Hf).
  exists x, y, h2. split_and!; [done..|]. intros n' T' Hn'.
  destruct (Hp n' T' Hn') as (x' & y' & t' & Hx' & Hvx'' & Hy' & Hvy' & Hin & Hout).
  destruct (decide (n' = n)) as [->|Hne].
  - assert ((n, T') = (n, T)) as [= ->] by by apply (NoDup_fmap_inj fst Ts).
    simplify_eq. exists x, y, t. split_and!; [done..|by rewrite lookup_insert_eq|done| |].
    + intros _. apply subseteq_dom in Hs. set_solver.
    + intros Hno. exfalso. apply Hno. by left.
  - destruct (value_mono _ _ _ _ _ Hvy' Hs') as [? Hfy].
    exists x', y', t'. split_and!; [done..|by rewrite lookup_insert_ne|done| |].
    + rewrite Hfy. intros [?|?]%elem_of_cons; [done|by apply Hin].
    + intros Hno. apply Hout. intros ?. apply Hno. by right.
Qed.

Lemma copyStruct_partly h fields Ts steps D h1 out :
  NoDup Ts.*1 → h ⊆ h1 → partly h fields Ts D h1 out →
  Forall (λ st, ∃ T, (st.1, T) ∈ Ts ∧ copies T st.2) steps →
  ∃ out' h2 D', for_range steps (VStruct out) (λ out step,
      match field step.1 (VStruct fields) with
      | Some x => y ← step.2 x; mret (set_field step.1 y out)
      | None => panic "no such field"
      end) h1 = (Ok (VStruct out'), h2) ∧
    h ⊆ h2 ∧ partly h fields Ts D' h2 out' ∧ D ⊆ D' ∧ steps.*1 ⊆ D'.
Proof.
  intros Hnd. revert D h1 out. induction steps as [|[n copy] steps IH]; intros D h1 out Hs Hp Hall.
  { exists out, h1, D. split_and!; try done. intros n ?%elem_of_nil. done. }
  apply Forall_cons in Hall as [(T & Hn & Hc) Hall]. simpl in *.
  destruct (partly_step h fields Ts D h1 out n T copy Hnd Hs Hp Hn Hc)
    as (x & y & h2 & Hx & Hrun & Hs' & Hp').
  destruct (IH _ h2 _ (transitivity Hs Hs') Hp' Hall) as (out' & h3 & D' & Hrun' & Hs3 & Hp3 & HD & Hst).
  exists out', h3, D'. split_and!; [|done..|set_solver|set_solver].
  by rewrite Hx, !M_bind_step, Hrun.
Qed.

Lemma copies_struct Ts steps :
  NoDup Ts.*1 → Forall (λ st, ∃ T, (st.1, T) ∈ Ts ∧ copies T st.2) steps →
  Forall (λ nT, nT.1 ∈ steps.*1 ∨ flat nT.2 = true) Ts →
  copies (TStruct Ts) (copyStruct steps).
Proof.
  intros Hnd Hsteps Hcover h v t Hv. destruct v as [|fields| | |]; try done. simpl in Hv.
  apply fmap_Some in Hv as (ts & Hts & ->).
  assert (partly h fields Ts [] h fields) as Hp.
  { intros n T Hn. destruct (mapM_elem _ _ _ _ Hts Hn) as [y Hy]. simpl in Hy.
    destruct (fields !! n) as [x|] eqn:Ex; [|done]. simpl in Hy.
    apply fmap_Some in Hy as (z & Hz & _). exists x, x, z. split_and!; try done.
    by intros ?%elem_of_nil. }
  destruct (copyStruct_partly h fields Ts steps [] h fields Hnd (reflexivity h) Hp Hsteps)
    as (out & h' & D & Hrun & Hs & Hp' & _ & HD).
  exists (VStruct out), h'. split_and!; [done..| |].
  - simpl. apply fmap_Some. exists ts. split; [|done].
    refine (proj1 (mapM_frame _ _ (λ _, ∅) (λ _, ∅) _ _ Hts _)).
    rewrite Forall_forall. intros [n T] Hn z. simpl.
    destruct (Hp' n T Hn) as (x & y & t & -> & Hvx & -> & Hvy & _). simpl. by rewrite Hvx, Hvy.
  - simpl. intros i ([n T] & Hn & Hi)%elem_of_union_fmap. simpl in Hi.
    destruct (Hp' n T Hn) as (x & y & t & _ & _ & Hy & _ & Hf & _). rewrite Hy in Hi.
    rewrite Forall_forall in Hcover. destruct (Hcover _ Hn) as [Hin|Hfl]; simpl in *.
    + intros Hd. by apply (Hf (HD _ Hin) i).
    + by rewrite (flat_foot _ _ _ Hfl) in Hi.
Qed.

(** The three conditions for a struct given by lists: names and membership by
    computation, the copies of the fields from the hint database. *)
Ltac in_list := repeat first [apply list_elem_of_here | apply list_elem_of_further].
Ltac struct_copies :=
  apply copies_struct;
  [ apply (bool_decide_unpack _); vm_compute; exact I
  | repeat (apply Forall_cons; split;
      [eexists; split; [simpl; in_list|cbn [fst snd]; eauto with deepcopy]|]); apply Forall_nil; exact I
  | repeat (apply Forall_cons; split;
      [first [right; reflexivity | left; simpl; in_list]|]); apply Forall_nil; exact I ].

(** ** What a deep copy gives *)

(** [DeepCopy] of a pointer. *)
Lemma DeepCopy_copies T into h p t :
  copies T into → value h (TPtr T) (VPtr p) = Some t →
  ∃ p' h', DeepCopy into p h = (Ok p', h') ∧ h ⊆ h' ∧
    value h' (TPtr T) (VPtr p') = Some t ∧ foot h' (TPtr T) (VPtr p') ## dom h.
Proof.
  intros Hc Hv. destruct (copies_ptr T into Hc h (VPtr p) t Hv) as (v' & h' & Hrun & Hrest).
  destruct p as [l|]; simpl in Hrun.
  - rewrite M_bind_step in Hrun. destruct (load l h) as [[x| |] h1] eqn:El; simplify_eq.
    rewrite M_bind_step in Hrun. destruct (into x h1) as [[y| |] h2] eqn:Ei; simplify_eq.
    rewrite M_bind_step in Hrun. destruct (alloc (CVal y) h2) as [[l'| |] h3] eqn:Ea; simplify_eq.
    apply M_ret_Ok in Hrun as [<- <-]. exists (Some l'), h3. split; [|done]. simpl.
    by rewrite M_bind_step, El, M_bind_step, Ei, M_bind_step, Ea.
  - apply M_ret_Ok in Hrun as [<- <-]. by exists None, h.
Qed.

(** Whatever later happens to the memory of the copy, the original reads the
    same; and the other way around. *)
Lemma separate T h h' v v' t :
  value h T v = Some t → h ⊆ h' → value h' T v' = Some t → foot h' T v' ## dom h →
  (∀ h'', (∀ i, i ∉ foot h' T v' → h'' !! i = h' !! i) → value h'' T v = Some t) ∧
  (∀ h'', (∀ i, i ∉ dom h → h'' !! i = h' !! i) → value h'' T v' = Some t).
Proof.
  intros Hv Hs Hv' Hd. destruct (value_mono _ _ _ _ _ Hv Hs) as [Hv1 Hf]. split; intros h'' Hh.
  - apply (value_frame _ h'); [done|]. intros j Hj. apply Hh. rewrite Hf in Hj.
    apply (foot_dom _ _ _ _ Hv) in Hj. set_solver.
  - apply (value_frame _ h'); [done|]. intros j Hj. apply Hh. set_solver.
Qed.
