(* ===== verification/DeepCopy.v ===== *)
(** * The generated deep copies: pkg/apis/policy/v1alpha1/zz_generated.deepcopy.go

    The controllers read policies from a shared informer cache, whose objects
    must not be changed; client-go hands out deep copies of them.  [T_ty] is
    the layout of the Go struct [T] of types_certificaterequestpolicy.go, and
    [T_DeepCopyInto], [T_DeepCopy] and [T_DeepCopyObject] are its generated
    methods. *)
From S2P Require Import Prelude GoHeap.

(** ** k8s.io/apimachinery/pkg/apis/meta/v1

    The layouts and the deep copies of the embedded types are parameters. *)
Class MetaLib := {
  TypeMeta_ty : ty;
  ObjectMeta_ty : ty;
  ListMeta_ty : ty;
  Time_ty : ty;
  ObjectMeta_DeepCopyInto : gval → M heap gval;
  ListMeta_DeepCopyInto : gval → M heap gval;
  Time_DeepCopy : option loc → M heap (option loc) }.

(** Documented: they are deep copies; TypeMeta is two strings. *)
Class MetaLibLaws `{MetaLib} := {
  TypeMeta_flat : flat TypeMeta_ty = true;
  ObjectMeta_copies : copies ObjectMeta_ty ObjectMeta_DeepCopyInto;
  ListMeta_copies : copies ListMeta_ty ListMeta_DeepCopyInto;
  Time_copies h p t : value h (TPtr Time_ty) (VPtr p) = Some t →
    ∃ p' h', Time_DeepCopy p h = (Ok p', h') ∧ h ⊆ h' ∧
      value h' (TPtr Time_ty) (VPtr p') = Some t ∧ foot h' (TPtr Time_ty) (VPtr p') ## dom h }.

(** [metav1.Duration]: a struct around an int64. *)
Definition Duration_ty : ty := TStruct [("Duration", TPrim)].

Section deepcopy.
Context `{MetaLib} `{MapOrder}.

(** A field set to what a [DeepCopy] of it answers, unless it is nil. *)
Definition copyPtr_with (copy : option loc → M heap (option loc)) (v : gval) : M heap gval :=
  match v with
  | VPtr None => mret (VPtr None)
  | VPtr p => p' ← copy p; mret (VPtr p')
  | _ => panic "not a pointer"
  end.

(** The dereferenced [DeepCopy] of a loop variable. *)
Definition deref_DeepCopy (copy : option loc → M heap (option loc)) (val : gval) : M heap gval :=
  l ← alloc (CVal val);
  p ← copy (Some l);
  match p with Some l' => load l' | None => panic nil_dereference end.

(** ** ValidationRule *)
Definition ValidationRule_ty : ty := TStruct [
  ("Rule", TPrim);
  ("Message", TPtr TPrim)].
Definition ValidationRule_DeepCopyInto : gval → M heap gval := copyStruct [
  ("Message", copyPtr assign)].
Definition ValidationRule_DeepCopy : option loc → M heap (option loc) :=
  DeepCopy ValidationRule_DeepCopyInto.

(** ** CertificateRequestPolicyAllowedString *)
Definition CertificateRequestPolicyAllowedString_ty : ty := TStruct [
  ("Value", TPtr TPrim);
  ("Required", TPtr TPrim);
  ("Validations", TSlice ValidationRule_ty)].
Definition CertificateRequestPolicyAllowedString_DeepCopyInto : gval → M heap gval := copyStruct [
  ("Value", copyPtr assign);
  ("Required", copyPtr assign);
  ("Validations", copySlice ValidationRule_DeepCopyInto)].
Definition CertificateRequestPolicyAllowedString_DeepCopy : option loc → M heap (option loc) :=
  DeepCopy CertificateRequestPolicyAllowedString_DeepCopyInto.

(** ** CertificateRequestPolicyAllowedStringSlice *)
Definition CertificateRequestPolicyAllowedStringSlice_ty : ty := TStruct [
  ("Values", TPtr (TSlice TPrim));
  ("Required", TPtr TPrim);
  ("Validations", TSlice ValidationRule_ty)].
Definition CertificateRequestPolicyAllowedStringSlice_DeepCopyInto : gval → M heap gval := copyStruct [
  ("Values", copyPtr (copySlice assign));
  ("Required", copyPtr assign);
  ("Validations", copySlice ValidationRule_DeepCopyInto)].
Definition CertificateRequestPolicyAllowedStringSlice_DeepCopy : option loc → M heap (option loc) :=
  DeepCopy CertificateRequestPolicyAllowedStringSlice_DeepCopyInto.

(** ** CertificateRequestPolicyAllowedX509Subject *)
Definition CertificateRequestPolicyAllowedX509Subject_ty : ty := TStruct [
  ("Organizations", TPtr CertificateRequestPolicyAllowedStringSlice_ty);
  ("Countries", TPtr CertificateRequestPolicyAllowedStringSlice_ty);
  ("OrganizationalUnits", TPtr CertificateRequestPolicyAllowedStringSlice_ty);
  ("Localities", TPtr CertificateRequestPolicyAllowedStringSlice_ty);
  ("Provinces", TPtr CertificateRequestPolicyAllowedStringSlice_ty);
  ("StreetAddresses", TPtr CertificateRequestPolicyAllowedStringSlice_ty);
  ("PostalCodes", TPtr CertificateRequestPolicyAllowedStringSlice_ty);
  ("SerialNumber", TPtr CertificateRequestPolicyAllowedString_ty)].
Definition CertificateRequestPolicyAllowedX509Subject_DeepCopyInto : gval → M heap gval := copyStruct [
  ("Organizations", copyPtr CertificateRequestPolicyAllowedStringSlice_DeepCopyInto);
  ("Countries", copyPtr CertificateRequestPolicyAllowedStringSlice_DeepCopyInto);
  ("OrganizationalUnits", copyPtr CertificateRequestPolicyAllowedStringSlice_DeepCopyInto);
  ("Localities", copyPtr CertificateRequestPolicyAllowedStringSlice_DeepCopyInto);
  ("Provinces", copyPtr CertificateRequestPolicyAllowedStringSlice_DeepCopyInto);
  ("StreetAddresses", copyPtr CertificateRequestPolicyAllowedStringSlice_DeepCopyInto);
  ("PostalCodes", copyPtr CertificateRequestPolicyAllowedStringSlice_DeepCopyInto);
  ("SerialNumber", copyPtr CertificateRequestPolicyAllowedString_DeepCopyInto)].
Definition CertificateRequestPolicyAllowedX509Subject_DeepCopy : option loc → M heap (option loc) :=
  DeepCopy CertificateRequestPolicyAllowedX509Subject_DeepCopyInto.

(** ** CertificateRequestPolicyAllowed *)
Definition CertificateRequestPolicyAllowed_ty : ty := TStruct [
  ("CommonName", TPtr CertificateRequestPolicyAllowedString_ty);
  ("DNSNames", TPtr CertificateRequestPolicyAllowedStringSlice_ty);
  ("IPAddresses", TPtr CertificateRequestPolicyAllowedStringSlice_ty);
  ("URIs", TPtr CertificateRequestPolicyAllowedStringSlice_ty);
  ("EmailAddresses", TPtr CertificateRequestPolicyAllowedStringSlice_ty);
  ("IsCA", TPtr TPrim);
  ("Usages", TPtr (TSlice TPrim));
  ("Subject", TPtr CertificateRequestPolicyAllowedX509Subject_ty)].
Definition CertificateRequestPolicyAllowed_DeepCopyInto : gval → M heap gval := copyStruct [
  ("CommonName", copyPtr CertificateRequestPolicyAllowedString_DeepCopyInto);
  ("DNSNames", copyPtr CertificateRequestPolicyAllowedStringSlice_DeepCopyInto);
  ("IPAddresses", copyPtr CertificateRequestPolicyAllowedStringSlice_DeepCopyInto);
  ("URIs", copyPtr CertificateRequestPolicyAllowedStringSlice_DeepCopyInto);
  ("EmailAddresses", copyPtr CertificateRequestPolicyAllowedStringSlice_DeepCopyInto);
  ("IsCA", copyPtr assign);
  ("Usages", copyPtr (copySlice assign));
  ("Subject", copyPtr CertificateRequestPolicyAllowedX509Subject_DeepCopyInto)].
Definition CertificateRequestPolicyAllowed_DeepCopy : option loc → M heap (option loc) :=
  DeepCopy CertificateRequestPolicyAllowed_DeepCopyInto.

(** ** CertificateRequestPolicyConstraintsPrivateKey *)
Definition CertificateRequestPolicyConstraintsPrivateKey_ty : ty := TStruct [
  ("Algorithm", TPtr TPrim);
  ("MinSize", TPtr TPrim);
  ("MaxSize", TPtr TPrim)].
Definition CertificateRequestPolicyConstraintsPrivateKey_DeepCopyInto : gval → M heap gval := copyStruct [
  ("Algorithm", copyPtr assign);
  ("MinSize", copyPtr assign);
  ("MaxSize", copyPtr assign)].
Definition CertificateRequestPolicyConstraintsPrivateKey_DeepCopy : option loc → M heap (option loc) :=
  DeepCopy CertificateRequestPolicyConstraintsPrivateKey_DeepCopyInto.

(** ** CertificateRequestPolicyConstraints *)
Definition CertificateRequestPolicyConstraints_ty : ty := TStruct [
  ("MinDuration", TPtr Duration_ty);
  ("MaxDuration", TPtr Duration_ty);
  ("PrivateKey", TPtr CertificateRequestPolicyConstraintsPrivateKey_ty)].
Definition CertificateRequestPolicyConstraints_DeepCopyInto : gval → M heap gval := copyStruct [
  ("MinDuration", copyPtr assign);
  ("MaxDuration", copyPtr assign);
  ("PrivateKey", copyPtr CertificateRequestPolicyConstraintsPrivateKey_DeepCopyInto)].
Definition CertificateRequestPolicyConstraints_DeepCopy : option loc → M heap (option loc) :=
  DeepCopy CertificateRequestPolicyConstraints_DeepCopyInto.

(** ** CertificateRequestPolicyPluginData *)
Definition CertificateRequestPolicyPluginData_ty : ty := TStruct [
  ("Values", TMap TPrim)].
Definition CertificateRequestPolicyPluginData_DeepCopyInto : gval → M heap gval := copyStruct [
  ("Values", copyMap assign)].
Definition CertificateRequestPolicyPluginData_DeepCopy : option loc → M heap (option loc) :=
  DeepCopy CertificateRequestPolicyPluginData_DeepCopyInto.

(** ** CertificateRequestPolicySelectorIssuerRef *)
Definition CertificateRequestPolicySelectorIssuerRef_ty : ty := TStruct [
  ("Name", TPtr TPrim);
  ("Kind", TPtr TPrim);
  ("Group", TPtr TPrim)].
Definition CertificateRequestPolicySelectorIssuerRef_DeepCopyInto : gval → M heap gval := copyStruct [
  ("Name", copyPtr assign);
  ("Kind", copyPtr assign);
  ("Group", copyPtr assign)].
Definition CertificateRequestPolicySelectorIssuerRef_DeepCopy : option loc → M heap (option loc) :=
  DeepCopy CertificateRequestPolicySelectorIssuerRef_DeepCopyInto.

(** ** CertificateRequestPolicySelectorNamespace *)
Definition CertificateRequestPolicySelectorNamespace_ty : ty := TStruct [
  ("MatchNames", TSlice TPrim);
  ("MatchLabels", TMap TPrim)].
Definition CertificateRequestPolicySelectorNamespace_DeepCopyInto : gval → M heap gval := copyStruct [
  ("MatchNames", copySlice assign);
  ("MatchLabels", copyMap assign)].
Definition CertificateRequestPolicySelectorNamespace_DeepCopy : option loc → M heap (option loc) :=
  DeepCopy CertificateRequestPolicySelectorNamespace_DeepCopyInto.

(** ** CertificateRequestPolicySelector *)
Definition CertificateRequestPolicySelector_ty : ty := TStruct [
  ("IssuerRef", TPtr CertificateRequestPolicySelectorIssuerRef_ty);
  ("Namespace", TPtr CertificateRequestPolicySelectorNamespace_ty)].
Definition CertificateRequestPolicySelector_DeepCopyInto : gval → M heap gval := copyStruct [
  ("IssuerRef", copyPtr CertificateRequestPolicySelectorIssuerRef_DeepCopyInto);
  ("Namespace", copyPtr CertificateRequestPolicySelectorNamespace_DeepCopyInto)].
Definition CertificateRequestPolicySelector_DeepCopy : option loc → M heap (option loc) :=
  DeepCopy CertificateRequestPolicySelector_DeepCopyInto.

(** ** CertificateRequestPolicySpec *)
Definition CertificateRequestPolicySpec_ty : ty := TStruct [
  ("Allowed", TPtr CertificateRequestPolicyAllowed_ty);
  ("Constraints", TPtr CertificateRequestPolicyConstraints_ty);
  ("Plugins", TMap CertificateRequestPolicyPluginData_ty);
  ("Selector", CertificateRequestPolicySelector_ty)].
Definition CertificateRequestPolicySpec_DeepCopyInto : gval → M heap gval := copyStruct [
  ("Allowed", copyPtr CertificateRequestPolicyAllowed_DeepCopyInto);
  ("Constraints", copyPtr CertificateRequestPolicyConstraints_DeepCopyInto);
  ("Plugins", copyMap (deref_DeepCopy CertificateRequestPolicyPluginData_DeepCopy));
  ("Selector", CertificateRequestPolicySelector_DeepCopyInto)].
Definition CertificateRequestPolicySpec_DeepCopy : option loc → M heap (option loc) :=
  DeepCopy CertificateRequestPolicySpec_DeepCopyInto.

(** ** CertificateRequestPolicyCondition *)
Definition CertificateRequestPolicyCondition_ty : ty := TStruct [
  ("Type", TPrim);
  ("Status", TPrim);
  ("LastTransitionTime", TPtr Time_ty);
  ("Reason", TPrim);
  ("Message", TPrim);
  ("ObservedGeneration", TPrim)].
Definition CertificateRequestPolicyCondition_DeepCopyInto : gval → M heap gval := copyStruct [
  ("LastTransitionTime", copyPtr_with Time_DeepCopy)].
Definition CertificateRequestPolicyCondition_DeepCopy : option loc → M heap (option loc) :=
  DeepCopy CertificateRequestPolicyCondition_DeepCopyInto.

(** ** CertificateRequestPolicyStatus *)
Definition CertificateRequestPolicyStatus_ty : ty := TStruct [
  ("Conditions", TSlice CertificateRequestPolicyCondition_ty)].
Definition CertificateRequestPolicyStatus_DeepCopyInto : gval → M heap gval := copyStruct [
  ("Conditions", copySlice CertificateRequestPolicyCondition_DeepCopyInto)].
Definition CertificateRequestPolicyStatus_DeepCopy : option loc → M heap (option loc) :=
  DeepCopy CertificateRequestPolicyStatus_DeepCopyInto.

(** ** CertificateRequestPolicy *)
Definition CertificateRequestPolicy_ty : ty := TStruct [
  ("TypeMeta", TypeMeta_ty);
  ("ObjectMeta", ObjectMeta_ty);
  ("Spec", CertificateRequestPolicySpec_ty);
  ("Status", CertificateRequestPolicyStatus_ty)].
Definition CertificateRequestPolicy_DeepCopyInto : gval → M heap gval := copyStruct [
  ("TypeMeta", assign);
  ("ObjectMeta", ObjectMeta_DeepCopyInto);
  ("Spec", CertificateRequestPolicySpec_DeepCopyInto);
  ("Status", CertificateRequestPolicyStatus_DeepCopyInto)].
Definition CertificateRequestPolicy_DeepCopy : option loc → M heap (option loc) :=
  DeepCopy CertificateRequestPolicy_DeepCopyInto.

(** ** CertificateRequestPolicyList *)
Definition CertificateRequestPolicyList_ty : ty := TStruct [
  ("TypeMeta", TypeMeta_ty);
  ("ListMeta", ListMeta_ty);
  ("Items", TSlice CertificateRequestPolicy_ty)].
Definition CertificateRequestPolicyList_DeepCopyInto : gval → M heap gval := copyStruct [
  ("TypeMeta", assign);
  ("ListMeta", ListMeta_DeepCopyInto);
  ("Items", copySlice CertificateRequestPolicy_DeepCopyInto)].
Definition CertificateRequestPolicyList_DeepCopy : option loc → M heap (option loc) :=
  DeepCopy CertificateRequestPolicyList_DeepCopyInto.

(** ** runtime.Object

    An interface value: nil, or a pointer with its type. *)
Definition runtime_Object : Type := option (string * loc).

(** A nil pointer becomes the nil interface, not an interface around nil. *)
Definition as_Object (T : string) (p : option loc) : runtime_Object :=
  match p with Some c => Some (T, c) | None => None end.
Definition CertificateRequestPolicy_DeepCopyObject (p : option loc) : M heap runtime_Object :=
  c ← CertificateRequestPolicy_DeepCopy p;
  mret (as_Object "*CertificateRequestPolicy" c).
Definition CertificateRequestPolicyList_DeepCopyObject (p : option loc) : M heap runtime_Object :=
  c ← CertificateRequestPolicyList_DeepCopy p;
  mret (as_Object "*CertificateRequestPolicyList" c).
End deepcopy.

(** ** Each of them copies deeply *)
Section proofs.
Context `{MetaLibLaws} `{MapOrderLaws}.

Lemma copies_ptr_with T copy :
  (∀ h p t, value h (TPtr T) (VPtr p) = Some t →
    ∃ p' h', copy p h = (Ok p', h') ∧ h ⊆ h' ∧
      value h' (TPtr T) (VPtr p') = Some t ∧ foot h' (TPtr T) (VPtr p') ## dom h) →
  copies (TPtr T) (copyPtr_with copy).
Proof.
  intros Hc h v t Hv. destruct v as [| |[l|]| |]; try done.
  - destruct (Hc h (Some l) t Hv) as (p' & h' & Hrun & Hrest). exists (VPtr p'), h'.
    split; [|done]. simpl. by rewrite M_bind_step, Hrun.
  - exists (VPtr None), h. by split_and!.
Qed.

Lemma copies_deref T into : copies T into → copies T (deref_DeepCopy (DeepCopy into)).
Proof.
  intros Hc h v t Hv. destruct (alloc_run (CVal v) h) as (l & Ha & Hl & Hs).
  destruct (value_mono _ _ _ _ _ Hv Hs) as [Hv1 _].
  destruct (DeepCopy_copies T into (<[l:=CVal v]> h) (Some l) (LPtr t) Hc)
    as (p' & h' & Hrun & Hs' & Hv' & Hf); [simpl; by rewrite lookup_insert_eq, Hv1|].
  destruct p' as [l'|]; simpl in Hv', Hf; [|done].
  destruct (h' !! l') as [[x| |]|] eqn:El; try done. apply fmap_Some in Hv' as (t' & Hx & [= <-]).
  exists x, h'. split_and!; [|by etrans|done|].
  - unfold deref_DeepCopy. rewrite M_bind_step, Ha, M_bind_step, Hrun. unfold load. by rewrite El.
  - apply subseteq_dom in Hs. set_solver.
Qed.

Hint Resolve copies_ptr copies_slice copies_map copies_ptr_with copies_deref
  ObjectMeta_copies ListMeta_copies Time_copies : deepcopy.
Hint Extern 1 (copies _ assign) => apply copies_assign; first [reflexivity|apply TypeMeta_flat] : deepcopy.

Lemma ValidationRule_copies : copies ValidationRule_ty ValidationRule_DeepCopyInto.
Proof. struct_copies. Qed.
Hint Resolve ValidationRule_copies : deepcopy.
Lemma CertificateRequestPolicyAllowedString_copies : copies CertificateRequestPolicyAllowedString_ty CertificateRequestPolicyAllowedString_DeepCopyInto.
Proof. struct_copies. Qed.
Hint Resolve CertificateRequestPolicyAllowedString_copies : deepcopy.
Lemma CertificateRequestPolicyAllowedStringSlice_copies : copies CertificateRequestPolicyAllowedStringSlice_ty CertificateRequestPolicyAllowedStringSlice_DeepCopyInto.
Proof. struct_copies. Qed.
Hint Resolve CertificateRequestPolicyAllowedStringSlice_copies : deepcopy.
Lemma CertificateRequestPolicyAllowedX509Subject_copies : copies CertificateRequestPolicyAllowedX509Subject_ty CertificateRequestPolicyAllowedX509Subject_DeepCopyInto.
Proof. struct_copies. Qed.
Hint Resolve CertificateRequestPolicyAllowedX509Subject_copies : deepcopy.
Lemma CertificateRequestPolicyAllowed_copies : copies CertificateRequestPolicyAllowed_ty CertificateRequestPolicyAllowed_DeepCopyInto.
Proof. struct_copies. Qed.
Hint Resolve CertificateRequestPolicyAllowed_copies : deepcopy.
Lemma CertificateRequestPolicyConstraintsPrivateKey_copies : copies CertificateRequestPolicyConstraintsPrivateKey_ty CertificateRequestPolicyConstraintsPrivateKey_DeepCopyInto.
Proof. struct_copies. Qed.
Hint Resolve CertificateRequestPolicyConstraintsPrivateKey_copies : deepcopy.
Lemma CertificateRequestPolicyConstraints_copies : copies CertificateRequestPolicyConstraints_ty CertificateRequestPolicyConstraints_DeepCopyInto.
Proof. struct_copies. Qed.
Hint Resolve CertificateRequestPolicyConstraints_copies : deepcopy.
Lemma CertificateRequestPolicyPluginData_copies : copies CertificateRequestPolicyPluginData_ty CertificateRequestPolicyPluginData_DeepCopyInto.
Proof. struct_copies. Qed.
Hint Resolve CertificateRequestPolicyPluginData_copies : deepcopy.
Lemma CertificateRequestPolicySelectorIssuerRef_copies : copies CertificateRequestPolicySelectorIssuerRef_ty CertificateRequestPolicySelectorIssuerRef_DeepCopyInto.
Proof. struct_copies. Qed.
Hint Resolve CertificateRequestPolicySelectorIssuerRef_copies : deepcopy.
Lemma CertificateRequestPolicySelectorNamespace_copies : copies CertificateRequestPolicySelectorNamespace_ty CertificateRequestPolicySelectorNamespace_DeepCopyInto.
Proof. struct_copies. Qed.
Hint Resolve CertificateRequestPolicySelectorNamespace_copies : deepcopy.
Lemma CertificateRequestPolicySelector_copies : copies CertificateRequestPolicySelector_ty CertificateRequestPolicySelector_DeepCopyInto.
Proof. struct_copies. Qed.
Hint Resolve CertificateRequestPolicySelector_copies : deepcopy.
Lemma CertificateRequestPolicySpec_copies : copies CertificateRequestPolicySpec_ty CertificateRequestPolicySpec_DeepCopyInto.
Proof. struct_copies. Qed.
Hint Resolve CertificateRequestPolicySpec_copies : deepcopy.
Lemma CertificateRequestPolicyCondition_copies : copies CertificateRequestPolicyCondition_ty CertificateRequestPolicyCondition_DeepCopyInto.
Proof. struct_copies. Qed.
Hint Resolve CertificateRequestPolicyCondition_copies : deepcopy.
Lemma CertificateRequestPolicyStatus_copies : copies CertificateRequestPolicyStatus_ty CertificateRequestPolicyStatus_DeepCopyInto.
Proof. struct_copies. Qed.
Hint Resolve CertificateRequestPolicyStatus_copies : deepcopy.
Lemma CertificateRequestPolicy_copies : copies CertificateRequestPolicy_ty CertificateRequestPolicy_DeepCopyInto.
Proof. struct_copies. Qed.
Hint Resolve CertificateRequestPolicy_copies : deepcopy.
Lemma CertificateRequestPolicyList_copies : copies CertificateRequestPolicyList_ty CertificateRequestPolicyList_DeepCopyInto.
Proof. struct_copies. Qed.
Hint Resolve CertificateRequestPolicyList_copies : deepcopy.

(** What a client of a [DeepCopyObject] relies on: it always answers, nil for
    nil only; no memory that existed is changed or freed; the object answered is
    deeply equal to the original and lies in new memory only; and from then on
    neither of the two is affected by what happens to the memory of the other. *)
Definition isolates (T : ty) (copy : option loc → M heap runtime_Object) (type : string) : Prop :=
  ∀ p h t, value h (TPtr T) (VPtr p) = Some t →
  ∃ p' h', copy p h = (Ok (as_Object type p'), h') ∧ (p' = None ↔ p = None) ∧
    h ⊆ h' ∧ value h' (TPtr T) (VPtr p') = Some t ∧ foot h' (TPtr T) (VPtr p') ## dom h ∧
    (∀ h'', (∀ i, i ∉ foot h' (TPtr T) (VPtr p') → h'' !! i = h' !! i) →
       value h'' (TPtr T) (VPtr p) = Some t) ∧
    (∀ h'', (∀ i, i ∉ dom h → h'' !! i = h' !! i) → value h'' (TPtr T) (VPtr p') = Some t).

Lemma copies_isolates T into type :
  copies T into → isolates T (λ p, c ← DeepCopy into p; mret (as_Object type c)) type.
Proof.
  intros Hc p h t Hv. destruct (DeepCopy_copies T into h p t Hc Hv) as (p' & h' & Hrun & Hs & Hv' & Hf).
  destruct (separate _ _ _ _ _ _ Hv Hs Hv' Hf) as [Hold Hnew].
  exists p', h'. split_and!; [| |exact Hs|exact Hv'|exact Hf|exact Hold|exact Hnew].
  - by rewrite M_bind_step, Hrun.
  - assert (∀ h q, value h (TPtr T) (VPtr q) = Some t → (q = None ↔ t = LNil)) as Hnil.
    { intros h0 [l|] Hq; simpl in Hq; [|naive_solver].
      destruct (h0 !! l) as [[x| |]|]; try done. by apply fmap_Some in Hq as (z & _ & ->). }
    by rewrite (Hnil _ _ Hv'), (Hnil _ _ Hv).
Qed.

(** [C27] The generated deep copies of the policy API are deep: copying a policy
    or a list of policies always answers, with nil for nil only; every cell of
    memory that existed keeps its content; what is answered equals the original
    down to the last element and is made of new cells only; and whatever is done
    later to the memory of either, the other stays as it is.  No field is
    forgotten and none is shared. *)
Theorem DeepCopyObject_isolates :
  isolates CertificateRequestPolicy_ty CertificateRequestPolicy_DeepCopyObject
    "*CertificateRequestPolicy" ∧
  isolates CertificateRequestPolicyList_ty CertificateRequestPolicyList_DeepCopyObject
    "*CertificateRequestPolicyList".
Proof.
  split; apply copies_isolates; [apply CertificateRequestPolicy_copies|
    apply CertificateRequestPolicyList_copies].
Qed.
End proofs.

Module DeepCopyWitnesses.
#[export] Instance sample_MapOrder : MapOrder := map_to_list.
#[export] Instance sample_MapOrderLaws : MapOrderLaws.
Proof. intros m. reflexivity. Defined.
#[export] Instance sample_MetaLib : MetaLib := {
  TypeMeta_ty := TStruct [("Kind", TPrim); ("APIVersion", TPrim)];
  ObjectMeta_ty := TStruct [("Name", TPrim); ("Generation", TPrim); ("Labels", TMap TPrim)];
  ListMeta_ty := TStruct [("ResourceVersion", TPrim)];
  Time_ty := TStruct [("Time", TPrim)];
  ObjectMeta_DeepCopyInto := copyStruct [("Labels", copyMap assign)];
  ListMeta_DeepCopyInto := assign;
  Time_DeepCopy := DeepCopy assign }.
#[local] Hint Extern 1 (copies (TMap _) _) => apply copies_map : deepcopy.
#[local] Hint Extern 1 (copies _ assign) => by apply copies_assign : deepcopy.
#[export] Instance sample_MetaLibLaws : MetaLibLaws.
Proof.
  split; [done|simpl; struct_copies|by apply copies_assign|].
  intros h p t Hv. by apply DeepCopy_copies; [apply copies_assign|].
Defined.

(** A policy in memory: its labels, the selector with the labels it matches, and
    a rule of the common name with a message. *)
Definition struct (l : list (string * gval)) : gval := VStruct (list_to_map l).
Definition str (s : string) : gval := VPrim (PString s).
Definition sample_spec : gval := struct [
  ("Allowed", VPtr (Some 4%nat)); ("Constraints", VPtr None); ("Plugins", VMap None);
  ("Selector", struct [("IssuerRef", VPtr None); ("Namespace", VPtr (Some 2%nat))])].
Definition sample_object : gval := struct [
  ("TypeMeta", struct [("Kind", str "CertificateRequestPolicy"); ("APIVersion", str "v1")]);
  ("ObjectMeta", struct [("Name", str "p"); ("Generation", VPrim (PInt 1)); ("Labels", VMap (Some 1%nat))]);
  ("Spec", sample_spec); ("Status", struct [("Conditions", VSlice None)])].
Definition nils (names : list string) : list (string * gval) := (λ n, (n, VPtr None)) <$> names.
Definition sample_heap : heap := list_to_map [
  (0%nat, CVal sample_object);
  (1%nat, CMap {["team" := str "a"]});
  (2%nat, CVal (struct [("MatchNames", VSlice None); ("MatchLabels", VMap (Some 3%nat))]));
  (3%nat, CMap {["env" := str "prod"]});
  (4%nat, CVal (struct (("CommonName", VPtr (Some 5%nat)) ::
     nils ["DNSNames"; "IPAddresses"; "URIs"; "EmailAddresses"; "IsCA"; "Usages"; "Subject"])));
  (5%nat, CVal (struct [("Value", VPtr None); ("Required", VPtr None);
     ("Validations", VSlice (Some {| sl_array := 6%nat; sl_offset := 1; sl_len := 1 |}))]));
  (6%nat, CArray [str "unused"; struct [("Rule", str "true"); ("Message", VPtr (Some 7%nat))]]);
  (7%nat, CVal (str "no"))].
Definition sample_tree : tree :=
  default LNil (value sample_heap (TPtr CertificateRequestPolicy_ty) (VPtr (Some 0%nat))).

Lemma DeepCopyObject_isolates_witness :
  MetaLibLaws ∧ MapOrderLaws ∧
  value sample_heap (TPtr CertificateRequestPolicy_ty) (VPtr (Some 0%nat)) = Some sample_tree ∧
  isolates CertificateRequestPolicy_ty CertificateRequestPolicy_DeepCopyObject
    "*CertificateRequestPolicy".
Proof.
  split; [apply _|]. split; [apply _|]. split; [vm_compute; reflexivity|].
  exact (proj1 DeepCopyObject_isolates).
Defined.

(** The copy takes eight new cells, one for each of the old ones it reads (only
    the window of the array is copied), and none is shared. *)
Example sample_copied :
  let '(o, h) := CertificateRequestPolicy_DeepCopyObject (Some 0%nat) sample_heap in
  match o with
  | Ok (Some (_, l)) =>
      value h (TPtr CertificateRequestPolicy_ty) (VPtr (Some l)) = Some sample_tree ∧
      size (foot h (TPtr CertificateRequestPolicy_ty) (VPtr (Some l))) = 8%nat ∧
      foot h (TPtr CertificateRequestPolicy_ty) (VPtr (Some l)) ∩ dom sample_heap = ∅
  | _ => False
  end.
Proof. vm_compute. repeat split; reflexivity. Qed.
End DeepCopyWitnesses.
