(* ===== verification/Wildcard.v ===== *)
(** * Wildcard matching: pkg/internal/util/wildcard.go

    The functions of the file, the language a pattern stands for, and the
    facts about that language the rest of the development uses. *)
From S2P Require Import Prelude GoStrings.

Definition star : Z := 42. (* '*' *)

(** ** The code *)

(** The loop consumes literal runes; a ['*'] ends it with the two recursive
    calls, the second one on the same pattern and a shorter string. *)
Fixpoint matchRunes (pattern : list Z) : list Z → bool :=
  match pattern with
  | [] => λ str, bool_decide (length str = 0%nat)
  | c :: pattern' =>
      if c =? star then
        fix before_after str :=
          matchRunes pattern' str
          || match str with [] => false | _ :: str' => before_after str' end
      else λ str,
        match str with
        | [] => false
        | d :: str' => if negb (d =? c) then false else matchRunes pattern' str'
        end
  end.

Definition WildcardMatches (pattern str : string) : bool :=
  if (String.length pattern =? 0)%nat then (String.length str =? 0)%nat
  else if bool_decide (pattern = "*") then true
  else matchRunes (runes pattern) (runes str).

Fixpoint WildcardContains (patterns : list string) (member : string) : bool :=
  match patterns with
  | [] => false
  | pattern :: patterns =>
      if WildcardMatches pattern member then true else WildcardContains patterns member
  end.

Fixpoint WildcardSubset (patterns members : list string) : bool :=
  match members with
  | [] => true
  | member :: members =>
      if negb (WildcardContains patterns member) then false
      else WildcardSubset patterns members
  end.

(** ** The language of a pattern

    A literal rune stands for itself, ['*'] for any string of runes. *)
Fixpoint denote (pattern : list Z) : list Z → Prop :=
  match pattern with
  | [] => λ str, str = []
  | c :: pattern' =>
      if c =? star then λ str, ∃ u v, str = u ++ v ∧ denote pattern' v
      else λ str, ∃ v, str = c :: v ∧ denote pattern' v
  end.

(** The strings a pattern string admits. *)
Definition Matches (pattern str : string) : Prop := denote (runes pattern) (runes str).

Lemma denote_star p str :
  denote (star :: p) str ↔ ∃ u v, str = u ++ v ∧ denote p v.
Proof. done. Qed.
Lemma denote_lit c p str :
  c ≠ star → denote (c :: p) str ↔ ∃ v, str = c :: v ∧ denote p v.
Proof. intros Hc. simpl. by rewrite (proj2 (Z.eqb_neq c star)). Qed.

Lemma matchRunes_star p str :
  matchRunes (star :: p) str =
    matchRunes p str || match str with [] => false | _ :: str' => matchRunes (star :: p) str' end.
Proof. by destruct str. Qed.
Lemma matchRunes_lit c p str :
  c ≠ star →
  matchRunes (c :: p) str =
    match str with [] => false | d :: str' => bool_decide (d = c) && matchRunes p str' end.
Proof.
  intros Hc. simpl. rewrite (proj2 (Z.eqb_neq c star)) by done.
  destruct str as [|d str]; [done|].
  destruct (Z.eqb_spec d c); [by rewrite bool_decide_true|by rewrite bool_decide_false].
Qed.

Lemma matchRunes_denote p str : matchRunes p str = true ↔ denote p str.
Proof.
  revert str. induction p as [|c p IH]; intros str.
  { simpl. rewrite bool_decide_eq_true. by destruct str. }
  destruct (decide (c = star)) as [->|Hc].
  - rewrite denote_star. induction str as [|d str IHstr]; rewrite matchRunes_star.
    + rewrite orb_false_r, IH. split; [by exists [], []|].
      intros (u & v & Huv & Hp). by destruct u, v.
    + rewrite orb_true_iff, IH, IHstr. split.
      * intros [Hp|(u & v & -> & Hp)]; [by exists [], (d :: str)|by exists (d :: u), v].
      * intros ([|? u] & v & Huv & Hp); simplify_eq/=; [by left|right; by exists u, v].
  - rewrite denote_lit, matchRunes_lit by done. destruct str as [|d str]; [naive_solver|].
    rewrite andb_true_iff, bool_decide_eq_true, IH. naive_solver.
Qed.

Lemma denote_star_all str : denote [star] str.
Proof. apply denote_star. exists str, []. by rewrite app_nil_r. Qed.

Lemma length_zero s : (String.length s =? 0)%nat = true ↔ s = "".
Proof. rewrite Nat.eqb_eq. by destruct s. Qed.

(** The shortcuts of [WildcardMatches] agree with the matcher. *)
Lemma WildcardMatches_denote pattern str :
  WildcardMatches pattern str = true ↔ Matches pattern str.
Proof.
  unfold WildcardMatches, Matches.
  destruct (_ =? _)%nat eqn:E; [|destruct (bool_decide_reflect (pattern = "*")) as [->|]].
  - apply length_zero in E as ->. rewrite length_zero. simpl. by rewrite runes_nil.
  - split; [intros _|done]. apply denote_star_all.
  - apply matchRunes_denote.
Qed.

Lemma WildcardContains_denote patterns member :
  WildcardContains patterns member = true ↔ ∃ p, p ∈ patterns ∧ Matches p member.
Proof.
  induction patterns as [|p ps IH]; simpl; [set_solver|].
  destruct (WildcardMatches p member) eqn:E.
  - apply WildcardMatches_denote in E. set_solver.
  - rewrite IH. assert (¬ Matches p member) by (by rewrite <-WildcardMatches_denote, E).
    set_solver.
Qed.

Lemma WildcardSubset_denote patterns members :
  WildcardSubset patterns members = true ↔
  ∀ m, m ∈ members → ∃ p, p ∈ patterns ∧ Matches p m.
Proof.
  induction members as [|m ms IH]; simpl; [set_solver|].
  destruct (WildcardContains patterns m) eqn:E; simpl.
  - apply WildcardContains_denote in E. rewrite IH. set_solver.
  - assert (¬ ∃ p, p ∈ patterns ∧ Matches p m) by (by rewrite <-WildcardContains_denote, E).
    set_solver.
Qed.

#[export] Instance Matches_dec pattern str : Decision (Matches pattern str).
Proof.
  refine (cast_if (decide (WildcardMatches pattern str = true)));
    by rewrite <-WildcardMatches_denote.
Defined.

(** ** Facts about the language *)

(** A pattern without ['*'] stands for one rune sequence. *)
Lemma denote_literal p str : star ∉ p → denote p str ↔ str = p.
Proof.
  revert str. induction p as [|c p IH]; intros str Hp; [done|].
  apply not_elem_of_cons in Hp as [Hc Hp]. rewrite denote_lit by done.
  split; [|intros ->; exists p; by rewrite IH].
  intros (v & -> & Hv). by rewrite IH in Hv; subst.
Qed.

Lemma denote_app p q u v : denote p u → denote q v → denote (p ++ q) (u ++ v).
Proof.
  revert u. induction p as [|c p IH]; intros u Hp Hq; [by rewrite Hp|].
  destruct (decide (c = star)) as [->|Hc]; simpl app.
  - apply denote_star in Hp as (x & y & -> & Hy). rewrite <-app_assoc.
    apply denote_star. exists x, (y ++ v). auto.
  - apply denote_lit in Hp as (y & -> & Hy); [|done]. simpl.
    apply denote_lit; [done|]. eauto.
Qed.

(** What a pattern admits as a string it also covers as a pattern: the
    ['*']s of [q] are absorbed by ['*']s of [p]. *)
Lemma denote_app_inv p q str :
  denote (p ++ q) str → ∃ u v, str = u ++ v ∧ denote p u ∧ denote q v.
Proof.
  revert str. induction p as [|c p IH]; intros str Hp; [by exists [], str|].
  simpl app in Hp. destruct (decide (c = star)) as [->|Hc].
  - apply denote_star in Hp as (x & y & -> & (u & v & -> & ? & ?)%IH).
    exists (x ++ u), v. rewrite app_assoc. split_and!; [done| |done].
    apply denote_star. eauto.
  - apply denote_lit in Hp as (y & -> & (u & v & -> & ? & ?)%IH); [|done].
    exists (c :: u), v. split_and!; [done| |done]. apply denote_lit; eauto.
Qed.

Lemma denote_trans p q str : denote p q → denote q str → denote p str.
Proof.
  revert q str. induction p as [|c p IH]; intros q str Hpq Hq; [simpl in Hpq; by subst|].
  destruct (decide (c = star)) as [->|Hc].
  - apply denote_star in Hpq as (u & v & -> & Hv).
    apply denote_app_inv in Hq as (x & y & -> & _ & Hy).
    apply denote_star. exists x, y. split; [done|]. by apply (IH v).
  - apply denote_lit in Hpq as (v & -> & Hv); [|done].
    apply denote_lit in Hq as (y & -> & Hy); [|done].
    apply denote_lit; [done|]. exists y. split; [done|]. by apply (IH v).
Qed.

(** Outside valid UTF-8 the rune view is lossy: two different undecodable
    bytes match each other, because both decode to [RuneError]. *)
Lemma bytes_char b : 0 ≤ b < 256 → bytes (char b) = [b].
Proof.
  intros Hb. unfold bytes, char, byte_of. cbn. rewrite N_ascii_embedding by lia.
  f_equal. lia.
Qed.
Lemma runes_invalid_byte b : 0x80 ≤ b < 256 → runes (char b) = [RuneError].
Proof.
  intros Hb. unfold runes. rewrite bytes_char by lia. cbn [chunks].
  by bool_false (b <? 128).
Qed.
Lemma WildcardMatches_invalid_utf8 b c :
  0x80 ≤ b < 256 → 0x80 ≤ c < 256 → WildcardMatches (char b) (char c) = true.
Proof.
  intros Hb Hc. apply WildcardMatches_denote. unfold Matches.
  rewrite !runes_invalid_byte by done. by apply denote_literal; [compute; set_solver|].
Qed.

(** ** Properties *)

(** [C18] [WildcardMatches] decides the language of the pattern, shortcuts
    included: it answers true on exactly the strings whose runes split along
    the pattern, each ['*'] standing for any run of runes and every other rune
    for itself. *)
Theorem WildcardMatches_correct pattern str :
  WildcardMatches pattern str = true ↔ denote (runes pattern) (runes str).
Proof. apply WildcardMatches_denote. Qed.

(** On valid UTF-8 a pattern without ['*'] admits exactly one string, itself. *)
Theorem WildcardMatches_literal pattern str :
  ValidString pattern → ValidString str → star ∉ runes pattern →
  WildcardMatches pattern str = true ↔ str = pattern.
Proof.
  intros Hp Hs Hstar. rewrite WildcardMatches_denote. unfold Matches.
  rewrite denote_literal by done. split; [|by intros ->]. by apply runes_inj_valid.
Qed.
Lemma WildcardMatches_literal_witness :
  WildcardMatches "example.com" "example.com" = true ↔ "example.com" = "example.com".
Proof.
  apply (WildcardMatches_literal "example.com" "example.com");
    [exists (bytes "example.com"); split; [repeat constructor|reflexivity]..|].
  change (star ∉ bytes "example.com"). compute. set_solver.
Defined.

(** [WildcardSubset] holds when every member is admitted by some pattern. *)
Theorem WildcardSubset_correct patterns members :
  WildcardSubset patterns members = true ↔
  ∀ m, m ∈ members → ∃ p, p ∈ patterns ∧ denote (runes p) (runes m).
Proof. apply WildcardSubset_denote. Qed.

(** Patterns that cover other patterns cover what those admit: a policy
    whose values are covered, as strings, by the values of another policy
    admits no more than it. *)
Theorem WildcardSubset_trans patterns narrower members :
  WildcardSubset patterns narrower = true → WildcardSubset narrower members = true →
  WildcardSubset patterns members = true.
Proof.
  rewrite !WildcardSubset_denote. intros H1 H2 m Hm.
  destruct (H2 m Hm) as (q & Hq & Hqm). destruct (H1 q Hq) as (p & Hp & Hpq).
  exists p. split; [done|]. by eapply denote_trans.
Qed.
Lemma WildcardSubset_trans_witness :
  WildcardSubset ["*.example.com"; "y"] ["a.b.example.com"] = true.
Proof.
  apply (WildcardSubset_trans ["*.example.com"; "y"] ["*.b.example.com"] ["a.b.example.com"]);
    vm_compute; reflexivity.
Defined.
