(* ===== verification/WildcardCost.v ===== *)
(** * What wildcard matching costs: pkg/internal/util/wildcard.go

    The patterns come from policies and the strings from whoever files a
    request, so the work of [matchRunes] matters.  [matchRunesSteps] is
    [matchRunes] with a count of the times the head of its loop is reached. *)
From S2P Require Import Prelude GoStrings Wildcard.

(** [||] evaluates its right operand only when the left one is false. *)
Definition orelse (l : bool * nat) (r : bool * nat) : bool * nat :=
  if l.1 then l else (r.1, l.2 + r.2)%nat.
Definition tick (r : bool * nat) : bool * nat := (r.1, S r.2).

Fixpoint matchRunesSteps (pattern : list Z) : list Z → bool * nat :=
  match pattern with
  | [] => λ str, (bool_decide (length str = 0%nat), 1%nat)
  | c :: pattern' =>
      if c =? star then
        fix before_after str :=
          tick (orelse (matchRunesSteps pattern' str)
            match str with [] => (false, 0%nat) | _ :: str' => before_after str' end)
      else λ str,
        match str with
        | [] => (false, 1%nat)
        | d :: str' => if negb (d =? c) then (false, 1%nat) else tick (matchRunesSteps pattern' str')
        end
  end.

Definition steps (pattern str : list Z) : nat := (matchRunesSteps pattern str).2.
(** The stars of a pattern. *)
Definition stars (pattern : list Z) : nat := length (filter (λ c, c = star) pattern).

Lemma steps_star p str :
  matchRunesSteps (star :: p) str =
    tick (orelse (matchRunesSteps p str)
      match str with [] => (false, 0%nat) | _ :: str' => matchRunesSteps (star :: p) str' end).
Proof. by destruct str. Qed.
Lemma steps_lit c p str :
  c ≠ star →
  matchRunesSteps (c :: p) str =
    match str with
    | [] => (false, 1%nat)
    | d :: str' => if negb (d =? c) then (false, 1%nat) else tick (matchRunesSteps p str')
    end.
Proof. intros Hc. simpl. by rewrite (proj2 (Z.eqb_neq c star)). Qed.

(** Counting changes nothing else. *)
Lemma matchRunesSteps_result p str : (matchRunesSteps p str).1 = matchRunes p str.
Proof.
  revert str. induction p as [|c p IH]; intros str; [done|].
  destruct (decide (c = star)) as [->|Hc].
  - induction str as [|d str IHstr]; rewrite steps_star, matchRunes_star; unfold orelse; simpl.
    + rewrite IH. destruct (matchRunes p []) eqn:E; simpl; [by rewrite IH|done].
    + rewrite IH. destruct (matchRunes p (d :: str)) eqn:E; simpl; [by rewrite IH|]. apply IHstr.
  - rewrite steps_lit, matchRunes_lit by done. destruct str as [|d str]; [done|].
    destruct (Z.eqb_spec d c) as [->|]; simpl;
      [rewrite bool_decide_true by done; apply IH|by rewrite bool_decide_false].
Qed.

Lemma stars_star p : stars (star :: p) = S (stars p).
Proof. done. Qed.
Lemma stars_lit c p : c ≠ star → stars (c :: p) = stars p.
Proof. intros Hc. unfold stars. by rewrite filter_cons_False. Qed.

Lemma pow_succ_le (n k : nat) : (n + 1 ≤ (n + 1) ^ S k)%nat.
Proof. rewrite Nat.pow_succ_r'. pose proof (Nat.pow_nonzero (n + 1) k). nia. Qed.

Lemma orelse_le l r : ((orelse l r).2 ≤ l.2 + r.2)%nat.
Proof. unfold orelse. destruct l as [[] ?]; simpl; lia. Qed.

(** One star costs at most a matching of the rest per position. *)
Lemma star_le p str (b : nat) :
  (∀ s, length s ≤ length str → steps p s ≤ b)%nat →
  (steps (star :: p) str ≤ (length str + 1) * (b + 1))%nat.
Proof.
  unfold steps. induction str as [|d str IH]; intros Hb; rewrite steps_star; unfold tick; cbn [snd length].
  - pose proof (orelse_le (matchRunesSteps p []) (false, 0%nat)) as Ho. simpl in Ho.
    specialize (Hb [] (le_n _)). lia.
  - pose proof (orelse_le (matchRunesSteps p (d :: str)) (matchRunesSteps (star :: p) str)) as Ho.
    assert ((matchRunesSteps (star :: p) str).2 ≤ (length str + 1) * (b + 1))%nat as IH'
      by (apply IH; intros; apply Hb; simpl; lia).
    specialize (Hb (d :: str) (le_n _)). nia.
Qed.

Lemma steps_le p : ∀ str, (steps p str ≤ (length p + 1) * (length str + 1) ^ stars p)%nat.
Proof.
  induction p as [|c p IH]; intros str; [done|].
  destruct (decide (c = star)) as [->|Hc].
  - rewrite stars_star.
    assert (steps (star :: p) str ≤ (length str + 1) *
      ((length p + 1) * (length str + 1) ^ stars p + 1))%nat as Hle.
    { apply star_le. intros s Hs. etrans; [apply IH|].
      apply Nat.mul_le_mono_l, Nat.pow_le_mono_l. lia. }
    pose proof (pow_succ_le (length str) (stars p)). rewrite Nat.pow_succ_r' in *. simpl length. nia.
  - rewrite stars_lit by done. unfold steps. rewrite steps_lit by done.
    assert (1 ≤ (length str + 1) ^ stars p)%nat as H1
      by (pose proof (Nat.pow_nonzero (length str + 1) (stars p)); lia).
    destruct str as [|d str]; [simpl in *; nia|]. destruct (negb (d =? c)); [simpl in *; nia|].
    specialize (IH str). unfold steps in IH. simpl.
    assert ((length str + 1) ^ stars p ≤ (length (d :: str) + 1) ^ stars p)%nat
      by (apply Nat.pow_le_mono_l; simpl; lia).
    simpl in *. nia.
Qed.

(** The pattern of [k] stars and a rune, on strings that do not hold the rune:
    nothing matches, and every way of distributing the string over the stars
    is tried. *)
Definition evil (k : nat) (b : Z) : list Z := replicate k star ++ [b].

Lemma evil_false k a b n : a ≠ b → b ≠ star → matchRunes (evil k b) (replicate n a) = false.
Proof.
  intros Hab Hb. revert n. induction k as [|k IHk]; intros n.
  - unfold evil. simpl app. rewrite matchRunes_lit by done. destruct n; simpl; [done|].
    by rewrite bool_decide_false.
  - induction n as [|n IHn]; unfold evil in *; simpl app; rewrite matchRunes_star.
    + specialize (IHk 0%nat). by rewrite IHk.
    + specialize (IHk (S n)). rewrite IHk. simpl. apply IHn.
Qed.

Lemma evil_star k a b n :
  a ≠ b → b ≠ star →
  steps (evil (S k) b) (replicate n a) =
    S (steps (evil k b) (replicate n a) +
       match n with O => 0 | S n => steps (evil (S k) b) (replicate n a) end).
Proof.
  intros Hab Hb. unfold steps, evil. simpl app. rewrite steps_star. unfold orelse.
  rewrite matchRunesSteps_result. pose proof (evil_false k a b n Hab Hb) as Hf. unfold evil in Hf.
  rewrite Hf. simpl. f_equal. f_equal. by destruct n.
Qed.

Lemma evil_ge k a b : a ≠ b → b ≠ star → ∀ n, (k ≤ n → 2 ^ k ≤ steps (evil k b) (replicate n a))%nat.
Proof.
  intros Hab Hb. induction k as [|k IHk]; intros n Hn.
  - unfold steps, evil. simpl app. rewrite steps_lit by done. destruct n; simpl; [lia|].
    rewrite (proj2 (Z.eqb_neq a b)) by done. simpl. lia.
  - destruct n as [|n]; [lia|]. rewrite evil_star by done.
    pose proof (IHk (S n) ltac:(lia)) as H1. rewrite Nat.pow_succ_r'.
    assert (2 ^ k ≤ steps (evil (S k) b) (replicate n a))%nat; [|lia].
    destruct n as [|n].
    + assert (k = 0%nat) as -> by lia. rewrite evil_star by done. simpl. lia.
    + rewrite evil_star by done. pose proof (IHk (S n) ltac:(lia)). lia.
Qed.

(** [C19] The cost of a match: at most one factor of the length of the string for
    each star of the pattern, which bounds what a requester can cause under a
    given policy; but exponential in the number of stars, which whoever writes
    the policy controls. *)
Theorem matchRunes_cost pattern str a b k (Hab : a ≠ b) (Hb : b ≠ star) :
  (matchRunesSteps pattern str).1 = matchRunes pattern str ∧
  ((matchRunesSteps pattern str).2 ≤ (length pattern + 1) * (length str + 1) ^ stars pattern)%nat ∧
  stars (evil k b) = k ∧ (2 ^ k ≤ (matchRunesSteps (evil k b) (replicate k a)).2)%nat.
Proof.
  split_and!; [apply matchRunesSteps_result|apply steps_le| |by apply evil_ge].
  unfold evil, stars. rewrite filter_app, filter_cons_False by done.
  rewrite app_nil_r. induction k; [done|]. simpl. by f_equal.
Qed.

Definition rune_a : Z := 97.
Definition rune_b : Z := 98.
Lemma matchRunes_cost_witness :
  rune_a ≠ rune_b ∧ rune_b ≠ star ∧
  (matchRunesSteps (runes "*.example.com") (runes "a.example.com")).1 = true ∧
  ((matchRunesSteps (runes "*.example.com") (runes "a.example.com")).2 ≤ 14 * 14)%nat ∧
  stars (evil 8 rune_b) = 8%nat ∧
  (2 ^ 8 ≤ (matchRunesSteps (evil 8 rune_b) (replicate 8 rune_a)).2)%nat.
Proof.
  assert (rune_a ≠ rune_b) as Hab by done. assert (rune_b ≠ star) as Hb by done.
  pose proof (matchRunes_cost (runes "*.example.com") (runes "a.example.com") rune_a rune_b 8 Hab Hb)
    as (Hr & Hle & Hk & Hge).
  split; [exact Hab|]. split; [exact Hb|]. split; [rewrite Hr; vm_compute; reflexivity|].
  split; [exact Hle|]. split; [exact Hk|exact Hge].
Defined.

(** The numbers for one star and for eight. *)
Example cost_ex :
  N.of_nat (steps (runes "*.example.com") (runes "a.example.com")) = 16%N ∧
  N.of_nat (steps (evil 8 rune_b) (replicate 8 rune_a)) = 37179%N.
Proof. vm_compute. split; reflexivity. Qed.
