(* ===== verification/K8s.v ===== *)
(** * The data and the library calls the program takes from elsewhere

    The records are the API types of Kubernetes, cert-manager and crypto/x509,
    restricted to the fields the program reads or writes.  The type classes
    are library routines: the development uses them as parameters, with what
    it relies on in the [..Laws] classes. *)
From S2P Require Import Prelude GoStrings.

(** ** k8s.io/apimachinery: metadata *)
Record NamespacedName := { nn_Namespace : string; nn_Name : string }.
#[export] Instance NamespacedName_eq_dec : EqDecision NamespacedName.
Proof. solve_decision. Defined.

Record ObjectMeta := { om_Name : string; om_Namespace : string; om_Generation : Z }.

(** [corev1.ConditionStatus] and [cmmeta.ConditionStatus] are strings. *)
Definition ConditionTrue : string := "True".
Definition ConditionFalse : string := "False".
Definition ConditionUnknown : string := "Unknown".

(** ** k8s.io/apimachinery/pkg/util/validation/field

    A path and an error are kept as the calls that built them; how they print
    is the library's business. *)
Inductive Path :=
  | NewPath (name : string) (more : list string)
  | Child (p : Path) (name : string) (more : list string)
  | Index (p : Path) (i : nat).

(** The [interface{}] values reported in field errors. *)
Inductive any :=
  | AnyString (s : string)
  | AnyStrings (l : list string)
  | AnyBool (b : bool)
  | AnyInt (z : Z)
  | AnyMap (m : gmap string string).

Inductive FieldError :=
  | Invalid (p : Path) (value : any) (detail : string)
  | Required (p : Path) (detail : string)
  | NotSupported (p : Path) (value : any) (valid : list string)
  | InternalError (p : Path) (err : error).

(** [field.ErrorList]; a nil list is the empty one. *)
Abbreviation ErrorList := (list FieldError).

(** [utilerrors.Aggregate]: what its two methods answer. *)
Record Aggregate := { agg_Error : string; agg_Errors : list error }.

(** [ErrorList.ToAggregate] and [utilerrors.NewAggregate]; [None] is the nil
    interface value. *)
Class ErrorLib := {
  ToAggregate : ErrorList → option Aggregate;
  NewAggregate : list (option error) → option error }.

(** Documented: the aggregate of an empty list is nil, that of a non-empty
    list is not and has errors; [NewAggregate] drops nil errors and answers
    nil when nothing is left. *)
Class ErrorLibLaws `{ErrorLib} := {
  ToAggregate_nil : ToAggregate [] = None;
  ToAggregate_cons e el : ∃ a, ToAggregate (e :: el) = Some a ∧ agg_Errors a ≠ [];
  NewAggregate_None l : NewAggregate l = None ↔ Forall (λ e, e = None) l }.

(** ** Label selectors *)
Class LabelsLib := {
  Selector : Type;
  LabelSelectorAsSelector : gmap string string → outcome Selector;
  selector_Matches : Selector → gmap string string → bool }.

(** ** sigs.k8s.io/controller-runtime: reading objects *)
Class ClientLib := { IgnoreNotFound : error → option error }.

Record Result := { Requeue : bool; RequeueAfter : Z }.
#[export] Instance Result_eq_dec : EqDecision Result.
Proof. solve_decision. Defined.
(** [ctrl.Result{}]. *)
Definition Result_zero : Result := {| Requeue := false; RequeueAfter := 0 |}.

(** ** cert-manager: CertificateRequest *)
Record ObjectReference := { ref_Name : string; ref_Kind : string; ref_Group : string }.

Record CertificateRequestSpec := {
  crs_Duration : option Z;              (* *metav1.Duration, nanoseconds *)
  crs_IssuerRef : ObjectReference;
  crs_Request : list Z;                 (* []byte *)
  crs_IsCA : bool;
  crs_Usages : list string;             (* []KeyUsage *)
  crs_Username : string;
  crs_UID : string;
  crs_Groups : list string;
  crs_Extra : gmap string (list string) }.

Record CertificateRequestCondition := {
  crc_Type : string;
  crc_Status : string;
  crc_LastTransitionTime : option Z;    (* *metav1.Time *)
  crc_Reason : string;
  crc_Message : string }.
#[export] Instance CertificateRequestCondition_eq_dec : EqDecision CertificateRequestCondition.
Proof. solve_decision. Defined.

Record CertificateRequestStatus := { crst_Conditions : list CertificateRequestCondition }.

Record CertificateRequest := {
  cr_ObjectMeta : ObjectMeta;
  cr_Spec : CertificateRequestSpec;
  cr_Status : CertificateRequestStatus }.

Definition cr_Name (cr : CertificateRequest) : string := om_Name (cr_ObjectMeta cr).
Definition cr_Namespace (cr : CertificateRequest) : string := om_Namespace (cr_ObjectMeta cr).

Definition CertificateRequestKind : string := "CertificateRequest".
Definition IssuerKind : string := "Issuer".
Definition CertificateRequestConditionApproved : string := "Approved".
Definition CertificateRequestConditionDenied : string := "Denied".
Definition RSAKeyAlgorithm : string := "RSA".
Definition ECDSAKeyAlgorithm : string := "ECDSA".
Definition Ed25519KeyAlgorithm : string := "Ed25519".

(** ** crypto/x509 *)

(** The dynamic types a parsed public key can have. *)
Inductive PublicKey :=
  | rsa_PublicKey_ptr (N : Z)               (* *rsa.PublicKey *)
  | ecdsa_PublicKey_ptr (BitSize : Z)       (* *ecdsa.PublicKey *)
  | ed25519_PublicKey_ptr (key : list Z)    (* *ed25519.PublicKey *)
  | ed25519_PublicKey (key : list Z)        (* ed25519.PublicKey *)
  | other_key (T : string).                 (* any other type, by its name *)

Record pkix_Name := {
  sub_Country : list string;
  sub_Organization : list string;
  sub_OrganizationalUnit : list string;
  sub_Locality : list string;
  sub_Province : list string;
  sub_StreetAddress : list string;
  sub_PostalCode : list string;
  sub_SerialNumber : string;
  sub_CommonName : string }.

(** [uri.String()] is a parameter, so a URI is known by its position in the
    request's bytes: an abstract type. *)
Class X509Lib := {
  URL : Type;
  URL_String : URL → string }.

Record x509_CertificateRequest `{X509Lib} := {
  csr_Subject : pkix_Name;
  csr_DNSNames : list string;
  csr_EmailAddresses : list string;
  csr_IPAddresses : list (list Z);
  csr_URIs : list URL;
  csr_PublicKey : PublicKey }.

(** [utilpki.DecodeX509CertificateRequestBytes] and the generated
    [String] method of [*metav1.Duration], which answers for a nil pointer too. *)
Class PKILib `{X509Lib} := {
  DecodeX509CertificateRequestBytes : list Z → outcome x509_CertificateRequest;
  metav1_Duration_String : option Z → string }.
