(* ===== verification/PolicyAPI.v ===== *)
(** * The CertificateRequestPolicy API: pkg/apis/policy/v1alpha1

    One record per Go struct of types_certificaterequestpolicy.go.  A pointer
    is an [option].  A slice is a list: the program only ever asks for the
    length of a slice, so nil and empty are the same.  The map [MatchLabels]
    is an [option] because the code does test it against nil.  TypeMeta and
    ListMeta, which nothing reads, are left out. *)
From S2P Require Import Prelude GoStrings K8s.

Definition CertificateRequestPolicyKind : string := "CertificateRequestPolicy".
(** [SchemeGroupVersion] with the group of pkg/apis/policy. *)
Definition GroupName : string := "policy.cert-manager.io".
Definition SchemeGroupVersion : string * string := (GroupName, "v1alpha1").

Record ValidationRule := { Rule : string; Message : option string }.

Record CertificateRequestPolicyAllowedString := {
  als_Value : option string;
  als_Required : option bool;
  als_Validations : list ValidationRule }.

Record CertificateRequestPolicyAllowedStringSlice := {
  asl_Values : option (list string);
  asl_Required : option bool;
  asl_Validations : list ValidationRule }.

Record CertificateRequestPolicyAllowedX509Subject := {
  als_Organizations : option CertificateRequestPolicyAllowedStringSlice;
  als_Countries : option CertificateRequestPolicyAllowedStringSlice;
  als_OrganizationalUnits : option CertificateRequestPolicyAllowedStringSlice;
  als_Localities : option CertificateRequestPolicyAllowedStringSlice;
  als_Provinces : option CertificateRequestPolicyAllowedStringSlice;
  als_StreetAddresses : option CertificateRequestPolicyAllowedStringSlice;
  als_PostalCodes : option CertificateRequestPolicyAllowedStringSlice;
  als_SerialNumber : option CertificateRequestPolicyAllowedString }.

Record CertificateRequestPolicyAllowed := {
  al_CommonName : option CertificateRequestPolicyAllowedString;
  al_DNSNames : option CertificateRequestPolicyAllowedStringSlice;
  al_IPAddresses : option CertificateRequestPolicyAllowedStringSlice;
  al_URIs : option CertificateRequestPolicyAllowedStringSlice;
  al_EmailAddresses : option CertificateRequestPolicyAllowedStringSlice;
  al_IsCA : option bool;
  al_Usages : option (list string);
  al_Subject : option CertificateRequestPolicyAllowedX509Subject }.

Record CertificateRequestPolicyConstraintsPrivateKey := {
  pk_Algorithm : option string;
  pk_MinSize : option Z;
  pk_MaxSize : option Z }.

Record CertificateRequestPolicyConstraints := {
  con_MinDuration : option Z;   (* *metav1.Duration, nanoseconds *)
  con_MaxDuration : option Z;
  con_PrivateKey : option CertificateRequestPolicyConstraintsPrivateKey }.

Record CertificateRequestPolicyPluginData := { pd_Values : gmap string string }.

Record CertificateRequestPolicySelectorIssuerRef := {
  isel_Name : option string;
  isel_Kind : option string;
  isel_Group : option string }.

Record CertificateRequestPolicySelectorNamespace := {
  nsel_MatchNames : list string;
  nsel_MatchLabels : option (gmap string string) }.

Record CertificateRequestPolicySelector := {
  sel_IssuerRef : option CertificateRequestPolicySelectorIssuerRef;
  sel_Namespace : option CertificateRequestPolicySelectorNamespace }.

Record CertificateRequestPolicySpec := {
  ps_Allowed : option CertificateRequestPolicyAllowed;
  ps_Constraints : option CertificateRequestPolicyConstraints;
  ps_Plugins : gmap string CertificateRequestPolicyPluginData;
  ps_Selector : CertificateRequestPolicySelector }.

(** [CertificateRequestPolicyConditionType] is a string. *)
Definition CertificateRequestPolicyConditionReady : string := "Ready".

Record CertificateRequestPolicyCondition := {
  pc_Type : string;
  pc_Status : string;
  pc_LastTransitionTime : option Z;   (* *metav1.Time *)
  pc_Reason : string;
  pc_Message : string;
  pc_ObservedGeneration : Z }.
#[export] Instance CertificateRequestPolicyCondition_eq_dec :
  EqDecision CertificateRequestPolicyCondition.
Proof. solve_decision. Defined.

Record CertificateRequestPolicyStatus := {
  pst_Conditions : list CertificateRequestPolicyCondition }.

Record CertificateRequestPolicy := {
  p_ObjectMeta : ObjectMeta;
  p_Spec : CertificateRequestPolicySpec;
  p_Status : CertificateRequestPolicyStatus }.

Record CertificateRequestPolicyList := { Items : list CertificateRequestPolicy }.

Definition p_Name (p : CertificateRequestPolicy) : string := om_Name (p_ObjectMeta p).
Definition p_Generation (p : CertificateRequestPolicy) : Z := om_Generation (p_ObjectMeta p).

(** [new(CertificateRequestPolicyAllowed)] and
    [new(CertificateRequestPolicyAllowedX509Subject)]. *)
Definition Allowed_zero : CertificateRequestPolicyAllowed :=
  Build_CertificateRequestPolicyAllowed None None None None None None None None.
Definition Subject_zero : CertificateRequestPolicyAllowedX509Subject :=
  Build_CertificateRequestPolicyAllowedX509Subject None None None None None None None None.
