(* ===== verification/Scheme.v ===== *)
(** * The scheme of the policy API: init and addKnownTypes of register.go

    The package's variables are the state.  [SchemeBuilder] of
    [k8s.io/apimachinery] and [runtime.Scheme] are parameters. *)
From S2P Require Import Prelude PolicyAPI.

(** A kind of a group and version. *)
Abbreviation gvk := ((string * string) * string)%type.

Class SchemeLib := {
  runtime_Scheme : Type;
  NewScheme : runtime_Scheme;
  (** The kinds the scheme has a Go type for. *)
  Recognizes : runtime_Scheme → gvk → Prop;
  (** Panics on a kind that another type has. *)
  AddKnownTypes : string * string → list string → M runtime_Scheme unit;
  AddToGroupVersion : string * string → M runtime_Scheme unit;
  (** The schemes of client-go and of cert-manager. *)
  scheme_AddToScheme : M runtime_Scheme unit;
  cmapi_AddToScheme : M runtime_Scheme unit;
  SchemeBuilder : Type;
  sb_nil : SchemeBuilder;
  sb_Register : SchemeBuilder → list (M runtime_Scheme unit) → SchemeBuilder;
  sb_AddToScheme : SchemeBuilder → M runtime_Scheme unit }.

Section scheme.
Context `{SchemeLib}.

(** What a registration has added it has added for good. *)
Definition adds (m : M runtime_Scheme unit) : Prop :=
  ∀ s o s' t, m s = (o, s') → Recognizes s t → Recognizes s' t.
(** A registration that succeeds has added the kind. *)
Definition registers (m : M runtime_Scheme unit) (t : gvk) : Prop :=
  ∀ s s', m s = (Ok tt, s') → Recognizes s' t.

Definition GroupVersion_core : string * string := ("", "v1").
Definition GroupVersion_authorization : string * string := ("authorization.k8s.io", "v1").
Definition GroupVersion_certmanager : string * string := ("cert-manager.io", "v1").

Class SchemeLaws : Prop := {
  AddKnownTypes_adds gv kinds : adds (AddKnownTypes gv kinds);
  AddKnownTypes_registers gv kinds kind : kind ∈ kinds → registers (AddKnownTypes gv kinds) (gv, kind);
  AddToGroupVersion_adds gv : adds (AddToGroupVersion gv);
  scheme_registers t :
    t ∈ [(GroupVersion_core, "Namespace"); (GroupVersion_authorization, "SubjectAccessReview")] →
    registers scheme_AddToScheme t;
  cmapi_adds : adds cmapi_AddToScheme;
  cmapi_registers : registers cmapi_AddToScheme (GroupVersion_certmanager, "CertificateRequest");
  sb_AddToScheme_nil s : sb_AddToScheme sb_nil s = (Ok tt, s);
  (** The stored functions run in order up to the first that fails. *)
  sb_AddToScheme_Register sb fs s :
    sb_AddToScheme (sb_Register sb fs) s =
      (_ ← sb_AddToScheme sb; for_range fs tt (λ _ f, f)) s }.

(** ** The package *)

(** Its variables, and their values before [init].  [localSchemeBuilder] is a pointer to [SchemeBuilder], and
    [AddToScheme] a method value that holds the pointer, so it runs what has
    been registered by the time it is called. *)
Record Vars := { v_SchemeBuilder : SchemeBuilder; v_GlobalScheme : option runtime_Scheme }.

Definition Vars_zero : Vars := {| v_SchemeBuilder := sb_nil; v_GlobalScheme := None |}.

Definition addKnownTypes : M runtime_Scheme unit :=
  _ ← AddKnownTypes SchemeGroupVersion ["CertificateRequestPolicy"; "CertificateRequestPolicyList"];
  AddToGroupVersion SchemeGroupVersion.

Definition localSchemeBuilder_Register : M Vars unit := λ v,
  (Ok tt, {| v_SchemeBuilder := sb_Register (v_SchemeBuilder v) [addKnownTypes];
             v_GlobalScheme := v_GlobalScheme v |}).
Definition NewGlobalScheme : M Vars unit := λ v,
  (Ok tt, {| v_SchemeBuilder := v_SchemeBuilder v; v_GlobalScheme := Some NewScheme |}).

(** [if err := add(GlobalScheme); err != nil { panic(fmt.Sprintf(...)) }]. *)
Definition mustAdd (what : string) (add : SchemeBuilder → M runtime_Scheme unit) : M Vars unit := λ v,
  match v_GlobalScheme v with
  | None => (Panic "invalid memory address or nil pointer dereference", v)
  | Some sch =>
      let '(o, sch) := add (v_SchemeBuilder v) sch in
      (match o with
       | Err err => Panic ("failed to add " +:+ what +:+ " scheme: " +:+ error_Error err)
       | r => r
       end,
       {| v_SchemeBuilder := v_SchemeBuilder v; v_GlobalScheme := Some sch |})
  end.

Definition init : M Vars unit :=
  _ ← localSchemeBuilder_Register;
  _ ← NewGlobalScheme;
  _ ← mustAdd "k8s.io" (λ _, scheme_AddToScheme);
  _ ← mustAdd "cert-manager.io" (λ _, cmapi_AddToScheme);
  mustAdd "policy.cert-manager.io" sb_AddToScheme.

(** ** What the program can rely on *)
Context `{!SchemeLaws}.

Lemma mustAdd_Ok what add v v' sch :
  mustAdd what add v = (Ok tt, v') → v_GlobalScheme v = Some sch →
  ∃ sch', add (v_SchemeBuilder v) sch = (Ok tt, sch') ∧
    v' = {| v_SchemeBuilder := v_SchemeBuilder v; v_GlobalScheme := Some sch' |}.
Proof.
  unfold mustAdd. intros Hrun E. rewrite E in Hrun.
  destruct (add _ sch) as [[[]| |] sch']; [|done..]. exists sch'. by injection Hrun as <-.
Qed.
Lemma mustAdd_no_error what add v e v' : mustAdd what add v ≠ (Err e, v').
Proof. unfold mustAdd. repeat case_match; by intros [=]. Qed.
Lemma bind_no_error {S A B} (m : M S A) (f : A → M S B) :
  (∀ s e s', m s ≠ (Err e, s')) → (∀ a s e s', f a s ≠ (Err e, s')) →
  ∀ s e s', (m ≫= f) s ≠ (Err e, s').
Proof.
  intros Hm Hf s e s'. rewrite M_bind_step. pose proof (Hm s) as Hs.
  destruct (m s) as [[a|e'|w] s1]; [apply Hf|by edestruct Hs|by intros [=]].
Qed.
Lemma init_no_error v e v' : init v ≠ (Err e, v').
Proof.
  unfold init. revert v e v'.
  repeat (apply bind_no_error; [try apply mustAdd_no_error; by intros ??? [=]|intros _]).
  apply mustAdd_no_error.
Qed.

Lemma addKnownTypes_adds : adds addKnownTypes.
Proof.
  intros s o s' t. unfold addKnownTypes. rewrite M_bind_step.
  destruct (AddKnownTypes _ _ s) as [r s1] eqn:E1. intros Hrun Ht.
  pose proof (AddKnownTypes_adds _ _ _ _ _ _ E1 Ht) as Ht1.
  destruct r; simplify_eq; [|done..]. by eapply AddToGroupVersion_adds.
Qed.
Lemma addKnownTypes_registers kind :
  kind ∈ ["CertificateRequestPolicy"; "CertificateRequestPolicyList"] →
  registers addKnownTypes (SchemeGroupVersion, kind).
Proof.
  intros Hk s s' ([] & s1 & Hadd & Hrest)%M_bind_Ok.
  eapply AddToGroupVersion_adds; [done|]. by eapply AddKnownTypes_registers.
Qed.
(** [AddToScheme], whose builder the package registered its function in. *)
Lemma AddToScheme_Ok s s' :
  sb_AddToScheme (sb_Register sb_nil [addKnownTypes]) s = (Ok tt, s') → addKnownTypes s = (Ok tt, s').
Proof.
  rewrite sb_AddToScheme_Register, M_bind_step, sb_AddToScheme_nil, for_range_cons.
  by intros ([] & s1 & Hadd & [_ ->]%M_ret_Ok)%M_bind_Ok.
Qed.

(** The kinds the manager's client reads and writes. *)
Definition clientKinds : list gvk :=
  [(GroupVersion_core, "Namespace"); (GroupVersion_authorization, "SubjectAccessReview");
   (GroupVersion_certmanager, "CertificateRequest");
   (SchemeGroupVersion, "CertificateRequestPolicy"); (SchemeGroupVersion, "CertificateRequestPolicyList")].

(** The package either ends the process while it is loaded or leaves a scheme
    that recognises every kind the program's client is used with. *)
Lemma init_scheme o v' :
  init Vars_zero = (o, v') →
  (∃ why, o = Panic why) ∨
  (o = Ok tt ∧ ∃ sch, v_GlobalScheme v' = Some sch ∧ Forall (Recognizes sch) clientKinds).
Proof.
  intros Hrun. destruct o as [[]|e|why]; [right|by apply init_no_error in Hrun|by left; eexists].
  split; [done|].
  apply M_bind_Ok in Hrun as ([] & v1 & [= <-] & Hrun).
  apply M_bind_Ok in Hrun as ([] & v2 & [= <-] & Hrun).
  apply M_bind_Ok in Hrun as ([] & v3 & H1 & Hrun).
  apply (mustAdd_Ok _ _ _ _ NewScheme) in H1 as (s1 & H1 & ->); [|done].
  apply M_bind_Ok in Hrun as ([] & v4 & H2 & H3).
  apply (mustAdd_Ok _ _ _ _ s1) in H2 as (s2 & H2 & ->); [|done].
  apply (mustAdd_Ok _ _ _ _ s2) in H3 as (s3 & H3%AddToScheme_Ok & ->); [|done].
  exists s3. split; [done|]. repeat apply Forall_cons_2; [..|by apply Forall_nil].
  1,2: eapply addKnownTypes_adds; [exact H3|]; eapply cmapi_adds; [exact H2|];
    eapply scheme_registers; [|exact H1]; set_solver.
  - eapply addKnownTypes_adds; [exact H3|]. by eapply cmapi_registers.
  - eapply addKnownTypes_registers; [|exact H3]. set_solver.
  - eapply addKnownTypes_registers; [|exact H3]. set_solver.
Qed.
End scheme.

(** ** The laws hold of a scheme that is the list of its kinds *)
Module SchemeWitnesses.

Definition add (ts : list gvk) : M (list gvk) unit := λ s, (Ok tt, ts ++ s).
#[export] Instance list_SchemeLib : SchemeLib := {
  runtime_Scheme := list gvk;
  NewScheme := [];
  Recognizes s t := t ∈ s;
  AddKnownTypes gv kinds := add (pair gv <$> kinds);
  AddToGroupVersion gv := add [(gv, "WatchEvent")];
  scheme_AddToScheme :=
    add [(GroupVersion_core, "Namespace"); (GroupVersion_authorization, "SubjectAccessReview")];
  cmapi_AddToScheme := add [(GroupVersion_certmanager, "CertificateRequest")];
  SchemeBuilder := list (M (list gvk) unit);
  sb_nil := [];
  sb_Register := app;
  sb_AddToScheme sb := for_range sb tt (λ _ f, f) }.

Lemma add_adds ts : adds (add ts).
Proof. intros s o s' t [= <- <-] Ht. apply elem_of_app. by right. Qed.
Lemma add_registers ts t : t ∈ ts → registers (add ts) t.
Proof. intros Ht s s' [= <-]. apply elem_of_app. by left. Qed.

#[export] Instance list_SchemeLaws : SchemeLaws.
Proof.
  split; try (intros; apply add_adds).
  - intros gv kinds kind Hk. by apply add_registers, list_elem_of_fmap_2.
  - intros t Ht. by apply add_registers.
  - apply add_registers. by left.
  - done.
  - intros sb fs s. simpl. induction sb as [|f sb IH] in s |- *; [done|]. simpl.
    unfold mbind, M_bind in *. by destruct (f s) as [[[]| |] s1]; [apply IH|..].
Qed.

Example init_loads :
  init Vars_zero = (Ok tt, {| v_SchemeBuilder := [addKnownTypes];
    v_GlobalScheme := Some ((SchemeGroupVersion, "WatchEvent") ::
      (pair SchemeGroupVersion <$> ["CertificateRequestPolicy"; "CertificateRequestPolicyList"]) ++
      [(GroupVersion_certmanager, "CertificateRequest"); (GroupVersion_core, "Namespace");
       (GroupVersion_authorization, "SubjectAccessReview")]) |}).
Proof. reflexivity. Qed.
End SchemeWitnesses.
