(* ===== verification/Approver.v ===== *)
(** * The interfaces of pkg/approver and pkg/approver/manager

    What an approver plugin offers ([Interface]: an evaluator, a webhook and a
    reconciler) and the responses it gives.  The methods run over the state
    [S] of the process that hosts them. *)
From S2P Require Import Prelude GoStrings K8s PolicyAPI.

(** ** pkg/approver/evaluator.go: [EvaluationResult] is a bool. *)
Definition EvaluationResult : Set := bool.
Definition ResultDenied : EvaluationResult := false.
Definition ResultNotDenied : EvaluationResult := true.

Record EvaluationResponse := { ev_Result : EvaluationResult; ev_Message : string }.

Definition Evaluator (S : Type) : Type :=
  CertificateRequestPolicy → CertificateRequest → M S EvaluationResponse.

(** ** pkg/approver/webhook.go *)
Record WebhookValidationResponse := {
  wv_Allowed : bool;
  wv_Errors : ErrorList;
  wv_Warnings : list string }.

Definition Webhook (S : Type) : Type :=
  CertificateRequestPolicy → M S WebhookValidationResponse.

(** ** pkg/approver/reconciler.go

    [EnqueueChan] answers a channel, known here by its identity; [None] is nil. *)
Record ReconcilerReadyResponse := {
  rr_Ready : bool;
  rr_Errors : ErrorList;
  rr_Result : Result }.

Record Reconciler (S : Type) := {
  rec_Ready : CertificateRequestPolicy → M S ReconcilerReadyResponse;
  rec_EnqueueChan : option nat }.
Arguments rec_Ready {S} _ _ _.
Arguments rec_EnqueueChan {S} _.

(** ** pkg/approver/approver.go

    RegisterFlags works on the flag sets of a library and not on the state of
    the process: [Flags] and [Cmd] take it as a function beside the record. *)
Record Interface (S : Type) := {
  ap_Name : string;
  ap_Prepare : M S unit;
  ap_Evaluator : Evaluator S;
  ap_Webhook : Webhook S;
  ap_Reconciler : Reconciler S }.
Arguments ap_Name {S} _.
Arguments ap_Prepare {S} _ _.
Arguments ap_Evaluator {S} _ _ _ _.
Arguments ap_Webhook {S} _ _ _.
Arguments ap_Reconciler {S} _.

(** ** pkg/approver/manager/manager.go: [ReviewResult] is an int, and the
    constants start at 1. *)
Module manager.
Definition ReviewResult : Set := Z.
Definition ResultApproved : ReviewResult := 1.
Definition ResultDenied : ReviewResult := 2.
Definition ResultUnprocessed : ReviewResult := 3.

Record ReviewResponse := { rv_Result : ReviewResult; rv_Message : string }.

(** [Interface]: the one method [Review]. *)
Definition Interface (S : Type) : Type := CertificateRequest → M S ReviewResponse.
End manager.

(** ** The verdict both core approvers end with *)
Section respond.
Context `{ErrorLib}.

(** [el.ToAggregate().Error()]: a method call on a nil interface panics. *)
Definition aggregateMessage (el : ErrorList) : outcome string :=
  match ToAggregate el with
  | Some a => Ok (agg_Error a)
  | None => Panic "invalid memory address or nil pointer dereference"
  end.

(** The tail of the two [Evaluate] methods: denied with the aggregated
    errors, or not denied. *)
Definition respond (el : ErrorList) : outcome EvaluationResponse :=
  if (0 <? length el)%nat then
    msg ← aggregateMessage el;
    mret {| ev_Result := ResultDenied; ev_Message := msg |}
  else mret {| ev_Result := ResultNotDenied; ev_Message := "" |}.

Lemma respond_spec `{!ErrorLibLaws} el :
  ∃ resp, respond el = Ok resp ∧ (ev_Result resp = ResultNotDenied ↔ el = []).
Proof.
  unfold respond, aggregateMessage. destruct el as [|e el]; simpl; [by eexists|].
  destruct (ToAggregate_cons e el) as (a & -> & _). simpl. by eexists.
Qed.
End respond.
