(* ===== verification/Validation.v ===== *)
(** * CEL validators and their cache: pkg/internal/approver/validation

    validator.go compiles and runs one CEL expression, cache.go keeps the
    compiled validators.  The CEL compiler and interpreter are parameters. *)
From S2P Require Import Prelude GoStrings K8s.

(** ** cel-go *)

(** The options [compile] creates its environment with. *)
Inductive EnvOption :=
  | cel_Types_CertificateRequest
  | cel_Variable (name type : string)
  | ext_Strings
  | ServiceAccountLib.

(** The message of certificaterequest.proto. *)
Record CelRequest := { cel_Name : string; cel_Namespace : string; cel_Username : string }.

Inductive CelInput :=
  | InString (s : string)
  | InRequest (r : CelRequest).

(** [env.Compile] answers an AST and [iss.Err()]; [env.Program] a program
    (nil is [None]) and an error; [Val_bool v] is the type assertion
    [v.Value().(bool)]. *)
Class CelLib := {
  cel_Env : Type;
  cel_Ast : Type;
  cel_Type : Type;
  cel_Program : Type;
  cel_Val : Type;
  NewEnv : list EnvOption → outcome cel_Env;
  env_Compile : cel_Env → string → cel_Ast * option error;
  OutputType : cel_Ast → cel_Type;
  BoolType : cel_Type;
  cel_Type_eq_dec : EqDecision cel_Type;
  cel_Type_String : cel_Type → string;
  env_Program : cel_Env → cel_Ast → option cel_Program * option error;
  program_Eval : cel_Program → gmap string CelInput → outcome cel_Val;
  Val_bool : cel_Val → option bool }.
#[export] Existing Instance cel_Type_eq_dec.

(** Documented: a program is returned with no error; a program made from a
    checked AST evaluates to a value of the AST's output type, or to an error;
    neither call panics. *)
Class CelLaws `{CelLib} := {
  NewEnv_no_panic opts w : NewEnv opts ≠ Panic w;
  env_Program_ok env ast p : env_Program env ast = (p, None) → is_Some p;
  program_Eval_bool env ast p vars :
    env_Program env ast = (Some p, None) → OutputType ast = BoolType →
    match program_Eval p vars with
    | Ok v => is_Some (Val_bool v)
    | Err _ => True
    | Panic _ => False
    end }.

(** ** validator.go *)
Section validator.
Context `{CelLib}.

Definition varSelf : string := "self".
Definition varRequest : string := "cr".

Record validator := { expression : string; program : option cel_Program }.

Definition env_options : list EnvOption :=
  [cel_Types_CertificateRequest;
   cel_Variable varSelf "string";
   cel_Variable varRequest "cm.io.policy.pkg.internal.approver.validation.CertificateRequest";
   ext_Strings;
   ServiceAccountLib].

(** The receiver is a pointer: the state of the call is the validator. *)
Definition compile : M validator unit := λ v,
  match program v with
  | Some _ => (Ok tt, v)
  | None =>
      match NewEnv env_options with
      | Err e => (Err e, v)
      | Panic w => (Panic w, v)
      | Ok env =>
          let '(ast, iss) := env_Compile env (expression v) in
          match iss with
          | Some e => (Err e, v)
          | None =>
              if decide (OutputType ast = BoolType) then
                let '(p, err) := env_Program env ast in
                (match err with Some e => Err e | None => Ok tt end,
                 {| expression := expression v; program := p |})
              else
                (Err (errors_New ("got " +:+ cel_Type_String (OutputType ast) +:+ ", wanted "
                   +:+ cel_Type_String BoolType +:+ " result type")), v)
          end
      end
  end.

(** Called through a pointer that may be nil. *)
Definition validator_Validate (v : option validator) (value : string)
    (request : CertificateRequest) : outcome bool :=
  match v with
  | None => Panic "invalid memory address or nil pointer dereference"
  | Some v =>
      match program v with
      | None => Err (errors_New "must compile first")
      | Some p =>
          let vars : gmap string CelInput :=
            {[ varSelf := InString value;
               varRequest := InRequest {|
                 cel_Name := cr_Name request;
                 cel_Namespace := cr_Namespace request;
                 cel_Username := crs_Username (cr_Spec request) |} ]} in
          match program_Eval p vars with
          | Err e => Err e
          | Panic w => Panic w
          | Ok out =>
              match Val_bool out with
              | Some b => Ok b
              | None => Panic "interface conversion"
              end
          end
      end
  end.
End validator.

(** ** cache.go *)

(** The interface [Cache] together with the [Validator]s it hands out. *)
Class Cache (S : Type) := {
  Validator : Type;
  Get : string → M S Validator;
  Validate : Validator → string → CertificateRequest → outcome bool }.

(** What a cache promises its clients: in a state it can be in, [Get] answers
    for an expression what it always answers for it, and validators do not
    panic. *)
Class CacheLaws (S : Type) `{Cache S} := {
  cache_ok : S → Prop;
  Get_outcome : string → outcome Validator;
  Get_returns expr : returns cache_ok (Get expr) (Get_outcome expr);
  Get_outcome_no_panic expr w : Get_outcome expr ≠ Panic w;
  Validate_no_panic expr v value request w :
    Get_outcome expr = Ok v → Validate v value request ≠ Panic w }.

Section cache.
Context `{CelLib}.

Record cacheEntry := { ce_validator : option validator; ce_err : option error }.

(** [sync.Map] from expressions to entries. *)
Record cache := { c_m : gmap string cacheEntry }.

Definition m_Load (expr : string) (c : cache) : option cacheEntry := c_m c !! expr.
Definition m_LoadOrStore (expr : string) (ce : cacheEntry) (c : cache) : cacheEntry * cache :=
  match c_m c !! expr with
  | Some ce' => (ce', c)
  | None => (ce, {| c_m := <[expr:=ce]> (c_m c) |})
  end.

(** [return ce.validator, ce.err]. *)
Definition entry_outcome (ce : cacheEntry) : outcome (option validator) :=
  match ce_err ce with
  | Some e => Err e
  | None => Ok (ce_validator ce)
  end.

(** The entry [Get] makes for an expression it has not seen. *)
Definition newEntry (expr : string) : outcome cacheEntry :=
  match compile {| expression := expr; program := None |} with
  | (Ok _, v) => Ok {| ce_validator := Some v; ce_err := None |}
  | (Err e, _) => Ok {| ce_validator := None; ce_err := Some e |}
  | (Panic w, _) => Panic w
  end.

Definition cache_Get (expr : string) : M cache (option validator) := λ c,
  match m_Load expr c with
  | Some ce => (entry_outcome ce, c)
  | None =>
      match newEntry expr with
      | Ok fresh =>
          let '(ce, c') := m_LoadOrStore expr fresh c in (entry_outcome ce, c')
      | Err e => (Err e, c)
      | Panic w => (Panic w, c)
      end
  end.

Definition NewCache : cache := {| c_m := ∅ |}.

#[export] Instance cache_Cache : Cache cache := {
  Validator := option validator;
  Get := cache_Get;
  Validate := validator_Validate }.
End cache.

(** ** Properties *)
Section proofs.
Context `{CelLaws}.

(** An entry is sound for an expression when compiling the expression gives it. *)
Definition coherent (c : cache) : Prop :=
  ∀ expr ce, c_m c !! expr = Some ce → newEntry expr = Ok ce.

(** What [Get] always answers for an expression. *)
Definition compiled (expr : string) : outcome (option validator) :=
  ce ← newEntry expr; entry_outcome ce.

(** Compiling never panics and leaves a runnable program when it succeeds. *)
Lemma compile_spec expr o v :
  compile {| expression := expr; program := None |} = (o, v) →
  match o with
  | Ok _ => ∃ env ast p, v = {| expression := expr; program := Some p |} ∧
      env_Program env ast = (Some p, None) ∧ OutputType ast = BoolType
  | Err _ => True
  | Panic _ => False
  end.
Proof.
  unfold compile; simpl. intros E.
  destruct (NewEnv env_options) as [env| |w] eqn:Henv; simplify_eq; [|done|by eapply NewEnv_no_panic].
  destruct (env_Compile env expr) as [ast [e|]]; simplify_eq; [done|].
  case_decide; simplify_eq; [|done].
  destruct (env_Program env ast) as [p [e|]] eqn:Hp; simplify_eq; [done|].
  destruct (env_Program_ok _ _ _ Hp) as [p' ->]. by exists env, ast, p'.
Qed.

Lemma newEntry_Ok expr : ∃ ce, newEntry expr = Ok ce ∧
  match ce_err ce with
  | Some _ => ce_validator ce = None
  | None => ∃ env ast p, ce_validator ce = Some {| expression := expr; program := Some p |} ∧
      env_Program env ast = (Some p, None) ∧ OutputType ast = BoolType
  end.
Proof.
  unfold newEntry. destruct (compile _) as [o v] eqn:E. apply compile_spec in E.
  destruct o; simpl; [|by eexists|done].
  destruct E as (env & ast & p & -> & ? & ?). eexists; split; [done|]. naive_solver.
Qed.

Lemma cache_Get_hit expr ce c :
  c_m c !! expr = Some ce → cache_Get expr c = (entry_outcome ce, c).
Proof. intros E. unfold cache_Get, m_Load. by rewrite E. Qed.
Lemma cache_Get_miss expr ce c :
  c_m c !! expr = None → newEntry expr = Ok ce →
  cache_Get expr c = (entry_outcome ce, {| c_m := <[expr:=ce]> (c_m c) |}).
Proof. intros E Hce. unfold cache_Get, m_Load, m_LoadOrStore. by rewrite E, Hce. Qed.

Lemma cache_Get_coherent expr c :
  coherent c →
  ∃ ce c', newEntry expr = Ok ce ∧ cache_Get expr c = (compiled expr, c') ∧
    c_m c' = <[expr:=ce]> (c_m c) ∧ coherent c'.
Proof.
  intros Hc. destruct (newEntry_Ok expr) as (ce & Hce & _). exists ce.
  unfold compiled. rewrite Hce. simpl.
  destruct (c_m c !! expr) as [ce'|] eqn:E.
  - assert (ce' = ce) as -> by (apply Hc in E; congruence). exists c.
    split_and!; [done|by apply cache_Get_hit|by rewrite insert_id|done].
  - eexists. split_and!; [done|by apply cache_Get_miss|done|].
    intros expr' ce' Hl. simpl in Hl. destruct (decide (expr = expr')) as [<-|].
    + rewrite lookup_insert_eq in Hl. congruence.
    + rewrite lookup_insert_ne in Hl by done. by apply Hc.
Qed.

Lemma compiled_no_panic expr w : compiled expr ≠ Panic w.
Proof.
  unfold compiled. destruct (newEntry_Ok expr) as (ce & -> & _). simpl.
  unfold entry_outcome. by destruct (ce_err ce).
Qed.

Lemma compiled_Validate expr v value request w :
  compiled expr = Ok v → validator_Validate v value request ≠ Panic w.
Proof.
  unfold compiled. destruct (newEntry_Ok expr) as (ce & -> & Hce). simpl.
  unfold entry_outcome. destruct (ce_err ce); [done|]. intros [= <-].
  destruct Hce as (env & ast & p & -> & Hp & Hty). simpl. intros Hw.
  set (vars := insert _ _ _) in Hw.
  pose proof (program_Eval_bool env ast p vars Hp Hty) as He.
  destruct (program_Eval p vars) as [out| |]; [|done..].
  destruct He as [b Hb]. by rewrite Hb in Hw.
Qed.

(** The cache keeps its promise. *)
#[export, refine] Instance cache_CacheLaws : CacheLaws cache := {
  cache_ok := coherent;
  Get_outcome := compiled }.
Proof.
  - intros expr c Hc. destruct (cache_Get_coherent expr c Hc) as (_ & c' & _ & ? & _ & ?). eauto.
  - apply compiled_no_panic.
  - intros. by eapply compiled_Validate.
Defined.

Lemma NewCache_coherent : coherent NewCache.
Proof. intros expr ce Hl. unfold NewCache in Hl; simpl in Hl. by rewrite lookup_empty in Hl. Qed.

(** [C29] The cache interface holds of the implementation: from a coherent
    cache, in particular the empty one, [Get] answers what compiling the
    expression answers, adds that entry and no other, keeps the cache
    coherent, and what it answers never panics when it validates. *)
Theorem cache_Get_correct expr c (Hc : coherent c) :
  ∃ ce c', newEntry expr = Ok ce ∧ cache_Get expr c = (entry_outcome ce, c') ∧
    c_m c' = <[expr:=ce]> (c_m c) ∧ coherent c' ∧
    (∀ w, entry_outcome ce ≠ Panic w) ∧
    (∀ v value request w, entry_outcome ce = Ok v → validator_Validate v value request ≠ Panic w).
Proof.
  destruct (cache_Get_coherent expr c Hc) as (ce & c' & Hce & Hget & Hm & Hc').
  pose proof (compiled_no_panic expr) as Hnp. pose proof (compiled_Validate expr) as Hv.
  unfold compiled in Hget, Hnp, Hv. rewrite Hce in Hget, Hnp, Hv. simpl in *.
  exists ce, c'. by split_and!.
Qed.
End proofs.
