(* ===== verification/Samples.v ===== *)
(** * Concrete instances of the library parameters

    Small functions that satisfy the laws the development assumes of library
    code.  The witnesses instantiate the theorems with them. *)
From S2P Require Import Prelude GoStrings K8s PolicyAPI Validation.

Module Sample.
#[export] Instance sample_ErrorLib : ErrorLib := {
  ToAggregate el :=
    match el with
    | [] => None
    | _ => Some {| agg_Error := "invalid";
                   agg_Errors := (λ _, errors_New "invalid") <$> el |}
    end;
  NewAggregate l :=
    match list_omap _ _ id l with
    | [] => None
    | e :: _ => Some e
    end }.
#[export, refine] Instance sample_ErrorLibLaws : ErrorLibLaws := {}.
Proof.
  - done.
  - intros e el. by eexists.
  - simpl. induction l as [|[e|] l IH]; simpl; rewrite ?Forall_cons; [by rewrite Forall_nil|naive_solver..].
Defined.

#[export] Instance sample_X509Lib : X509Lib := {
  URL := string;
  URL_String := id }.

(** The first byte of a request says which CSR it holds. *)
Definition sample_subject : pkix_Name :=
  Build_pkix_Name [] ["org"] [] [] [] [] [] "" "a.example.com".
Definition sample_csr (key : PublicKey) : x509_CertificateRequest :=
  {| csr_Subject := sample_subject; csr_DNSNames := ["a.example.com"];
     csr_EmailAddresses := []; csr_IPAddresses := [[10; 0; 0; 1]];
     csr_URIs := []; csr_PublicKey := key |}.
#[export] Instance sample_PKILib : PKILib := {
  DecodeX509CertificateRequestBytes b :=
    match b with
    | [1] => Ok (sample_csr (rsa_PublicKey_ptr (2 ^ 2047)))
    | [2] => Ok (sample_csr (ed25519_PublicKey []))
    | _ => Err (foreign_error "" "error decoding certificate request PEM block")
    end;
  metav1_Duration_String d := default "nil" (Duration_String <$> d) }.

#[export] Instance sample_UnicodeTables : UnicodeTables := λ _, true.

#[export] Instance sample_LabelsLib : LabelsLib := {
  Selector := gmap string string;
  LabelSelectorAsSelector m :=
    match m !! "" with
    | Some _ => Err (foreign_error "" "name part must be non-empty")
    | None => Ok m
    end;
  selector_Matches sel labels := bool_decide (sel ⊆ labels) }.

#[export] Instance sample_ClientLib : ClientLib := {
  IgnoreNotFound e :=
    match e with foreign_error "NotFound" _ => None | _ => Some e end }.

(** An expression language with the literals [true] and [false], and with
    [self == 'x'] written as ["=x"]. *)
#[export] Instance sample_CelLib : CelLib := {
  cel_Env := unit;
  cel_Ast := string;
  cel_Type := bool;
  cel_Program := string;
  cel_Val := bool;
  NewEnv _ := Ok tt;
  env_Compile _ e := (e, if bool_decide (e = "") then Some (errors_New "syntax error") else None);
  OutputType e := bool_decide (e ≠ "self");
  BoolType := true;
  cel_Type_eq_dec := _;
  cel_Type_String b := if b then "bool" else "string";
  env_Program _ e := (Some e, None);
  program_Eval e vars :=
    match e, vars !! "self" with
    | "true", _ => Ok true
    | "false", _ => Ok false
    | String "=" x, Some (InString s) => Ok (bool_decide (x = s))
    | _, _ => Err (errors_New "no such overload")
    end;
  Val_bool := Some }.
#[export, refine] Instance sample_CelLaws : CelLaws := {}.
Proof.
  - done.
  - intros env ast p [= <-]. by eexists.
  - intros env ast p vars _ _. simpl. by repeat case_match.
Defined.

(** A request and a policy to vary. *)
Definition sample_request (bytes : list Z) (duration : option Z) : CertificateRequest :=
  {| cr_ObjectMeta := {| om_Name := "cr"; om_Namespace := "ns"; om_Generation := 1 |};
     cr_Spec := {| crs_Duration := duration;
                   crs_IssuerRef := {| ref_Name := "ca"; ref_Kind := ""; ref_Group := "" |};
                   crs_Request := bytes; crs_IsCA := false; crs_Usages := ["server auth"];
                   crs_Username := "system:serviceaccount:ns:sa"; crs_UID := "";
                   crs_Groups := []; crs_Extra := ∅ |};
     cr_Status := {| crst_Conditions := [] |} |}.

Definition sample_values (l : list string) : option CertificateRequestPolicyAllowedStringSlice :=
  Some {| asl_Values := Some l; asl_Required := None; asl_Validations := [] |}.
Definition sample_allowed (rules : list ValidationRule) : CertificateRequestPolicyAllowed :=
  {| al_CommonName := Some {| als_Value := Some "*.example.com"; als_Required := Some true;
                              als_Validations := rules |};
     al_DNSNames := sample_values ["*.example.com"];
     al_IPAddresses := sample_values ["10.*"];
     al_URIs := None; al_EmailAddresses := None; al_IsCA := None;
     al_Usages := Some ["server auth"; "client auth"];
     al_Subject := Some (Build_CertificateRequestPolicyAllowedX509Subject
       (sample_values ["*"]) None None None None None None None) |}.
Definition sample_constraints (alg : string) : CertificateRequestPolicyConstraints :=
  {| con_MinDuration := Some 3600000000000; con_MaxDuration := Some 86400000000000;
     con_PrivateKey := Some {| pk_Algorithm := Some alg; pk_MinSize := Some 2048;
                               pk_MaxSize := None |} |}.
Definition sample_condition (type status : string) : CertificateRequestPolicyCondition :=
  {| pc_Type := type; pc_Status := status; pc_LastTransitionTime := Some 0;
     pc_Reason := type; pc_Message := ""; pc_ObservedGeneration := 1 |}.
Definition sample_policy (name : string) (allowed : option CertificateRequestPolicyAllowed)
    (constraints : option CertificateRequestPolicyConstraints) : CertificateRequestPolicy :=
  {| p_ObjectMeta := {| om_Name := name; om_Namespace := ""; om_Generation := 1 |};
     p_Spec := {| ps_Allowed := allowed; ps_Constraints := constraints; ps_Plugins := ∅;
                  ps_Selector := {| sel_IssuerRef := Some {| isel_Name := Some "c*";
                                      isel_Kind := None; isel_Group := None |};
                                    sel_Namespace := None |} |};
     p_Status := {| pst_Conditions := [sample_condition "Ready" "True"] |} |}.
End Sample.
