(* ===== verification/Allowed.v ===== *)
(** * The "allowed" approver: pkg/internal/approver/allowed

    Evaluation of a request against the allowed attributes of a policy
    (evaluator.go) and admission of the policy itself (validation.go).  Both
    are clients of the validator cache through its interface. *)
From S2P Require Import Prelude GoStrings Wildcard K8s PolicyAPI Approver Validation.

Section allowed.
Context {S : Type} `{Cache S} `{PKILib} `{ErrorLib}.

(** ** evaluator.go *)

(** The body of the loop of [runValidations]. *)
Definition runValidation (request : CertificateRequest) (s : string) (fldPath : Path)
    (i : nat) (v : ValidationRule) : M S ErrorList :=
  got ← try (Get (Rule v));
  match got with
  | inr err => mret [InternalError (Index fldPath i) err]
  | inl validator =>
      valid ← try (pure_call (Validate validator s request));
      match valid with
      | inr err => mret [InternalError (Index fldPath i) err]
      | inl true => mret []
      | inl false =>
          let detail := default ("failed rule: " +:+ Rule v) (Message v) in
          mret [Invalid (Index fldPath i) (AnyString s) detail]
      end
  end.
Definition runValidations (request : CertificateRequest) (validations : list ValidationRule)
    (s : string) (fldPath : Path) : M S ErrorList :=
  collect_from 0 (runValidation request s fldPath) validations.

(** [crp != nil && crp.Required != nil && *crp.Required]. *)
Definition isRequired (required : option bool) : bool := default false required.

Definition evaluateString (request : CertificateRequest) (s : string)
    (crp : option CertificateRequestPolicyAllowedString) (fldPath : Path) : M S ErrorList :=
  if (String.length s =? 0)%nat then
    if isRequired (crp ≫= als_Required)
    then mret [Required (Child fldPath "required" []) (strconv_FormatBool true)]
    else mret []
  else
    match crp with
    | None => mret [Invalid fldPath (AnyString s) "no allowed value"]
    | Some crp =>
        if bool_decide (als_Value crp = None) && (length (als_Validations crp) =? 0)%nat
        then mret [Invalid fldPath (AnyString s) "no allowed value"]
        else
          let el :=
            match als_Value crp with
            | Some value =>
                if negb (WildcardMatches value s)
                then [Invalid (Child fldPath "value" []) (AnyString s) value] else []
            | None => []
            end in
          if (0 <? length (als_Validations crp))%nat then
            el' ← runValidations request (als_Validations crp) s (Child fldPath "validations" []);
            mret (el ++ el')
          else mret el
    end.

Definition evaluateSlice (request : CertificateRequest) (s : list string)
    (crp : option CertificateRequestPolicyAllowedStringSlice) (fldPath : Path) : M S ErrorList :=
  if (length s =? 0)%nat then
    if isRequired (crp ≫= asl_Required)
    then mret [Required (Child fldPath "required" []) (strconv_FormatBool true)]
    else mret []
  else
    match crp with
    | None => mret [Invalid fldPath (AnyStrings s) "no allowed values"]
    | Some crp =>
        if bool_decide (asl_Values crp = None) && (length (asl_Validations crp) =? 0)%nat
        then mret [Invalid fldPath (AnyStrings s) "no allowed values"]
        else
          let el :=
            match asl_Values crp with
            | Some values =>
                if negb (WildcardSubset values s)
                then [Invalid (Child fldPath "values" []) (AnyStrings s) (strings_Join values ", ")]
                else []
            | None => []
            end in
          if (0 <? length (asl_Validations crp))%nat then
            let fldPath := Child fldPath "validations" [] in
            el' ← collect (λ v, runValidations request (asl_Validations crp) v fldPath) s;
            mret (el ++ el')
          else mret el
    end.

Definition evaluateBool (b : bool) (crp : option bool) (fldPath : Path) : ErrorList :=
  if b then
    match crp with
    | None => [Invalid fldPath (AnyBool b) "nil"]
    | Some crp => if negb crp then [Invalid fldPath (AnyBool b) (strconv_FormatBool crp)] else []
    end
  else [].

Record evaluator := {
  e_request : CertificateRequest;
  e_csr : x509_CertificateRequest;
  e_allowed : CertificateRequestPolicyAllowed;
  e_fldPath : Path }.

Record subjectEvaluator := {
  se_request : CertificateRequest;
  se_sub : pkix_Name;
  se_allowed : CertificateRequestPolicyAllowedX509Subject;
  se_fldPath : Path }.

Definition CommonName (e : evaluator) : M S ErrorList :=
  evaluateString (e_request e) (sub_CommonName (csr_Subject (e_csr e)))
    (al_CommonName (e_allowed e)) (Child (e_fldPath e) "commonName" []).
Definition DNSNames (e : evaluator) : M S ErrorList :=
  evaluateSlice (e_request e) (csr_DNSNames (e_csr e))
    (al_DNSNames (e_allowed e)) (Child (e_fldPath e) "dnsNames" []).
Definition IPAddresses (e : evaluator) : M S ErrorList :=
  let ips := IP_String <$> csr_IPAddresses (e_csr e) in
  evaluateSlice (e_request e) ips
    (al_IPAddresses (e_allowed e)) (Child (e_fldPath e) "ipAddresses" []).
Definition URIs (e : evaluator) : M S ErrorList :=
  let uris := URL_String <$> csr_URIs (e_csr e) in
  evaluateSlice (e_request e) uris
    (al_URIs (e_allowed e)) (Child (e_fldPath e) "uris" []).
Definition EmailAddresses (e : evaluator) : M S ErrorList :=
  evaluateSlice (e_request e) (csr_EmailAddresses (e_csr e))
    (al_EmailAddresses (e_allowed e)) (Child (e_fldPath e) "emailAddresses" []).
Definition IsCA (e : evaluator) : ErrorList :=
  evaluateBool (crs_IsCA (cr_Spec (e_request e)))
    (al_IsCA (e_allowed e)) (Child (e_fldPath e) "isCA" []).
Definition Usages (e : evaluator) : ErrorList :=
  let requestUsages := crs_Usages (cr_Spec (e_request e)) in
  if (0 <? length requestUsages)%nat then
    match al_Usages (e_allowed e) with
    | None => [Invalid (Child (e_fldPath e) "usages" []) (AnyStrings requestUsages) "nil"]
    | Some policyUsages =>
        if negb (WildcardSubset policyUsages requestUsages)
        then [Invalid (Child (e_fldPath e) "usages" []) (AnyStrings requestUsages)
                (strings_Join policyUsages ", ")]
        else []
    end
  else [].
Definition Subject (e : evaluator) : subjectEvaluator :=
  {| se_request := e_request e;
     se_sub := csr_Subject (e_csr e);
     se_allowed := default Subject_zero (al_Subject (e_allowed e));
     se_fldPath := Child (e_fldPath e) "subject" [] |}.

Definition Organization (e : subjectEvaluator) : M S ErrorList :=
  evaluateSlice (se_request e) (sub_Organization (se_sub e))
    (als_Organizations (se_allowed e)) (Child (se_fldPath e) "organizations" []).
Definition Country (e : subjectEvaluator) : M S ErrorList :=
  evaluateSlice (se_request e) (sub_Country (se_sub e))
    (als_Countries (se_allowed e)) (Child (se_fldPath e) "countries" []).
Definition OrganizationalUnit (e : subjectEvaluator) : M S ErrorList :=
  evaluateSlice (se_request e) (sub_OrganizationalUnit (se_sub e))
    (als_OrganizationalUnits (se_allowed e)) (Child (se_fldPath e) "organizationalUnits" []).
Definition Locality (e : subjectEvaluator) : M S ErrorList :=
  evaluateSlice (se_request e) (sub_Locality (se_sub e))
    (als_Localities (se_allowed e)) (Child (se_fldPath e) "localities" []).
Definition Province (e : subjectEvaluator) : M S ErrorList :=
  evaluateSlice (se_request e) (sub_Province (se_sub e))
    (als_Provinces (se_allowed e)) (Child (se_fldPath e) "provinces" []).
Definition StreetAddress (e : subjectEvaluator) : M S ErrorList :=
  evaluateSlice (se_request e) (sub_StreetAddress (se_sub e))
    (als_StreetAddresses (se_allowed e)) (Child (se_fldPath e) "streetAddresses" []).
Definition PostalCode (e : subjectEvaluator) : M S ErrorList :=
  evaluateSlice (se_request e) (sub_PostalCode (se_sub e))
    (als_PostalCodes (se_allowed e)) (Child (se_fldPath e) "postalCodes" []).
Definition SerialNumber (e : subjectEvaluator) : M S ErrorList :=
  evaluateString (se_request e) (sub_SerialNumber (se_sub e))
    (als_SerialNumber (se_allowed e)) (Child (se_fldPath e) "serialNumber" []).

(** [evaluateFns]: the checks in the order they run. *)
Definition evaluateFns (evaluate : evaluator) : list (M S ErrorList) :=
  let evaluateSubject := Subject evaluate in
  [CommonName evaluate;
   DNSNames evaluate;
   IPAddresses evaluate;
   URIs evaluate;
   EmailAddresses evaluate;
   pure_call (Ok (IsCA evaluate));
   pure_call (Ok (Usages evaluate));
   Organization evaluateSubject;
   Country evaluateSubject;
   OrganizationalUnit evaluateSubject;
   Locality evaluateSubject;
   Province evaluateSubject;
   StreetAddress evaluateSubject;
   PostalCode evaluateSubject;
   SerialNumber evaluateSubject].

Definition Evaluate (policy : CertificateRequestPolicy) (request : CertificateRequest)
    : M S EvaluationResponse :=
  let fldPath := NewPath "spec" ["allowed"] in
  let allowed := default Allowed_zero (ps_Allowed (p_Spec policy)) in
  csr ← pure_call (DecodeX509CertificateRequestBytes (crs_Request (cr_Spec request)));
  let evaluate := {| e_request := request; e_csr := csr;
                     e_allowed := allowed; e_fldPath := fldPath |} in
  el ← collect (λ fn, fn) (evaluateFns evaluate);
  pure_call (respond el).

(** ** validation.go *)

(** One round of the loop over the rules of a field. *)
Definition validateRule (path : Path) (i : nat) (validation : ValidationRule) : M S ErrorList :=
  got ← try (Get (Rule validation));
  match got with
  | inr err =>
      mret [Invalid (Index (Child path "validations" []) i) (AnyString (Rule validation))
              (error_Error err)]
  | inl _ => mret []
  end.

Definition validateStringSlice
    (pair : Path * option CertificateRequestPolicyAllowedStringSlice) : M S ErrorList :=
  match pair with
  | (_, None) => mret []
  | (path, Some slice) =>
      let el :=
        if isRequired (asl_Required slice) then
          if bool_decide (asl_Values slice = None) && (length (asl_Validations slice) =? 0)%nat
          then [Required (Child path "values" [])
                  "at least one of 'values' or 'validations' must be defined if field is 'required'"]
          else []
        else [] in
      el' ← collect_from 0 (validateRule path) (asl_Validations slice);
      mret (el ++ el')
  end.

Definition validateString
    (pair : Path * option CertificateRequestPolicyAllowedString) : M S ErrorList :=
  match pair with
  | (_, None) => mret []
  | (path, Some string) =>
      let el :=
        if isRequired (als_Required string) then
          if bool_decide (als_Value string = None) && (length (als_Validations string) =? 0)%nat
          then [Required (Child path "value" [])
                  "at least one of 'value' or 'validations' must be defined if field is 'required'"]
          else []
        else [] in
      el' ← collect_from 0 (validateRule path) (als_Validations string);
      mret (el ++ el')
  end.

(** The local variables [stringSlices] and [strings]. *)
Definition stringSlices (allowed : CertificateRequestPolicyAllowed) (fldPath : Path)
    : list (Path * option CertificateRequestPolicyAllowedStringSlice) :=
  [(Child fldPath "dnsNames" [], al_DNSNames allowed);
   (Child fldPath "ipAddresses" [], al_IPAddresses allowed);
   (Child fldPath "uris" [], al_URIs allowed);
   (Child fldPath "emailAddresses" [], al_EmailAddresses allowed)] ++
  match al_Subject allowed with
  | None => []
  | Some allowedSub =>
      let fldPathSub := Child fldPath "subject" [] in
      [(Child fldPathSub "organizations" [], als_Organizations allowedSub);
       (Child fldPathSub "countries" [], als_Countries allowedSub);
       (Child fldPathSub "organizationalUnits" [], als_OrganizationalUnits allowedSub);
       (Child fldPathSub "localities" [], als_Localities allowedSub);
       (Child fldPathSub "provinces" [], als_Provinces allowedSub);
       (Child fldPathSub "streetAddresses" [], als_StreetAddresses allowedSub);
       (Child fldPathSub "postalCodes" [], als_PostalCodes allowedSub)]
  end.
Definition strings (allowed : CertificateRequestPolicyAllowed) (fldPath : Path)
    : list (Path * option CertificateRequestPolicyAllowedString) :=
  [(Child fldPath "commonName" [], al_CommonName allowed)] ++
  match al_Subject allowed with
  | None => []
  | Some allowedSub =>
      [(Child (Child fldPath "subject" []) "serialNumber" [], als_SerialNumber allowedSub)]
  end.

Definition Validate (policy : CertificateRequestPolicy) : M S WebhookValidationResponse :=
  match ps_Allowed (p_Spec policy) with
  | None => mret {| wv_Allowed := true; wv_Errors := []; wv_Warnings := [] |}
  | Some allowed =>
      let fldPath := NewPath "spec" ["allowed"] in
      el1 ← collect validateStringSlice (stringSlices allowed fldPath);
      el2 ← collect validateString (strings allowed fldPath);
      let el := el1 ++ el2 in
      mret {| wv_Allowed := (length el =? 0)%nat; wv_Errors := el; wv_Warnings := [] |}
  end.

(** ** allowed.go *)
Definition Ready (_ : CertificateRequestPolicy) : M S ReconcilerReadyResponse :=
  mret {| rr_Ready := true; rr_Errors := []; rr_Result := Result_zero |}.

Definition allowed_approver : Interface S := {|
  ap_Name := "allowed";
  ap_Prepare := mret tt;
  ap_Evaluator := Evaluate;
  ap_Webhook := Validate;
  ap_Reconciler := {| rec_Ready := Ready; rec_EnqueueChan := None |} |}.
End allowed.
