(* ===== verification/AllowedSpec.v ===== *)
(** * What the "allowed" approver promises

    A declarative reading of an allowed block, the proof that [Evaluate]
    decides it from any state of the validator cache, and what admission by
    [Validate] buys. *)
From S2P Require Import Prelude GoStrings Wildcard K8s PolicyAPI Approver Validation Samples Allowed.

Section spec.
Context {S : Type} `{Hcache : Cache S} `{!CacheLaws S} `{PKILib} `{ErrorLib} `{!ErrorLibLaws}.
Implicit Types (cr : CertificateRequest) (s : string) (ss : list string).

(** ** The abstract reading *)

(** A rule accepts a value when its expression compiles and evaluates to true. *)
Definition rule_accepts (cr : CertificateRequest) (value : string) (r : ValidationRule) : Prop :=
  ∃ v, Get_outcome (S:=S) (Rule r) = Ok v ∧ Validation.Validate v value cr = Ok true.

(** Values that some rules and a value test admit. *)
Definition rules_accept (cr : CertificateRequest) (rules : list ValidationRule) (value : string) : Prop :=
  ∀ r, r ∈ rules → rule_accepts cr value r.

Definition string_admitted (cr : CertificateRequest) (s : string)
    (crp : option CertificateRequestPolicyAllowedString) : Prop :=
  if decide (s = "") then isRequired (crp ≫= als_Required) = false
  else ∃ c, crp = Some c ∧ (als_Value c ≠ None ∨ als_Validations c ≠ []) ∧
    (∀ p, als_Value c = Some p → Matches p s) ∧
    rules_accept cr (als_Validations c) s.

Definition slice_admitted (cr : CertificateRequest) (ss : list string)
    (crp : option CertificateRequestPolicyAllowedStringSlice) : Prop :=
  if decide (ss = []) then isRequired (crp ≫= asl_Required) = false
  else ∃ c, crp = Some c ∧ (asl_Values c ≠ None ∨ asl_Validations c ≠ []) ∧
    (∀ ps, asl_Values c = Some ps → ∀ s, s ∈ ss → ∃ p, p ∈ ps ∧ Matches p s) ∧
    ∀ s, s ∈ ss → rules_accept cr (asl_Validations c) s.

Definition usages_admitted (usages : list string) (allowed : option (list string)) : Prop :=
  ∀ u, u ∈ usages → ∃ ps p, allowed = Some ps ∧ p ∈ ps ∧ Matches p u.

Definition subject_admitted (cr : CertificateRequest) (sub : pkix_Name)
    (a : CertificateRequestPolicyAllowedX509Subject) : Prop :=
  slice_admitted cr (sub_Organization sub) (als_Organizations a) ∧
  slice_admitted cr (sub_Country sub) (als_Countries a) ∧
  slice_admitted cr (sub_OrganizationalUnit sub) (als_OrganizationalUnits a) ∧
  slice_admitted cr (sub_Locality sub) (als_Localities a) ∧
  slice_admitted cr (sub_Province sub) (als_Provinces a) ∧
  slice_admitted cr (sub_StreetAddress sub) (als_StreetAddresses a) ∧
  slice_admitted cr (sub_PostalCode sub) (als_PostalCodes a) ∧
  string_admitted cr (sub_SerialNumber sub) (als_SerialNumber a).

(** The request asks for nothing the allowed block does not allow, and for
    everything it requires. *)
Definition allowed_admits (a : CertificateRequestPolicyAllowed) (cr : CertificateRequest)
    (csr : x509_CertificateRequest) : Prop :=
  string_admitted cr (sub_CommonName (csr_Subject csr)) (al_CommonName a) ∧
  slice_admitted cr (csr_DNSNames csr) (al_DNSNames a) ∧
  slice_admitted cr (IP_String <$> csr_IPAddresses csr) (al_IPAddresses a) ∧
  slice_admitted cr (URL_String <$> csr_URIs csr) (al_URIs a) ∧
  slice_admitted cr (csr_EmailAddresses csr) (al_EmailAddresses a) ∧
  (crs_IsCA (cr_Spec cr) = true → al_IsCA a = Some true) ∧
  usages_admitted (crs_Usages (cr_Spec cr)) (al_Usages a) ∧
  subject_admitted cr (csr_Subject csr) (default Subject_zero (al_Subject a)).

(** The allowed block of a policy; an absent one allows nothing. *)
Definition allowed_of (policy : CertificateRequestPolicy) : CertificateRequestPolicyAllowed :=
  default Allowed_zero (ps_Allowed (p_Spec policy)).

(** ** A check decides a proposition *)

(** From any good state of the cache [m] answers one list of violations,
    which is empty exactly when [P] holds. *)
Definition checks (m : M S ErrorList) (P : Prop) : Prop :=
  ∃ el, returns cache_ok m (Ok el) ∧ (el = [] ↔ P).

Lemma checks_ret el P : (el = [] ↔ P) → checks (mret el) P.
Proof. intros HP. exists el. split; [|done]. apply returns_ret. Qed.
Lemma checks_pure el P : (el = [] ↔ P) → checks (pure_call (Ok el)) P.
Proof. intros HP. exists el. split; [|done]. apply returns_pure_call. Qed.
Lemma checks_iff m P Q : checks m P → (P ↔ Q) → checks m Q.
Proof. intros (el & ? & Hel) HPQ. exists el. by rewrite Hel. Qed.
Lemma checks_seq m1 m2 P Q :
  checks m1 P → checks m2 Q → checks (a ← m1; b ← m2; mret (a ++ b)) (P ∧ Q).
Proof.
  intros (el1 & Hr1 & E1) (el2 & Hr2 & E2). exists (el1 ++ el2). split.
  - intros s Hs. destruct (Hr1 s Hs) as (s1 & R1 & Hs1). destruct (Hr2 s1 Hs1) as (s2 & R2 & Hs2).
    exists s2. unfold mbind, M_bind. by rewrite R1, R2.
  - rewrite <-E1, <-E2. split; [apply app_nil|intros [-> ->]; done].
Qed.
Lemma checks_seq_pure el m P Q :
  (el = [] ↔ P) → checks m Q → checks (b ← m; mret (el ++ b)) (P ∧ Q).
Proof. intros HP HQ. exact (checks_seq (mret el) m P Q (checks_ret el P HP) HQ). Qed.
Lemma checks_collect_from {A} (f : nat → A → M S ErrorList) (P : A → Prop) l i :
  (∀ i x, checks (f i x) (P x)) → checks (collect_from i f l) (∀ x, x ∈ l → P x).
Proof.
  intros Hf. revert i. induction l as [|x l IH]; intros i; simpl.
  - apply checks_ret. set_solver.
  - eapply checks_iff; [by apply checks_seq|]. set_solver.
Qed.
Lemma checks_collect {A} (f : A → M S ErrorList) (P : A → Prop) l :
  (∀ x, checks (f x) (P x)) → checks (collect f l) (∀ x, x ∈ l → P x).
Proof. intros Hf. by apply checks_collect_from. Qed.

(** ** Each check of the evaluator *)
Lemma try_returns {A} (m : M S A) o k P :
  returns cache_ok m o →
  match o with
  | Ok a => checks (k (inl a)) P
  | Err e => checks (k (inr e)) P
  | Panic _ => False
  end → checks (try m ≫= k) P.
Proof.
  intros Hm Hk.
  destruct o as [a|e|]; [| |done]; destruct Hk as (el & Hr & Hel); exists el; (split; [|done]);
    intros s Hs; destruct (Hm s Hs) as (s1 & R1 & Hs1); destruct (Hr s1 Hs1) as (s2 & R2 & Hs2);
    exists s2; unfold mbind, M_bind, try; by rewrite R1, R2.
Qed.

Lemma runValidation_checks cr s path i r :
  checks (runValidation cr s path i r) (rule_accepts cr s r).
Proof.
  unfold runValidation, rule_accepts. eapply try_returns; [apply Get_returns|].
  destruct (Get_outcome (Rule r)) as [v|e|w] eqn:Hv; [| |by eapply Get_outcome_no_panic].
  - eapply try_returns; [apply returns_pure_call|].
    destruct (Validation.Validate v s cr) as [[]| |w] eqn:Hb;
      [..|by eapply (Validate_no_panic (S:=S))]; apply checks_ret;
      (split; [intros ?; try done; by exists v|intros (v' & ? & ?); congruence]).
  - apply checks_ret. split; [done|]. intros (v' & ? & ?); congruence.
Qed.
Lemma runValidations_checks cr rules s path :
  checks (runValidations cr rules s path) (rules_accept cr rules s).
Proof. apply checks_collect_from. intros. apply runValidation_checks. Qed.

Lemma evaluateString_checks cr s crp path :
  checks (evaluateString cr s crp path) (string_admitted cr s crp).
Proof.
  unfold evaluateString, string_admitted.
  destruct (_ =? _)%nat eqn:E.
  { apply length_zero in E as ->. rewrite decide_True by done.
    destruct (isRequired _); apply checks_ret; naive_solver. }
  rewrite decide_False by (intros ->; discriminate E).
  destruct crp as [c|]; [|apply checks_ret; naive_solver].
  destruct (_ && _) eqn:Hnone.
  { apply andb_true_iff in Hnone as [?%bool_decide_eq_true ?%Nat.eqb_eq%nil_length_inv].
    apply checks_ret. naive_solver. }
  assert (als_Value c ≠ None ∨ als_Validations c ≠ []) as Hsome.
  { apply andb_false_iff in Hnone as [?%bool_decide_eq_false|Hl]; [by left|right].
    intros E'. by rewrite E' in Hl. }
  set (el := match als_Value c with Some _ => _ | None => [] end).
  assert (el = [] ↔ ∀ p, als_Value c = Some p → Matches p s) as Hel.
  { unfold el. destruct (als_Value c) as [p|]; [|naive_solver].
    pose proof (WildcardMatches_denote p s). destruct (WildcardMatches p s); naive_solver. }
  eapply (checks_iff _ ((∀ p, als_Value c = Some p → Matches p s) ∧
    rules_accept cr (als_Validations c) s)); [|naive_solver].
  destruct (als_Validations c) as [|r rs] eqn:Hr; simpl.
  - apply checks_ret. rewrite Hel. unfold rules_accept. set_solver.
  - apply checks_seq_pure; [done|]. apply runValidations_checks.
Qed.

Lemma evaluateSlice_checks cr ss crp path :
  checks (evaluateSlice cr ss crp path) (slice_admitted cr ss crp).
Proof.
  unfold evaluateSlice, slice_admitted.
  destruct (_ =? _)%nat eqn:E.
  { apply Nat.eqb_eq, nil_length_inv in E as ->. rewrite decide_True by done.
    destruct (isRequired _); apply checks_ret; naive_solver. }
  rewrite decide_False by (intros ->; discriminate E).
  destruct crp as [c|]; [|apply checks_ret; naive_solver].
  destruct (_ && _) eqn:Hnone.
  { apply andb_true_iff in Hnone as [?%bool_decide_eq_true ?%Nat.eqb_eq%nil_length_inv].
    apply checks_ret. naive_solver. }
  assert (asl_Values c ≠ None ∨ asl_Validations c ≠ []) as Hsome.
  { apply andb_false_iff in Hnone as [?%bool_decide_eq_false|Hl]; [by left|right].
    intros E'. by rewrite E' in Hl. }
  set (el := match asl_Values c with Some _ => _ | None => [] end).
  assert (el = [] ↔ ∀ ps, asl_Values c = Some ps →
    ∀ s, s ∈ ss → ∃ p, p ∈ ps ∧ Matches p s) as Hel.
  { unfold el. destruct (asl_Values c) as [ps|]; [|naive_solver].
    pose proof (WildcardSubset_denote ps ss). destruct (WildcardSubset ps ss); naive_solver. }
  eapply (checks_iff _ ((∀ ps, asl_Values c = Some ps →
    ∀ s, s ∈ ss → ∃ p, p ∈ ps ∧ Matches p s) ∧
    ∀ s, s ∈ ss → rules_accept cr (asl_Validations c) s)); [|naive_solver].
  destruct (asl_Validations c) as [|r rs] eqn:Hr; simpl.
  - apply checks_ret. rewrite Hel. unfold rules_accept. set_solver.
  - apply checks_seq_pure; [done|]. apply checks_collect. intros. apply runValidations_checks.
Qed.

Lemma IsCA_checks e :
  checks (pure_call (Ok (IsCA e)))
    (crs_IsCA (cr_Spec (e_request e)) = true → al_IsCA (e_allowed e) = Some true).
Proof.
  apply checks_pure. unfold IsCA, evaluateBool.
  destruct (crs_IsCA _), (al_IsCA _) as [[]|]; naive_solver.
Qed.
Lemma Usages_checks e :
  checks (pure_call (Ok (Usages e)))
    (usages_admitted (crs_Usages (cr_Spec (e_request e))) (al_Usages (e_allowed e))).
Proof.
  apply checks_pure. unfold Usages, usages_admitted.
  destruct (crs_Usages _) as [|u us] eqn:Hu; cbn [length Nat.ltb Nat.leb]; [set_solver|].
  destruct (al_Usages _) as [ps|]; [|split; [done|intros Hall]].
  - pose proof (WildcardSubset_denote ps (u :: us)) as Hw.
    destruct (WildcardSubset ps (u :: us)); naive_solver.
  - destruct (Hall u) as (ps & ? & ? & _); [by left|done].
Qed.

Lemma checks_all ms Ps :
  Forall2 checks ms Ps → checks (collect (λ fn, fn) ms) (Forall (λ P, P) Ps).
Proof.
  unfold collect. generalize 0%nat. intros i Hall. revert i.
  induction Hall as [|m P ms Ps HP _ IH]; intros i; simpl; [by apply checks_ret|].
  eapply checks_iff; [by apply checks_seq|]. by rewrite Forall_cons.
Qed.

Lemma evaluateFns_checks cr csr a path :
  checks (collect (λ fn, fn) (evaluateFns (Build_evaluator cr csr a path)))
    (allowed_admits a cr csr).
Proof.
  eapply checks_iff.
  - apply checks_all. repeat (constructor; [first
      [apply evaluateSlice_checks | apply evaluateString_checks
      | apply IsCA_checks | apply Usages_checks]|]). constructor.
  - unfold allowed_admits, subject_admitted. rewrite !Forall_cons, Forall_nil. simpl. tauto.
Qed.

Lemma Evaluate_returns policy cr :
  match DecodeX509CertificateRequestBytes (crs_Request (cr_Spec cr)) with
  | Ok csr => ∃ resp, returns cache_ok (Evaluate policy cr) (Ok resp) ∧
      (ev_Result resp = ResultNotDenied ↔ allowed_admits (allowed_of policy) cr csr)
  | Err e => returns cache_ok (Evaluate policy cr) (Err e)
  | Panic w => returns cache_ok (Evaluate policy cr) (Panic w)
  end.
Proof.
  unfold Evaluate, allowed_of.
  destruct (DecodeX509CertificateRequestBytes _) as [csr|e|w] eqn:Hcsr; [|intros s Hs; by exists s..].
  destruct (evaluateFns_checks cr csr (default Allowed_zero (ps_Allowed (p_Spec policy)))
    (NewPath "spec" ["allowed"])) as (el & Hel & Hiff).
  destruct (respond_spec el) as (resp & Hresp & Hres). exists resp.
  split; [|by rewrite Hres, Hiff]. intros s Hs. destruct (Hel s Hs) as (s' & R & Hs').
  exists s'. split; [|done].
  rewrite (M_bind_run _ _ csr s s) by done. rewrite (M_bind_run _ _ el s s') by done.
  unfold pure_call. by rewrite Hresp.
Qed.

Lemma admits_by_evaluation policy cr csr (s0 : S) :
  DecodeX509CertificateRequestBytes (crs_Request (cr_Spec cr)) = Ok csr → cache_ok s0 →
  ev_Result <$> (Evaluate policy cr s0).1 = Ok ResultNotDenied →
  allowed_admits (allowed_of policy) cr csr.
Proof.
  intros Hcsr Hs0 Hres. pose proof (Evaluate_returns policy cr) as Hr. rewrite Hcsr in Hr.
  destruct Hr as (resp & Hr & Hiff). destruct (Hr s0 Hs0) as (s' & E & _).
  rewrite E in Hres. apply Hiff. by injection Hres.
Qed.

(** ** Admission of the policy *)
Definition rule_compiles (r : ValidationRule) : Prop :=
  ∃ v, Get_outcome (S:=S) (Rule r) = Ok v.
Definition slice_wellformed (c : CertificateRequestPolicyAllowedStringSlice) : Prop :=
  (isRequired (asl_Required c) = true → asl_Values c ≠ None ∨ asl_Validations c ≠ []) ∧
  ∀ r, r ∈ asl_Validations c → rule_compiles r.
Definition string_wellformed (c : CertificateRequestPolicyAllowedString) : Prop :=
  (isRequired (als_Required c) = true → als_Value c ≠ None ∨ als_Validations c ≠ []) ∧
  ∀ r, r ∈ als_Validations c → rule_compiles r.

(** The slice and the string fields of an allowed block, subject included. *)
Definition slice_fields (a : CertificateRequestPolicyAllowed)
    : list (option CertificateRequestPolicyAllowedStringSlice) :=
  [al_DNSNames a; al_IPAddresses a; al_URIs a; al_EmailAddresses a] ++
  from_option (λ sub, [als_Organizations sub; als_Countries sub; als_OrganizationalUnits sub;
    als_Localities sub; als_Provinces sub; als_StreetAddresses sub; als_PostalCodes sub])
    [] (al_Subject a).
Definition string_fields (a : CertificateRequestPolicyAllowed)
    : list (option CertificateRequestPolicyAllowedString) :=
  [al_CommonName a] ++ from_option (λ sub, [als_SerialNumber sub]) [] (al_Subject a).

Definition allowed_wellformed (a : CertificateRequestPolicyAllowed) : Prop :=
  (∀ c, Some c ∈ slice_fields a → slice_wellformed c) ∧
  (∀ c, Some c ∈ string_fields a → string_wellformed c).

Lemma validateRule_checks path i r : checks (validateRule path i r) (rule_compiles r).
Proof.
  unfold validateRule, rule_compiles. eapply try_returns; [apply Get_returns|].
  destruct (Get_outcome (Rule r)) as [v|e|w] eqn:Hv; [..|by eapply Get_outcome_no_panic];
    apply checks_ret; naive_solver.
Qed.

Lemma validateStringSlice_checks pair :
  checks (validateStringSlice pair) (∀ c, pair.2 = Some c → slice_wellformed c).
Proof.
  destruct pair as [path [c|]]; simpl; [|apply checks_ret; naive_solver].
  eapply checks_iff; [apply checks_seq_pure; [reflexivity|]|].
  - apply checks_collect_from. intros. apply validateRule_checks.
  - rewrite forall_Some. unfold slice_wellformed.
    destruct (isRequired _), (asl_Values c), (asl_Validations c); simpl; naive_solver.
Qed.
Lemma validateString_checks pair :
  checks (validateString pair) (∀ c, pair.2 = Some c → string_wellformed c).
Proof.
  destruct pair as [path [c|]]; simpl; [|apply checks_ret; naive_solver].
  eapply checks_iff; [apply checks_seq_pure; [reflexivity|]|].
  - apply checks_collect_from. intros. apply validateRule_checks.
  - rewrite forall_Some. unfold string_wellformed.
    destruct (isRequired _), (als_Value c), (als_Validations c); simpl; naive_solver.
Qed.

Lemma forall_pairs {A B} (l : list (A * option B)) (P : B → Prop) :
  (∀ x, x ∈ l → ∀ c, x.2 = Some c → P c) ↔ (∀ c, Some c ∈ l.*2 → P c).
Proof.
  split.
  - intros Hl c ([p x] & ? & ?)%list_elem_of_fmap. simplify_eq/=. by eapply Hl.
  - intros Hl [p x] Hx c ?. simplify_eq/=. apply Hl, list_elem_of_fmap. by eexists (_, _).
Qed.

Lemma Validate_checks a path :
  checks (el1 ← collect validateStringSlice (stringSlices a path);
          el2 ← collect validateString (strings a path); mret (el1 ++ el2))
    (allowed_wellformed a).
Proof.
  eapply checks_iff; [apply checks_seq; apply checks_collect|].
  - apply validateStringSlice_checks.
  - apply validateString_checks.
  - rewrite !forall_pairs. unfold allowed_wellformed, stringSlices, strings, slice_fields,
      string_fields. by destruct (al_Subject a).
Qed.

Lemma Validate_returns policy :
  ∃ resp, returns cache_ok (Allowed.Validate policy) (Ok resp) ∧
    (wv_Allowed resp = true ↔ wv_Errors resp = []) ∧
    (wv_Allowed resp = true ↔ ∀ a, ps_Allowed (p_Spec policy) = Some a → allowed_wellformed a).
Proof.
  unfold Allowed.Validate. destruct (ps_Allowed (p_Spec policy)) as [a|];
    [|eexists; split_and!; [apply returns_ret|naive_solver..]].
  destruct (Validate_checks a (NewPath "spec" ["allowed"])) as (el & Hel & Hiff).
  exists {| wv_Allowed := (length el =? 0)%nat; wv_Errors := el; wv_Warnings := [] |}.
  split_and!; simpl; [|by destruct el..|].
  - intros s Hs. destruct (Hel s Hs) as (s' & R & Hs'). exists s'. split; [|done].
    apply M_bind_Ok in R as (el1 & s1 & R1 & R). apply M_bind_Ok in R as (el2 & s2 & R2 & R).
    apply M_ret_Ok in R as [<- <-].
    rewrite (M_bind_run _ _ _ _ _ R1). by rewrite (M_bind_run _ _ _ _ _ R2).
  - rewrite Nat.eqb_eq. transitivity (el = []); [by destruct el|]. rewrite Hiff. naive_solver.
Qed.

(** ** Requesting less *)
Definition csr_less (csr' csr : x509_CertificateRequest) : Prop :=
  let sub' := csr_Subject csr' in
  let sub := csr_Subject csr in
  (sub_CommonName sub' = "" ∨ sub_CommonName sub' = sub_CommonName sub) ∧
  csr_DNSNames csr' ⊆ csr_DNSNames csr ∧
  csr_IPAddresses csr' ⊆ csr_IPAddresses csr ∧
  csr_URIs csr' ⊆ csr_URIs csr ∧
  csr_EmailAddresses csr' ⊆ csr_EmailAddresses csr ∧
  sub_Organization sub' ⊆ sub_Organization sub ∧
  sub_Country sub' ⊆ sub_Country sub ∧
  sub_OrganizationalUnit sub' ⊆ sub_OrganizationalUnit sub ∧
  sub_Locality sub' ⊆ sub_Locality sub ∧
  sub_Province sub' ⊆ sub_Province sub ∧
  sub_StreetAddress sub' ⊆ sub_StreetAddress sub ∧
  sub_PostalCode sub' ⊆ sub_PostalCode sub ∧
  (sub_SerialNumber sub' = "" ∨ sub_SerialNumber sub' = sub_SerialNumber sub).

(** No field of the allowed block is required. *)
Definition nothing_required (a : CertificateRequestPolicyAllowed) : Prop :=
  (∀ c, Some c ∈ slice_fields a → isRequired (asl_Required c) = false) ∧
  (∀ c, Some c ∈ string_fields a → isRequired (als_Required c) = false).

Lemma slice_admitted_less cr ss ss' crp :
  (∀ c, crp = Some c → isRequired (asl_Required c) = false) →
  ss' ⊆ ss → slice_admitted cr ss crp → slice_admitted cr ss' crp.
Proof.
  unfold slice_admitted. intros Hreq Hss Hadm.
  destruct (decide (ss' = [])) as [->|Hss']; [destruct crp as [c|]; [by apply Hreq|done]|].
  destruct (decide (ss = [])) as [->|]; [by apply list_nil_subseteq in Hss|].
  destruct Hadm as (c & -> & ? & Hv & Hr). exists c. split_and!; [done..| |].
  - intros ps Hps s Hs. apply (Hv ps Hps). set_solver.
  - set_solver.
Qed.
Lemma string_admitted_less cr s s' crp :
  (∀ c, crp = Some c → isRequired (als_Required c) = false) →
  s' = "" ∨ s' = s → string_admitted cr s crp → string_admitted cr s' crp.
Proof.
  intros Hreq [-> | ->] Hadm; [|done]. unfold string_admitted. rewrite decide_True by done.
  destruct crp as [c|]; [by apply Hreq|done].
Qed.

Lemma allowed_admits_less a cr csr csr' :
  nothing_required a → csr_less csr' csr → allowed_admits a cr csr → allowed_admits a cr csr'.
Proof.
  intros [Hsl Hst] Hless. unfold allowed_admits, subject_admitted, csr_less in *.
  assert (∀ crp, (∃ sub, al_Subject a = Some sub ∧ crp ∈ [als_Organizations sub;
    als_Countries sub; als_OrganizationalUnits sub; als_Localities sub; als_Provinces sub;
    als_StreetAddresses sub; als_PostalCodes sub]) ∨ crp = None →
    ∀ c, crp = Some c → isRequired (asl_Required c) = false) as Hsub.
  { intros crp [(sub & E & Hin)| ->] c Hc; [|done]. subst. apply Hsl.
    unfold slice_fields. rewrite E. by apply elem_of_app; right. }
  assert (∀ crp, crp ∈ [al_DNSNames a; al_IPAddresses a; al_URIs a; al_EmailAddresses a] →
    ∀ c, crp = Some c → isRequired (asl_Required c) = false) as Htop.
  { intros crp Hin c ->. apply Hsl, elem_of_app. by left. }
  assert (∀ c, al_CommonName a = Some c → isRequired (als_Required c) = false) as Hcn.
  { intros c Hc. apply Hst. unfold string_fields. rewrite Hc. set_solver. }
  assert (∀ c, als_SerialNumber (default Subject_zero (al_Subject a)) = Some c →
    isRequired (als_Required c) = false) as Hsn.
  { intros c Hc. destruct (al_Subject a) as [sub|] eqn:E; [|done]. apply Hst.
    unfold string_fields. rewrite E. simpl in *. rewrite Hc. set_solver. }
  intros Hadm. destruct_and!. split_and!; try done.
  all: first [by eapply string_admitted_less; [|eassumption|eassumption]
             |eapply slice_admitted_less; [| |eassumption];
               [|(done || by apply list_fmap_mono)]].
  all: lazymatch goal with
    | |- context [default Subject_zero _] =>
        apply Hsub; destruct (al_Subject a) as [sub|]; [left; exists sub; split; [done|]|by right]
    | _ => apply Htop
    end; repeat first [by left|right].
Qed.

(** ** Fields nothing can satisfy *)
Lemma slice_unsatisfiable cr ss required :
  isRequired required = true →
  ¬ slice_admitted cr ss (Some {| asl_Values := Some []; asl_Required := required; asl_Validations := [] |}) ∧
  ¬ slice_admitted cr ss (Some {| asl_Values := None; asl_Required := required; asl_Validations := [] |}).
Proof.
  intros Hreq. unfold slice_admitted. case_decide as Hss; simpl.
  - by rewrite Hreq.
  - destruct ss as [|s ss]; [done|].
    split; intros (c & [= <-] & Hsome & Hv & _); [|naive_solver].
    destruct (Hv [] eq_refl s) as (p & Hp & _); [by left|]. by apply elem_of_nil in Hp.
Qed.
Lemma string_unsatisfiable cr s required :
  isRequired required = true →
  ¬ string_admitted cr s (Some {| als_Value := Some ""; als_Required := required; als_Validations := [] |}) ∧
  ¬ string_admitted cr s (Some {| als_Value := None; als_Required := required; als_Validations := [] |}).
Proof.
  intros Hreq. unfold string_admitted. case_decide as Hs; simpl.
  - by rewrite Hreq.
  - split; intros (c & [= <-] & Hsome & Hv & _); [|naive_solver].
    specialize (Hv "" eq_refl). by apply runes_nil in Hv.
Qed.
End spec.

(** ** Properties *)
Section properties.
Context {S : Type} `{Hcache : Cache S} `{!CacheLaws S} `{PKILib} `{ErrorLib} `{!ErrorLibLaws}.

(** [C9] From any state the validator cache can be in, [Evaluate] of the
    allowed approver denies exactly the requests that ask for more than the
    allowed block of the policy admits or miss something it requires; an
    undecodable CSR is an error, never a verdict. *)
Theorem allowed_Evaluate_correct policy cr :
  match DecodeX509CertificateRequestBytes (crs_Request (cr_Spec cr)) with
  | Ok csr => ∃ resp, returns cache_ok (Evaluate policy cr) (Ok resp) ∧
      (ev_Result resp = ResultNotDenied ↔ allowed_admits (S:=S) (allowed_of policy) cr csr)
  | Err e => returns cache_ok (Evaluate policy cr) (Err e)
  | Panic w => returns cache_ok (Evaluate policy cr) (Panic w)
  end.
Proof. apply Evaluate_returns. Qed.

(** A request can ask for less than what is allowed: when the allowed
    block requires nothing, dropping attributes from an admitted request
    keeps it admitted. *)
Theorem allowed_closed_under_less a cr csr csr' :
  nothing_required a → csr_less csr' csr →
  allowed_admits (S:=S) a cr csr → allowed_admits (S:=S) a cr csr'.
Proof. apply allowed_admits_less. Qed.

(** The webhook of the allowed approver accepts a policy exactly when
    every required field has values or validations and every CEL rule
    compiles, and it rejects with at least one error. *)
Theorem allowed_Validate_correct policy :
  ∃ resp, returns cache_ok (Allowed.Validate policy) (Ok resp) ∧
    (wv_Allowed resp = true ↔ wv_Errors resp = []) ∧
    (wv_Allowed resp = true ↔
      ∀ a, ps_Allowed (p_Spec policy) = Some a → allowed_wellformed (S:=S) a).
Proof. apply Validate_returns. Qed.

(** The fields the API documentation says never grant do not: a
    required field whose values are empty, or that has neither values nor
    validations, is met by no request, present or absent attribute alike. *)
Theorem required_without_values_never_grants cr s ss required :
  isRequired required = true →
  (∀ values, values = None ∨ values = Some [] →
    ¬ slice_admitted (S:=S) cr ss (Some (Build_CertificateRequestPolicyAllowedStringSlice values required []))) ∧
  (∀ value, value = None ∨ value = Some "" →
    ¬ string_admitted (S:=S) cr s (Some (Build_CertificateRequestPolicyAllowedString value required []))).
Proof.
  intros Hreq. split; intros v [-> | ->];
    first [by apply slice_unsatisfiable|by apply string_unsatisfiable].
Qed.
End properties.

Module AllowedWitnesses.
Import Sample.

Lemma allowed_Evaluate_correct_witness :
  ∃ resp, returns cache_ok
      (Evaluate (sample_policy "p" (Some (sample_allowed [])) None) (sample_request [1] None))
      (Ok resp) ∧
    (ev_Result resp = ResultNotDenied ↔
      allowed_admits (S:=cache) (sample_allowed []) (sample_request [1] None)
        (sample_csr (rsa_PublicKey_ptr (2 ^ 2047)))).
Proof.
  exact (allowed_Evaluate_correct (S:=cache)
    (sample_policy "p" (Some (sample_allowed [])) None) (sample_request [1] None)).
Defined.

(** The cache that has not compiled anything admits the sample request, and
    rejects it when a rule fails. *)
Example Evaluate_sample :
  ev_Result <$> (Evaluate (sample_policy "p" (Some (sample_allowed [])) None)
    (sample_request [1] None) NewCache).1 = Ok ResultNotDenied.
Proof. vm_compute. reflexivity. Qed.
Example Evaluate_sample_rule :
  ev_Result <$> (Evaluate (sample_policy "p" (Some (sample_allowed
    [{| Rule := "=b.example.com"; Message := None |}])) None)
    (sample_request [1] None) NewCache).1 = Ok ResultDenied.
Proof. vm_compute. reflexivity. Qed.

Definition open_allowed : CertificateRequestPolicyAllowed :=
  {| al_CommonName := Some {| als_Value := Some "*"; als_Required := None; als_Validations := [] |};
     al_DNSNames := sample_values ["*"]; al_IPAddresses := sample_values ["*"];
     al_URIs := None; al_EmailAddresses := None; al_IsCA := None;
     al_Usages := Some ["*"];
     al_Subject := Some (Build_CertificateRequestPolicyAllowedX509Subject
       (sample_values ["*"]) None None None None None None None) |}.
Definition less_csr : x509_CertificateRequest :=
  {| csr_Subject := Build_pkix_Name [] [] [] [] [] [] [] "" "";
     csr_DNSNames := ["a.example.com"]; csr_EmailAddresses := []; csr_IPAddresses := [];
     csr_URIs := []; csr_PublicKey := rsa_PublicKey_ptr 1 |}.
Lemma allowed_closed_under_less_witness :
  allowed_admits (S:=cache) open_allowed (sample_request [1] None) less_csr.
Proof.
  apply (allowed_closed_under_less (S:=cache) open_allowed (sample_request [1] None)
    (sample_csr (rsa_PublicKey_ptr (2 ^ 2047))) less_csr).
  - split; intros c Hc; cbv in Hc;
      repeat (apply elem_of_cons in Hc as [Hc|Hc]; [by simplify_eq/=|]);
      by apply elem_of_nil in Hc.
  - unfold csr_less; simpl. split_and!; set_solver.
  - apply (admits_by_evaluation (S:=cache) (sample_policy "p" (Some open_allowed) None)
      (sample_request [1] None) _ NewCache); [reflexivity|apply NewCache_coherent|].
    vm_compute. reflexivity.
Defined.

Lemma allowed_Validate_correct_witness :
  ∃ resp, returns cache_ok
      (Allowed.Validate (S:=cache) (sample_policy "p" (Some (sample_allowed [])) None)) (Ok resp) ∧
    (wv_Allowed resp = true ↔ wv_Errors resp = []) ∧
    (wv_Allowed resp = true ↔
      ∀ a, Some (sample_allowed []) = Some a → allowed_wellformed (S:=cache) a).
Proof.
  exact (allowed_Validate_correct (S:=cache)
    (sample_policy "p" (Some (sample_allowed [])) None)).
Defined.

Lemma required_without_values_never_grants_witness :
  ¬ slice_admitted (S:=cache) (sample_request [1] None) ["a"]
      (Some (Build_CertificateRequestPolicyAllowedStringSlice (Some []) (Some true) [])).
Proof.
  apply (required_without_values_never_grants (S:=cache) (sample_request [1] None) "a" ["a"]
    (Some true) eq_refl). by right.
Defined.
End AllowedWitnesses.
