(* ===== verification/Constraints.v ===== *)
(** * The "constraints" approver: pkg/internal/approver/constraints

    Durations are int64 nanoseconds and sizes are ints; the code only compares
    them, so no arithmetic can wrap and [Z] is exact. *)
From S2P Require Import Prelude GoStrings K8s PolicyAPI Approver Validation Samples.

(** [BitLen] of a [*big.Int]. *)
Definition BitLen (N : Z) : Z := if N =? 0 then 0 else Z.log2 (Z.abs N) + 1.

(** The dynamic type of a key, as [%T] prints it. *)
Definition key_type (pub : PublicKey) : string :=
  match pub with
  | rsa_PublicKey_ptr _ => "*rsa.PublicKey"
  | ecdsa_PublicKey_ptr _ => "*ecdsa.PublicKey"
  | ed25519_PublicKey_ptr _ => "*ed25519.PublicKey"
  | ed25519_PublicKey _ => "ed25519.PublicKey"
  | other_key T => T
  end.

Section constraints.
Context `{PKILib} `{ErrorLib}.

(** ** evaluator.go *)
Definition decodePublicKey (pub : PublicKey) : outcome (string * Z) :=
  match pub with
  | rsa_PublicKey_ptr N => Ok (RSAKeyAlgorithm, BitLen N)
  | ecdsa_PublicKey_ptr BitSize => Ok (ECDSAKeyAlgorithm, BitSize)
  | ed25519_PublicKey_ptr _ => Ok (Ed25519KeyAlgorithm, -1)
  | _ => Err (errors_New ("unrecognised public key type " +:+ key_type pub))
  end.

Definition maxDurationErrors (consts : CertificateRequestPolicyConstraints)
    (duration : option Z) (fldPath : Path) : ErrorList :=
  match con_MaxDuration consts with
  | None => []
  | Some max =>
      match duration with
      | None =>
          [Invalid (Child fldPath "maxDuration" []) (AnyString (metav1_Duration_String None))
             (Duration_String max)]
      | Some d =>
          if max <? d then
            [Invalid (Child fldPath "maxDuration" []) (AnyString (Duration_String d))
               (Duration_String max)]
          else []
      end
  end.

Definition minDurationErrors (consts : CertificateRequestPolicyConstraints)
    (duration : option Z) (fldPath : Path) : ErrorList :=
  match con_MinDuration consts with
  | None => []
  | Some min =>
      match duration with
      | None =>
          [Invalid (Child fldPath "minDuration" []) (AnyString (metav1_Duration_String None))
             (Duration_String min)]
      | Some d =>
          if d <? min then
            [Invalid (Child fldPath "minDuration" []) (AnyString (Duration_String d))
               (Duration_String min)]
          else []
      end
  end.

Definition privateKeyErrors (pk : CertificateRequestPolicyConstraintsPrivateKey)
    (alg : string) (size : Z) (fldPath : Path) : ErrorList :=
  match pk_Algorithm pk with
  | Some a =>
      if negb (bool_decide (a = alg))
      then [Invalid (Child fldPath "algorithm" []) (AnyString alg) a] else []
  | None => []
  end ++
  match pk_MaxSize pk with
  | Some max =>
      if max <? size
      then [Invalid (Child fldPath "maxSize" []) (AnyString (strconv_Itoa size)) (strconv_Itoa max)]
      else []
  | None => []
  end ++
  match pk_MinSize pk with
  | Some min =>
      if size <? min
      then [Invalid (Child fldPath "minSize" []) (AnyString (strconv_Itoa size)) (strconv_Itoa min)]
      else []
  | None => []
  end.

Definition Evaluate (policy : CertificateRequestPolicy) (request : CertificateRequest)
    : outcome EvaluationResponse :=
  match ps_Constraints (p_Spec policy) with
  | None => Ok {| ev_Result := ResultNotDenied; ev_Message := "" |}
  | Some consts =>
      let fldPath := NewPath "spec" ["constraints"] in
      let el := maxDurationErrors consts (crs_Duration (cr_Spec request)) fldPath ++
                minDurationErrors consts (crs_Duration (cr_Spec request)) fldPath in
      el ← match con_PrivateKey consts with
           | None => Ok el
           | Some pk =>
               csr ← DecodeX509CertificateRequestBytes (crs_Request (cr_Spec request));
               '(alg, size) ← decodePublicKey (csr_PublicKey csr);
               Ok (el ++ privateKeyErrors pk alg size (Child fldPath "privateKey" []))
           end;
      respond el
  end.

(** ** validation.go *)
Definition privateKeyValidation (pk : CertificateRequestPolicyConstraintsPrivateKey)
    (fldPath : Path) : ErrorList :=
  let maxSize := pk_MaxSize pk in
  let minSize := pk_MinSize pk in
  match pk_Algorithm pk with
  | None => []
  | Some alg =>
      (if bool_decide (alg ∈ [RSAKeyAlgorithm; ECDSAKeyAlgorithm; Ed25519KeyAlgorithm]) then []
       else [NotSupported (Child fldPath "algorithm" []) (AnyString alg)
               [RSAKeyAlgorithm; ECDSAKeyAlgorithm; Ed25519KeyAlgorithm]]) ++
      (if bool_decide (alg = Ed25519KeyAlgorithm) then
         match maxSize with
         | Some s => [Invalid (Child fldPath "maxSize" []) (AnyInt s)
             ("maxSize cannot be defined with algorithm constraint " +:+ Ed25519KeyAlgorithm)]
         | None => []
         end ++
         match minSize with
         | Some s => [Invalid (Child fldPath "minSize" []) (AnyInt s)
             ("minSize cannot be defined with algorithm constraint " +:+ Ed25519KeyAlgorithm)]
         | None => []
         end
       else [])
  end ++
  match maxSize with
  | Some s => if (s <? 0) || (8192 <? s)
      then [Invalid (Child fldPath "maxSize" []) (AnyInt s) "must be between 0 and 8192 inclusive"]
      else []
  | None => []
  end ++
  match minSize with
  | Some s => if (s <? 0) || (8192 <? s)
      then [Invalid (Child fldPath "minSize" []) (AnyInt s) "must be between 0 and 8192 inclusive"]
      else []
  | None => []
  end ++
  match maxSize, minSize with
  | Some max, Some min => if max <? min
      then [Invalid (Child fldPath "maxSize" []) (AnyInt max)
              "maxSize must be the same value as minSize or larger"]
      else []
  | _, _ => []
  end.

Definition Validate (policy : CertificateRequestPolicy) : WebhookValidationResponse :=
  match ps_Constraints (p_Spec policy) with
  | None => {| wv_Allowed := true; wv_Errors := []; wv_Warnings := [] |}
  | Some consts =>
      let fldPath := NewPath "spec" ["constraints"] in
      let el :=
        match con_PrivateKey consts with
        | Some pk => privateKeyValidation pk (Child fldPath "privateKey" [])
        | None => []
        end ++
        match con_MaxDuration consts, con_MinDuration consts with
        | Some max, Some min => if max <? min
            then [Invalid (Child fldPath "maxDuration" []) (AnyString (Duration_String max))
                    "maxDuration must be the same value as minDuration or larger"]
            else []
        | _, _ => []
        end ++
        match con_MaxDuration consts with
        | Some max => if max <? 0
            then [Invalid (Child fldPath "maxDuration" []) (AnyString (Duration_String max))
                    "maxDuration must be a value greater or equal to 0"]
            else []
        | None => []
        end ++
        match con_MinDuration consts with
        | Some min => if min <? 0
            then [Invalid (Child fldPath "minDuration" []) (AnyString (Duration_String min))
                    "minDuration must be a value greater or equal to 0"]
            else []
        | None => []
        end in
      {| wv_Allowed := (length el =? 0)%nat; wv_Errors := el; wv_Warnings := [] |}
  end.

(** ** constraints.go *)
Definition Ready (_ : CertificateRequestPolicy) : ReconcilerReadyResponse :=
  {| rr_Ready := true; rr_Errors := []; rr_Result := Result_zero |}.

Definition constraints_approver {S : Type} : Interface S := {|
  ap_Name := "constraints";
  ap_Prepare := mret tt;
  ap_Evaluator := λ policy request, pure_call (Evaluate policy request);
  ap_Webhook := λ policy, mret (Validate policy);
  ap_Reconciler := {| rec_Ready := λ policy, mret (Ready policy); rec_EnqueueChan := None |} |}.
End constraints.

(** ** What the constraints mean *)
Section spec.
Context `{PKILib} `{ErrorLib} `{!ErrorLibLaws}.
Implicit Types (consts : CertificateRequestPolicyConstraints)
  (pk : CertificateRequestPolicyConstraintsPrivateKey).

(** The requested duration lies in the declared range; a declared bound
    makes the duration mandatory. *)
Definition duration_satisfies consts (duration : option Z) : Prop :=
  (∀ max, con_MaxDuration consts = Some max → ∃ d, duration = Some d ∧ d ≤ max) ∧
  (∀ min, con_MinDuration consts = Some min → ∃ d, duration = Some d ∧ min ≤ d).

Definition key_satisfies pk (alg : string) (size : Z) : Prop :=
  (∀ a, pk_Algorithm pk = Some a → a = alg) ∧
  (∀ max, pk_MaxSize pk = Some max → size ≤ max) ∧
  (∀ min, pk_MinSize pk = Some min → min ≤ size).

(** The algorithm and size of the key the policy has to look at: none when
    the policy has no private key constraint. *)
Definition inspected_key (policy : CertificateRequestPolicy) (request : CertificateRequest)
    : outcome (option (string * Z)) :=
  match ps_Constraints (p_Spec policy) ≫= con_PrivateKey with
  | None => Ok None
  | Some _ =>
      csr ← DecodeX509CertificateRequestBytes (crs_Request (cr_Spec request));
      Some <$> decodePublicKey (csr_PublicKey csr)
  end.

Definition constraints_satisfied (policy : CertificateRequestPolicy)
    (request : CertificateRequest) (key : option (string * Z)) : Prop :=
  ∀ consts, ps_Constraints (p_Spec policy) = Some consts →
    duration_satisfies consts (crs_Duration (cr_Spec request)) ∧
    ∀ pk, con_PrivateKey consts = Some pk → ∃ alg size, key = Some (alg, size) ∧
      key_satisfies pk alg size.

(** A constraints block the webhook admits. *)
Definition key_wellformed pk : Prop :=
  (∀ a, pk_Algorithm pk = Some a →
    a ∈ [RSAKeyAlgorithm; ECDSAKeyAlgorithm; Ed25519KeyAlgorithm] ∧
    (a = Ed25519KeyAlgorithm → pk_MaxSize pk = None ∧ pk_MinSize pk = None)) ∧
  (∀ s, pk_MaxSize pk = Some s → 0 ≤ s ≤ 8192) ∧
  (∀ s, pk_MinSize pk = Some s → 0 ≤ s ≤ 8192) ∧
  (∀ max min, pk_MaxSize pk = Some max → pk_MinSize pk = Some min → min ≤ max).
Definition constraints_wellformed consts : Prop :=
  (∀ pk, con_PrivateKey consts = Some pk → key_wellformed pk) ∧
  (∀ max min, con_MaxDuration consts = Some max → con_MinDuration consts = Some min → min ≤ max) ∧
  (∀ max, con_MaxDuration consts = Some max → 0 ≤ max) ∧
  (∀ min, con_MinDuration consts = Some min → 0 ≤ min).

(** *** Emptiness of each error list *)
Lemma app_nil_iff {A} (l k : list A) : l ++ k = [] ↔ l = [] ∧ k = [].
Proof. split; [apply app_nil|by intros [-> ->]]. Qed.
Lemma if_nil_iff {A} (b : bool) (x : A) : (if b then [x] else []) = [] ↔ b = false.
Proof. by destruct b. Qed.

Lemma duration_errors consts d path :
  maxDurationErrors consts d path ++ minDurationErrors consts d path = [] ↔
  duration_satisfies consts d.
Proof.
  rewrite app_nil_iff. unfold maxDurationErrors, minDurationErrors, duration_satisfies.
  destruct (con_MaxDuration consts), (con_MinDuration consts), d;
    rewrite ?forall_Some, ?forall_None, ?if_nil_iff, ?Z.ltb_ge; naive_solver.
Qed.
Lemma privateKey_errors pk alg size path :
  privateKeyErrors pk alg size path = [] ↔ key_satisfies pk alg size.
Proof.
  unfold privateKeyErrors, key_satisfies. rewrite !app_nil_iff.
  destruct (pk_Algorithm pk), (pk_MaxSize pk), (pk_MinSize pk);
    rewrite ?forall_Some, ?forall_None, ?if_nil_iff, ?negb_false_iff, ?bool_decide_eq_true,
      ?Z.ltb_ge; naive_solver.
Qed.
Lemma privateKeyValidation_errors pk path :
  privateKeyValidation pk path = [] ↔ key_wellformed pk.
Proof.
  unfold privateKeyValidation, key_wellformed. rewrite !app_nil_iff.
  repeat f_equiv.
  - destruct (pk_Algorithm pk) as [a|]; rewrite ?forall_Some, ?forall_None; [|done].
    rewrite app_nil_iff. f_equiv; [by case_bool_decide|].
    case_bool_decide; [|naive_solver].
    destruct (pk_MaxSize pk), (pk_MinSize pk); simpl; naive_solver.
  - destruct (pk_MaxSize pk); rewrite ?forall_Some, ?forall_None, ?if_nil_iff,
      ?orb_false_iff, ?Z.ltb_ge; naive_solver.
  - destruct (pk_MinSize pk); rewrite ?forall_Some, ?forall_None, ?if_nil_iff,
      ?orb_false_iff, ?Z.ltb_ge; naive_solver.
  - destruct (pk_MaxSize pk), (pk_MinSize pk); rewrite ?if_nil_iff, ?Z.ltb_ge; naive_solver.
Qed.

Lemma Evaluate_outcome policy request :
  match inspected_key policy request with
  | Ok key => ∃ resp, Evaluate policy request = Ok resp ∧
      (ev_Result resp = ResultNotDenied ↔ constraints_satisfied policy request key)
  | Err e => Evaluate policy request = Err e
  | Panic w => Evaluate policy request = Panic w
  end.
Proof.
  unfold Evaluate, inspected_key, constraints_satisfied.
  destruct (ps_Constraints (p_Spec policy)) as [consts|]; simpl;
    [|eexists; split; [done|rewrite forall_None; naive_solver]].
  destruct (con_PrivateKey consts) as [pk|] eqn:Hpk; simpl.
  - destruct (DecodeX509CertificateRequestBytes _) as [csr| |]; [|done..]. simpl.
    destruct (decodePublicKey _) as [[alg size]| |]; [|done..]. simpl.
    match goal with |- ∃ _, respond ?el = _ ∧ _ => destruct (respond_spec el) as (resp & Hr & Hiff) end.
    exists resp. split; [done|]. rewrite forall_Some, Hpk, forall_Some, Hiff, app_nil_iff,
      duration_errors, privateKey_errors. naive_solver.
  - match goal with |- ∃ _, respond ?el = _ ∧ _ => destruct (respond_spec el) as (resp & Hr & Hiff) end.
    exists resp. split; [done|]. rewrite forall_Some, Hpk, forall_None, Hiff, duration_errors.
    naive_solver.
Qed.

Lemma Validate_wellformed policy :
  (wv_Allowed (Validate policy) = true ↔ wv_Errors (Validate policy) = []) ∧
  (wv_Allowed (Validate policy) = true ↔
    ∀ consts, ps_Constraints (p_Spec policy) = Some consts → constraints_wellformed consts).
Proof.
  unfold Validate. destruct (ps_Constraints (p_Spec policy)) as [consts|]; simpl;
    [|by rewrite forall_None].
  match goal with |- context [length ?l] => set (el := l) end.
  assert ((length el =? 0)%nat = true ↔ el = []) as Hl by (rewrite Nat.eqb_eq; by destruct el).
  split; [done|]. rewrite forall_Some, Hl. unfold el, constraints_wellformed.
  rewrite !app_nil_iff. repeat f_equiv.
  - destruct (con_PrivateKey consts); rewrite ?forall_Some, ?forall_None;
      [apply privateKeyValidation_errors|done].
  - destruct (con_MaxDuration consts), (con_MinDuration consts);
      rewrite ?if_nil_iff, ?Z.ltb_ge; naive_solver.
  - destruct (con_MaxDuration consts); rewrite ?forall_Some, ?forall_None, ?if_nil_iff, ?Z.ltb_ge;
      naive_solver.
  - destruct (con_MinDuration consts); rewrite ?forall_Some, ?forall_None, ?if_nil_iff, ?Z.ltb_ge;
      naive_solver.
Qed.

(** A duration and a key that fit a well-formed block. *)
Definition fitting_duration consts : Z :=
  match con_MaxDuration consts with
  | Some max => max
  | None => default 0 (con_MinDuration consts)
  end.
Definition fitting_size pk : Z :=
  match pk_MaxSize pk with Some max => max | None => default 0 (pk_MinSize pk) end.
Definition fitting_key pk : PublicKey :=
  if bool_decide (pk_Algorithm pk = Some ECDSAKeyAlgorithm)
  then ecdsa_PublicKey_ptr (fitting_size pk)
  else rsa_PublicKey_ptr (if fitting_size pk =? 0 then 0 else 2 ^ (fitting_size pk - 1)).

Lemma BitLen_pow n : 0 ≤ n → BitLen (if n =? 0 then 0 else 2 ^ (n - 1)) = n.
Proof.
  intros Hn. unfold BitLen. destruct (Z.eqb_spec n 0) as [->|]; [done|].
  assert (0 < 2 ^ (n - 1)) by (apply Z.pow_pos_nonneg; lia).
  rewrite (proj2 (Z.eqb_neq _ 0)), Z.abs_eq, Z.log2_pow2 by lia. lia.
Qed.

Lemma fitting_duration_ok consts :
  constraints_wellformed consts → duration_satisfies consts (Some (fitting_duration consts)).
Proof.
  intros (_ & Hle & _ & _). unfold duration_satisfies, fitting_duration.
  destruct (con_MaxDuration consts) as [max|], (con_MinDuration consts) as [min|];
    rewrite ?forall_Some, ?forall_None; split; try done; eexists; (split; [done|]); simpl; auto with lia.
Qed.
Lemma fitting_key_ok pk :
  key_wellformed pk → pk_Algorithm pk ≠ Some Ed25519KeyAlgorithm →
  ∃ alg size, decodePublicKey (fitting_key pk) = Ok (alg, size) ∧ key_satisfies pk alg size.
Proof.
  intros (Halg & Hmax & Hmin & Hle) Hed.
  assert (0 ≤ fitting_size pk) as Hsize.
  { unfold fitting_size. destruct (pk_MaxSize pk), (pk_MinSize pk); simpl; naive_solver lia. }
  assert (∀ max, pk_MaxSize pk = Some max → fitting_size pk ≤ max) as Hsmax.
  { unfold fitting_size. intros max ->. lia. }
  assert (∀ min, pk_MinSize pk = Some min → min ≤ fitting_size pk) as Hsmin.
  { unfold fitting_size. intros min E. rewrite E. destruct (pk_MaxSize pk); simpl; auto with lia. }
  unfold fitting_key. case_bool_decide as Hec; simpl.
  - do 2 eexists. split; [done|]. split_and!; [|done..]. intros a Ha. congruence.
  - rewrite BitLen_pow by done. do 2 eexists. split; [done|]. split_and!; [|done..].
    intros a Ha. destruct (Halg a Ha) as [Hin _]. set_solver.
Qed.
End spec.

(** ** Properties *)
Section properties.
Context `{PKILib} `{ErrorLib} `{!ErrorLibLaws}.

(** [C10] [Evaluate] of the constraints approver denies exactly the requests
    whose duration or key is outside the declared bounds (a declared bound
    makes a duration mandatory), and fails, without a verdict, exactly when
    a private key constraint has to look at a key it cannot read. *)
Theorem constraints_Evaluate_correct policy request :
  match inspected_key policy request with
  | Ok key => ∃ resp, Evaluate policy request = Ok resp ∧
      (ev_Result resp = ResultNotDenied ↔ constraints_satisfied policy request key)
  | Err e => Evaluate policy request = Err e
  | Panic w => Evaluate policy request = Panic w
  end.
Proof. apply Evaluate_outcome. Qed.

(** The webhook of the constraints approver accepts exactly the
    well-formed blocks: a supported algorithm, no sizes with Ed25519, sizes
    between 0 and 8192, non-negative durations, and no minimum above its
    maximum. *)
Theorem constraints_Validate_correct policy :
  (wv_Allowed (Validate policy) = true ↔ wv_Errors (Validate policy) = []) ∧
  (wv_Allowed (Validate policy) = true ↔
    ∀ consts, ps_Constraints (p_Spec policy) = Some consts → constraints_wellformed consts).
Proof. apply Validate_wellformed. Qed.

(** [C28] Admission is not vacuous: a constraints block that the webhook
    accepts and that does not ask for Ed25519 is met by some duration and
    some RSA or ECDSA key. *)
Theorem constraints_admitted_satisfiable policy consts :
  wv_Allowed (Validate policy) = true → ps_Constraints (p_Spec policy) = Some consts →
  con_PrivateKey consts ≫= pk_Algorithm ≠ Some Ed25519KeyAlgorithm →
  ∃ d, duration_satisfies consts (Some d) ∧
    ∀ pk, con_PrivateKey consts = Some pk → ∃ key alg size,
      decodePublicKey key = Ok (alg, size) ∧ key_satisfies pk alg size.
Proof.
  intros Hv Hc Hed. apply Validate_wellformed with (consts := consts) in Hv; [|done].
  exists (fitting_duration consts). split; [by apply fitting_duration_ok|].
  intros pk Hpk. exists (fitting_key pk). apply fitting_key_ok; [by apply Hv|].
  by rewrite Hpk in Hed.
Qed.

(** [C40] An Ed25519 request is never given a verdict by a policy with a
    private key constraint, whatever the constraint says: crypto/x509 parses
    an Ed25519 key to an [ed25519.PublicKey], the type switch only knows
    [*ed25519.PublicKey]. *)
Theorem ed25519_never_evaluated policy request consts pk csr key :
  ps_Constraints (p_Spec policy) = Some consts → con_PrivateKey consts = Some pk →
  DecodeX509CertificateRequestBytes (crs_Request (cr_Spec request)) = Ok csr →
  csr_PublicKey csr = ed25519_PublicKey key →
  Evaluate policy request =
    Err (errors_New "unrecognised public key type ed25519.PublicKey").
Proof.
  intros Hc Hpk Hcsr Hkey. unfold Evaluate. rewrite Hc, Hpk. simpl. rewrite Hcsr. simpl.
  by rewrite Hkey.
Qed.
End properties.

Module ConstraintsWitnesses.
Import Sample.

Definition rsa_policy : CertificateRequestPolicy :=
  sample_policy "p" None (Some (sample_constraints "RSA")).

Lemma constraints_Evaluate_correct_witness :
  ∃ resp, Evaluate rsa_policy (sample_request [1] (Some 7200000000000)) = Ok resp ∧
    (ev_Result resp = ResultNotDenied ↔
      constraints_satisfied rsa_policy (sample_request [1] (Some 7200000000000))
        (Some ("RSA", 2048))).
Proof.
  exact (constraints_Evaluate_correct rsa_policy (sample_request [1] (Some 7200000000000))).
Defined.

Lemma constraints_admitted_satisfiable_witness :
  ∃ d, duration_satisfies (sample_constraints "RSA") (Some d) ∧
    ∀ pk, con_PrivateKey (sample_constraints "RSA") = Some pk → ∃ key alg size,
      decodePublicKey key = Ok (alg, size) ∧ key_satisfies pk alg size.
Proof.
  apply (constraints_admitted_satisfiable rsa_policy (sample_constraints "RSA"));
    [vm_compute; reflexivity|reflexivity|discriminate].
Defined.

Lemma ed25519_never_evaluated_witness :
  Evaluate (sample_policy "p" None (Some (sample_constraints "Ed25519")))
    (sample_request [2] (Some 7200000000000)) =
    Err (errors_New "unrecognised public key type ed25519.PublicKey").
Proof.
  apply (ed25519_never_evaluated
    (sample_policy "p" None (Some (sample_constraints "Ed25519")))
    (sample_request [2] (Some 7200000000000)) (sample_constraints "Ed25519")
    (Build_CertificateRequestPolicyConstraintsPrivateKey (Some "Ed25519") (Some 2048) None)
    (sample_csr (ed25519_PublicKey [])) []); reflexivity.
Defined.
End ConstraintsWitnesses.
