(* ===== verification/Client.v ===== *)
(** * The API server as the program sees it

    [Reader] is the informer cache ([client.Reader], called lister in the
    program), [Client] the REST client.  Both are parameters: a call may read
    and change the state of the outside world in any way, and may fail. *)
From S2P Require Import Prelude GoStrings K8s PolicyAPI.

Class Reader (S : Type) := {
  List_CertificateRequestPolicies : M S CertificateRequestPolicyList;
  List_CertificateRequests : M S (list CertificateRequest);
  Get_Namespace_Labels : string → M S (gmap string string);
  Get_CertificateRequest : NamespacedName → M S CertificateRequest;
  Get_CertificateRequestPolicy : NamespacedName → M S CertificateRequestPolicy }.

(** ** k8s.io/api/authorization/v1 *)
Record ResourceAttributes := {
  ra_Group : string;
  ra_Resource : string;
  ra_Name : string;
  ra_Namespace : string;
  ra_Verb : string }.
Record SubjectAccessReviewSpec := {
  sar_User : string;
  sar_Groups : list string;
  sar_Extra : gmap string (list string);
  sar_UID : string;
  sar_ResourceAttributes : ResourceAttributes }.

(** A patch of the status subresource of the object named. *)
Record StatusPatch := {
  sp_Target : NamespacedName;
  sp_Type : string;
  sp_Data : string;
  sp_FieldManager : string;
  sp_Force : bool }.

Class Client (S : Type) := {
  (** [Create] of a SubjectAccessReview; answers [rev.Status.Allowed]. *)
  Create_SubjectAccessReview : SubjectAccessReviewSpec → M S bool;
  (** [Status().Patch]. *)
  Status_Patch_CertificateRequest : StatusPatch → M S unit;
  Status_Patch_CertificateRequestPolicy : StatusPatch → M S unit }.

(** What the controllers use beside the API: the recorder of Kubernetes events
    and the clock. *)
Inductive EventType := EventTypeNormal | EventTypeWarning.

Class Recorder (S : Type) := {
  Event_CertificateRequest : CertificateRequest → EventType → string → string → M S unit;
  Event_CertificateRequestPolicy : CertificateRequestPolicy → EventType → string → string → M S unit }.

Class Clock (S : Type) := { Now : M S Z }.

(** ** cert-manager/pkg/api/util *)
Class ApiUtil := {
  CertificateRequestIsApproved : CertificateRequest → bool;
  CertificateRequestIsDenied : CertificateRequest → bool }.

(** Documented: via a condition of that type with status True. *)
Definition has_true_condition (type : string) (cr : CertificateRequest) : Prop :=
  ∃ c, c ∈ crst_Conditions (cr_Status cr) ∧ crc_Type c = type ∧ crc_Status c = ConditionTrue.
Class ApiUtilLaws `{ApiUtil} := {
  IsApproved_iff cr : CertificateRequestIsApproved cr = true ↔
    has_true_condition CertificateRequestConditionApproved cr;
  IsDenied_iff cr : CertificateRequestIsDenied cr = true ↔
    has_true_condition CertificateRequestConditionDenied cr }.

(** ** What a controller does besides patching

    [bystanders g]: reading an object, recording an event and asking for the
    time leave the observation [g] of the world alone. *)
Record bystanders {S T} (g : S → T) `{Reader S, Recorder S, Clock S} : Prop := {
  Get_CertificateRequest_keeps nn : keeps g (Get_CertificateRequest nn);
  Get_CertificateRequestPolicy_keeps nn : keeps g (Get_CertificateRequestPolicy nn);
  Event_CertificateRequest_keeps cr t r m : keeps g (Event_CertificateRequest cr t r m);
  Event_CertificateRequestPolicy_keeps p t r m : keeps g (Event_CertificateRequestPolicy p t r m);
  Now_keeps : keeps g Now }.
(** The same for a preorder: what the state may become meanwhile. *)
Record unobtrusive {S} (R : S → S → Prop) `{Reader S, Recorder S, Clock S} : Prop := {
  Get_CertificateRequest_follows nn : follows R (Get_CertificateRequest nn);
  Get_CertificateRequestPolicy_follows nn : follows R (Get_CertificateRequestPolicy nn);
  Event_CertificateRequest_follows cr t r m : follows R (Event_CertificateRequest cr t r m);
  Event_CertificateRequestPolicy_follows p t r m : follows R (Event_CertificateRequestPolicy p t r m);
  Now_follows : follows R Now }.
Lemma bystanders_unobtrusive {S T} (g : S → T) `{Reader S, Recorder S, Clock S} :
  bystanders g → unobtrusive (same g).
Proof. by intros []; split. Qed.

(** ** The log of the patches

    [patches s] is what has been sent to the API server so far.  Reading,
    recording events and asking for the time do not patch. *)
Class PatchLog (S : Type) := { patches : S → list StatusPatch }.

Abbreviation no_patch m := (keeps patches m).

Class PatchLogLaws (S : Type) `{PatchLog S, Reader S, Client S, Recorder S, Clock S} := {
  Get_CertificateRequest_no_patch nn : no_patch (Get_CertificateRequest nn);
  Get_CertificateRequestPolicy_no_patch nn : no_patch (Get_CertificateRequestPolicy nn);
  Event_CertificateRequest_no_patch cr t r m : no_patch (Event_CertificateRequest cr t r m);
  Event_CertificateRequestPolicy_no_patch p t r m : no_patch (Event_CertificateRequestPolicy p t r m);
  Now_no_patch : no_patch Now;
  Status_Patch_CertificateRequest_log p s o s' :
    Status_Patch_CertificateRequest p s = (o, s') → patches s' = patches s ++ [p];
  Status_Patch_CertificateRequestPolicy_log p s o s' :
    Status_Patch_CertificateRequestPolicy p s = (o, s') → patches s' = patches s ++ [p] }.

#[export] Hint Resolve Get_CertificateRequest_no_patch Get_CertificateRequestPolicy_no_patch
  Event_CertificateRequest_no_patch Event_CertificateRequestPolicy_no_patch Now_no_patch : go.

Lemma patches_bystanders {S} `{PatchLogLaws S} : bystanders (patches (S:=S)).
Proof. split; intros; eauto with go. Qed.
