(* ===== verification/Predicate.v ===== *)
(** * Which policies apply: pkg/internal/approver/manager/predicate

    The four predicates of predicate.go.  Each filters a list of policies for
    a request; the last two talk to the API server. *)
From S2P Require Import Prelude GoStrings Wildcard K8s PolicyAPI Client.

Definition Predicate (S : Type) : Type :=
  CertificateRequest → list CertificateRequestPolicy → M S (list CertificateRequestPolicy).

Definition nonEmptyOrDefault (s d : string) : string :=
  if (String.length s =? 0)%nat then d else s.

Section predicates.
Context {S : Type} `{Reader S} `{Client S} `{LabelsLib}.

Definition readyCondition (condition : CertificateRequestPolicyCondition) : bool :=
  bool_decide (pc_Type condition = CertificateRequestPolicyConditionReady)
  && bool_decide (pc_Status condition = ConditionTrue).

(** The inner loop appends the policy once per matching condition. *)
Definition Ready : Predicate S := λ _ policies,
  mret (policies ≫= λ policy,
    pst_Conditions (p_Status policy) ≫= λ condition,
      if readyCondition condition then [policy] else []).

(** The body of the loop of [SelectorIssuerRef]: whether the policy is kept. *)
Definition issuerRefMatches (issRefSel : option CertificateRequestPolicySelectorIssuerRef)
    (issName issKind issGroup : string) : bool :=
  match issRefSel with
  | None => true
  | Some sel =>
      if match isel_Name sel with Some p => negb (WildcardMatches p issName) | None => false end
      then false
      else if match isel_Kind sel with Some p => negb (WildcardMatches p issKind) | None => false end
      then false
      else if match isel_Group sel with Some p => negb (WildcardMatches p issGroup) | None => false end
      then false
      else true
  end.

Definition SelectorIssuerRef : Predicate S := λ cr policies,
  let ref := crs_IssuerRef (cr_Spec cr) in
  let issKind := nonEmptyOrDefault (ref_Kind ref) IssuerKind in
  let issGroup := nonEmptyOrDefault (ref_Group ref) "cert-manager.io" in
  let issName := ref_Name ref in
  mret (filter (λ policy,
    issuerRefMatches (sel_IssuerRef (ps_Selector (p_Spec policy))) issName issKind issGroup = true)
    policies).

(** [matched] after the loop over [matchNames]. *)
Definition namespaceNameMatched (nsSel : CertificateRequestPolicySelectorNamespace)
    (namespace : string) : bool :=
  (length (nsel_MatchNames nsSel) =? 0)%nat
  || existsb (λ matchName, WildcardMatches matchName namespace) (nsel_MatchNames nsSel).

(** The labels of the request's namespace are fetched when the first policy
    needs them and kept for the others. *)
Definition fetchLabels (request : CertificateRequest)
    (namespaceLabels : option (gmap string string)) : M S (gmap string string) :=
  match namespaceLabels with
  | Some labels => mret labels
  | None =>
      wrap_err "failed to get request's namespace to determine namespace selector"
        (Get_Namespace_Labels (cr_Namespace request))
  end.

Definition parseSelector (matchLabels : gmap string string) : outcome Selector :=
  match LabelSelectorAsSelector matchLabels with
  | Err e => Err (Errorf_w "failed to parse namespace label selector" e)
  | o => o
  end.

(** One round of the loop; the accumulator is [(matchingPolicies, namespaceLabels)]. *)
Definition selectNamespace (request : CertificateRequest)
    (acc : list CertificateRequestPolicy * option (gmap string string))
    (policy : CertificateRequestPolicy)
    : M S (list CertificateRequestPolicy * option (gmap string string)) :=
  let '(matchingPolicies, namespaceLabels) := acc in
  match sel_Namespace (ps_Selector (p_Spec policy)) with
  | None => mret (matchingPolicies ++ [policy], namespaceLabels)
  | Some nsSel =>
      if negb (namespaceNameMatched nsSel (cr_Namespace request))
      then mret (matchingPolicies, namespaceLabels)
      else
        match nsel_MatchLabels nsSel with
        | None => mret (matchingPolicies ++ [policy], namespaceLabels)
        | Some matchLabels =>
            labels ← fetchLabels request namespaceLabels;
            selector ← pure_call (parseSelector matchLabels);
            if negb (selector_Matches selector labels)
            then mret (matchingPolicies, Some labels)
            else mret (matchingPolicies ++ [policy], Some labels)
        end
  end.

Definition SelectorNamespace : Predicate S := λ request policies,
  acc ← for_range policies ([], None) (selectNamespace request);
  mret acc.1.

Definition subjectAccessReview (cr : CertificateRequest) (policy : CertificateRequestPolicy)
    : SubjectAccessReviewSpec :=
  {| sar_User := crs_Username (cr_Spec cr);
     sar_Groups := crs_Groups (cr_Spec cr);
     sar_Extra := crs_Extra (cr_Spec cr);
     sar_UID := crs_UID (cr_Spec cr);
     sar_ResourceAttributes := {|
       ra_Group := "policy.cert-manager.io";
       ra_Resource := "certificaterequestpolicies";
       ra_Name := p_Name policy;
       ra_Namespace := cr_Namespace cr;
       ra_Verb := "use" |} |}.

Definition RBACBound : Predicate S := λ cr policies,
  for_range policies [] (λ boundPolicies policy,
    allowed ← wrap_err "failed to create subjectaccessreview"
      (Create_SubjectAccessReview (subjectAccessReview cr policy));
    mret (if (allowed : bool) then boundPolicies ++ [policy] else boundPolicies)).
End predicates.
