(* ===== verification/PredicateSpec.v ===== *)
(** * What the predicates select

    For each predicate the declarative property of a policy it filters by, and
    the proof that it does, whatever the API server answers. *)
From S2P Require Import Prelude GoStrings Wildcard K8s PolicyAPI Validation Samples Client Predicate.

(** [filterM keep l]: the elements for which [keep] answers true, in order,
    unless it fails on one. *)
Definition filterM {A} (keep : A → outcome bool) (l : list A) : outcome (list A) :=
  collect (λ x, b ← keep x; mret (if (b : bool) then [x] else [])) l.

Lemma filterM_cons {A} (keep : A → outcome bool) x l :
  filterM keep (x :: l) =
    (b ← keep x; l' ← filterM keep l; mret (if (b : bool) then x :: l' else l')).
Proof.
  unfold filterM, collect. simpl. destruct (keep x) as [[]| |]; simpl; [..|done|done].
  all: assert (∀ i j, collect_from i (λ _ y, b ← keep y; mret (if (b : bool) then [y] else [])) l =
    collect_from j (λ _ y, b ← keep y; mret (if (b : bool) then [y] else [])) l) as Hij.
  1,3: induction l as [|y l IH]; intros i j; simpl; [done|]; by rewrite (IH (S i) (S j)).
  all: rewrite (Hij 1%nat 0%nat); by destruct (collect_from _ _ _).
Qed.

Lemma filterM_Ok {A} (keep : A → outcome bool) l l' :
  filterM keep l = Ok l' → l' = filter (λ x, keep x = Ok true) l.
Proof.
  revert l'. induction l as [|x l IH]; intros l'; [by intros [= <-]|].
  rewrite filterM_cons, filter_cons.
  destruct (keep x) as [[]| |]; simpl; try done; intros Hl; inv_call;
    rename select (filterM _ _ = _) into Hl'; apply IH in Hl' as <-; by revert Hl; intros [= <-].
Qed.
Lemma filterM_total {A} (keep : A → outcome bool) l :
  (∀ x, x ∈ l → ∃ b, keep x = Ok b) →
  filterM keep l = Ok (filter (λ x, keep x = Ok true) l).
Proof.
  induction l as [|x l IH]; intros Hall; [done|]. rewrite filterM_cons.
  destruct (Hall x) as [b Hb]; [by left|]. rewrite IH by (intros; apply Hall; by right).
  rewrite filter_cons, Hb. by destruct b.
Qed.
Lemma filterM_ext {A} (k1 k2 : A → outcome bool) l :
  (∀ x, x ∈ l → k1 x = k2 x) → filterM k1 l = filterM k2 l.
Proof.
  induction l as [|x l IH]; intros Hk; [done|]. rewrite !filterM_cons, Hk by (by left).
  by rewrite IH by (intros; apply Hk; by right).
Qed.

(** The elements whose decision is true. *)
Fixpoint select_by {A} (l : list A) (bs : list bool) : list A :=
  match l, bs with
  | x :: l, b :: bs => if b then x :: select_by l bs else select_by l bs
  | _, _ => []
  end.

Section spec.
Context {S : Type} `{Reader S} `{Client S} `{LabelsLib}.
Implicit Types (cr : CertificateRequest) (p : CertificateRequestPolicy)
  (ps : list CertificateRequestPolicy).

(** ** Ready *)
Definition is_ready p : Prop :=
  ∃ c, c ∈ pst_Conditions (p_Status p) ∧
    pc_Type c = CertificateRequestPolicyConditionReady ∧ pc_Status c = ConditionTrue.
(** The API's promise on conditions: [listType=map], keyed by type. *)
Definition conditions_keyed p : Prop := NoDup (pc_Type <$> pst_Conditions (p_Status p)).

Lemma readyCondition_true c :
  readyCondition c = true ↔
    pc_Type c = CertificateRequestPolicyConditionReady ∧ pc_Status c = ConditionTrue.
Proof. unfold readyCondition. by rewrite andb_true_iff, !bool_decide_eq_true. Qed.

Lemma is_ready_existsb p :
  existsb readyCondition (pst_Conditions (p_Status p)) = true ↔ is_ready p.
Proof.
  rewrite existsb_exists. unfold is_ready. setoid_rewrite <-readyCondition_true.
  by setoid_rewrite list_elem_of_In.
Qed.
#[export] Instance is_ready_dec p : Decision (is_ready p).
Proof. eapply decide_iff; [apply is_ready_existsb|apply _]. Defined.

Lemma Ready_elem cr ps s :
  ∃ l, Ready (S:=S) cr ps s = (Ok l, s) ∧ ∀ p, p ∈ l ↔ p ∈ ps ∧ is_ready p.
Proof.
  eexists; split; [done|]. intros p. rewrite list_elem_of_bind. unfold is_ready. split.
  - intros (q & (c & Hq & Hc)%list_elem_of_bind & Hin). destruct (readyCondition c) eqn:E.
    + apply list_elem_of_singleton in Hq as ->. apply readyCondition_true in E. eauto.
    + by apply elem_of_nil in Hq.
  - intros (Hin & c & Hc & Hready). exists p. split; [|done].
    apply list_elem_of_bind. exists c. split; [|done].
    rewrite (proj2 (readyCondition_true c)) by done. by left.
Qed.

Lemma ready_once p :
  conditions_keyed p →
  (pst_Conditions (p_Status p) ≫= λ c, if readyCondition c then [p] else []) =
    if decide (is_ready p) then [p] else [].
Proof.
  unfold conditions_keyed. intros Hnd.
  assert (∀ l : list CertificateRequestPolicyCondition,
    NoDup (pc_Type <$> l) →
    (l ≫= λ c, if readyCondition c then [p] else []) =
      if existsb readyCondition l then [p] else []) as Hl.
  { clear. induction l as [|c l IH]; [done|]. rewrite fmap_cons, NoDup_cons, bind_cons.
    intros [Hc Hnd]. rewrite IH by done. simpl. destruct (readyCondition c) eqn:E; [|done].
    destruct (existsb readyCondition l) eqn:El; [|done]. destruct Hc.
    apply existsb_exists in El as (d & Hd & Ed).
    apply readyCondition_true in E as [-> _]. apply readyCondition_true in Ed as [<- _].
    apply list_elem_of_fmap. exists d. by rewrite list_elem_of_In. }
  rewrite Hl by done. pose proof (is_ready_existsb p) as Hr.
  destruct (existsb _ _), (decide _); naive_solver.
Qed.

Lemma Ready_filter cr ps s :
  Forall conditions_keyed ps → Ready (S:=S) cr ps s = (Ok (filter is_ready ps), s).
Proof.
  intros Hall. unfold Ready, mret, M_ret. do 2 f_equal.
  induction Hall as [|p ps Hp _ IH]; [done|].
  rewrite bind_cons, filter_cons, IH, ready_once by done. by case_decide.
Qed.

(** ** SelectorIssuerRef *)
Definition pattern_admits (pattern : option string) (s : string) : Prop :=
  ∀ pat, pattern = Some pat → Matches pat s.
Definition issuer_selected cr p : Prop :=
  let ref := crs_IssuerRef (cr_Spec cr) in
  ∀ sel, sel_IssuerRef (ps_Selector (p_Spec p)) = Some sel →
    pattern_admits (isel_Name sel) (ref_Name ref) ∧
    pattern_admits (isel_Kind sel) (nonEmptyOrDefault (ref_Kind ref) IssuerKind) ∧
    pattern_admits (isel_Group sel) (nonEmptyOrDefault (ref_Group ref) "cert-manager.io").

Lemma pattern_test pattern s :
  match pattern with Some p => negb (WildcardMatches p s) | None => false end = false ↔
  pattern_admits pattern s.
Proof.
  unfold pattern_admits. destruct pattern as [pat|]; [|naive_solver].
  rewrite forall_Some, negb_false_iff. apply WildcardMatches_denote.
Qed.
Lemma early_returns (a b c : bool) :
  (if a then false else if b then false else if c then false else true) = true ↔
  a = false ∧ b = false ∧ c = false.
Proof. destruct a, b, c; naive_solver. Qed.
Lemma issuerRefMatches_true cr p :
  issuerRefMatches (sel_IssuerRef (ps_Selector (p_Spec p)))
    (ref_Name (crs_IssuerRef (cr_Spec cr)))
    (nonEmptyOrDefault (ref_Kind (crs_IssuerRef (cr_Spec cr))) IssuerKind)
    (nonEmptyOrDefault (ref_Group (crs_IssuerRef (cr_Spec cr))) "cert-manager.io") = true ↔
  issuer_selected cr p.
Proof.
  unfold issuerRefMatches, issuer_selected.
  destruct (sel_IssuerRef _) as [sel|]; [|naive_solver].
  rewrite forall_Some, <-!pattern_test. apply early_returns.
Qed.
#[export] Instance issuer_selected_dec cr p : Decision (issuer_selected cr p).
Proof. eapply decide_iff; [apply issuerRefMatches_true|apply _]. Defined.

Lemma SelectorIssuerRef_filter cr ps s :
  SelectorIssuerRef (S:=S) cr ps s = (Ok (filter (issuer_selected cr) ps), s).
Proof.
  unfold SelectorIssuerRef, mret, M_ret. do 2 f_equal. apply list_filter_iff.
  intros p. apply issuerRefMatches_true.
Qed.

(** ** SelectorNamespace *)
Definition needs_labels cr p : bool :=
  match sel_Namespace (ps_Selector (p_Spec p)) with
  | Some sel =>
      namespaceNameMatched sel (cr_Namespace cr) &&
      match nsel_MatchLabels sel with Some _ => true | None => false end
  | None => false
  end.
(** The decision on one policy, with the labels [L] of the namespace. *)
Definition ns_keep cr (L : gmap string string) p : outcome bool :=
  match sel_Namespace (ps_Selector (p_Spec p)) with
  | None => Ok true
  | Some sel =>
      if negb (namespaceNameMatched sel (cr_Namespace cr)) then Ok false else
      match nsel_MatchLabels sel with
      | None => Ok true
      | Some ml => selector ← parseSelector ml; Ok (selector_Matches selector L)
      end
  end.
(** What a namespace selector asks. *)
Definition namespace_selected cr (L : gmap string string) p : Prop :=
  ∀ sel, sel_Namespace (ps_Selector (p_Spec p)) = Some sel →
    (nsel_MatchNames sel = [] ∨
      ∃ pat, pat ∈ nsel_MatchNames sel ∧ Matches pat (cr_Namespace cr)) ∧
    (∀ ml, nsel_MatchLabels sel = Some ml →
      ∃ selector, LabelSelectorAsSelector ml = Ok selector ∧
        selector_Matches selector L = true).

Lemma namespaceNameMatched_true sel ns :
  namespaceNameMatched sel ns = true ↔
    nsel_MatchNames sel = [] ∨ ∃ pat, pat ∈ nsel_MatchNames sel ∧ Matches pat ns.
Proof.
  unfold namespaceNameMatched.
  rewrite orb_true_iff, Nat.eqb_eq, length_zero_iff_nil, existsb_exists.
  setoid_rewrite <-list_elem_of_In. by setoid_rewrite WildcardMatches_denote.
Qed.
Lemma parseSelector_Ok ml selector :
  parseSelector ml = Ok selector ↔ LabelSelectorAsSelector ml = Ok selector.
Proof. unfold parseSelector. by destruct (LabelSelectorAsSelector ml). Qed.

Lemma ns_keep_true cr L p : ns_keep cr L p = Ok true ↔ namespace_selected cr L p.
Proof.
  unfold ns_keep, namespace_selected. destruct (sel_Namespace _) as [sel|]; [|naive_solver].
  rewrite forall_Some, <-namespaceNameMatched_true.
  destruct (namespaceNameMatched _ _); simpl; [|naive_solver].
  destruct (nsel_MatchLabels sel) as [ml|]; [|naive_solver].
  rewrite forall_Some. setoid_rewrite <-parseSelector_Ok.
  destruct (parseSelector ml) as [selector| |]; simpl; [|naive_solver..]. split.
  - intros [= E]. eauto.
  - by intros (_ & x & [= ->] & ->).
Qed.
#[export] Instance namespace_selected_dec cr L p : Decision (namespace_selected cr L p).
Proof. eapply decide_iff; [apply ns_keep_true|apply _]. Defined.

Lemma needs_labels_false cr L L' p :
  needs_labels cr p = false → ns_keep cr L p = ns_keep cr L' p ∧ is_Ok (ns_keep cr L p).
Proof.
  unfold needs_labels, ns_keep, is_Ok.
  destruct (sel_Namespace _) as [sel|]; [|by eauto].
  destruct (namespaceNameMatched _ _); simpl; [|by eauto].
  destruct (nsel_MatchLabels sel); [done|by eauto].
Qed.

(** One round, once the labels are known or not needed. *)
Lemma selectNamespace_run cr L acc labels p s :
  labels = Some L ∨ needs_labels cr p = false →
  selectNamespace (S:=S) cr (acc, labels) p s =
    (k ← ns_keep cr L p; Ok (acc ++ (if (k : bool) then [p] else []), labels), s).
Proof.
  unfold selectNamespace, ns_keep, needs_labels. intros Hl.
  destruct (sel_Namespace _) as [sel|]; [|done].
  destruct (namespaceNameMatched _ _); simpl; [|by rewrite app_nil_r].
  destruct (nsel_MatchLabels sel) as [ml|]; [|done].
  destruct Hl as [-> |]; [|done]. unfold mbind, M_bind, mret, M_ret, pure_call. simpl.
  destruct (parseSelector ml) as [selector| |]; [|done..]. simpl.
  destruct (selector_Matches _ _); simpl; [done|]. by rewrite app_nil_r.
Qed.

Lemma for_range_known cr L ps acc s :
  for_range ps (acc, Some L) (selectNamespace (S:=S) cr) s =
    (l ← filterM (ns_keep cr L) ps; Ok (acc ++ l, Some L), s).
Proof.
  revert acc. induction ps as [|p ps IH]; intros acc; [simpl; by rewrite app_nil_r|].
  rewrite for_range_cons, M_bind_step. rewrite (selectNamespace_run cr L) by (by left).
  rewrite filterM_cons. destruct (ns_keep cr L p) as [k| |]; simpl; [|done..].
  rewrite IH. destruct (filterM _ ps); simpl; [|done..].
  by destruct k; simpl; rewrite <-?app_assoc, ?app_nil_r.
Qed.
Lemma filterM_needless cr L L' ps :
  existsb (needs_labels cr) ps = false →
  filterM (ns_keep cr L) ps = filterM (ns_keep cr L') ps ∧ is_Ok (filterM (ns_keep cr L) ps).
Proof.
  induction ps as [|p ps IH]; simpl; [unfold is_Ok; eauto|].
  intros [Hp Hps]%orb_false_iff. destruct (IH Hps) as [E [l El]].
  destruct (needs_labels_false cr L L' p Hp) as [E' [k Ek]].
  rewrite !filterM_cons, <-E, <-E', El, Ek. split; [done|]. by eexists.
Qed.

(** The failure of the first round that needs the labels. *)
Lemma fetch_first cr p s r s1 :
  needs_labels cr p = true →
  wrap_err "failed to get request's namespace to determine namespace selector"
    (Get_Namespace_Labels (cr_Namespace cr)) s = (r, s1) →
  ∀ acc, selectNamespace (S:=S) cr (acc, None) p s =
    match r with
    | Ok L => selectNamespace (S:=S) cr (acc, Some L) p s1
    | Err e => (Err e, s1)
    | Panic w => (Panic w, s1)
    end.
Proof.
  unfold needs_labels, selectNamespace, fetchLabels. intros Hn Hr acc.
  destruct (sel_Namespace _) as [sel|]; [|done].
  destruct (namespaceNameMatched _ _); [|done].
  destruct (nsel_MatchLabels sel) as [ml|]; [|done].
  unfold mbind, M_bind, mret, M_ret. simpl. rewrite Hr. by destruct r.
Qed.

(** The whole run: the namespace is read at most once, and only when a
    policy that its name matches has a label selector. *)
Lemma SelectorNamespace_run cr ps s :
  SelectorNamespace (S:=S) cr ps s =
    if existsb (needs_labels cr) ps then
      match wrap_err "failed to get request's namespace to determine namespace selector"
        (Get_Namespace_Labels (cr_Namespace cr)) s with
      | (Ok L, s') => (filterM (ns_keep cr L) ps, s')
      | (Err e, s') => (Err e, s')
      | (Panic w, s') => (Panic w, s')
      end
    else (filterM (ns_keep cr ∅) ps, s).
Proof.
  unfold SelectorNamespace. rewrite M_bind_step.
  assert (∀ acc, for_range ps (acc, None) (selectNamespace (S:=S) cr) s =
    if existsb (needs_labels cr) ps then
      match wrap_err "failed to get request's namespace to determine namespace selector"
        (Get_Namespace_Labels (cr_Namespace cr)) s with
      | (Ok L, s') => (l ← filterM (ns_keep cr L) ps; Ok (acc ++ l, Some L), s')
      | (Err e, s') => (Err e, s')
      | (Panic w, s') => (Panic w, s')
      end
    else (l ← filterM (ns_keep cr ∅) ps; Ok (acc ++ l, None), s)) as Hrun.
  2:{ rewrite Hrun. destruct (existsb _ ps).
      - destruct (wrap_err _ _ s) as [[L| |] s']; [|done..]. by destruct (filterM _ ps).
      - by destruct (filterM _ ps). }
  induction ps as [|p ps IH]; intros acc; [simpl; by rewrite app_nil_r|].
  rewrite for_range_cons, M_bind_step. cbn [existsb]. destruct (needs_labels cr p) eqn:Hp; cbn [orb].
  - destruct (wrap_err _ _ s) as [r s1] eqn:Er. rewrite (fetch_first cr p s r s1) by done.
    destruct r as [L| |]; [|done..].
    pose proof (for_range_known cr L (p :: ps) acc s1) as Hk.
    by rewrite for_range_cons, M_bind_step in Hk.
  - rewrite (selectNamespace_run cr ∅) by (by right).
    destruct (needs_labels_false cr ∅ ∅ p Hp) as [_ [k Ek]]. rewrite Ek. simpl.
    rewrite IH, filterM_cons, Ek. destruct (existsb _ ps) eqn:Eps.
    + destruct (wrap_err _ _ s) as [[L| |] s']; [|done..].
      destruct (needs_labels_false cr L ∅ p Hp) as [Ek' _]. rewrite Ek in Ek'.
      rewrite filterM_cons, Ek'. simpl. destruct (filterM _ ps); [|done..]. simpl.
      by destruct k; rewrite <-?app_assoc, ?app_nil_r.
    + simpl. destruct (filterM _ ps); [|done..]. simpl.
      by destruct k; rewrite <-?app_assoc, ?app_nil_r.
Qed.

(** What a successful run answers. *)
Lemma SelectorNamespace_Ok cr ps s l s' :
  SelectorNamespace (S:=S) cr ps s = (Ok l, s') →
  (∃ L, Get_Namespace_Labels (cr_Namespace cr) s = (Ok L, s') ∧
     l = filter (namespace_selected cr L) ps) ∨
  (s' = s ∧ ∀ L, l = filter (namespace_selected cr L) ps).
Proof.
  rewrite SelectorNamespace_run.
  assert (∀ L l, filterM (ns_keep cr L) ps = Ok l → l = filter (namespace_selected cr L) ps)
    as Hfilter.
  { intros L l0 Hl. rewrite (filterM_Ok _ _ _ Hl). apply list_filter_iff.
    intros p. apply ns_keep_true. }
  destruct (existsb _ ps) eqn:E.
  - unfold wrap_err. destruct (Get_Namespace_Labels _ s) as [[L| |] s1]; [|done..].
    intros [= Hl <-]. left. exists L. split; [done|]. by apply Hfilter.
  - intros [= Hl <-]. right. split; [done|]. intros L. apply Hfilter.
    by rewrite (proj1 (filterM_needless cr L ∅ ps E)).
Qed.

(** ** RBACBound *)

(** The API server, asked in turn whether the requester may use each of the
    policies. *)
Definition ask cr p : M S bool := Create_SubjectAccessReview (subjectAccessReview cr p).

Lemma for_range_RBAC cr ps acc s l s' :
  for_range ps acc (λ boundPolicies policy,
    allowed ← wrap_err "failed to create subjectaccessreview"
      (Create_SubjectAccessReview (S:=S) (subjectAccessReview cr policy));
    mret (if (allowed : bool) then boundPolicies ++ [policy] else boundPolicies)) s = (Ok l, s')
  ↔ ∃ bs, answers (ask cr) s ps bs s' ∧ l = acc ++ select_by ps bs.
Proof.
  revert acc s. induction ps as [|p ps IH]; intros acc s.
  - setoid_rewrite run_nil_inv. split.
    + intros [-> ->]%M_ret_Ok. exists []. by rewrite app_nil_r.
    + intros (bs & [-> ->] & ->). by rewrite app_nil_r.
  - rewrite for_range_cons, !M_bind_step. setoid_rewrite run_cons_inv; unfold calls at 1.
    unfold wrap_err at 1. fold (ask cr p).
    destruct (ask cr p s) as [[b| |] s1] eqn:E.
    2-3: split; [done|]; naive_solver.
    unfold mret at 1, M_ret at 1. rewrite IH. split.
    + intros (bs & Hasked & ->). exists (b :: bs). split; [by exists b, s1, bs|].
      by destruct b; rewrite <-?app_assoc.
    + intros (bs & (b' & s1' & bs' & [= <- <-] & Hasked & ->) & ->).
      exists bs'. split; [done|]. by destruct b; rewrite <-?app_assoc.
Qed.

(** ** The claims *)

(** [Ready] keeps exactly the policies that have a Ready condition with
    status True, in their order, and touches nothing, provided the conditions
    of each policy are keyed by type, as the API server guarantees.  A policy
    with two such conditions would be listed twice. *)
Theorem Ready_correct cr ps (Hkeyed : Forall conditions_keyed ps) s :
  Ready (S:=S) cr ps s = (Ok (filter is_ready ps), s).
Proof. by apply Ready_filter. Qed.

(** [SelectorIssuerRef] keeps exactly the policies whose issuer selector
    matches the request's issuer by name, kind and group, where an empty kind
    or group stands for cert-manager's default, and it cannot fail. *)
Theorem SelectorIssuerRef_correct cr ps s :
  SelectorIssuerRef (S:=S) cr ps s = (Ok (filter (issuer_selected cr) ps), s).
Proof. apply SelectorIssuerRef_filter. Qed.

(** [C24] When [SelectorNamespace] succeeds it answers exactly the policies
    whose namespace selector holds of the request's namespace, by name and
    by the labels of the namespace.  The labels were read once, or were not
    read and the answer does not depend on them. *)
Theorem SelectorNamespace_correct cr ps s l s'
  (Hrun : SelectorNamespace (S:=S) cr ps s = (Ok l, s')) :
  (∃ L, Get_Namespace_Labels (cr_Namespace cr) s = (Ok L, s') ∧
     l = filter (namespace_selected cr L) ps) ∨
  (s' = s ∧ ∀ L, l = filter (namespace_selected cr L) ps).
Proof. by apply SelectorNamespace_Ok. Qed.

(** [RBACBound] answers [l] exactly when the API server was asked, once
    per policy and in order, whether the requester may "use" that policy in
    the request's namespace, every question was answered, and [l] is the
    policies for which the answer was yes. *)
Theorem RBACBound_correct cr ps s l s' :
  RBACBound (S:=S) cr ps s = (Ok l, s') ↔
    ∃ bs, answers (ask cr) s ps bs s' ∧ l = select_by ps bs.
Proof. apply for_range_RBAC. Qed.
End spec.

Module PredicateWitnesses.
Import Sample.

(** A cluster whose one namespace carries a label. *)
#[export] Instance labelled_Reader : Reader unit := {
  List_CertificateRequestPolicies := mret {| Items := [] |};
  List_CertificateRequests := mret [];
  Get_Namespace_Labels _ := mret {["env" := "prod"]};
  Get_CertificateRequest _ := fail (errors_New "unused");
  Get_CertificateRequestPolicy _ := fail (errors_New "unused") }.

Definition policy_in (names : list string) (labels : option (gmap string string))
    : CertificateRequestPolicy :=
  {| p_ObjectMeta := {| om_Name := "p"; om_Namespace := ""; om_Generation := 1 |};
     p_Spec := {| ps_Allowed := None; ps_Constraints := None; ps_Plugins := ∅;
       ps_Selector := {| sel_IssuerRef := None;
         sel_Namespace := Some {| nsel_MatchNames := names; nsel_MatchLabels := labels |} |} |};
     p_Status := {| pst_Conditions := [sample_condition "Ready" "True"] |} |}.

Lemma Ready_correct_witness :
  let ps := [sample_policy "a" None None] in
  Forall conditions_keyed ps ∧ ∀ s : unit,
    Ready (sample_request [1] None) ps s = (Ok (filter is_ready ps), s).
Proof.
  intros ps. assert (Forall conditions_keyed ps) as Hps.
  { repeat constructor. by intros ?%elem_of_nil. }
  split; [done|]. intros s. by apply Ready_correct.
Defined.

Lemma SelectorNamespace_correct_witness :
  let cr := sample_request [1] None in
  let ps := [policy_in ["n*"] (Some {["env" := "prod"]}); policy_in ["other"] None] in
  SelectorNamespace cr ps tt = (Ok (take 1 ps), tt) ∧
  ((∃ L, Get_Namespace_Labels (cr_Namespace cr) tt = (Ok L, tt) ∧
     take 1 ps = filter (namespace_selected cr L) ps) ∨
   (tt = tt ∧ ∀ L, take 1 ps = filter (namespace_selected cr L) ps)).
Proof.
  intros cr ps. assert (SelectorNamespace cr ps tt = (Ok (take 1 ps), tt)) as Hrun
    by reflexivity.
  split; [exact Hrun|]. by apply SelectorNamespace_correct.
Defined.
End PredicateWitnesses.
