(* ===== verification/Manager.v ===== *)
(** * The approver manager: pkg/internal/approver/manager/review.go

    Lists the policies, filters them through the predicates and asks every
    evaluator about every policy that is left. *)
From S2P Require Import Prelude GoStrings K8s PolicyAPI Approver Client Predicate.

Record policyMessage := { name : string; message : string }.

Record mngr (S : Type) := {
  predicates : list (Predicate S);
  evaluators : list (Evaluator S) }.
Arguments predicates {S} _.
Arguments evaluators {S} _.

Definition approvedResponse (policy : CertificateRequestPolicy) `{UnicodeTables}
    : manager.ReviewResponse :=
  {| manager.rv_Result := manager.ResultApproved;
     manager.rv_Message :=
       "Approved by CertificateRequestPolicy: " +:+ strconv_Quote (p_Name policy) |}.

(** The end of [Review]: the messages sorted by policy name. *)
Definition formatMessage (m : policyMessage) : string :=
  "[" +:+ name m +:+ ": " +:+ message m +:+ "]".
Definition deniedResponse (policyMessages : list policyMessage) : manager.ReviewResponse :=
  let sorted := sort_SliceStable (λ a b, string_less (name a) (name b)) policyMessages in
  {| manager.rv_Result := manager.ResultDenied;
     manager.rv_Message :=
       "No policy approved this request: " +:+ strings_Join (formatMessage <$> sorted) " " |}.

Section manager.
Context {S : Type} `{Reader S} `{Client S} `{LabelsLib} `{UnicodeTables}.

Definition New (evaluators : list (Evaluator S)) : mngr S :=
  {| predicates := [Ready; SelectorIssuerRef; SelectorNamespace; RBACBound];
     evaluators := evaluators |}.

(** The body of the loop over the evaluators; the accumulator is
    [(evaluatorDenied, evaluatorMessages)]. *)
Definition runEvaluator (policy : CertificateRequestPolicy) (cr : CertificateRequest)
    (acc : bool * list string) (evaluator : Evaluator S) : M S (bool * list string) :=
  let '(evaluatorDenied, evaluatorMessages) := acc in
  response ← evaluator policy cr;
  let evaluatorMessages :=
    if (0 <? String.length (ev_Message response))%nat
    then evaluatorMessages ++ [ev_Message response] else evaluatorMessages in
  let evaluatorDenied :=
    if bool_decide (ev_Result response = ResultDenied) then true else evaluatorDenied in
  mret (evaluatorDenied, evaluatorMessages).

(** The loop over the policies, and what follows it. *)
Fixpoint reviewPolicies (evaluators : list (Evaluator S)) (cr : CertificateRequest)
    (policies : list CertificateRequestPolicy) (policyMessages : list policyMessage)
    : M S manager.ReviewResponse :=
  match policies with
  | [] => mret (deniedResponse policyMessages)
  | policy :: policies =>
      acc ← for_range evaluators (false, []) (runEvaluator policy cr);
      let '(evaluatorDenied, evaluatorMessages) := acc in
      if negb evaluatorDenied then mret (approvedResponse policy)
      else reviewPolicies evaluators cr policies
        (policyMessages ++
          [{| name := p_Name policy; message := strings_Join evaluatorMessages ", " |}])
  end.

Definition applyPredicates (predicates : list (Predicate S)) (cr : CertificateRequest)
    (policies : list CertificateRequestPolicy) : M S (list CertificateRequestPolicy) :=
  for_range predicates policies (λ policies predicate,
    wrap_err "failed to perform predicate on policies" (predicate cr policies)).

Definition Review (m : mngr S) : manager.Interface S := λ cr,
  policyList ← List_CertificateRequestPolicies;
  if (length (Items policyList) =? 0)%nat then
    mret {| manager.rv_Result := manager.ResultUnprocessed;
            manager.rv_Message := "No CertificateRequestPolicies exist" |}
  else
    policies ← applyPredicates (predicates m) cr (Items policyList);
    if (length policies =? 0)%nat then
      mret {| manager.rv_Result := manager.ResultUnprocessed;
              manager.rv_Message := "No CertificateRequestPolicies bound or applicable" |}
    else reviewPolicies (evaluators m) cr policies [].
End manager.
