(* ===== verification/ManagerSpec.v ===== *)
(** * What a review decides

    The runs of a review in any world, as relations, and its result in a world
    that stands still, as a function. *)
From S2P Require Import Prelude GoStrings Wildcard K8s PolicyAPI Approver Validation Samples Client Predicate PredicateSpec Manager.

Definition passes (r : EvaluationResponse) : bool := bool_decide (ev_Result r = ResultNotDenied).
(** No evaluator denied. *)
Definition passed (rs : list EvaluationResponse) : bool := forallb passes rs.
Definition all_messages (rs : list EvaluationResponse) : list string :=
  filter (λ m, m ≠ "") (ev_Message <$> rs).
Definition messageOf (p : CertificateRequestPolicy) (rs : list EvaluationResponse)
    : policyMessage :=
  {| name := p_Name p; message := strings_Join (all_messages rs) ", " |}.

Section decision.
Context `{UnicodeTables}.

(** The first policy that no evaluator denies approves; otherwise all of
    them are named. *)
Fixpoint decision (verdict : CertificateRequestPolicy → list EvaluationResponse)
    (ps : list CertificateRequestPolicy) (ms : list policyMessage) : manager.ReviewResponse :=
  match ps with
  | [] => deniedResponse ms
  | p :: ps =>
      if passed (verdict p) then approvedResponse p
      else decision verdict ps (ms ++ [messageOf p (verdict p)])
  end.

Lemma decision_result verdict ps ms :
  manager.rv_Result (decision verdict ps ms) =
    if existsb (λ p, passed (verdict p)) ps then manager.ResultApproved
    else manager.ResultDenied.
Proof.
  revert ms. induction ps as [|p ps IH]; intros ms; simpl; [done|].
  by destruct (passed (verdict p)); simpl.
Qed.
Lemma decision_denied verdict ps ms :
  existsb (λ p, passed (verdict p)) ps = false →
  decision verdict ps ms = deniedResponse (ms ++ ((λ p, messageOf p (verdict p)) <$> ps)).
Proof.
  revert ms. induction ps as [|p ps IH]; intros ms; simpl; [by rewrite app_nil_r|].
  intros [-> Hps]%orb_false_iff. by rewrite IH, <-app_assoc.
Qed.
Lemma deniedResponse_perm ms ms' :
  NoDup (name <$> ms) → ms ≡ₚ ms' → deniedResponse ms = deniedResponse ms'.
Proof.
  intros Hnd Hp. unfold deniedResponse. by rewrite (sort_SliceStable_perm_eq name ms ms').
Qed.
End decision.

Section runs.
Context {S : Type} `{Reader S} `{Client S} `{LabelsLib} `{UnicodeTables}.
Implicit Types (evs : list (Evaluator S)) (cr : CertificateRequest)
  (p : CertificateRequestPolicy) (ps : list CertificateRequestPolicy).

(** All the evaluators answer about [p]. *)
Definition evaluates evs cr : S → CertificateRequestPolicy → list EvaluationResponse → S → Prop :=
  λ s p rs s', answers (λ e : Evaluator S, e p cr) s evs rs s'.
Definition rejects evs cr : S → CertificateRequestPolicy → list EvaluationResponse → S → Prop :=
  λ s p rs s', evaluates evs cr s p rs s' ∧ passed rs = false.

(** [decides evs cr s ps resp s']: the possible runs over the policies that
    apply.  The policies are tried in order; the first that no evaluator
    denies approves and ends the run, and when all are denied every one of
    them was tried. *)
Inductive decides evs cr (s : S) ps : manager.ReviewResponse → S → Prop :=
  | decides_approved pre p post rss s1 rs s2 :
      ps = pre ++ p :: post →
      run (rejects evs cr) s pre rss s1 →
      evaluates evs cr s1 p rs s2 → passed rs = true →
      decides evs cr s ps (approvedResponse p) s2
  | decides_denied rss s1 :
      run (rejects evs cr) s ps rss s1 →
      decides evs cr s ps (deniedResponse (zip_with messageOf ps rss)) s1.

(** The loop's accumulator after one more response. *)
Definition tally (acc : bool * list string) (r : EvaluationResponse) : bool * list string :=
  (if bool_decide (ev_Result r = ResultDenied) then true else acc.1,
   if (0 <? String.length (ev_Message r))%nat then acc.2 ++ [ev_Message r] else acc.2).
Lemma foldl_review_tally rs acc :
  foldl tally acc rs = (acc.1 || negb (passed rs), acc.2 ++ all_messages rs).
Proof.
  revert acc. induction rs as [|r rs IH]; intros [d ms]; simpl;
    [by rewrite orb_false_r, app_nil_r|].
  rewrite IH. unfold all_messages, passed, passes. rewrite fmap_cons, filter_cons.
  destruct r as [[] m]; simpl; destruct m; simpl; rewrite <-?app_assoc, ?orb_true_r; done.
Qed.
Lemma runEvaluator_tally p cr acc (e : Evaluator S) s :
  runEvaluator p cr acc e s = (r ← e p cr; mret (tally acc r)) s.
Proof. by destruct acc. Qed.

Lemma for_range_evaluators evs cr p acc s acc' s' :
  for_range evs acc (runEvaluator p cr) s = (Ok acc', s') ↔
    ∃ rs, evaluates evs cr s p rs s' ∧
      acc' = (acc.1 || negb (passed rs), acc.2 ++ all_messages rs).
Proof.
  unfold evaluates. rewrite (for_range_ext _ _ _ _ _ (runEvaluator_tally p cr)).
  rewrite (for_range_answers (λ e : Evaluator S, e p cr) tally).
  split; intros (rs & Hrs & ->); exists rs; by rewrite foldl_review_tally.
Qed.

Lemma reviewPolicies_Ok evs cr ps ms s resp s' :
  reviewPolicies evs cr ps ms s = (Ok resp, s') ↔
    (∃ pre p post rss s1 rs, ps = pre ++ p :: post ∧ run (rejects evs cr) s pre rss s1 ∧
       evaluates evs cr s1 p rs s' ∧ passed rs = true ∧ resp = approvedResponse p) ∨
    (∃ rss, run (rejects evs cr) s ps rss s' ∧
       resp = deniedResponse (ms ++ zip_with messageOf ps rss)).
Proof.
  revert ms s. induction ps as [|p ps IH]; intros ms s.
  - setoid_rewrite run_nil_inv. split.
    + intros [<- <-]%M_ret_Ok. right. exists []. by rewrite app_nil_r.
    + intros [([|] & ? & ? & ? & ? & ? & ? & _)|(rss & [-> ->] & ->)]; [done..|].
      simpl. by rewrite app_nil_r.
  - change (reviewPolicies evs cr (p :: ps) ms) with
      (acc ← for_range evs (false, []) (runEvaluator p cr);
       let '(d, l) := acc in
       if negb d then mret (approvedResponse p) else
       reviewPolicies evs cr ps (ms ++ [{| name := p_Name p; message := strings_Join l ", " |}])).
    split.
    + intros ([d l] & s1 & Hfor & Hrest)%M_bind_Ok.
      apply for_range_evaluators in Hfor as (rs & Hrs & [= -> ->]).
      destruct (passed rs) eqn:Ep; simpl in Hrest.
      * apply M_ret_Ok in Hrest as [<- <-]. left. exists [], p, ps, [], s, rs.
        repeat split; [constructor|done..].
      * apply IH in Hrest as [(pre & q & post & rss & s2 & rs' & -> & Hpre & Hrest)|
          (rss & Hrun & ->)].
        -- left. exists (p :: pre), q, post, (rs :: rss), s2, rs'.
           split; [done|]. split; [by econstructor|done].
        -- right. exists (rs :: rss). split; [by econstructor|]. by rewrite <-app_assoc.
    + intros [(pre & q & post & rss & s1 & rs & Hps & Hpre & Hq & Hpass & ->)|
        (rss & (rs & s1 & rss' & [Hrs Hd] & Hrun & ->)%run_cons_inv & ->)].
      * destruct pre as [|p' pre]; simplify_eq/=.
        -- apply run_nil_inv in Hpre as [-> ->].
           rewrite (M_bind_run _ _ (negb (passed rs), all_messages rs) _ s')
             by (apply for_range_evaluators; eauto). by rewrite Hpass.
        -- apply run_cons_inv in Hpre as (rs0 & s2 & rss' & [Hrs0 Hd] & Hrun & ->).
           rewrite (M_bind_run _ _ (negb (passed rs0), all_messages rs0) _ s2)
             by (apply for_range_evaluators; eauto). rewrite Hd. simpl.
           apply IH. left. by exists pre, q, post, rss', s1, rs.
      * rewrite (M_bind_run _ _ (negb (passed rs), all_messages rs) _ s1)
          by (apply for_range_evaluators; eauto). rewrite Hd. simpl.
        apply IH. right. exists rss'. split; [done|]. by rewrite <-app_assoc.
Qed.

Lemma reviewPolicies_decides evs cr ps s resp s' :
  reviewPolicies evs cr ps [] s = (Ok resp, s') ↔ decides evs cr s ps resp s'.
Proof.
  rewrite reviewPolicies_Ok. split.
  - intros [(pre & p & post & rss & s1 & rs & ? & ? & ? & ? & ->)|(rss & ? & ->)];
      by econstructor.
  - inversion 1; [left|right]; eauto 15.
Qed.

Lemma select_by_elem {A} (l : list A) bs x :
  x ∈ select_by l bs → ∃ i, l !! i = Some x ∧ bs !! i = Some true.
Proof.
  revert bs. induction l as [|y l IH]; intros [|b bs]; simpl; try by intros ?%elem_of_nil.
  destruct b; [intros [->|Hx]%elem_of_cons; [by exists 0%nat|]|intros Hx];
    apply IH in Hx as [i ?]; by exists (Datatypes.S i).
Qed.

(** ** What happened in the run

    The calls that a review makes after it has listed the policies, whatever
    they answer, and the states it passes through. *)
Inductive review_call evs cr : S → S → Prop :=
  | call_labels s o s' : Get_Namespace_Labels (cr_Namespace cr) s = (o, s') → review_call evs cr s s'
  | call_ask p s o s' : ask cr p s = (o, s') → review_call evs cr s s'
  | call_evaluator e p s o s' : e ∈ evs → e p cr s = (o, s') → review_call evs cr s s'.
Definition leads evs cr : S → S → Prop := rtc (review_call evs cr).

(** From the listing at [s]: the namespace of the request has the labels that
    the policy asks for, by what was read there, or it asks for none. *)
Definition labels_witness cr (s : S) p : Prop :=
  ∃ L, namespace_selected cr L p ∧
    ((∃ s', Get_Namespace_Labels (cr_Namespace cr) s = (Ok L, s')) ∨
     ∀ L', namespace_selected cr L' p).
(** The API server was asked whether the requester may use the policy and said
    yes, and after that all evaluators were asked about it and answered [rs]. *)
Definition consulted evs cr (s : S) p (rs : list EvaluationResponse) (s' : S) : Prop :=
  ∃ t t' u, leads evs cr s t ∧ ask cr p t = (Ok true, t') ∧ leads evs cr t' u ∧
    evaluates evs cr u p rs s'.
(** Why a ready policy was left out. *)
Definition excluded evs cr (s : S) p : Prop :=
  ¬ issuer_selected cr p ∨
  (∃ L, ¬ namespace_selected cr L p ∧
    ((∃ s', Get_Namespace_Labels (cr_Namespace cr) s = (Ok L, s')) ∨
     ∀ L', ¬ namespace_selected cr L' p)) ∨
  ∃ t t', leads evs cr s t ∧ ask cr p t = (Ok false, t').

Lemma answers_ask_leads evs cr s l bs s' : answers (ask cr) s l bs s' → leads evs cr s s'.
Proof.
  apply run_rtc. intros t p b t' _ Hb. eapply rtc_once, call_ask, Hb.
Qed.
Lemma evaluates_leads evs cr s p rs s' : evaluates evs cr s p rs s' → leads evs cr s s'.
Proof.
  apply run_rtc. intros t e r t' He Hr. eapply rtc_once, call_evaluator; [exact He|exact Hr].
Qed.
Lemma rejects_leads evs cr s ps rss s' : run (rejects evs cr) s ps rss s' → leads evs cr s s'.
Proof. apply run_rtc. intros t p rs t' _ [Hr _]. by eapply evaluates_leads. Qed.

(** ** Which policies the predicates let through *)
Lemma select_by_lookup {A} (l : list A) bs i x :
  l !! i = Some x → bs !! i = Some true → x ∈ select_by l bs.
Proof.
  revert bs i. induction l as [|y l IH]; intros [|b bs] [|i]; simpl; try done.
  - intros [= ->] [= ->]. by left.
  - intros Hx Hb. destruct b; [right|]; by eapply IH.
Qed.

(** The predicates in their order, with what the two that ask the API server
    were told. *)
Lemma applyPredicates_stages evs cr items s ps s' :
  applyPredicates (predicates (New evs)) cr items s = (Ok ps, s') →
  ∃ L l s2 bs,
    (∀ p, p ∈ l ↔ p ∈ items ∧ is_ready p ∧ issuer_selected cr p ∧ namespace_selected cr L p) ∧
    ((∃ s', Get_Namespace_Labels (cr_Namespace cr) s = (Ok L, s')) ∨
     ∀ L' p, p ∈ items → is_ready p → issuer_selected cr p →
       namespace_selected cr L p ↔ namespace_selected cr L' p) ∧
    leads evs cr s s2 ∧ answers (ask cr) s2 l bs s' ∧ ps = select_by l bs.
Proof.
  unfold applyPredicates, New. simpl. intros Hrun.
  destruct (Ready_elem cr items s) as (l0 & E0 & Hl0).
  unfold mbind, M_bind, wrap_err in Hrun. rewrite E0, SelectorIssuerRef_filter in Hrun.
  destruct (SelectorNamespace _ _ s) as [[l2| |] s2] eqn:E2; simplify_eq/=.
  destruct (RBACBound _ _ s2) as [[l3| |] s3] eqn:E3; simplify_eq/=.
  apply M_ret_Ok in Hrun as [<- <-]. apply for_range_RBAC in E3 as (bs & Hbs & ->).
  apply SelectorNamespace_Ok in E2 as [(L & HL & ->)|[-> HL]].
  - exists L. eexists _, s2, bs. split_and!; [|by eauto|eapply rtc_once, call_labels, HL|exact Hbs|done].
    intros p. rewrite !list_elem_of_filter, Hl0. tauto.
  - exists ∅, l2, s, bs. split_and!; [| |done|exact Hbs|done].
    + intros p. rewrite (HL ∅), !list_elem_of_filter, Hl0. tauto.
    + right. intros L' p Hin Hr Hi.
      assert (∀ L, namespace_selected cr L p ↔ p ∈ l2) as Hall; [|by rewrite !Hall].
      intros L. rewrite (HL L), !list_elem_of_filter, Hl0. tauto.
Qed.
Lemma applyPredicates_sound evs cr items s ps s' :
  applyPredicates (predicates (New evs)) cr items s = (Ok ps, s') →
  ∀ p, p ∈ ps → p ∈ items ∧ is_ready p ∧ issuer_selected cr p ∧ labels_witness cr s p ∧
    ∃ t t', leads evs cr s t ∧ ask cr p t = (Ok true, t') ∧ leads evs cr t' s'.
Proof.
  intros (L & l & s2 & bs & Hl & HL & Hs2 & Hbs & ->)%applyPredicates_stages p Hp.
  apply select_by_elem in Hp as (i & Hi & Hb).
  destruct (run_lookup _ _ _ _ _ _ _ Hbs Hb) as (q & t & t' & Hq & Hpre & Hask & Hpost).
  assert (q = p) as -> by congruence.
  apply list_elem_of_lookup_2, Hl in Hi as (Hin & Hready & Hiss & Hsel).
  split_and!; [done..| |].
  - exists L. split; [done|]. destruct HL as [|HL]; [by left|right]. intros L'. by apply HL.
  - exists t, t'. split_and!; [|done|by eapply answers_ask_leads].
    etrans; [exact Hs2|by eapply answers_ask_leads].
Qed.
Lemma applyPredicates_complete evs cr items s ps s' :
  applyPredicates (predicates (New evs)) cr items s = (Ok ps, s') →
  ∀ p, p ∈ items → is_ready p → p ∈ ps ∨ excluded evs cr s p.
Proof.
  intros (L & l & s2 & bs & Hl & HL & Hs2 & Hbs & ->)%applyPredicates_stages p Hin Hready.
  destruct (decide (issuer_selected cr p)) as [Hiss|]; [|right; by left].
  destruct (decide (namespace_selected cr L p)) as [Hsel|Hno].
  - assert (p ∈ l) as [i Hi]%list_elem_of_lookup_1 by by apply Hl.
    destruct (lookup_lt_is_Some_2 bs i) as [b Hb].
    { rewrite (run_length _ _ _ _ _ Hbs). by eapply lookup_lt_Some. }
    destruct b; [left; by eapply select_by_lookup|right; right; right].
    destruct (run_lookup _ _ _ _ _ _ _ Hbs Hb) as (q & t & t' & Hq & Hpre & Hask & _).
    assert (q = p) as -> by congruence. exists t, t'. split; [|done].
    etrans; [exact Hs2|by eapply answers_ask_leads].
  - right. right. left. exists L. split; [done|]. destruct HL as [|HL]; [by left|right].
    intros L'. by rewrite <-HL.
Qed.
End runs.

(** ** What a review leaves alone *)
Section reads.
Context {S : Type} `{Reader S} `{Client S} `{LabelsLib} `{UnicodeTables}.

(** The calls of a review read, or ask the API server for a decision: they take
    the state along [R], or leave the observation [g] of the world alone. *)
Record review_follows (R : S → S → Prop) : Prop := {
  list_follows : follows R List_CertificateRequestPolicies;
  labels_follow ns : follows R (Get_Namespace_Labels ns);
  sar_follows r : follows R (Create_SubjectAccessReview r) }.
Record review_reads {T} (g : S → T) : Prop := {
  list_keeps : keeps g List_CertificateRequestPolicies;
  labels_keeps ns : keeps g (Get_Namespace_Labels ns);
  sar_keeps r : keeps g (Create_SubjectAccessReview r) }.

Section follows.
Context (R : S → S → Prop) `{!PreOrder R} (Hr : review_follows R).
Lemma predicates_follow cr ps (pr : Predicate S) evs :
  pr ∈ predicates (New evs) → follows R (pr cr ps).
Proof.
  destruct Hr as [_ Hl Hs]. intros Hp.
  apply elem_of_cons in Hp as [->|Hp]; [by apply follows_ret|].
  apply elem_of_cons in Hp as [->|Hp]; [by apply follows_ret|].
  apply elem_of_cons in Hp as [->|Hp].
  { apply follows_bind; [done| |intros; by apply follows_ret].
    apply follows_for_range; [done|]. intros [l labels] p.
    unfold selectNamespace, fetchLabels. repeat case_match; eauto 10 with go.
    all: apply follows_bind; [done| |intros L; apply follows_bind; [done|by apply follows_pure_call|]];
      eauto with go; intros; case_match; by apply follows_ret. }
  apply elem_of_cons in Hp as [->|[]%elem_of_nil].
  apply follows_for_range; [done|]. intros l p. eauto with go.
Qed.
Lemma reviewPolicies_follow evs cr ps ms :
  (∀ e p, e ∈ evs → follows R (e p cr)) → follows R (reviewPolicies (S:=S) evs cr ps ms).
Proof.
  intros He. revert ms. induction ps as [|p ps IH]; intros ms; [by apply follows_ret|].
  apply follows_bind; [done| |intros [d l]; case_match; [by apply follows_ret|apply IH]].
  apply follows_for_range_in; [done|]. intros [d l] e Hin.
  apply follows_bind; [done|by apply He|]. intros r. by apply follows_ret.
Qed.
Lemma Review_follows evs cr :
  (∀ e p, e ∈ evs → follows R (e p cr)) → follows R (Review (S:=S) (New evs) cr).
Proof.
  intros He. apply follows_bind; [done|by apply list_follows|]. intros items.
  case_match; [by apply follows_ret|]. apply follows_bind; [done| |].
  - apply follows_for_range_in; [done|]. intros l pr Hin.
    apply follows_wrap_err. by eapply predicates_follow.
  - intros ps. case_match; [by apply follows_ret|]. by apply reviewPolicies_follow.
Qed.
End follows.
Lemma Review_keep {T} (g : S → T) evs cr :
  review_reads g → (∀ e p, e ∈ evs → keeps g (e p cr)) → keeps g (Review (S:=S) (New evs) cr).
Proof. intros [] He. by apply (Review_follows (same g)). Qed.
End reads.

(** ** A world that does not change during the review *)
Section stable.
Context {S : Type} `{Reader S} `{Client S} `{LabelsLib} `{UnicodeTables}.

Record world := {
  w_items : list CertificateRequestPolicy;      (* the policies of the cluster *)
  w_labels : gmap string string;                (* of the request's namespace *)
  w_may_use : CertificateRequestPolicy → bool;  (* what RBAC grants the requester *)
  w_verdict : CertificateRequestPolicy → list EvaluationResponse }.

(** From every state of [I] the API server answers with the data of [w], the
    evaluators with its verdicts, and the process stays in [I]. *)
Record stable (I : S → Prop) (evs : list (Evaluator S)) (cr : CertificateRequest) (w : world)
    : Prop := {
  stable_items : returns I List_CertificateRequestPolicies (Ok {| Items := w_items w |});
  stable_keyed : Forall conditions_keyed (w_items w);
  stable_labels : returns I (Get_Namespace_Labels (cr_Namespace cr)) (Ok (w_labels w));
  stable_selectors p : p ∈ w_items w → is_Ok (ns_keep cr (w_labels w) p);
  stable_may_use p : p ∈ w_items w → returns I (ask cr p) (Ok (w_may_use w p));
  stable_verdict p : p ∈ w_items w →
    Forall2 (λ (e : Evaluator S) r, returns I (e p cr) (Ok r)) evs (w_verdict w p) }.

(** The policies that decide about [cr]. *)
Definition applicable (cr : CertificateRequest) (w : world) (p : CertificateRequestPolicy) : Prop :=
  is_ready p ∧ issuer_selected cr p ∧ namespace_selected cr (w_labels w) p ∧ w_may_use w p = true.
#[export] Instance applicable_dec cr w p : Decision (applicable cr w p).
Proof. unfold applicable. apply _. Defined.

(** The review as a function of the world. *)
Definition review (cr : CertificateRequest) (w : world) : manager.ReviewResponse :=
  match w_items w, filter (applicable cr w) (w_items w) with
  | [], _ =>
      {| manager.rv_Result := manager.ResultUnprocessed;
         manager.rv_Message := "No CertificateRequestPolicies exist" |}
  | _, [] =>
      {| manager.rv_Result := manager.ResultUnprocessed;
         manager.rv_Message := "No CertificateRequestPolicies bound or applicable" |}
  | _, ps => decision (w_verdict w) ps []
  end.

Lemma returns_answers I (evs : list (Evaluator S)) cr p rs s :
  Forall2 (λ (e : Evaluator S) r, returns I (e p cr) (Ok r)) evs rs → I s →
  ∃ s', evaluates evs cr s p rs s' ∧ I s'.
Proof.
  intros Hall. revert s. induction Hall as [|e r evs rs He _ IH]; intros s Hs.
  - exists s. split; [constructor|done].
  - destruct (He s Hs) as (s1 & E & Hs1). destruct (IH s1 Hs1) as (s2 & Hrun & Hs2).
    exists s2. split; [by econstructor|done].
Qed.

Lemma returns_reviewPolicies I evs cr w ps ms :
  stable I evs cr w → ps ⊆ w_items w →
  returns I (reviewPolicies evs cr ps ms) (Ok (decision (w_verdict w) ps ms)).
Proof.
  intros Hw. revert ms. induction ps as [|p ps IH]; intros ms Hps; [apply returns_ret|].
  intros s Hs. assert (p ∈ w_items w) as Hp by (apply Hps; by left).
  destruct (returns_answers I evs cr p (w_verdict w p) s) as (s1 & Hrun & Hs1);
    [by eapply stable_verdict|done|].
  simpl. rewrite (M_bind_run _ _ (negb (passed (w_verdict w p)), all_messages (w_verdict w p)) _ s1)
    by (apply for_range_evaluators; eauto).
  rewrite negb_involutive. destruct (passed (w_verdict w p)); [by exists s1|].
  apply IH; [|done]. intros q Hq. apply Hps. by right.
Qed.

Lemma returns_RBAC_of I (may_use : CertificateRequestPolicy → bool) cr items ps acc :
  (∀ p, p ∈ items → returns I (ask cr p) (Ok (may_use p))) → ps ⊆ items →
  returns I (for_range ps acc (λ boundPolicies policy,
    allowed ← wrap_err "failed to create subjectaccessreview"
      (Create_SubjectAccessReview (subjectAccessReview cr policy));
    mret (if (allowed : bool) then boundPolicies ++ [policy] else boundPolicies)))
    (Ok (acc ++ filter (λ p, may_use p = true) ps)).
Proof.
  intros Hmay. revert acc. induction ps as [|p ps IH]; intros acc Hps s Hs;
    [rewrite app_nil_r; by exists s|].
  destruct (Hmay p) with (s := s) as (s1 & E & Hs1);
    [apply Hps; by left|done|].
  rewrite for_range_cons, !M_bind_step. unfold wrap_err at 1. fold (ask cr p). rewrite E.
  rewrite filter_cons. unfold mret at 1, M_ret at 1.
  destruct (IH (if may_use p then acc ++ [p] else acc)) with (s := s1) as (s2 & -> & Hs2);
    [intros q Hq; apply Hps; by right|done|].
  exists s2. split; [|done]. by destruct (may_use p); simpl; rewrite <-?app_assoc.
Qed.
Lemma returns_RBAC I evs cr w ps acc :
  stable I evs cr w → ps ⊆ w_items w →
  returns I (for_range ps acc (λ boundPolicies policy,
    allowed ← wrap_err "failed to create subjectaccessreview"
      (Create_SubjectAccessReview (subjectAccessReview cr policy));
    mret (if (allowed : bool) then boundPolicies ++ [policy] else boundPolicies)))
    (Ok (acc ++ filter (λ p, w_may_use w p = true) ps)).
Proof. intros Hw. apply returns_RBAC_of. intros p. by apply (stable_may_use _ _ _ _ Hw). Qed.

Lemma returns_SelectorNamespace I evs cr w ps :
  stable I evs cr w → ps ⊆ w_items w →
  returns I (SelectorNamespace cr ps) (Ok (filter (namespace_selected cr (w_labels w)) ps)).
Proof.
  intros Hw Hps s Hs. rewrite SelectorNamespace_run.
  assert (filterM (ns_keep cr (w_labels w)) ps =
    Ok (filter (namespace_selected cr (w_labels w)) ps)) as Hf.
  { rewrite filterM_total.
    - f_equal. apply list_filter_iff. intros p. apply ns_keep_true.
    - intros p Hp. eapply stable_selectors; [done|by apply Hps]. }
  destruct (existsb _ ps) eqn:E.
  - destruct (stable_labels _ _ _ _ Hw s Hs) as (s1 & E1 & Hs1).
    unfold wrap_err. rewrite E1, Hf. by exists s1.
  - rewrite (proj1 (filterM_needless cr ∅ (w_labels w) ps E)), Hf. by exists s.
Qed.

Lemma filter_subseteq {A} (P : A → Prop) `{!∀ x, Decision (P x)} (l : list A) : filter P l ⊆ l.
Proof. intros x [_ Hx]%list_elem_of_filter. done. Qed.

Lemma filter_applicable cr w :
  filter (λ p, w_may_use w p = true)
    (filter (namespace_selected cr (w_labels w))
      (filter (issuer_selected cr) (filter is_ready (w_items w)))) =
  filter (applicable cr w) (w_items w).
Proof.
  rewrite !list_filter_filter. apply list_filter_iff. unfold applicable. tauto.
Qed.

Lemma for_range_step cr (pr : Predicate S) prs ps s :
  for_range (pr :: prs) ps (λ policies predicate,
    wrap_err "failed to perform predicate on policies" (predicate cr policies)) s =
  match pr cr ps s with
  | (Ok ps', s') => for_range prs ps' (λ policies predicate,
      wrap_err "failed to perform predicate on policies" (predicate cr policies)) s'
  | (Err e, s') => (Err (Errorf_w "failed to perform predicate on policies" e), s')
  | (Panic y, s') => (Panic y, s')
  end.
Proof.
  rewrite for_range_cons, M_bind_step. unfold wrap_err at 1. by destruct (pr cr ps s) as [[] ?].
Qed.
Lemma returns_applyPredicates I evs cr w :
  stable I evs cr w →
  returns I (applyPredicates (predicates (New evs)) cr (w_items w))
    (Ok (filter (applicable cr w) (w_items w))).
Proof.
  intros Hw s Hs. rewrite <-filter_applicable.
  set (l := filter (issuer_selected cr) (filter is_ready (w_items w))).
  assert (l ⊆ w_items w) as Hl by (unfold l; by rewrite !filter_subseteq).
  destruct (returns_SelectorNamespace I evs cr w l Hw Hl s Hs) as (s1 & E1 & Hs1).
  assert (returns I (RBACBound cr (filter (namespace_selected cr (w_labels w)) l))
    (Ok (filter (λ p, w_may_use w p = true) (filter (namespace_selected cr (w_labels w)) l))))
    as HRBAC by (apply (returns_RBAC I evs cr w _ [] Hw); by rewrite filter_subseteq).
  destruct (HRBAC s1 Hs1) as (s2 & E2 & Hs2).
  exists s2. split; [|done]. unfold applyPredicates, New. cbn [predicates].
  rewrite for_range_step, Ready_filter by (by eapply stable_keyed).
  rewrite for_range_step, SelectorIssuerRef_filter. fold l.
  by rewrite for_range_step, E1, for_range_step, E2.
Qed.

Lemma returns_Review I evs cr w :
  stable I evs cr w → returns I (Review (New evs) cr) (Ok (review cr w)).
Proof.
  intros Hw s Hs. destruct (stable_items _ _ _ _ Hw s Hs) as (s1 & E1 & Hs1).
  unfold Review, review. rewrite M_bind_step, E1. cbn [Items].
  destruct (w_items w) as [|p0 items] eqn:Eitems; [by exists s1|].
  change (length (p0 :: items) =? 0)%nat with false. cbv iota. rewrite <-Eitems.
  destruct (returns_applyPredicates I evs cr w Hw s1 Hs1) as (s2 & E2 & Hs2).
  rewrite M_bind_step, E2.
  pose proof (filter_subseteq (applicable cr w) (w_items w)) as Hsub.
  destruct (filter _ (w_items w)) as [|p ps]; [by exists s2|].
  by apply (returns_reviewPolicies I evs cr w _ []).
Qed.

Lemma review_cases cr w :
  (filter (applicable cr w) (w_items w) = [] ∧
    manager.rv_Result (review cr w) = manager.ResultUnprocessed) ∨
  (filter (applicable cr w) (w_items w) ≠ [] ∧
    review cr w = decision (w_verdict w) (filter (applicable cr w) (w_items w)) []).
Proof.
  unfold review. destruct (w_items w) as [|p items]; [by left|].
  destruct (filter _ (p :: items)) as [|q ps]; [by left|by right].
Qed.
Lemma decision_passed cr w :
  existsb (λ p, passed (w_verdict w p)) (filter (applicable cr w) (w_items w)) = true ↔
  ∃ p, p ∈ w_items w ∧ applicable cr w p ∧ passed (w_verdict w p) = true.
Proof.
  rewrite existsb_exists. setoid_rewrite <-list_elem_of_In.
  setoid_rewrite list_elem_of_filter. naive_solver.
Qed.
Lemma applicable_some cr w :
  filter (applicable cr w) (w_items w) = [] ↔ ∀ p, p ∈ w_items w → ¬ applicable cr w p.
Proof.
  split.
  - intros E p Hp Ha. assert (p ∈ filter (applicable cr w) (w_items w)) as Hin
      by (by apply list_elem_of_filter). rewrite E in Hin. by apply elem_of_nil in Hin.
  - intros Hall. apply elem_of_nil_inv. intros p [Ha Hp]%list_elem_of_filter. by eapply Hall.
Qed.

Lemma review_result cr w :
  (manager.rv_Result (review cr w) = manager.ResultApproved ↔
     ∃ p, p ∈ w_items w ∧ applicable cr w p ∧ passed (w_verdict w p) = true) ∧
  (manager.rv_Result (review cr w) = manager.ResultUnprocessed ↔
     ∀ p, p ∈ w_items w → ¬ applicable cr w p) ∧
  (manager.rv_Result (review cr w) = manager.ResultDenied ↔
     (∃ p, p ∈ w_items w ∧ applicable cr w p) ∧
     ∀ p, p ∈ w_items w → applicable cr w p → passed (w_verdict w p) = false).
Proof.
  pose proof (decision_passed cr w) as Hp. pose proof (applicable_some cr w) as Ha.
  destruct (review_cases cr w) as [[E ->]|[E ->]].
  - rewrite E in Ha. assert (∀ p, p ∈ w_items w → ¬ applicable cr w p) as Hnone by tauto.
    split_and!; naive_solver.
  - rewrite decision_result. assert (∃ p, p ∈ w_items w ∧ applicable cr w p) as Hsome.
    { destruct (filter _ _) as [|p ps] eqn:Ef; [done|]. exists p.
      assert (p ∈ filter (applicable cr w) (w_items w)) as Hin by (rewrite Ef; by left).
      apply list_elem_of_filter in Hin. tauto. }
    destruct (existsb _ _).
    + split_and!; [naive_solver..|]. split; [done|]. intros [_ Hf].
      destruct Hp as [Hp _]. destruct (Hp eq_refl) as (p & Hin & Hap & Ht).
      specialize (Hf p Hin Hap). congruence.
    + split_and!; [naive_solver..|]. split; [|done]. intros _. split; [done|].
      intros p Hin Hap. apply not_true_is_false. intros Ht. naive_solver.
Qed.

(** Another listing of the same policies. *)
Definition relist (w : world) (items : list CertificateRequestPolicy) : world :=
  {| w_items := items; w_labels := w_labels w; w_may_use := w_may_use w;
     w_verdict := w_verdict w |}.

Lemma review_relist cr w items :
  w_items w ≡ₚ items → NoDup (p_Name <$> w_items w) →
  manager.rv_Result (review cr (relist w items)) = manager.rv_Result (review cr w) ∧
  (manager.rv_Result (review cr w) ≠ manager.ResultApproved →
    review cr (relist w items) = review cr w).
Proof.
  intros Hperm Hnd.
  assert (filter (applicable cr w) (w_items w) ≡ₚ filter (applicable cr w) items) as Hf
    by (by rewrite Hperm).
  unfold review. change (filter (applicable cr (relist w items)) (w_items (relist w items)))
    with (filter (applicable cr w) items). simpl w_items. simpl w_verdict.
  destruct (w_items w) as [|p l] eqn:Ew.
  { apply Permutation_nil in Hperm as ->. done. }
  destruct items as [|p' l']; [by apply symmetry, Permutation_nil in Hperm|].
  rewrite <-Ew in Hf, Hnd, Hperm |- *.
  destruct (filter (applicable cr w) (w_items w)) as [|q ps] eqn:E1.
  { apply Permutation_nil in Hf as ->. done. }
  destruct (filter (applicable cr w) (p' :: l')) as [|q' ps'] eqn:E2;
    [by apply symmetry, Permutation_nil in Hf|].
  assert (existsb (λ p, passed (w_verdict w p)) (q' :: ps') =
    existsb (λ p, passed (w_verdict w p)) (q :: ps)) as Hex.
  { apply eq_bool_prop_intro. rewrite !Is_true_true, !existsb_exists.
    setoid_rewrite <-list_elem_of_In. by setoid_rewrite Hf. }
  rewrite !decision_result, Hex. split; [done|].
  destruct (existsb _ (q :: ps)) eqn:Eq; [done|]. intros _.
  rewrite !decision_denied by done. apply symmetry, deniedResponse_perm.
  - rewrite app_nil_l, <-list_fmap_compose. change (NoDup (p_Name <$> q :: ps)). rewrite <-E1.
    eapply sublist_NoDup; [exact Hnd|]. apply fmap_sublist, sublist_filter.
  - by rewrite Hf.
Qed.
(** ** A world that does not change, and evaluators that may fail

    The outcome of every evaluator on every policy stands still, an error
    included, and the selectors need not parse. *)
Record setting := {
  st_items : list CertificateRequestPolicy;
  st_labels : gmap string string;
  st_may_use : CertificateRequestPolicy → bool;
  st_outcomes : CertificateRequestPolicy → list (outcome EvaluationResponse) }.
Record steady (I : S → Prop) (evs : list (Evaluator S)) (cr : CertificateRequest) (t : setting)
    : Prop := {
  steady_items : returns I List_CertificateRequestPolicies (Ok {| Items := st_items t |});
  steady_keyed : Forall conditions_keyed (st_items t);
  steady_labels : returns I (Get_Namespace_Labels (cr_Namespace cr)) (Ok (st_labels t));
  steady_may_use p : p ∈ st_items t → returns I (ask cr p) (Ok (st_may_use t p));
  steady_outcomes p : p ∈ st_items t →
    Forall2 (λ (e : Evaluator S) o, returns I (e p cr) o) evs (st_outcomes t p) }.

(** The answers among the outcomes. *)
Definition answered (o : outcome EvaluationResponse) : option EvaluationResponse :=
  match o with Ok r => Some r | _ => None end.
Definition world_of (t : setting) : world := {|
  w_items := st_items t; w_labels := st_labels t; w_may_use := st_may_use t;
  w_verdict p := omap answered (st_outcomes t p) |}.
Definition reorder (t : setting) (items : list CertificateRequestPolicy) : setting := {|
  st_items := items; st_labels := st_labels t; st_may_use := st_may_use t;
  st_outcomes := st_outcomes t |}.

Lemma returns_run {A} I (m : M S A) o s o' s' :
  returns I m o → I s → m s = (o', s') → o' = o ∧ I s'.
Proof. intros Hm Hs Hrun. destruct (Hm s Hs) as (s1 & E & Hs1). rewrite E in Hrun. by simplify_eq. Qed.

Lemma steady_evaluates I (evs : list (Evaluator S)) cr p os s rs s' :
  Forall2 (λ (e : Evaluator S) o, returns I (e p cr) o) evs os → I s →
  evaluates evs cr s p rs s' → os = Ok <$> rs ∧ I s'.
Proof.
  intros Hall. revert s rs. induction Hall as [|e o evs os He _ IH]; intros s rs Hs Hrun.
  - apply run_nil_inv in Hrun as [-> ->]. done.
  - apply run_cons_inv in Hrun as (r & s1 & rs' & Hr & Hrun & ->).
    destruct (returns_run _ _ _ _ _ _ He Hs Hr) as [<- Hs1].
    destruct (IH _ _ Hs1 Hrun) as [-> Hs']. done.
Qed.
Lemma omap_answered (rs : list EvaluationResponse) : omap answered (Ok <$> rs) = rs.
Proof. induction rs as [|r rs IH]; simpl; [done|]. by f_equal. Qed.

(** All the evaluators answered about [p]: none denied, or one did. *)
Definition judged_as (t : setting) (verdict : bool) (p : CertificateRequestPolicy) : Prop :=
  ∃ rs, st_outcomes t p = Ok <$> rs ∧ passed rs = verdict.

Lemma steady_reviewPolicies I evs cr t ps ms s resp s' :
  steady I evs cr t → ps ⊆ st_items t → I s → reviewPolicies evs cr ps ms s = (Ok resp, s') →
  I s' ∧ resp = decision (w_verdict (world_of t)) ps ms ∧
  ((manager.rv_Result resp = manager.ResultApproved ∧ ∃ p, p ∈ ps ∧ judged_as t true p) ∨
   (manager.rv_Result resp = manager.ResultDenied ∧ ∀ p, p ∈ ps → judged_as t false p)).
Proof.
  intros Ht. revert ms s. induction ps as [|p ps IH]; intros ms s Hsub Hs.
  { intros [<- <-]%M_ret_Ok. split_and!; [done..|right]. split; [done|]. by intros p ?%elem_of_nil. }
  intros ([d l] & s1 & Hfor & Hrest)%M_bind_Ok.
  apply for_range_evaluators in Hfor as (rs & Hrs & [= -> ->]).
  destruct (steady_evaluates _ _ _ _ _ _ _ _ (steady_outcomes _ _ _ _ Ht p (Hsub p ltac:(by left))) Hs Hrs)
    as [E Hs1].
  simpl. rewrite E, omap_answered. rewrite negb_involutive in Hrest.
  destruct (passed rs) eqn:Ep.
  - apply M_ret_Ok in Hrest as [<- <-]. split_and!; [done..|left]. split; [done|].
    exists p. split; [by left|by exists rs].
  - destruct (IH _ s1 ltac:(intros q Hq; apply Hsub; by right) Hs1 Hrest) as (Hs' & -> & Hcase).
    split_and!; [done..|]. destruct Hcase as [[Ha (q & Hq & Hj)]|[Hd Hall]]; [left|right]; (split; [done|]).
    + exists q. split; [by right|done].
    + intros q [->|Hq]%elem_of_cons; [by exists rs|by apply Hall].
Qed.

Lemma steady_RBAC I evs cr t l acc :
  steady I evs cr t → l ⊆ st_items t →
  returns I (for_range l acc (λ boundPolicies policy,
    allowed ← wrap_err "failed to create subjectaccessreview"
      (Create_SubjectAccessReview (subjectAccessReview cr policy));
    mret (if (allowed : bool) then boundPolicies ++ [policy] else boundPolicies)))
    (Ok (acc ++ filter (λ p, st_may_use t p = true) l)).
Proof. intros Ht. apply returns_RBAC_of. intros p. by apply (steady_may_use _ _ _ _ Ht). Qed.

Lemma steady_applyPredicates I evs cr t s ps s' :
  steady I evs cr t → I s →
  applyPredicates (predicates (New evs)) cr (st_items t) s = (Ok ps, s') →
  ps = filter (applicable cr (world_of t)) (st_items t) ∧ I s'.
Proof.
  intros Ht Hs. unfold applyPredicates, New. cbn [predicates].
  rewrite for_range_step, Ready_filter by (by eapply steady_keyed).
  rewrite for_range_step, SelectorIssuerRef_filter. rewrite for_range_step.
  set (l := filter (issuer_selected cr) (filter is_ready (st_items t))).
  assert (l ⊆ st_items t) as Hl by (unfold l; by rewrite !filter_subseteq).
  destruct (SelectorNamespace cr l s) as [[l2|e|x] s2] eqn:E2; [|done..].
  assert (l2 = filter (namespace_selected cr (st_labels t)) l ∧ I s2) as [-> Hs2].
  { apply SelectorNamespace_Ok in E2 as [(L & HL & ->)|[-> HL]]; [|by split; [apply HL|]].
    destruct (returns_run _ _ _ _ _ _ (steady_labels _ _ _ _ Ht) Hs HL) as [[= ->] ?]. done. }
  assert (filter (namespace_selected cr (st_labels t)) l ⊆ st_items t) as Hl2 by (by rewrite filter_subseteq).
  rewrite for_range_step. unfold RBACBound.
  destruct (steady_RBAC I evs cr t _ [] Ht Hl2 s2 Hs2) as (s3 & -> & Hs3).
  intros [<- <-]%M_ret_Ok. split; [|done].
  by rewrite <-filter_applicable.
Qed.

Lemma steady_Review I evs cr t s resp s' :
  steady I evs cr t → I s → Review (New evs) cr s = (Ok resp, s') →
  I s' ∧ resp = review cr (world_of t) ∧
  ((manager.rv_Result resp = manager.ResultUnprocessed ∧
      ∀ p, p ∈ st_items t → ¬ applicable cr (world_of t) p) ∨
   (manager.rv_Result resp = manager.ResultApproved ∧
      ∃ p, p ∈ st_items t ∧ applicable cr (world_of t) p ∧ judged_as t true p) ∨
   (manager.rv_Result resp = manager.ResultDenied ∧
      (∃ p, p ∈ st_items t ∧ applicable cr (world_of t) p) ∧
      ∀ p, p ∈ st_items t → applicable cr (world_of t) p → judged_as t false p)).
Proof.
  intros Ht Hs ([items] & s1 & Hlist & Hrun)%M_bind_Ok.
  destruct (returns_run _ _ _ _ _ _ (steady_items _ _ _ _ Ht) Hs Hlist) as [[= ->] Hs1].
  pose proof (applicable_some cr (world_of t)) as Hnone.
  unfold review. simpl in Hrun, Hnone |- *. destruct (st_items t) as [|p0 items] eqn:Eitems.
  { apply M_ret_Ok in Hrun as [<- <-]. split_and!; [done..|left]. split; [done|]. by apply Hnone. }
  rewrite <-Eitems in Hrun, Hnone |- *.
  assert ((length (st_items t) =? 0)%nat = false) as E by (by rewrite Eitems).
  rewrite E in Hrun. apply M_bind_Ok in Hrun as (ps & s2 & Hpreds & Hrun).
  destruct (steady_applyPredicates _ _ _ _ _ _ _ Ht Hs1 Hpreds) as [Eps Hs2].
  assert (∀ p, p ∈ ps ↔ applicable cr (world_of t) p ∧ p ∈ st_items t) as Hps
    by (intros p; by rewrite Eps, list_elem_of_filter).
  rewrite <-Eps in Hnone |- *. destruct ps as [|q ps].
  { apply M_ret_Ok in Hrun as [<- <-]. split_and!; [done..|left]. split; [done|]. by apply Hnone. }
  destruct (steady_reviewPolicies I evs cr t (q :: ps) [] s2 resp s') as (Hs' & -> & Hcase);
    [done|intros p Hp; by apply Hps|done|exact Hrun|].
  split_and!; [done..|right]. destruct Hcase as [[Ha (p & Hp & Hj)]|[Hd Hall]]; [left|right]; (split; [done|]).
  - exists p. apply Hps in Hp as [??]. done.
  - split; [exists q; by apply and_comm, Hps; left|]. intros p Hp Hap. by apply Hall, Hps.
Qed.

(** When all evaluators answer and the selectors parse, the world is stable. *)
Lemma steady_stable I evs cr t :
  steady I evs cr t → (∀ p, p ∈ st_items t → is_Ok (ns_keep cr (st_labels t) p)) →
  (∀ p, p ∈ st_items t → Forall is_Ok (st_outcomes t p)) → stable I evs cr (world_of t).
Proof.
  intros [] Hsel Hok. split; try done. simpl. intros p Hp. specialize (Hok p Hp).
  pose proof (steady_outcomes0 p Hp) as Hall. clear -Hok Hall.
  induction Hall as [|e o evs os He _ IH]; [constructor|].
  apply Forall_cons in Hok as [[r ->] Hok]. simpl. constructor; [done|by apply IH].
Qed.
End stable.

Section claims.
Context {S : Type} `{Reader S} `{Client S} `{LabelsLib} `{UnicodeTables}.
Implicit Types (evs : list (Evaluator S)) (cr : CertificateRequest) (w : world).

Lemma review_approved evs cr s resp s' :
  Review (New evs) cr s = (Ok resp, s') → manager.rv_Result resp = manager.ResultApproved →
  ∃ items s1 p rs,
    List_CertificateRequestPolicies s = (Ok {| Items := items |}, s1) ∧ p ∈ items ∧
    is_ready p ∧ issuer_selected cr p ∧ labels_witness cr s1 p ∧
    consulted evs cr s1 p rs s' ∧ length rs = length evs ∧
    Forall (λ r, ev_Result r = ResultNotDenied) rs ∧ resp = approvedResponse p.
Proof.
  intros Hrun Happroved.
  apply M_bind_Ok in Hrun as ([items] & s1 & Hlist & Hrun). simpl in Hrun.
  destruct items as [|p0 items]; [by apply M_ret_Ok in Hrun as [<- _]|].
  cbn [length Nat.eqb] in Hrun. apply M_bind_Ok in Hrun as (ps & s2 & Hpreds & Hrun).
  destruct (length ps =? 0)%nat; [by apply M_ret_Ok in Hrun as [<- _]|].
  apply reviewPolicies_decides in Hrun.
  destruct Hrun as [pre p post rss s3 rs s4 -> Hpre Hev Hpass|]; [|done].
  destruct (applyPredicates_sound evs _ _ _ _ _ Hpreds p) as (? & ? & ? & ? & t & t' & ? & ? & ?);
    [apply elem_of_app; right; by left|].
  exists (p0 :: items), s1, p, rs. split_and!; try done.
  - exists t, t', s3. split_and!; [done..| |done]. etrans; [done|by eapply rejects_leads].
  - by eapply run_length.
  - apply Forall_forall. intros r Hr. unfold passed in Hpass.
    rewrite forallb_forall in Hpass. apply list_elem_of_In, Hpass in Hr.
    by apply bool_decide_eq_true in Hr.
Qed.

(** A denial: some policy applied, and each ready policy was denied by an
    evaluator or found not to apply. *)
Lemma review_denied evs cr s resp s' :
  Review (New evs) cr s = (Ok resp, s') → manager.rv_Result resp = manager.ResultDenied →
  ∃ items s1 ps,
    List_CertificateRequestPolicies s = (Ok {| Items := items |}, s1) ∧ ps ≠ [] ∧
    (∀ p, p ∈ ps → p ∈ items ∧ is_ready p ∧ issuer_selected cr p ∧ labels_witness cr s1 p ∧
       ∃ rs u, consulted evs cr s1 p rs u ∧ passed rs = false) ∧
    ∀ p, p ∈ items → is_ready p → p ∈ ps ∨ excluded evs cr s1 p.
Proof.
  intros Hrun Hdenied.
  apply M_bind_Ok in Hrun as ([items] & s1 & Hlist & Hrun). simpl in Hrun.
  destruct items as [|p0 items]; [by apply M_ret_Ok in Hrun as [<- _]|].
  cbn [length Nat.eqb] in Hrun. apply M_bind_Ok in Hrun as (ps & s2 & Hpreds & Hrun).
  destruct ps as [|q ps]; [by apply M_ret_Ok in Hrun as [<- _]|]. cbn [length Nat.eqb] in Hrun.
  apply reviewPolicies_decides in Hrun. destruct Hrun as [|rss s3 Hrej]; [done|].
  exists (p0 :: items), s1, (q :: ps). split_and!; [done|done| |by eapply (applyPredicates_complete evs)].
  intros p Hp. destruct (applyPredicates_sound evs _ _ _ _ _ Hpreds p Hp)
    as (? & ? & ? & ? & t & t' & ? & ? & ?).
  do 4 (split; [done|]). apply list_elem_of_lookup_1 in Hp as [i Hi].
  destruct (lookup_lt_is_Some_2 rss i) as [rs Hrs].
  { rewrite (run_length _ _ _ _ _ Hrej). by eapply lookup_lt_Some. }
  destruct (run_lookup _ _ _ _ _ _ _ Hrej Hrs) as (p' & u & u' & Hp' & Hpre & [Hev Hpass] & _).
  assert (p' = p) as -> by congruence. exists rs, u'. split; [|done].
  exists t, t', u. split_and!; [done..| |done]. etrans; [done|by eapply rejects_leads].
Qed.

(** [C12] Safety, whatever the API server answers and the evaluators do: a
    review that approves was approved by a policy that was listed, is ready and
    selects the request's issuer and namespace; the API server was asked, in this
    review, whether the requester may use it, and said yes; after that every
    evaluator was asked about it, last of all, and none denied; the message
    names it. *)
Theorem Review_approved_sound evs cr s resp s'
  (Hrun : Review (New evs) cr s = (Ok resp, s'))
  (Happroved : manager.rv_Result resp = manager.ResultApproved) :
  ∃ items s1 p rs,
    List_CertificateRequestPolicies s = (Ok {| Items := items |}, s1) ∧ p ∈ items ∧
    is_ready p ∧ issuer_selected cr p ∧ labels_witness cr s1 p ∧
    consulted evs cr s1 p rs s' ∧ length rs = length evs ∧
    Forall (λ r, ev_Result r = ResultNotDenied) rs ∧ resp = approvedResponse p.
Proof. by eapply review_approved. Qed.

(** [C20] The loop over the policies that apply implements the relation
    [decides]: every evaluator is asked about a policy before its verdict,
    the policies are tried in order, the first that passes ends the run, and
    a denial has tried them all. *)
Theorem reviewPolicies_refines evs cr ps s resp s' :
  reviewPolicies evs cr ps [] s = (Ok resp, s') ↔ decides evs cr s ps resp s'.
Proof. apply reviewPolicies_decides. Qed.

(** [C11] In a world that stands still during the review: the review ends
    with an answer, it approves exactly when some policy is ready, selects
    the issuer and the namespace of the request, may be used by the
    requester and is denied by no evaluator; it leaves the request
    unprocessed exactly when no policy applies; it denies otherwise. *)
Theorem Review_correct I evs cr w (Hw : stable I evs cr w) :
  ∃ resp, returns I (Review (New evs) cr) (Ok resp) ∧
    (manager.rv_Result resp = manager.ResultApproved ↔
       ∃ p, p ∈ w_items w ∧ applicable cr w p ∧ passed (w_verdict w p) = true) ∧
    (manager.rv_Result resp = manager.ResultUnprocessed ↔
       ∀ p, p ∈ w_items w → ¬ applicable cr w p) ∧
    (manager.rv_Result resp = manager.ResultDenied ↔
       (∃ p, p ∈ w_items w ∧ applicable cr w p) ∧
       ∀ p, p ∈ w_items w → applicable cr w p → passed (w_verdict w p) = false).
Proof. exists (review cr w). split; [by apply returns_Review|apply review_result]. Qed.

(** [C25] The order in which the API server lists the policies never turns one
    answer into another: in a world that stands still, in which evaluators may
    fail and selectors may not parse, two reviews that both answer decide the
    same, and when they do not approve they say the same.  Both do answer when
    every selector parses and every evaluator answers on every policy; without
    that the order can matter, but only in that one order answers and the other
    ends with an error ([errors_depend_on_order]). *)
Theorem Review_order_independent I J evs cr t items s1 s2
  (HI : steady I evs cr t) (HJ : steady J evs cr (reorder t items))
  (Hperm : st_items t ≡ₚ items) (Hnames : NoDup (p_Name <$> st_items t)) (Hs1 : I s1) (Hs2 : J s2) :
  (∀ resp1 resp2 s1' s2', Review (New evs) cr s1 = (Ok resp1, s1') →
     Review (New evs) cr s2 = (Ok resp2, s2') →
     manager.rv_Result resp2 = manager.rv_Result resp1 ∧
     (manager.rv_Result resp1 ≠ manager.ResultApproved → resp2 = resp1)) ∧
  ((∀ p, p ∈ st_items t → is_Ok (ns_keep cr (st_labels t) p) ∧ Forall is_Ok (st_outcomes t p)) →
   (∃ resp1 s1', Review (New evs) cr s1 = (Ok resp1, s1')) ∧
   ∃ resp2 s2', Review (New evs) cr s2 = (Ok resp2, s2')).
Proof.
  split.
  - intros resp1 resp2 s1' s2' Hrun1 Hrun2.
    destruct (steady_Review _ _ _ _ _ _ _ HI Hs1 Hrun1) as (_ & -> & _).
    destruct (steady_Review _ _ _ _ _ _ _ HJ Hs2 Hrun2) as (_ & -> & _).
    by apply (review_relist cr (world_of t)).
  - intros Hok. split.
    + destruct (returns_Review I evs cr (world_of t)) with (s := s1) as (s' & E & _);
        [apply steady_stable; [done|intros p Hp; by apply Hok..]|done|eauto].
    + destruct (returns_Review J evs cr (world_of (reorder t items))) with (s := s2) as (s' & E & _); [|done|eauto].
      apply steady_stable; [done|..]; simpl; intros p Hp; rewrite <-Hperm in Hp; by apply Hok.
Qed.

(** No verdict comes out of an evaluator's failure: when an evaluator
    fails on the first policy that applies, the review fails with its error
    and gives no response. *)
Theorem evaluator_error_aborts pre e post cr p ps ms s rs s1 err s2
  (Hpre : evaluates pre cr s p rs s1) (Herr : e p cr s1 = (Err err, s2)) :
  reviewPolicies (S:=S) (pre ++ e :: post) cr (p :: ps) ms s = (Err err, s2).
Proof.
  simpl. apply M_bind_Err. rewrite (for_range_ext _ _ _ _ _ (runEvaluator_tally p cr)).
  by apply (for_range_fails (λ e : Evaluator S, e p cr) tally _ _ _ _ _ rs s1).
Qed.
End claims.

Module ManagerWitnesses.
Import Sample.

Definition pa : CertificateRequestPolicy := sample_policy "a" None None.
Definition pb : CertificateRequestPolicy := sample_policy "b" None None.
Definition req : CertificateRequest := sample_request [1] None.

(** An API server whose state says in which order it lists. *)
#[export] Instance two_Reader : Reader bool := {
  List_CertificateRequestPolicies s :=
    (Ok {| Items := if s : bool then [pa; pb] else [pb; pa] |}, s);
  List_CertificateRequests := mret [];
  Get_Namespace_Labels _ := mret ∅;
  Get_CertificateRequest _ := fail (errors_New "unused");
  Get_CertificateRequestPolicy _ := fail (errors_New "unused") }.
#[export] Instance two_Client : Client bool := {
  Create_SubjectAccessReview _ := mret true;
  Status_Patch_CertificateRequest _ := mret tt;
  Status_Patch_CertificateRequestPolicy _ := mret tt }.

(** An evaluator that denies the policy named "a", and one that fails. *)
Definition not_a : Evaluator bool := λ p _,
  mret (if bool_decide (p_Name p = "a")
    then {| ev_Result := ResultDenied; ev_Message := "not a" |}
    else {| ev_Result := ResultNotDenied; ev_Message := "" |}).
Definition broken : Evaluator bool := λ _ _, fail (errors_New "broken").
Definition two_world : world :=
  {| w_items := [pa; pb]; w_labels := ∅; w_may_use _ := true;
     w_verdict p := [if bool_decide (p_Name p = "a")
       then {| ev_Result := ResultDenied; ev_Message := "not a" |}
       else {| ev_Result := ResultNotDenied; ev_Message := "" |}] |}.

Lemma keyed_two items : items = [pa; pb] ∨ items = [pb; pa] → Forall conditions_keyed items.
Proof.
  intros [-> | ->]; repeat constructor; by intros ?%elem_of_nil.
Qed.
Lemma two_stable (b : bool) :
  stable (eq b) [not_a] req (relist two_world (if b then [pa; pb] else [pb; pa])).
Proof.
  split.
  - intros s <-. by exists b.
  - apply keyed_two. destruct b; auto.
  - apply returns_ret.
  - intros p Hp. destruct b; repeat (apply elem_of_cons in Hp as [->|Hp]; [by eexists|]);
      by apply elem_of_nil in Hp.
  - intros p _. apply returns_ret.
  - intros p _. repeat constructor. apply returns_ret.
Qed.

Lemma Review_approved_sound_witness :
  let resp := approvedResponse pb in
  Review (New [not_a]) req true = (Ok resp, true) ∧
  ∃ items s1 p rs,
    List_CertificateRequestPolicies true = (Ok {| Items := items |}, s1) ∧ p ∈ items ∧
    is_ready p ∧ issuer_selected req p ∧ labels_witness req s1 p ∧
    consulted [not_a] req s1 p rs true ∧ length rs = length [not_a] ∧
    Forall (λ r, ev_Result r = ResultNotDenied) rs ∧ resp = approvedResponse p.
Proof.
  intros resp. assert (Review (New [not_a]) req true = (Ok resp, true)) as Hrun by reflexivity.
  split; [exact Hrun|]. by apply (Review_approved_sound _ _ _ _ _ Hrun).
Defined.

Lemma Review_correct_witness :
  let w := relist two_world [pa; pb] in
  stable (eq true) [not_a] req w ∧
  ∃ resp, returns (eq true) (Review (New [not_a]) req) (Ok resp) ∧
    (manager.rv_Result resp = manager.ResultApproved ↔
       ∃ p, p ∈ w_items w ∧ applicable req w p ∧ passed (w_verdict w p) = true) ∧
    (manager.rv_Result resp = manager.ResultUnprocessed ↔
       ∀ p, p ∈ w_items w → ¬ applicable req w p) ∧
    (manager.rv_Result resp = manager.ResultDenied ↔
       (∃ p, p ∈ w_items w ∧ applicable req w p) ∧
       ∀ p, p ∈ w_items w → applicable req w p → passed (w_verdict w p) = false).
Proof. intros w. split; [apply (two_stable true)|]. apply Review_correct, (two_stable true). Defined.

(** The same API server, with the outcomes of [not_a]. *)
Definition two_setting : setting :=
  {| st_items := [pa; pb]; st_labels := ∅; st_may_use _ := true;
     st_outcomes p := Ok <$> w_verdict two_world p |}.
Lemma two_steady (b : bool) :
  steady (eq b) [not_a] req (reorder two_setting (if b then [pa; pb] else [pb; pa])).
Proof.
  destruct (two_stable b) as [Hi Hk Hl _ Hm _]. split; try done.
  intros p _. repeat constructor. apply returns_ret.
Qed.
Lemma Review_order_independent_witness :
  steady (eq true) [not_a] req two_setting ∧ steady (eq false) [not_a] req (reorder two_setting [pb; pa]) ∧
  Review (New [not_a]) req true = (Ok (approvedResponse pb), true) ∧
  Review (New [not_a]) req false = (Ok (approvedResponse pb), false) ∧
  (∀ resp1 resp2 s1' s2', Review (New [not_a]) req true = (Ok resp1, s1') →
     Review (New [not_a]) req false = (Ok resp2, s2') →
     manager.rv_Result resp2 = manager.rv_Result resp1 ∧
     (manager.rv_Result resp1 ≠ manager.ResultApproved → resp2 = resp1)) ∧
  ((∀ p, p ∈ st_items two_setting →
      is_Ok (ns_keep req (st_labels two_setting) p) ∧ Forall is_Ok (st_outcomes two_setting p)) →
   (∃ resp1 s1', Review (New [not_a]) req true = (Ok resp1, s1')) ∧
   ∃ resp2 s2', Review (New [not_a]) req false = (Ok resp2, s2')).
Proof.
  split; [apply (two_steady true)|]. split; [apply (two_steady false)|].
  split; [reflexivity|]. split; [reflexivity|].
  apply (Review_order_independent (eq true) (eq false) [not_a] req two_setting [pb; pa] true false).
  - apply (two_steady true).
  - apply (two_steady false).
  - apply Permutation_swap.
  - apply (bool_decide_unpack _). by vm_compute.
  - reflexivity.
  - reflexivity.
Defined.

(** An evaluator that cannot evaluate the policy named "a": the listing that has
    "b" first approves, the other one fails. *)
Definition fails_on_a : Evaluator bool := λ p _,
  if bool_decide (p_Name p = "a") then fail (errors_New "broken")
  else mret {| ev_Result := ResultNotDenied; ev_Message := "" |}.
Example errors_depend_on_order :
  (Review (New [fails_on_a]) req false).1 = Ok (approvedResponse pb) ∧
  (Review (New [fails_on_a]) req true).1 = Err (errors_New "broken").
Proof. split; reflexivity. Qed.

Lemma evaluator_error_aborts_witness :
  let rs := w_verdict two_world pa in
  evaluates [not_a] req true pa rs true ∧
  broken pa req true = (Err (errors_New "broken"), true) ∧
  reviewPolicies ([not_a] ++ broken :: []) req [pa; pb] [] true = (Err (errors_New "broken"), true).
Proof.
  intros rs. assert (evaluates [not_a] req true pa rs true) as Hev
    by (repeat econstructor).
  split; [exact Hev|]. split; [reflexivity|].
  by apply (evaluator_error_aborts [not_a] broken [] req pa [pb] [] true rs true).
Defined.
End ManagerWitnesses.
