(* ===== verification/CacheConcurrency.v ===== *)
(** * Concurrent calls of [cache.Get]

    cache.go takes no lock: [Load], the compilation and [LoadOrStore] of one
    call may interleave with those of others.  Each atomic operation is a
    step; an entry carries the identity of the call's allocation, so that
    sharing is visible. *)
From S2P Require Import Prelude GoStrings K8s Validation Samples.

Section concurrent.
Context `{CelLib}.

(** A pointer to a cacheEntry: its identity and what it points to, which
    nothing changes after the allocation. *)
Definition entryPtr : Type := nat * cacheEntry.

(** Where a call of [Get] stands. *)
Inductive thread :=
  | AtLoad (expr : string)
  | AtCompile (expr : string)               (* [Load] missed *)
  | AtStore (expr : string) (ce : entryPtr)
  | Returned (expr : string) (ce : entryPtr)
  | Crashed (expr why : string).

Record config := {
  g_m : gmap string entryPtr;
  g_next : nat;                             (* the next allocation *)
  g_threads : list thread }.

Definition load_step (expr : string) (m : gmap string entryPtr) : thread :=
  match m !! expr with
  | Some ce => Returned expr ce
  | None => AtCompile expr
  end.
Definition compile_step (expr : string) (id : nat) : thread :=
  match newEntry expr with
  | Ok ce => AtStore expr (id, ce)
  | Err e => Crashed expr (error_Error e)
  | Panic w => Crashed expr w
  end.
Definition store_step (expr : string) (ce : entryPtr) (m : gmap string entryPtr)
    : thread * gmap string entryPtr :=
  match m !! expr with
  | Some ce' => (Returned expr ce', m)
  | None => (Returned expr ce, <[expr:=ce]> m)
  end.

(** One atomic operation of thread [i]. *)
Inductive step (i : nat) : config → config → Prop :=
  | step_load g expr :
      g_threads g !! i = Some (AtLoad expr) →
      step i g {| g_m := g_m g; g_next := g_next g;
                  g_threads := <[i:=load_step expr (g_m g)]> (g_threads g) |}
  | step_compile g expr :
      g_threads g !! i = Some (AtCompile expr) →
      step i g {| g_m := g_m g; g_next := S (g_next g);
                  g_threads := <[i:=compile_step expr (g_next g)]> (g_threads g) |}
  | step_store g expr ce :
      g_threads g !! i = Some (AtStore expr ce) →
      step i g {| g_m := (store_step expr ce (g_m g)).2; g_next := g_next g;
                  g_threads := <[i:=(store_step expr ce (g_m g)).1]> (g_threads g) |}.

Definition steps : config → config → Prop := rtc (λ g g', ∃ i, step i g g').

(** Calls for [exprs], started on a cache with the entries [m]. *)
Definition start (m : gmap string entryPtr) (next : nat) (exprs : list string) : config :=
  {| g_m := m; g_next := next; g_threads := AtLoad <$> exprs |}.

(** The same with the calls that take the steps, in order. *)
Inductive schedule (g0 : config) : list nat → config → Prop :=
  | schedule_nil : schedule g0 [] g0
  | schedule_snoc js i g g' : schedule g0 js g → step i g g' → schedule g0 (js ++ [i]) g'.
Definition own_steps (i : nat) (js : list nat) : nat := length (filter (λ j, j = i) js).

(** A bound on the atomic operations a call may still take.  It serves as a
    measure only: it is zero for a call that returned and also for one that
    crashed, and which of the two is for the theorems to say. *)
Definition todo (t : thread) : nat :=
  match t with
  | AtLoad _ => 3
  | AtCompile _ => 2
  | AtStore _ _ => 1
  | Returned _ _ | Crashed _ _ => 0
  end.
Definition work (g : config) : nat := sum_list (todo <$> g_threads g).
End concurrent.

Section proofs.
Context `{CelLaws}.

(** Entries are what compilation gives, a returned entry is the one the map
    holds, and no call has crashed. *)
Definition thread_ok (m : gmap string entryPtr) (t : thread) : Prop :=
  match t with
  | AtLoad _ | AtCompile _ => True
  | AtStore expr ce => newEntry expr = Ok ce.2
  | Returned expr ce => m !! expr = Some ce
  | Crashed _ _ => False
  end.
Definition entries_ok (m : gmap string entryPtr) : Prop :=
  ∀ expr ce, m !! expr = Some ce → newEntry expr = Ok ce.2.
Definition config_ok (g : config) : Prop :=
  entries_ok (g_m g) ∧ Forall (thread_ok (g_m g)) (g_threads g).

Lemma thread_ok_mono m m' t : m ⊆ m' → thread_ok m t → thread_ok m' t.
Proof. destruct t; simpl; [done..| |done]. intros Hm Hl. by eapply lookup_weaken. Qed.
Lemma threads_ok_mono m m' ts :
  m ⊆ m' → Forall (thread_ok m) ts → Forall (thread_ok m') ts.
Proof. intros Hm Hts. eapply Forall_impl; [exact Hts|]. intros t. by apply thread_ok_mono. Qed.

Lemma load_step_ok expr m : thread_ok m (load_step expr m).
Proof. unfold load_step. by destruct (m !! expr) eqn:E. Qed.
Lemma compile_step_ok expr id m : thread_ok m (compile_step expr id).
Proof. unfold compile_step. destruct (newEntry_Ok expr) as (ce & E & _). by rewrite E. Qed.
Lemma store_step_ok expr ce m :
  entries_ok m → newEntry expr = Ok ce.2 →
  m ⊆ (store_step expr ce m).2 ∧ entries_ok (store_step expr ce m).2 ∧
  thread_ok (store_step expr ce m).2 (store_step expr ce m).1.
Proof.
  intros Hm Hce. unfold store_step. destruct (m !! expr) as [ce'|] eqn:E; simpl; [done|].
  split; [by apply insert_subseteq|]. split; [|by rewrite lookup_insert_eq].
  intros expr' ce' Hl. destruct (decide (expr = expr')) as [<-|].
  - rewrite lookup_insert_eq in Hl. congruence.
  - rewrite lookup_insert_ne in Hl by done. by apply Hm.
Qed.

Lemma step_ok i g g' : step i g g' → config_ok g → config_ok g' ∧ g_m g ⊆ g_m g'.
Proof.
  intros Hstep [Hm Hts].
  destruct Hstep as [g expr Hi|g expr Hi|g expr ce Hi]; unfold config_ok; simpl.
  - split_and!; [done| |done]. apply Forall_insert; [done|apply load_step_ok].
  - split_and!; [done| |done]. apply Forall_insert; [done|apply compile_step_ok].
  - destruct (store_step_ok expr ce (g_m g)) as (Hsub & Hm' & Ht); [done| |].
    { by apply (Forall_lookup_1 _ _ _ _ Hts Hi). }
    split_and!; [done| |done]. apply Forall_insert; [by eapply threads_ok_mono|done].
Qed.

Lemma steps_ok g g' : steps g g' → config_ok g → config_ok g' ∧ g_m g ⊆ g_m g'.
Proof.
  induction 1 as [g|g g1 g2 [i Hstep] _ IH]; intros Hok; [done|].
  destruct (step_ok _ _ _ Hstep Hok) as [Hok1 Hsub]. destruct (IH Hok1) as [Hok2 Hsub'].
  split; [done|]. by trans (g_m g1).
Qed.
Lemma start_ok m next exprs : entries_ok m → config_ok (start m next exprs).
Proof. intros Hm. split; [done|]. simpl. apply Forall_fmap, Forall_true. done. Qed.

Definition expr_of (t : thread) : string :=
  match t with
  | AtLoad expr | AtCompile expr | AtStore expr _ | Returned expr _ | Crashed expr _ => expr
  end.

(** A step moves one call on and leaves the others where they are. *)
Lemma step_moves i g g' :
  step i g g' → ∃ t t', g_threads g !! i = Some t ∧ g_threads g' = <[i:=t']> (g_threads g) ∧
    expr_of t' = expr_of t ∧ (todo t' < todo t)%nat.
Proof.
  destruct 1 as [g expr Hi|g expr Hi|g expr ce Hi]; simpl; do 2 eexists; (split; [exact Hi|]);
    (split; [done|]); unfold load_step, compile_step, store_step; case_match; simpl; (split; [done|lia]).
Qed.
Lemma todo_insert ts i t t' :
  ts !! i = Some t → (todo t' < todo t)%nat →
  (sum_list (todo <$> <[i:=t']> ts) < sum_list (todo <$> ts))%nat.
Proof.
  revert i. induction ts as [|u ts IH]; intros [|i] Hi Ht; simplify_eq/=; [lia|].
  specialize (IH i Hi Ht). lia.
Qed.
Lemma step_work i g g' : step i g g' → (work g' < work g)%nat.
Proof.
  intros (t & t' & Hi & E & _ & Ht)%step_moves. unfold work. rewrite E. by eapply todo_insert.
Qed.
Lemma work_start m next exprs : work (start m next exprs) = (3 * length exprs)%nat.
Proof.
  unfold work, start. cbn [g_threads]. induction exprs as [|expr exprs IH]; [done|].
  rewrite !fmap_cons. change (3 + sum_list (todo <$> (AtLoad <$> exprs)) = 3 * S (length exprs))%nat.
  lia.
Qed.

Lemma own_steps_snoc i j js :
  own_steps i (js ++ [j]) = (own_steps i js + if decide (j = i) then 1 else 0)%nat.
Proof. unfold own_steps. rewrite filter_app, length_app, filter_cons. by case_decide. Qed.

(** What every schedule keeps: each call works on its expression, and has
    at most three operations, done and left together. *)
Lemma schedule_calls m next exprs js g :
  schedule (start m next exprs) js g →
  (length js + work g ≤ 3 * length exprs)%nat ∧ steps (start m next exprs) g ∧
  ∀ i expr, exprs !! i = Some expr → ∃ t, g_threads g !! i = Some t ∧ expr_of t = expr ∧
    (own_steps i js + todo t ≤ 3)%nat.
Proof.
  induction 1 as [|js j g g' _ (Hlen & Hsteps & IH) Hstep].
  - split_and!; [rewrite work_start; simpl; lia|apply rtc_refl|]. intros i expr Hi.
    exists (AtLoad expr). split_and!; [|done|simpl; lia]. simpl. by rewrite list_lookup_fmap, Hi.
  - split_and!.
    + apply step_work in Hstep. rewrite length_app. simpl. lia.
    + eapply rtc_r; [done|by exists j].
    + intros i expr Hi. destruct (IH i expr Hi) as (t & Ht & He & Hle).
      apply step_moves in Hstep as (u & u' & Hu & E & Eu & Hlt). rewrite own_steps_snoc, E.
      case_decide as Hji; [subst j|].
      * rewrite Ht in Hu. injection Hu as <-. exists u'.
        rewrite list_lookup_insert_eq by (by eapply lookup_lt_Some). split_and!; [done|congruence|lia].
      * exists t. rewrite list_lookup_insert_ne by done. split_and!; [done..|lia].
Qed.

(** A call that has neither returned nor crashed can go on, whatever the others
    do. *)
Lemma can_step g i t :
  g_threads g !! i = Some t → todo t ≠ 0%nat → ∃ g', step i g g'.
Proof.
  intros Hi Ht. destruct t; [eexists; by econstructor..|done|done].
Qed.
Lemma done_returned m t : thread_ok m t → todo t = 0%nat → ∃ ce, t = Returned (expr_of t) ce ∧ m !! expr_of t = Some ce.
Proof. destruct t; simpl; try done. eauto. Qed.
Lemma work_zero g : work g = 0%nat ↔ Forall (λ t, todo t = 0%nat) (g_threads g).
Proof.
  unfold work. induction (g_threads g) as [|t ts IH]; [by rewrite Forall_nil|].
  rewrite Forall_cons, <-IH, fmap_cons.
  change (sum_list (todo t :: (todo <$> ts))) with (todo t + sum_list (todo <$> ts))%nat. lia.
Qed.
Lemma completes g0 js g : schedule g0 js g → ∃ js' g', schedule g0 (js ++ js') g' ∧ work g' = 0%nat.
Proof.
  remember (work g) as n eqn:En. revert js g En.
  induction n as [n IH] using lt_wf_ind. intros js g -> Hs.
  destruct (decide (Forall (λ t, todo t = 0%nat) (g_threads g))) as [Hall%work_zero|Hn].
  { exists [], g. by rewrite app_nil_r. }
  apply not_Forall_Exists in Hn; [|apply _]. apply Exists_exists in Hn as (t & Ht & Hn).
  apply list_elem_of_lookup in Ht as [i Hi]. destruct (can_step g i t Hi Hn) as [g1 Hstep].
  destruct (IH (work g1) (step_work _ _ _ Hstep) (js ++ [i]) g1 eq_refl) as (js' & g2 & Hs2 & E2);
    [by econstructor|].
  exists (i :: js'), g2. by rewrite <-app_assoc in Hs2.
Qed.

(** ** The claims *)

(** [C17] Concurrent calls are as good as sequential ones.  However the calls
    interleave, none crashes; a call that returned answers what a sequential
    [Get] answers; calls for the same expression return the same pointer,
    even if both compiled it; and entries present before are kept. *)
Theorem cache_concurrent_correct m next exprs g
  (Hm : entries_ok m) (Hrun : steps (start m next exprs) g) :
  m ⊆ g_m g ∧
  (∀ i expr why, g_threads g !! i ≠ Some (Crashed expr why)) ∧
  (∀ i expr ce, g_threads g !! i = Some (Returned expr ce) →
    ∀ c, coherent c → ∃ c', cache_Get expr c = (entry_outcome ce.2, c')) ∧
  (∀ i j expr ce ce', g_threads g !! i = Some (Returned expr ce) →
    g_threads g !! j = Some (Returned expr ce') → ce = ce').
Proof.
  destruct (steps_ok _ _ Hrun (start_ok m next exprs Hm)) as [[Hg Hts] Hsub].
  assert (∀ i t, g_threads g !! i = Some t → thread_ok (g_m g) t) as Hok
    by (intros i t; by apply Forall_lookup_1).
  split_and!; [done| | |].
  - intros i expr why Hi. by apply Hok in Hi.
  - intros i expr ce Hi c Hc. apply Hok, Hg in Hi.
    destruct (cache_Get_coherent expr c Hc) as (ce' & c' & Hce & Hget & _).
    exists c'. rewrite Hget. unfold compiled. by rewrite Hi.
  - intros i j expr ce ce' Hi Hj. apply Hok in Hi, Hj. simpl in *. congruence.
Qed.

(** [C30] Every call returns, without a lock and whatever the others do.  Take
    any schedule of the calls: a call has taken at most three steps of its own,
    and either it has returned, with the entry that the map holds for its
    expression, or it has taken fewer than three and can take the next one now.
    All together there are at most three steps per call, and every schedule can
    be continued until all the calls have returned. *)
Theorem cache_concurrent_terminates m next exprs js g
  (Hm : entries_ok m) (Hrun : schedule (start m next exprs) js g) :
  (∀ i expr, exprs !! i = Some expr → (own_steps i js ≤ 3)%nat ∧
     ((∃ ce, g_threads g !! i = Some (Returned expr ce) ∧ g_m g !! expr = Some ce) ∨
      (own_steps i js < 3)%nat ∧ ∃ g', step i g g')) ∧
  (length js ≤ 3 * length exprs)%nat ∧
  ∃ js' g', schedule (start m next exprs) (js ++ js') g' ∧
    ∀ i expr, exprs !! i = Some expr →
      ∃ ce, g_threads g' !! i = Some (Returned expr ce) ∧ g_m g' !! expr = Some ce.
Proof.
  assert (∀ ks h, schedule (start m next exprs) ks h → Forall (thread_ok (g_m h)) (g_threads h)) as Hok
    by (intros ks h (_ & Hst & _)%schedule_calls; by apply (steps_ok _ _ Hst (start_ok m next exprs Hm))).
  destruct (schedule_calls _ _ _ _ _ Hrun) as (Hlen & _ & Hcalls). split_and!; [|lia|].
  - intros i expr Hi. destruct (Hcalls i expr Hi) as (t & Ht & <- & Hle). split; [lia|].
    destruct (decide (todo t = 0%nat)) as [E|E]; [left|right].
    + destruct (done_returned (g_m g) t) as (ce & Et & ?); [by apply (Forall_lookup_1 _ _ _ _ (Hok _ _ Hrun) Ht)|done|].
      exists ce. by rewrite Ht, <-Et.
    + split; [lia|by eapply can_step].
  - destruct (completes _ _ _ Hrun) as (js' & g' & Hs' & Hw%work_zero). exists js', g'. split; [done|].
    intros i expr Hi. destruct (schedule_calls _ _ _ _ _ Hs') as (_ & _ & Hcalls').
    destruct (Hcalls' i expr Hi) as (t & Ht & <- & _).
    destruct (done_returned (g_m g') t) as (ce & Et & ?);
      [by apply (Forall_lookup_1 _ _ _ _ (Hok _ _ Hs') Ht)|by apply (Forall_lookup_1 _ _ _ _ Hw Ht)|].
    exists ce. by rewrite Ht, <-Et.
Qed.
End proofs.

Module CacheWitnesses.
Import Sample.

Lemma cache_Get_correct_witness :
  coherent NewCache ∧
  ∃ ce c', newEntry "true" = Ok ce ∧ cache_Get "true" NewCache = (entry_outcome ce, c') ∧
    c_m c' = <["true":=ce]> (c_m NewCache) ∧ coherent c' ∧
    (∀ w, entry_outcome ce ≠ Panic w) ∧
    (∀ v value request w, entry_outcome ce = Ok v → validator_Validate v value request ≠ Panic w).
Proof. split; [apply NewCache_coherent|]. apply cache_Get_correct, NewCache_coherent. Defined.

(** Two calls for one expression that both compile it. *)
Definition both : config :=
  {| g_m := {["true" := (0%nat, {| ce_validator :=
        Some {| expression := "true"; program := Some "true" |}; ce_err := None |})]};
     g_next := 2;
     g_threads := replicate 2 (Returned "true" (0%nat, {| ce_validator :=
        Some {| expression := "true"; program := Some "true" |}; ce_err := None |})) |}.
Lemma both_run : steps (start ∅ 0 ["true"; "true"]) both.
Proof.
  eapply rtc_l; [exists 0%nat; by apply (step_load _ _ "true")|].
  eapply rtc_l; [exists 1%nat; by apply (step_load _ _ "true")|].
  eapply rtc_l; [exists 0%nat; by apply (step_compile _ _ "true")|].
  eapply rtc_l; [exists 1%nat; by apply (step_compile _ _ "true")|].
  eapply rtc_l; [exists 0%nat; by eapply (step_store _ _ "true")|].
  eapply rtc_l; [exists 1%nat; by eapply (step_store _ _ "true")|].
  apply rtc_refl.
Qed.
Lemma cache_concurrent_correct_witness :
  entries_ok ∅ ∧ steps (start ∅ 0 ["true"; "true"]) both ∧
  ∅ ⊆ g_m both ∧
  (∀ i expr why, g_threads both !! i ≠ Some (Crashed expr why)) ∧
  (∀ i expr ce, g_threads both !! i = Some (Returned expr ce) →
    ∀ c, coherent c → ∃ c', cache_Get expr c = (entry_outcome ce.2, c')) ∧
  (∀ i j expr ce ce', g_threads both !! i = Some (Returned expr ce) →
    g_threads both !! j = Some (Returned expr ce') → ce = ce').
Proof.
  assert (entries_ok ∅) as He by (intros expr ce Hl; by rewrite lookup_empty in Hl).
  split; [exact He|]. split; [apply both_run|].
  apply (cache_concurrent_correct ∅ 0 ["true"; "true"] both He both_run).
Defined.

(** The first call has compiled, the second is about to: neither can hold up the
    other. *)
Definition halfway : config :=
  {| g_m := ∅; g_next := 1;
     g_threads := [AtStore "true" (0%nat, {| ce_validator :=
        Some {| expression := "true"; program := Some "true" |}; ce_err := None |});
       AtCompile "true"] |}.
Definition both_at (t u : thread) : config := {| g_m := ∅; g_next := 0; g_threads := [t; u] |}.
Lemma halfway_schedule : schedule (start ∅ 0 ["true"; "true"]) [0; 1; 0]%nat halfway.
Proof.
  apply (schedule_snoc _ [0; 1]%nat _ (both_at (AtCompile "true") (AtCompile "true")));
    [apply (schedule_snoc _ [0]%nat _ (both_at (AtCompile "true") (AtLoad "true")));
      [apply (schedule_snoc _ [] _ (both_at (AtLoad "true") (AtLoad "true"))); [apply schedule_nil|]|]|].
  - exact (step_load 0 (both_at (AtLoad "true") (AtLoad "true")) "true" eq_refl).
  - exact (step_load 1 (both_at (AtCompile "true") (AtLoad "true")) "true" eq_refl).
  - exact (step_compile 0 (both_at (AtCompile "true") (AtCompile "true")) "true" eq_refl).
Qed.
Lemma cache_concurrent_terminates_witness :
  entries_ok ∅ ∧ schedule (start ∅ 0 ["true"; "true"]) [0; 1; 0]%nat halfway ∧
  (∃ g', step 1 halfway g') ∧
  ∃ js g', schedule (start ∅ 0 ["true"; "true"]) ([0; 1; 0]%nat ++ js) g' ∧
    ∀ i expr, ["true"; "true"] !! i = Some expr →
      ∃ ce, g_threads g' !! i = Some (Returned expr ce) ∧ g_m g' !! expr = Some ce.
Proof.
  assert (entries_ok ∅) as He by (intros expr ce Hl; by rewrite lookup_empty in Hl).
  split; [exact He|]. split; [exact halfway_schedule|].
  destruct (cache_concurrent_terminates ∅ 0 ["true"; "true"] [0; 1; 0]%nat halfway He halfway_schedule)
    as (Hcalls & _ & Hall). split; [|exact Hall].
  destruct (Hcalls 1%nat "true" eq_refl) as [_ [(ce & [=] & _)|[_ Hstep]]]. exact Hstep.
Defined.
End CacheWitnesses.
