(* ===== verification/ServiceAccount.v ===== *)
(** * Service accounts in CEL: pkg/internal/approver/validation/serviceaccount.go

    The CEL value [ServiceAccount] and the functions the library [saLib] adds
    to the expression language.  How a username is split and made is
    Kubernetes' business, and so are the other values of the interpreter. *)
From S2P Require Import Prelude GoStrings.

Record ServiceAccount := { sa_Name : string; sa_Namespace : string }.
#[export] Instance ServiceAccount_eq_dec : EqDecision ServiceAccount.
Proof. solve_decision. Defined.

(** [ref.Type], as far as the code distinguishes types. *)
Inductive ref_Type :=
  | StringType
  | BoolType
  | TypeType
  | SAType
  | other_Type (name : string).

(** Values of the interpreter that the library does not make itself;
    [foreign_string v] is the type assertion [v.Value().(string)]. *)
Class ForeignVals := {
  foreign_Val : Type;
  foreign_Type : foreign_Val → ref_Type;
  foreign_string : foreign_Val → option string }.

(** [ref.Val]. *)
Inductive ref_Val `{ForeignVals} :=
  | types_String (s : string)
  | types_Bool (b : bool)
  | types_Err (msg : string)
  | ref_ServiceAccount (sa : ServiceAccount)
  | ref_TypeVal (t : ref_Type)
  | ref_foreign (v : foreign_Val).

(** [serviceaccount.SplitUsername] answers namespace and name. *)
Class ServiceAccountPkg `{ForeignVals} := {
  SplitUsername : string → outcome (string * string);
  MakeUsername : string → string → string;
  MaybeNoSuchOverloadErr : ref_Val → ref_Val;
  Type_String : ref_Type → string }.

(** Documented: what splits was made of the parts, and a username has no
    other parts; splitting does not panic; the overload error is an error (or
    an unknown, which comes from the interpreter). *)
Class ServiceAccountLaws `{ServiceAccountPkg} := {
  SplitUsername_MakeUsername u ns name : SplitUsername u = Ok (ns, name) → MakeUsername ns name = u;
  SplitUsername_no_panic u w : SplitUsername u ≠ Panic w;
  MaybeNoSuchOverloadErr_error v :
    (∃ m, MaybeNoSuchOverloadErr v = types_Err m) ∨ (∃ x, MaybeNoSuchOverloadErr v = ref_foreign x) }.

(** [reflect.Type]: what the code asks of one. *)
Record reflect_Type := {
  assignable_from_ServiceAccount : bool;
  assignable_from_string : bool;
  reflect_String : string }.

(** The [interface{}] answered by [ConvertToNative]. *)
Inductive native :=
  | native_ServiceAccount (sa : ServiceAccount)
  | native_string (s : string).

Section serviceaccount.
Context `{ServiceAccountPkg}.

Definition ConvertToNative (sa : ServiceAccount) (typeDesc : reflect_Type) : outcome native :=
  if assignable_from_ServiceAccount typeDesc then Ok (native_ServiceAccount sa)
  else if assignable_from_string typeDesc
  then Ok (native_string (MakeUsername (sa_Namespace sa) (sa_Name sa)))
  else Err (errors_New ("type conversion error from 'serviceaccount' to '"
              +:+ reflect_String typeDesc +:+ "'")).

Definition ConvertToType (sa : ServiceAccount) (typeVal : ref_Type) : ref_Val :=
  match typeVal with
  | SAType => ref_ServiceAccount sa
  | TypeType => ref_TypeVal SAType
  | _ => types_Err ("type conversion error from '" +:+ Type_String SAType +:+ "' to '"
           +:+ Type_String typeVal +:+ "'")
  end.

Definition Equal (sa : ServiceAccount) (other : ref_Val) : ref_Val :=
  match other with
  | ref_ServiceAccount otherSA =>
      types_Bool (bool_decide (sa_Name sa = sa_Name otherSA)
        && bool_decide (sa_Namespace sa = sa_Namespace otherSA))
  | _ => MaybeNoSuchOverloadErr other
  end.

(** The methods [Type] and [Value] of [ServiceAccount]. *)
Definition sa_Type (sa : ServiceAccount) : ref_Type := SAType.
Definition sa_Value (sa : ServiceAccount) : native := native_ServiceAccount sa.

(** [arg.Value().(string)] and [arg.Value().(ServiceAccount)]; a type value
    answers its name. *)
Definition Value_string (arg : ref_Val) : option string :=
  match arg with
  | types_String s => Some s
  | ref_TypeVal t => Some (Type_String t)
  | ref_foreign v => foreign_string v
  | _ => None
  end.
Definition Value_ServiceAccount (arg : ref_Val) : option ServiceAccount :=
  match arg with
  | ref_ServiceAccount sa =>
      match sa_Value sa with native_ServiceAccount sa => Some sa | _ => None end
  | _ => None
  end.

Definition stringToServiceAccount (arg : ref_Val) : outcome ref_Val :=
  match Value_string arg with
  | None => Ok (MaybeNoSuchOverloadErr arg)
  | Some s =>
      match SplitUsername s with
      | Err err => Ok (types_Err ("Unable to convert to serviceaccount: err: "
                     +:+ error_Error err +:+ ", username: " +:+ s))
      | Panic w => Panic w
      | Ok (ns, name) => Ok (ref_ServiceAccount {| sa_Name := name; sa_Namespace := ns |})
      end
  end.

Definition isServiceAccount (arg : ref_Val) : outcome ref_Val :=
  match Value_string arg with
  | None => Ok (MaybeNoSuchOverloadErr arg)
  | Some s =>
      match SplitUsername s with
      | Err _ => Ok (types_Bool false)
      | Panic w => Panic w
      | Ok _ => Ok (types_Bool true)
      end
  end.

Definition getServiceAccountName (arg : ref_Val) : outcome ref_Val :=
  match Value_ServiceAccount arg with
  | None => Ok (MaybeNoSuchOverloadErr arg)
  | Some s => Ok (types_String (sa_Name s))
  end.

Definition getServiceAccountNamespace (arg : ref_Val) : outcome ref_Val :=
  match Value_ServiceAccount arg with
  | None => Ok (MaybeNoSuchOverloadErr arg)
  | Some s => Ok (types_String (sa_Namespace s))
  end.

(** [cel.Overload] and [cel.MemberOverload] with a [cel.UnaryBinding]. *)
Record FunctionOpt := {
  fo_member : bool;
  fo_id : string;
  fo_args : list ref_Type;
  fo_result : ref_Type;
  fo_binding : ref_Val → outcome ref_Val }.

Definition saLibraryDecls : gmap string (list FunctionOpt) :=
  {[ "serviceAccount" := [{| fo_member := false; fo_id := "username_to_serviceaccount";
       fo_args := [StringType]; fo_result := SAType; fo_binding := stringToServiceAccount |}];
     "getName" := [{| fo_member := true; fo_id := "serviceaccount_get_name";
       fo_args := [SAType]; fo_result := StringType; fo_binding := getServiceAccountName |}];
     "getNamespace" := [{| fo_member := true; fo_id := "serviceaccount_get_namespace";
       fo_args := [SAType]; fo_result := StringType; fo_binding := getServiceAccountNamespace |}];
     "isServiceAccount" := [{| fo_member := false; fo_id := "serviceaccount_is_sa";
       fo_args := [StringType]; fo_result := BoolType; fo_binding := isServiceAccount |}] ]}.

(** One [cel.Function] per declaration.  The order is that of a map, which
    Go does not fix; here it is that of [map_to_list]. *)
Definition CompileOptions : list (string * list FunctionOpt) := map_to_list saLibraryDecls.
Definition ProgramOptions : list (string * list FunctionOpt) := [].

(** ** Typing *)
Definition has_type (v : ref_Val) (t : ref_Type) : Prop :=
  match v with
  | types_String _ => t = StringType
  | types_Bool _ => t = BoolType
  | types_Err _ => False
  | ref_ServiceAccount sa => t = sa_Type sa
  | ref_TypeVal _ => t = TypeType
  | ref_foreign v => t = foreign_Type v
  end.
Definition is_error (v : ref_Val) : Prop := ∃ m, v = types_Err m.
End serviceaccount.

Section proofs.
Context `{ServiceAccountLaws}.
(** The interpreter keeps strings in its own string type. *)
Definition native_types : Prop :=
  ∀ v, foreign_Type v ≠ SAType ∧ (foreign_Type v = StringType → is_Some (foreign_string v)).

Lemma saLibraryDecls_lookup name opts :
  saLibraryDecls !! name = Some opts →
  ∃ o, opts = [o] ∧ ((fo_args o = [StringType] ∧
         (fo_result o, fo_binding o) ∈ [(SAType, stringToServiceAccount); (BoolType, isServiceAccount)]) ∨
       (fo_args o = [SAType] ∧ fo_result o = StringType ∧
         fo_binding o ∈ [getServiceAccountName; getServiceAccountNamespace])).
Proof.
  unfold saLibraryDecls. intros Hl.
  repeat (apply lookup_insert_Some in Hl as [[_ <-]|[_ Hl]];
    [eexists; split; [done|]; simpl; rewrite ?list_elem_of_In; simpl; tauto|]).
  apply lookup_singleton_Some in Hl as [_ <-].
  eexists; split; [done|]; simpl; rewrite ?list_elem_of_In; simpl; tauto.
Qed.

Lemma has_type_string v : native_types → has_type v StringType → is_Some (Value_string v).
Proof.
  intros Hn Hv. destruct v as [s|b|m|sa|t|v]; simpl in *; try done.
  by apply (proj2 (Hn v)).
Qed.
Lemma has_type_SA v : native_types → has_type v SAType → ∃ sa, v = ref_ServiceAccount sa.
Proof.
  intros Hn Hv. destruct v as [s|b|m|sa|t|v]; simpl in *; try done; [eauto|].
  by destruct (proj1 (Hn v)).
Qed.

(** [C37] The declarations of the service account library are honest: a
    function applied to a value of its declared argument type answers, without
    panicking, a value of its declared result type or a CEL error. *)
Theorem saLibrary_typed name opts o v (Hn : native_types)
  (Hl : saLibraryDecls !! name = Some opts) (Ho : o ∈ opts)
  (Hv : ∃ t, fo_args o = [t] ∧ has_type v t) :
  ∃ r, fo_binding o v = Ok r ∧ (has_type r (fo_result o) ∨ is_error r).
Proof.
  apply saLibraryDecls_lookup in Hl as (o' & -> & Hl).
  apply list_elem_of_singleton in Ho as ->. destruct Hv as (t & Et & Hv).
  destruct Hl as [[Ea Hb]|(Ea & Er & Hb)]; rewrite Ea in Et; injection Et as <-.
  - destruct (has_type_string v Hn Hv) as [s Es].
    pose proof (SplitUsername_no_panic s) as Hp.
    apply elem_of_cons in Hb as [[= -> ->]|[[= -> ->]|[]%elem_of_nil]%elem_of_cons];
      unfold stringToServiceAccount, isServiceAccount; rewrite Es;
      destruct (SplitUsername s) as [[ns n]|e|w]; unfold is_error; simpl;
      first [by eauto 6|by eexists; split; [done|left]|by destruct (Hp _ eq_refl)].
  - destruct (has_type_SA v Hn Hv) as [sa ->].
    apply elem_of_cons in Hb as [->|[->|[]%elem_of_nil]%elem_of_cons]; rewrite Er; simpl;
      (eexists; split; [done|by left]).
Qed.

(** [C38] Round trip: a username that [isServiceAccount] accepts converts to a
    service account, which converts back to that username, and two such
    accounts are equal exactly when their usernames are. *)
Theorem serviceaccount_roundtrip u u'
  (Hu : isServiceAccount (types_String u) = Ok (types_Bool true))
  (Hu' : isServiceAccount (types_String u') = Ok (types_Bool true)) typeDesc
  (Hs : assignable_from_ServiceAccount typeDesc = false)
  (Ht : assignable_from_string typeDesc = true) :
  ∃ sa sa', stringToServiceAccount (types_String u) = Ok (ref_ServiceAccount sa) ∧
    stringToServiceAccount (types_String u') = Ok (ref_ServiceAccount sa') ∧
    ConvertToNative sa typeDesc = Ok (native_string u) ∧
    Equal sa (ref_ServiceAccount sa') = types_Bool (bool_decide (u = u')).
Proof.
  unfold isServiceAccount, stringToServiceAccount, ConvertToNative in *. simpl in *.
  rewrite Hs, Ht.
  destruct (SplitUsername u) as [[ns n]| |] eqn:E; [|done..].
  destruct (SplitUsername u') as [[ns' n']| |] eqn:E'; [|done..].
  eexists _, _. split_and!; [done|done|simpl; by rewrite (SplitUsername_MakeUsername u)|].
  simpl. f_equal. apply SplitUsername_MakeUsername in E as Em, E' as Em'.
  destruct (decide (u = u')) as [<-|Hne].
  - assert (ns' = ns ∧ n' = n) as [-> ->] by (split; congruence).
    by rewrite !bool_decide_eq_true_2.
  - rewrite (bool_decide_eq_false_2 (u = u')) by done. apply andb_false_iff.
    rewrite !bool_decide_eq_false. destruct (decide (n = n')); [right|by left]. congruence.
Qed.
End proofs.

Module ServiceAccountWitnesses.
#[export] Instance no_ForeignVals : ForeignVals := {
  foreign_Val := Empty_set;
  foreign_Type v := match v with end;
  foreign_string v := match v with end }.

(** [system:serviceaccount:ns:sa] alone. *)
#[export] Instance one_Pkg : ServiceAccountPkg := {
  SplitUsername u :=
    if bool_decide (u = "system:serviceaccount:ns:sa") then Ok ("ns", "sa")
    else Err (errors_New "Username must be in the form system:serviceaccount:namespace:name");
  MakeUsername ns name := "system:serviceaccount:" +:+ ns +:+ ":" +:+ name;
  MaybeNoSuchOverloadErr _ := types_Err "no such overload";
  Type_String _ := "type" }.
#[export, refine] Instance one_Laws : ServiceAccountLaws := {}.
Proof.
  - intros u ns name. simpl. case_bool_decide; [|done]. by intros [= <- <-].
  - intros u w. simpl. by case_bool_decide.
  - intros v. left. by eexists.
Defined.

Lemma saLibrary_typed_witness :
  let o := {| fo_member := true; fo_id := "serviceaccount_get_name"; fo_args := [SAType];
              fo_result := StringType; fo_binding := getServiceAccountName |} in
  let v := ref_ServiceAccount {| sa_Name := "sa"; sa_Namespace := "ns" |} in
  saLibraryDecls !! "getName" = Some [o] ∧
  ∃ r, fo_binding o v = Ok r ∧ (has_type r (fo_result o) ∨ is_error r).
Proof.
  intros o v. split; [reflexivity|].
  apply (saLibrary_typed "getName" [o] o v); [|reflexivity|by left|by exists SAType].
  intros [].
Defined.

Lemma serviceaccount_roundtrip_witness :
  let u := "system:serviceaccount:ns:sa" in
  let t := {| assignable_from_ServiceAccount := false; assignable_from_string := true;
              reflect_String := "string" |} in
  ∃ sa sa', stringToServiceAccount (types_String u) = Ok (ref_ServiceAccount sa) ∧
    stringToServiceAccount (types_String u) = Ok (ref_ServiceAccount sa') ∧
    ConvertToNative sa t = Ok (native_string u) ∧
    Equal sa (ref_ServiceAccount sa') = types_Bool (bool_decide (u = u)).
Proof. intros u t. by apply (serviceaccount_roundtrip u u). Defined.
End ServiceAccountWitnesses.
