(* ===== verification/Registry.v ===== *)
(** * The registry of approvers: pkg/registry/registry.go

    The state is the slice of approvers.  Its lock is held for the whole of
    every method, so each method is one step. *)
From S2P Require Import Prelude GoStrings K8s PolicyAPI Approver.

Section registry.
Context {S : Type}.

Record Registry := { approvers : list (Interface S) }.

(** The two nested loops: the first name of [toStore] that is taken. *)
Definition alreadyRegistered (existing toStore : list (Interface S)) : option string :=
  head (existing ≫= λ e, toStore ≫= λ t,
    if bool_decide (ap_Name e = ap_Name t) then [ap_Name t] else []).

Definition Store (toStore : list (Interface S)) : M Registry unit := λ r,
  match alreadyRegistered (approvers r) toStore with
  | Some name => (Panic ("approver already registered with same name: " +:+ name), r)
  | None => (Ok tt, {| approvers := approvers r ++ toStore |})
  end.

Definition Approvers (r : Registry) : list (Interface S) := approvers r.
Definition Evaluators (r : Registry) : list (Evaluator S) := ap_Evaluator <$> approvers r.
Definition Webhooks (r : Registry) : list (Webhook S) := ap_Webhook <$> approvers r.
Definition Reconcilers (r : Registry) : list (Reconciler S) := ap_Reconciler <$> approvers r.

(** [Shared = &Registry{}]. *)
Definition Shared : Registry := {| approvers := [] |}.

Definition names (r : Registry) : list string := ap_Name <$> approvers r.
(** "Approvers must be uniquely named." *)
Definition uniquely_named (r : Registry) : Prop := NoDup (names r).

Lemma alreadyRegistered_None existing toStore :
  alreadyRegistered existing toStore = None ↔
    ∀ n, n ∈ ap_Name <$> existing → n ∉ ap_Name <$> toStore.
Proof.
  unfold alreadyRegistered. set (l := existing ≫= _).
  assert (∀ n, n ∈ l ↔ n ∈ ap_Name <$> existing ∧ n ∈ ap_Name <$> toStore) as Hl.
  { intros n. unfold l. rewrite list_elem_of_bind, !list_elem_of_fmap.
    setoid_rewrite list_elem_of_bind. split.
    - intros (e & (t & Hn & Ht) & He). case_bool_decide; [|by apply elem_of_nil in Hn].
      apply list_elem_of_singleton in Hn. split; [exists e|exists t]; split; congruence || done.
    - intros [(e & -> & He) (t & Et & Ht)]. exists e. split; [|done]. exists t. split; [|done].
      rewrite bool_decide_eq_true_2 by done. rewrite Et. by left. }
  split.
  - intros E n Hn Hn'. assert (n ∈ l) as Hin by (by apply Hl).
    destruct l; [by apply elem_of_nil in Hin|done].
  - intros Hall. destruct l as [|n l0] eqn:El; [done|].
    assert (n ∈ n :: l0) as [H1 H2]%Hl by (by left). by destruct (Hall n).
Qed.

Lemma Store_run toStore r o r' :
  Store toStore r = (o, r') →
  (o = Ok tt ∧ approvers r' = approvers r ++ toStore ∧
    ∀ n, n ∈ names r → n ∉ ap_Name <$> toStore) ∨
  (∃ n, o = Panic ("approver already registered with same name: " +:+ n) ∧ r' = r ∧
    n ∈ names r ∧ n ∈ ap_Name <$> toStore).
Proof.
  unfold Store. destruct (alreadyRegistered _ _) as [n|] eqn:E; intros [= <- <-].
  - right. exists n. split_and!; [done|done|..]; unfold alreadyRegistered in E;
      apply head_Some_elem_of in E; apply list_elem_of_bind in E as (e & E & He);
      apply list_elem_of_bind in E as (t & E & Ht);
      (case_bool_decide as Hn; [|by apply elem_of_nil in E]);
      apply list_elem_of_singleton in E as ->; apply list_elem_of_fmap.
    + by exists e.
    + by exists t.
  - left. split_and!; [done|done|]. by apply alreadyRegistered_None.
Qed.

(** [C39] Storing approvers whose own names differ keeps the names of the
    registry unique: it either appends them all, or panics and leaves the
    registry as it was because one of the names was taken. *)
Theorem Store_uniquely_named toStore r o r'
  (Hu : uniquely_named r) (Hnew : NoDup (ap_Name <$> toStore))
  (Hrun : Store toStore r = (o, r')) :
  uniquely_named r' ∧
  ((o = Ok tt ∧ Approvers r' = Approvers r ++ toStore) ∨
   (r' = r ∧ ∃ n, o = Panic ("approver already registered with same name: " +:+ n) ∧
      n ∈ names r ∧ n ∈ ap_Name <$> toStore)).
Proof.
  apply Store_run in Hrun as [(-> & Ha & Hn)|(n & -> & -> & ? & ?)].
  - split; [|by left]. unfold uniquely_named, names. rewrite Ha, fmap_app.
    apply NoDup_app. by split_and!.
  - split; [done|right]. split; [done|]. by exists n.
Qed.

(** The documented promise is not kept within one call: storing twice
    the same approver at once succeeds and the names are no longer unique. *)
Theorem Store_accepts_duplicates (a : Interface S) :
  Store [a; a] Shared = (Ok tt, {| approvers := [a; a] |}) ∧
  ¬ uniquely_named {| approvers := [a; a] |}.
Proof.
  split; [done|]. unfold uniquely_named, names. simpl.
  rewrite NoDup_cons. intros [Hn _]. apply Hn. by left.
Qed.
End registry.
Arguments Registry S : clear implicits.

Module RegistryWitnesses.
Definition named (n : string) : Interface unit :=
  {| ap_Name := n; ap_Prepare := mret tt;
     ap_Evaluator _ _ := mret {| ev_Result := ResultNotDenied; ev_Message := "" |};
     ap_Webhook _ := mret {| wv_Allowed := true; wv_Errors := []; wv_Warnings := [] |};
     ap_Reconciler := {| rec_Ready _ :=
         mret {| rr_Ready := true; rr_Errors := []; rr_Result := Result_zero |};
       rec_EnqueueChan := None |} |}.

Lemma Store_uniquely_named_witness :
  let r := {| approvers := [named "allowed"] |} in
  let r' := {| approvers := [named "allowed"; named "constraints"] |} in
  uniquely_named r ∧ Store [named "constraints"] r = (Ok tt, r') ∧ uniquely_named r'.
Proof.
  intros r r'. assert (uniquely_named r) as Hr by apply NoDup_singleton.
  assert (Store [named "constraints"] r = (Ok tt, r')) as Hrun by reflexivity.
  split; [exact Hr|]. split; [exact Hrun|].
  apply (Store_uniquely_named [named "constraints"] r (Ok tt) r' Hr); [|exact Hrun].
  apply NoDup_singleton.
Defined.
End RegistryWitnesses.
