(* ===== verification/Webhook.v ===== *)
(** * The admission webhook: pkg/internal/webhook

    validator.go decides whether a CertificateRequestPolicy is admitted, and
    webhook.go registers the validator. *)
From S2P Require Import Prelude GoStrings K8s PolicyAPI Approver Registry.

(** [runtime.Object]: a policy, or something else of the given type. *)
Inductive Object :=
  | obj_CertificateRequestPolicy (policy : CertificateRequestPolicy)
  | obj_other (T : string).

Section webhook.
Context {S : Type} `{ErrorLib} `{LabelsLib}.

(** ** validator.go *)
Record validator := {
  registeredPlugins : list string;
  webhooks : list (Webhook S) }.

Definition recognised (registered : list string) (name : string) : bool :=
  existsb (λ known, bool_decide (name = known)) registered.

(** The field errors for the plugins; [names] are the keys of the map in the
    order the range visits them. *)
Definition pluginErrors (registered names : list string) (fldPath : Path) : ErrorList :=
  let unrecognisedNames := filter (λ name, recognised registered name = false) names in
  if (0 <? length unrecognisedNames)%nat then
    (λ name, NotSupported (Child fldPath "plugins" []) (AnyString name) registered)
      <$> sort_Strings unrecognisedNames
  else [].

Definition selectorErrors (policy : CertificateRequestPolicy) (fldPath : Path) : ErrorList :=
  let sel := ps_Selector (p_Spec policy) in
  if bool_decide (sel_IssuerRef sel = None) && bool_decide (sel_Namespace sel = None)
  then [Required (Child fldPath "selector" [])
          "one of issuerRef or namespace must be defined, hint: `{}` on either matches everything"]
  else [].

Definition matchLabelsErrors (policy : CertificateRequestPolicy) (fldPath : Path)
    : outcome ErrorList :=
  match sel_Namespace (ps_Selector (p_Spec policy)) with
  | None => Ok []
  | Some nsSel =>
      match nsel_MatchLabels nsSel with
      | None => Ok []
      | Some labels =>
          if (0 <? size labels)%nat then
            match LabelSelectorAsSelector labels with
            | Ok _ => Ok []
            | Err err =>
                Ok [Invalid (Child fldPath "selector" ["namespace"; "matchLabels"])
                      (AnyMap labels) (error_Error err)]
            | Panic w => Panic w
            end
          else Ok []
      end
  end.

(** The variables of [validate] that its last loop changes. *)
Record acc := { a_fieldErrs : ErrorList; a_warnings : list string; a_allAllowed : bool }.

Definition runWebhook (policy : CertificateRequestPolicy) (a : acc) (webhook : Webhook S)
    : M S acc :=
  response ← webhook policy;
  let a :=
    if negb (wv_Allowed response)
    then {| a_fieldErrs := a_fieldErrs a ++ wv_Errors response;
            a_warnings := a_warnings a; a_allAllowed := false |}
    else a in
  mret {| a_fieldErrs := a_fieldErrs a;
          a_warnings := a_warnings a ++ wv_Warnings response;
          a_allAllowed := a_allAllowed a |}.

(** What follows the loop: the error [validate] returns. *)
Definition verdict (a : acc) : option error :=
  let errs :=
    match ToAggregate (a_fieldErrs a) with
    | Some aggregateError => agg_Errors aggregateError
    | None => []
    end in
  let errs :=
    if negb (a_allAllowed a) && (length errs =? 0)%nat
    then errs ++ [errors_New "a plugin did not allow the CertificateRequest for unknown reasons"]
    else errs in
  NewAggregate (Some <$> errs).

(** Both results are returned: the warnings and the error. *)
Definition validate (v : validator) (names : list string) (obj : Object)
    : M S (list string * option error) :=
  match obj with
  | obj_other T =>
      mret ([], Some (errors_New ("expected a CertificateRequestPolicy, but got a " +:+ T)))
  | obj_CertificateRequestPolicy policy =>
      let fldPath := NewPath "spec" [] in
      let fieldErrs := pluginErrors (registeredPlugins v) names fldPath in
      let fieldErrs := fieldErrs ++ selectorErrors policy fldPath in
      labelErrs ← pure_call (matchLabelsErrors policy fldPath);
      got ← try (for_range (webhooks v)
        {| a_fieldErrs := fieldErrs ++ labelErrs; a_warnings := []; a_allAllowed := true |}
        (runWebhook policy));
      match got with
      | inr err => mret ([], Some err)
      | inl a => mret (a_warnings a, verdict a)
      end
  end.

Definition ValidateCreate (v : validator) (names : list string) (obj : Object) :=
  validate v names obj.
Definition ValidateUpdate (v : validator) (names : list string) (oldObj newObj : Object) :=
  validate v names newObj.
Definition ValidateDelete (v : validator) (obj : Object) : M S (list string * option error) :=
  mret ([], None).
End webhook.
Arguments validator S : clear implicits.

(** ** webhook.go *)

(** The builder and the controller manager. *)
Class WebhookManager (S : Type) := {
  WebhookManagedBy_Complete : validator S → M S unit;
  AddReadyzCheck : string → M S unit }.

Section register.
Context {S : Type} `{WebhookManager S}.

(** The loop over the approvers of the shared registry. *)
Definition pluginNames (r : Registry S) : list string :=
  filter (λ name, bool_decide (name ≠ "allowed") && bool_decide (name ≠ "constraints") = true)
    (ap_Name <$> Approvers r).

Definition Register (shared : Registry S) (webhooks : list (Webhook S)) : M S unit :=
  let v := {| registeredPlugins := pluginNames shared; webhooks := webhooks |} in
  got ← try (WebhookManagedBy_Complete v);
  match got with
  | inr err => fail (errors_New ("error registering webhook: " +:+ error_Error err))
  | inl _ =>
      got ← try (AddReadyzCheck "validator");
      match got with
      | inr err => fail (errors_New ("error adding readyz check: " +:+ error_Error err))
      | inl _ => mret tt
      end
  end.
End register.
