(* ===== verification/WebhookSpec.v ===== *)
(** * What the webhook admits

    The checks of the validator as properties of a policy. *)
From S2P Require Import Prelude GoStrings K8s PolicyAPI Approver Validation Samples Registry Webhook.

Section spec.
Context {S : Type} `{ErrorLibLaws} `{LabelsLib}.
Implicit Types (v : validator S) (policy : CertificateRequestPolicy).

(** ** The checks of the webhook itself *)
Definition plugins_known v policy : Prop :=
  ∀ n, n ∈ (map_to_list (ps_Plugins (p_Spec policy))).*1 → n ∈ registeredPlugins v.
Definition selector_given policy : Prop :=
  sel_IssuerRef (ps_Selector (p_Spec policy)) ≠ None ∨
  sel_Namespace (ps_Selector (p_Spec policy)) ≠ None.
Definition labels_parse policy : Prop :=
  ∀ nsSel ml, sel_Namespace (ps_Selector (p_Spec policy)) = Some nsSel →
    nsel_MatchLabels nsSel = Some ml → ml ≠ ∅ → is_Ok (LabelSelectorAsSelector ml).

Lemma recognised_false registered n : recognised registered n = false ↔ n ∉ registered.
Proof.
  unfold recognised. rewrite <-not_true_iff_false, existsb_exists.
  setoid_rewrite bool_decide_eq_true. setoid_rewrite <-list_elem_of_In. naive_solver.
Qed.
Lemma pluginErrors_nil registered names fldPath :
  pluginErrors registered names fldPath = [] ↔ ∀ n, n ∈ names → n ∈ registered.
Proof.
  unfold pluginErrors. set (l := filter _ names).
  assert (l = [] ↔ ∀ n, n ∈ names → n ∈ registered) as Hl.
  { unfold l. split.
    - intros E n Hn. destruct (decide (n ∈ registered)) as [|Hr]; [done|].
      apply recognised_false in Hr. exfalso. apply (not_elem_of_nil n). rewrite <-E.
      by apply list_elem_of_filter.
    - intros Hall. apply elem_of_nil_inv. intros n [Hr Hn]%list_elem_of_filter.
      apply recognised_false in Hr. by apply Hr, Hall. }
  rewrite <-Hl. destruct l as [|n l]; [done|].
  pose proof (sort_Strings_Permutation (n :: l)) as Hp.
  by destruct (sort_Strings (n :: l)); [apply Permutation_nil in Hp|].
Qed.
Lemma pluginErrors_order registered names names' fldPath :
  names ≡ₚ names' → pluginErrors registered names fldPath = pluginErrors registered names' fldPath.
Proof.
  intros Hp. unfold pluginErrors.
  assert (filter (λ n, recognised registered n = false) names ≡ₚ
    filter (λ n, recognised registered n = false) names') as Hf by (by rewrite Hp).
  by rewrite (sort_Strings_perm_eq _ _ Hf), (Permutation_length Hf).
Qed.
Lemma selectorErrors_nil policy fldPath :
  selectorErrors policy fldPath = [] ↔ selector_given policy.
Proof.
  unfold selectorErrors, selector_given.
  destruct (sel_IssuerRef _), (sel_Namespace _); simpl; naive_solver.
Qed.
Lemma matchLabelsErrors_nil policy fldPath :
  matchLabelsErrors policy fldPath = Ok [] ↔ labels_parse policy.
Proof.
  unfold matchLabelsErrors, labels_parse, is_Ok.
  destruct (sel_Namespace _) as [nsSel|]; [|naive_solver].
  destruct (nsel_MatchLabels nsSel) as [ml|] eqn:Eml; [|naive_solver].
  destruct (decide (ml = ∅)) as [->|Hne].
  - rewrite map_size_empty. naive_solver.
  - assert (0 <? size ml = true)%nat as ->.
    { apply Nat.ltb_lt. apply map_size_non_empty_iff in Hne. lia. }
    destruct (LabelSelectorAsSelector ml) as [sel| |] eqn:E; split; try done.
    + intros _ ? ml' [= <-] Hml _. rewrite Eml in Hml. injection Hml as <-. by exists sel.
    + intros Hall. destruct (Hall nsSel ml eq_refl Eml Hne); congruence.
    + intros Hall. destruct (Hall nsSel ml eq_refl Eml Hne); congruence.
Qed.

(** ** The loop over the webhooks *)
Definition tally (a : acc) (r : WebhookValidationResponse) : acc :=
  {| a_fieldErrs := a_fieldErrs a ++ (if wv_Allowed r then [] else wv_Errors r);
     a_warnings := a_warnings a ++ wv_Warnings r;
     a_allAllowed := a_allAllowed a && wv_Allowed r |}.
Lemma runWebhook_tally policy a (w : Webhook S) s :
  runWebhook policy a w s = (r ← w policy; mret (tally a r)) s.
Proof.
  unfold runWebhook, tally. rewrite !M_bind_step.
  destruct (w policy s) as [[r| |] s']; [|done..]. destruct a as [es ws b]. simpl.
  by destruct (wv_Allowed r); simpl; rewrite ?app_nil_r, ?andb_true_r, ?andb_false_r.
Qed.
Lemma foldl_webhook_tally rs a :
  foldl tally a rs =
    {| a_fieldErrs := a_fieldErrs a ++ (rs ≫= λ r, if wv_Allowed r then [] else wv_Errors r);
       a_warnings := a_warnings a ++ (rs ≫= wv_Warnings);
       a_allAllowed := a_allAllowed a && forallb wv_Allowed rs |}.
Proof.
  revert a. induction rs as [|r rs IH]; intros [es ws b]; simpl.
  - by rewrite !app_nil_r, andb_true_r.
  - rewrite IH. simpl. by rewrite <-!app_assoc, andb_assoc.
Qed.
Lemma verdict_None a :
  verdict a = None ↔ a_fieldErrs a = [] ∧ a_allAllowed a = true.
Proof.
  unfold verdict. rewrite NewAggregate_None.
  assert (∀ l : list error, Forall (λ e, e = None) (Some <$> l) ↔ l = []) as Hsome.
  { intros [|e l]; [by rewrite Forall_nil|]. rewrite fmap_cons, Forall_cons. naive_solver. }
  rewrite Hsome. destruct (a_fieldErrs a) as [|e es].
  - rewrite ToAggregate_nil. destruct (a_allAllowed a); naive_solver.
  - destruct (ToAggregate_cons e es) as (g & -> & Hg).
    destruct (agg_Errors g) as [|x xs]; [done|]. rewrite andb_false_r. naive_solver.
Qed.
Lemma bind_denied_nil rs :
  forallb wv_Allowed rs = true →
  (rs ≫= λ r, if wv_Allowed r then [] else wv_Errors r) = [].
Proof.
  induction rs as [|r rs IH]; [done|]. intros [Hr Hrs]%andb_true_iff.
  rewrite bind_cons, (IH Hrs). cbn beta. by rewrite Hr.
Qed.

(** A call of the validator that admits. *)
Lemma validate_admits v names policy s ws s' :
  names ≡ₚ (map_to_list (ps_Plugins (p_Spec policy))).*1 →
  validate v names (obj_CertificateRequestPolicy policy) s = (Ok (ws, None), s') ↔
    plugins_known v policy ∧ selector_given policy ∧ labels_parse policy ∧
    ∃ rs, answers (λ w : Webhook S, w policy) s (webhooks v) rs s' ∧
      Forall (λ r, wv_Allowed r = true) rs ∧ ws = (rs ≫= wv_Warnings).
Proof.
  intros Hnames. unfold validate.
  assert (plugins_known v policy ↔ ∀ n, n ∈ names → n ∈ registeredPlugins v) as ->
    by (unfold plugins_known; by setoid_rewrite <-Hnames).
  rewrite <-(pluginErrors_nil _ _ (NewPath "spec" [])),
    <-(selectorErrors_nil _ (NewPath "spec" [])), <-(matchLabelsErrors_nil _ (NewPath "spec" [])).
  set (pe := pluginErrors _ _ _). set (se := selectorErrors _ _).
  rewrite M_bind_step. unfold pure_call.
  destruct (matchLabelsErrors policy _) as [le| |]; [|naive_solver..].
  rewrite M_bind_step. unfold try.
  set (a0 := {| a_fieldErrs := _; a_warnings := _; a_allAllowed := _ |}).
  assert (∀ a s', for_range (webhooks v) a0 (runWebhook policy) s = (Ok a, s') ↔
    ∃ rs, answers (λ w : Webhook S, w policy) s (webhooks v) rs s' ∧ a = foldl tally a0 rs)
    as Hloop.
  { intros a s1. rewrite (for_range_ext _ _ _ _ _ (runWebhook_tally policy)).
    apply (for_range_answers (λ w : Webhook S, w policy) tally). }
  assert (∀ rs, verdict (foldl tally a0 rs) = None ↔
    (pe = [] ∧ se = [] ∧ Ok le = Ok []) ∧ Forall (λ r, wv_Allowed r = true) rs) as Hverdict.
  { intros rs. rewrite verdict_None, foldl_webhook_tally. simpl. rewrite <-forallb_Forall.
    split.
    - intros [E Hall]. rewrite bind_denied_nil, app_nil_r in E by done.
      apply app_nil in E as [[-> ->]%app_nil ->]. by split_and!.
    - intros [(-> & -> & [= ->]) Hall]. by rewrite bind_denied_nil. }
  destruct (for_range (webhooks v) a0 (runWebhook policy) s) as [[a| |] s1].
  2-3: split; [done|]; intros (_ & _ & _ & rs & Hrs & _);
    by pose proof (proj2 (Hloop (foldl tally a0 rs) s') (ex_intro _ rs (conj Hrs eq_refl))).
  split.
  - destruct (proj1 (Hloop a s1) eq_refl) as (rs & Hrs & ->).
    intros [= <- Hv <-]. apply Hverdict in Hv as [(? & ? & ?) Hall].
    split_and!; [done..|]. exists rs. split_and!; [done..|]. by rewrite foldl_webhook_tally.
  - intros (Hp & Hs & Hl & rs & Hrs & Hall & ->).
    pose proof (proj2 (Hloop (foldl tally a0 rs) s') (ex_intro _ rs (conj Hrs eq_refl))) as E.
    injection E as -> ->. unfold mret, M_ret.
    rewrite (proj2 (Hverdict rs)) by (by split_and!). by rewrite foldl_webhook_tally.
Qed.

(** ** The claims *)

(** [C23] The webhook admits a policy, on creation and on update, exactly when
    every plugin it configures is registered, it selects by issuer or by
    namespace, its namespace labels parse, and every registered webhook was
    asked and allowed it; the warnings are all of theirs.  A webhook that
    disallows without giving a reason is not overlooked. *)
Theorem webhook_admits_iff v names old policy s ws s'
  (Hnames : names ≡ₚ (map_to_list (ps_Plugins (p_Spec policy))).*1) :
  let admitted := plugins_known v policy ∧ selector_given policy ∧ labels_parse policy ∧
    ∃ rs, answers (λ w : Webhook S, w policy) s (webhooks v) rs s' ∧
      Forall (λ r, wv_Allowed r = true) rs ∧ ws = (rs ≫= wv_Warnings) in
  (ValidateCreate v names (obj_CertificateRequestPolicy policy) s = (Ok (ws, None), s') ↔ admitted) ∧
  (ValidateUpdate v names old (obj_CertificateRequestPolicy policy) s = (Ok (ws, None), s') ↔ admitted).
Proof. split; by apply validate_admits. Qed.

(** The order in which Go visits the map of plugins does not show: for
    any two orders the validator answers the same warnings and error and
    makes the same calls. *)
Theorem validate_order_independent v names names' obj s (Hperm : names ≡ₚ names') :
  validate v names obj s = validate v names' obj s.
Proof.
  unfold validate. destruct obj as [policy|]; [|done]. by rewrite (pluginErrors_order _ _ _ _ Hperm).
Qed.
End spec.

Module WebhookWitnesses.
Import Sample.

Definition warn : Webhook unit := λ _,
  mret {| wv_Allowed := true; wv_Errors := []; wv_Warnings := ["deprecated"] |}.
Definition v : validator unit := {| registeredPlugins := ["rego"]; webhooks := [warn] |}.
Definition p : CertificateRequestPolicy := sample_policy "p" None None.

Lemma webhook_admits_iff_witness :
  [] ≡ₚ (map_to_list (ps_Plugins (p_Spec p))).*1 ∧
  (ValidateCreate v [] (obj_CertificateRequestPolicy p) tt = (Ok (["deprecated"], None), tt) ↔
   plugins_known v p ∧ selector_given p ∧ labels_parse p ∧
   ∃ rs, answers (λ w : Webhook unit, w p) tt (webhooks v) rs tt ∧
     Forall (λ r, wv_Allowed r = true) rs ∧ ["deprecated"] = (rs ≫= wv_Warnings)) ∧
  ValidateCreate v [] (obj_CertificateRequestPolicy p) tt = (Ok (["deprecated"], None), tt).
Proof.
  assert ([] ≡ₚ (map_to_list (ps_Plugins (p_Spec p))).*1) as Hn by reflexivity.
  split; [exact Hn|]. split; [|reflexivity].
  apply (webhook_admits_iff v [] (obj_other "") p tt ["deprecated"] tt Hn).
Defined.

Lemma validate_order_independent_witness :
  ["a"; "b"] ≡ₚ ["b"; "a"] ∧
  validate v ["a"; "b"] (obj_CertificateRequestPolicy p) tt =
    validate v ["b"; "a"] (obj_CertificateRequestPolicy p) tt.
Proof.
  assert (["a"; "b"] ≡ₚ ["b"; "a"]) as Hp by apply Permutation_swap.
  split; [exact Hp|]. by apply validate_order_independent.
Defined.
End WebhookWitnesses.
