(* ===== verification/SSAClient.v ===== *)
(** * Server-side apply of a status: pkg/internal/controllers/ssa_client

    The apply configuration of a status is built field by field and encoded
    as JSON; the encoder is a parameter. *)
From S2P Require Import Prelude GoStrings K8s PolicyAPI Client.

(** [certificateRequestStatusApplyConfiguration] and
    [certificateRequestPolicyStatusStatusApplyConfiguration]: a status of type
    [T] with the embedded type and object metadata. *)
Record StatusApplyConfiguration (T : Type) := {
  ac_Kind : option string;
  ac_APIVersion : option string;
  ac_Name : option string;
  ac_Namespace : option string;
  ac_Status : option T }.
Arguments Build_StatusApplyConfiguration {T} _ _ _ _ _.

Definition emptyConfiguration {T} : StatusApplyConfiguration T :=
  Build_StatusApplyConfiguration None None None None None.

(** The setters [WithName], [WithNamespace], [WithKind], [WithAPIVersion] of
    client-go, and the assignment to [Status]. *)
Section setters.
Context {T : Type}.
Definition WithName (n : string) (b : StatusApplyConfiguration T) := Build_StatusApplyConfiguration (ac_Kind _ b) (ac_APIVersion _ b) (Some n) (ac_Namespace _ b) (ac_Status _ b).
Definition WithNamespace (n : string) (b : StatusApplyConfiguration T) := Build_StatusApplyConfiguration (ac_Kind _ b) (ac_APIVersion _ b) (ac_Name _ b) (Some n) (ac_Status _ b).
Definition WithKind (k : string) (b : StatusApplyConfiguration T) := Build_StatusApplyConfiguration (Some k) (ac_APIVersion _ b) (ac_Name _ b) (ac_Namespace _ b) (ac_Status _ b).
Definition WithAPIVersion (v : string) (b : StatusApplyConfiguration T) := Build_StatusApplyConfiguration (ac_Kind _ b) (Some v) (ac_Name _ b) (ac_Namespace _ b) (ac_Status _ b).
Definition setStatus (st : option T) (b : StatusApplyConfiguration T) := Build_StatusApplyConfiguration (ac_Kind _ b) (ac_APIVersion _ b) (ac_Name _ b) (ac_Namespace _ b) st.
End setters.

(** [encoding/json.Marshal] on the two configurations, and the identifier of
    cert-manager's group version. *)
Class JSONLib := {
  json_Marshal_CertificateRequest :
    StatusApplyConfiguration CertificateRequestStatus → outcome string;
  json_Marshal_CertificateRequestPolicy :
    StatusApplyConfiguration CertificateRequestPolicyStatus → outcome string;
  cmapi_SchemeGroupVersion_Identifier : string }.

(** [applyPatch]: the encoded patch; its [Type] is [types.ApplyPatchType]. *)
Record applyPatch := { patch : string }.
Definition applyPatch_Data (p : applyPatch) : outcome string := Ok (patch p).
Definition applyPatch_Type (p : applyPatch) : string := "application/apply-patch+yaml".

Section generate.
Context `{JSONLib}.

Definition certificateRequestStatusConfiguration (name namespace : string)
    (status : option CertificateRequestStatus) : StatusApplyConfiguration CertificateRequestStatus :=
  let b := emptyConfiguration in
  let b := WithName name b in
  let b := WithNamespace namespace b in
  let b := WithKind CertificateRequestKind b in
  let b := WithAPIVersion cmapi_SchemeGroupVersion_Identifier b in
  setStatus status b.

(** Answers the key of the object to patch, and the patch. *)
Definition GenerateCertificateRequestStatusPatch (name namespace : string)
    (status : option CertificateRequestStatus) : outcome (NamespacedName * applyPatch) :=
  let cr := {| nn_Namespace := namespace; nn_Name := name |} in
  encodedPatch ← json_Marshal_CertificateRequest
    (certificateRequestStatusConfiguration name namespace status);
  mret (cr, {| patch := encodedPatch |}).

(** [SchemeGroupVersion.Identifier()]: group and version joined by a slash. *)
Definition policyapi_SchemeGroupVersion_Identifier : string :=
  SchemeGroupVersion.1 +:+ "/" +:+ SchemeGroupVersion.2.

Definition certificateRequestPolicyStatusConfiguration (name : string)
    (status : option CertificateRequestPolicyStatus)
    : StatusApplyConfiguration CertificateRequestPolicyStatus :=
  let b := emptyConfiguration in
  let b := WithName name b in
  let b := WithKind CertificateRequestPolicyKind b in
  let b := WithAPIVersion policyapi_SchemeGroupVersion_Identifier b in
  setStatus status b.

Definition GenerateCertificateRequestPolicyStatusPatch (name : string)
    (status : option CertificateRequestPolicyStatus) : outcome (NamespacedName * applyPatch) :=
  let crp := {| nn_Namespace := ""; nn_Name := name |} in
  encodedPatch ← json_Marshal_CertificateRequestPolicy
    (certificateRequestPolicyStatusConfiguration name status);
  mret (crp, {| patch := encodedPatch |}).

(** The call [client.Status().Patch] of both controllers. *)
Definition statusPatch (target : NamespacedName) (p : applyPatch) : StatusPatch :=
  {| sp_Target := target; sp_Type := applyPatch_Type p; sp_Data := patch p;
     sp_FieldManager := "approver-policy"; sp_Force := true |}.
End generate.
