(* ===== verification/ApiServer.v ===== *)
(** * The objects the API server stores

    The controllers write conditions by server-side apply and read them back
    later.  [objects_of] is what is stored.  [ApiServerLaws] is what the API
    server does: a patch of the status that is applied merges the conditions by
    their type, and the other calls of the program store nothing.

    Two assumptions on timing go with these laws, which informers and the API
    server do not promise; the theorems that need them say so.  That the other
    calls leave [objects_of] alone means that nobody else writes in the middle of
    a reconciliation: others act between reconciliations.  And [CaughtUp] is the
    assumption that the informer cache, which the controllers read from and which
    follows the API server with a delay, has caught up.  [StaleReads] does
    without the second, and [StateMachine] without either. *)
From S2P Require Import Prelude GoStrings K8s PolicyAPI Approver Client SSAClient.

#[export] Instance NamespacedName_countable : Countable NamespacedName.
Proof.
  apply (inj_countable' (λ nn, (nn_Namespace nn, nn_Name nn))
    (λ p, {| nn_Namespace := p.1; nn_Name := p.2 |})). by intros [].
Defined.

Record objects := {
  o_requests : gmap NamespacedName CertificateRequest;
  o_policies : gmap string CertificateRequestPolicy }.

Class ApiStore (S : Type) := { objects_of : S → objects }.

(** Conditions are a list keyed by type ([listType=map]): those that are
    applied replace the ones of their types. *)
Definition conditions_applied {C} (type_of : C → string) (cs old new : list C) : Prop :=
  NoDup (type_of <$> new) ∧ cs ⊆ new ∧
  ∀ c, c ∈ new → c ∈ cs ∨ (c ∈ old ∧ type_of c ∉ type_of <$> cs).

Definition request_with (cr : CertificateRequest) (conds : list CertificateRequestCondition)
    : CertificateRequest :=
  {| cr_ObjectMeta := cr_ObjectMeta cr; cr_Spec := cr_Spec cr;
     cr_Status := {| crst_Conditions := conds |} |}.
Definition policy_with (p : CertificateRequestPolicy) (conds : list CertificateRequestPolicyCondition)
    : CertificateRequestPolicy :=
  {| p_ObjectMeta := p_ObjectMeta p; p_Spec := p_Spec p;
     p_Status := {| pst_Conditions := conds |} |}.

Definition request_applied (nn : NamespacedName) (cs : list CertificateRequestCondition)
    (o o' : objects) : Prop :=
  ∃ cr conds, o_requests o !! nn = Some cr ∧
    conditions_applied crc_Type cs (crst_Conditions (cr_Status cr)) conds ∧
    o' = {| o_requests := <[nn:=request_with cr conds]> (o_requests o);
            o_policies := o_policies o |}.
Definition policy_applied (name : string) (cs : list CertificateRequestPolicyCondition)
    (o o' : objects) : Prop :=
  ∃ p conds, o_policies o !! name = Some p ∧
    conditions_applied pc_Type cs (pst_Conditions (p_Status p)) conds ∧
    o' = {| o_requests := o_requests o;
            o_policies := <[name:=policy_with p conds]> (o_policies o) |}.

Class ApiServerLaws (S : Type)
    `{ApiStore S, Reader S, Client S, Recorder S, Clock S, JSONLib} := {
  objects_bystanders : bystanders objects_of;
  (** A patch that is not accepted may or may not have been applied: the
      answer can be lost. *)
  Patch_CertificateRequest_applied nn cs data s o s' :
    json_Marshal_CertificateRequest (certificateRequestStatusConfiguration (nn_Name nn)
      (nn_Namespace nn) (Some {| crst_Conditions := cs |})) = Ok data →
    Status_Patch_CertificateRequest (statusPatch nn {| patch := data |}) s = (o, s') →
    (o ≠ Ok tt ∧ objects_of s' = objects_of s) ∨
    request_applied nn cs (objects_of s) (objects_of s');
  Patch_CertificateRequestPolicy_applied name cs data s o s' :
    json_Marshal_CertificateRequestPolicy (certificateRequestPolicyStatusConfiguration name
      (Some {| pst_Conditions := cs |})) = Ok data →
    Status_Patch_CertificateRequestPolicy
      (statusPatch {| nn_Namespace := ""; nn_Name := name |} {| patch := data |}) s = (o, s') →
    (o ≠ Ok tt ∧ objects_of s' = objects_of s) ∨
    policy_applied name cs (objects_of s) (objects_of s') }.

(** Reads answer what is stored. *)
Class CaughtUp (S : Type) `{ApiStore S, Reader S} := {
  Get_CertificateRequest_stored nn s cr s' :
    Get_CertificateRequest nn s = (Ok cr, s') → o_requests (objects_of s) !! nn = Some cr;
  Get_CertificateRequestPolicy_stored nn s p s' :
    Get_CertificateRequestPolicy nn s = (Ok p, s') →
    o_policies (objects_of s) !! nn_Name nn = Some p ∧ p_Name p = nn_Name nn;
  List_CertificateRequestPolicies_stored s l s' :
    List_CertificateRequestPolicies s = (Ok l, s') →
    ∀ p, p ∈ Items l ↔ o_policies (objects_of s) !! p_Name p = Some p }.

(** The condition of a type that was applied is the only one of that type. *)
Lemma applied_unique {C} (type_of : C → string) cs old new c d :
  conditions_applied type_of cs old new → c ∈ cs → d ∈ new → type_of d = type_of c → d = c.
Proof.
  intros (Hnd & Hsub & Hin) Hc Hd Ht. destruct (Hin d Hd) as [Hdc|[_ Hno]].
  - pose proof (Hsub _ Hc). pose proof (Hsub _ Hdc). by eapply (NoDup_fmap_inj type_of new).
  - exfalso. apply Hno. rewrite Ht. by apply list_elem_of_fmap_2.
Qed.
