(* ===== verification/SampleServer.v ===== *)
(** * A small API server

    An instance of the API server and of its laws: it stores what is applied,
    and JSON is an encoding that can be read back.  The witnesses of
    [Lifecycle] run against it. *)
From S2P Require Import Prelude GoStrings K8s PolicyAPI Approver Samples Client SSAClient ApiServer.

Module SampleServer.
Export Sample.

#[export] Instance condition_countable : Countable CertificateRequestCondition.
Proof.
  apply (inj_countable'
    (λ c, (crc_Type c, crc_Status c, crc_LastTransitionTime c, crc_Reason c, crc_Message c))
    (λ '(t, s, l, r, m), {| crc_Type := t; crc_Status := s; crc_LastTransitionTime := l;
                            crc_Reason := r; crc_Message := m |})). by intros [].
Defined.
#[export] Instance policy_condition_countable : Countable CertificateRequestPolicyCondition.
Proof.
  apply (inj_countable'
    (λ c, (pc_Type c, pc_Status c, pc_LastTransitionTime c, pc_Reason c, pc_Message c,
           pc_ObservedGeneration c))
    (λ '(t, s, l, r, m, g), {| pc_Type := t; pc_Status := s; pc_LastTransitionTime := l;
      pc_Reason := r; pc_Message := m; pc_ObservedGeneration := g |})). by intros [].
Defined.

(** Text for any countable data. *)
Fixpoint bits (p : positive) : string :=
  match p with
  | xH => ""
  | xO p => String "0" (bits p)
  | xI p => String "1" (bits p)
  end.
Fixpoint unbits (s : string) : positive :=
  match s with
  | "" => xH
  | String "0" s => xO (unbits s)
  | String _ s => xI (unbits s)
  end.
Lemma unbits_bits p : unbits (bits p) = p.
Proof. induction p; simpl; congruence. Qed.

#[export] Instance server_JSONLib : JSONLib := {
  json_Marshal_CertificateRequest b :=
    Ok (bits (encode (default [] (crst_Conditions <$> ac_Status _ b))));
  json_Marshal_CertificateRequestPolicy b :=
    Ok (bits (encode (default [] (pst_Conditions <$> ac_Status _ b))));
  cmapi_SchemeGroupVersion_Identifier := "cert-manager.io/v1" }.

(** What is applied and already there stays where it is. *)
Definition merged {C} `{EqDecision C} (type_of : C → string) (cs old : list C) : list C :=
  if decide (Forall (λ c, c ∈ old) cs) then old
  else cs ++ filter (λ c, type_of c ∉ type_of <$> cs) old.
Lemma merged_applied {C} `{EqDecision C} (type_of : C → string) cs old :
  NoDup (type_of <$> merged type_of cs old) → conditions_applied type_of cs old (merged type_of cs old).
Proof.
  intros Hnd. split; [done|]. unfold merged in *. case_decide as Hin.
  - rewrite Forall_forall in Hin. split; [exact Hin|]. intros c Hc.
    destruct (decide (type_of c ∈ type_of <$> cs)) as [(d & Ed & Hd)%list_elem_of_fmap|]; [left|by right].
    assert (c = d) as -> by (eapply NoDup_fmap_inj; [exact Hnd|done|by apply Hin|done]). done.
  - split; [by intros c Hc; apply elem_of_app; left|].
    intros c [?|[??]%list_elem_of_filter]%elem_of_app; auto.
Qed.

Definition NotFound : error := foreign_error "NotFound" "not found".
Definition invalid : error := foreign_error "Invalid" "duplicate condition".

(** The state is what is stored. *)
#[export] Instance server_ApiStore : ApiStore objects := { objects_of := id }.
#[export] Instance server_Reader : Reader objects := {
  List_CertificateRequestPolicies s :=
    (Ok {| Items := (map_to_list (map_imap (λ n p, if decide (p_Name p = n) then Some p else None)
       (o_policies s))).*2 |}, s);
  List_CertificateRequests s :=
    (if decide (map_Forall (λ nn cr, nn = {| nn_Namespace := cr_Namespace cr; nn_Name := cr_Name cr |})
          (o_requests s))
     then Ok (map_to_list (o_requests s)).*2 else Err invalid, s);
  Get_Namespace_Labels _ s := (Ok ∅, s);
  Get_CertificateRequest nn s :=
    (match o_requests s !! nn with Some cr => Ok cr | None => Err NotFound end, s);
  Get_CertificateRequestPolicy nn s :=
    (match o_policies s !! nn_Name nn with
     | Some p => if decide (p_Name p = nn_Name nn) then Ok p else Err invalid
     | None => Err NotFound
     end, s) }.

Definition apply_request (pt : StatusPatch) : M objects unit := λ s,
  match o_requests s !! sp_Target pt, decode (unbits (sp_Data pt)) with
  | Some cr, Some cs =>
      let conds := merged crc_Type cs (crst_Conditions (cr_Status cr)) in
      if decide (NoDup (crc_Type <$> conds))
      then (Ok tt, {| o_requests := <[sp_Target pt:=request_with cr conds]> (o_requests s);
                      o_policies := o_policies s |})
      else (Err invalid, s)
  | _, _ => (Err NotFound, s)
  end.
Definition apply_policy (pt : StatusPatch) : M objects unit := λ s,
  match o_policies s !! nn_Name (sp_Target pt), decode (unbits (sp_Data pt)) with
  | Some p, Some cs =>
      let conds := merged pc_Type cs (pst_Conditions (p_Status p)) in
      if decide (NoDup (pc_Type <$> conds))
      then (Ok tt, {| o_requests := o_requests s;
                      o_policies := <[nn_Name (sp_Target pt):=policy_with p conds]> (o_policies s) |})
      else (Err invalid, s)
  | _, _ => (Err NotFound, s)
  end.

#[export] Instance server_Client : Client objects := {
  Create_SubjectAccessReview _ s := (Ok true, s);
  Status_Patch_CertificateRequest := apply_request;
  Status_Patch_CertificateRequestPolicy := apply_policy }.
#[export] Instance server_Recorder : Recorder objects := {
  Event_CertificateRequest _ _ _ _ := mret tt;
  Event_CertificateRequestPolicy _ _ _ _ := mret tt }.
#[export] Instance server_Clock : Clock objects := { Now := mret 42 }.

#[export] Instance server_ApiServerLaws : ApiServerLaws objects.
Proof.
  split.
  - split; intros; intros s o s'; simpl; unfold mret, M_ret; by intros [= _ <-].
  - intros nn cs data s o s' [= <-]. simpl. unfold apply_request, statusPatch. simpl.
    rewrite unbits_bits, decode_encode. destruct (o_requests s !! nn) as [cr|] eqn:E;
      [|intros [= <- <-]; by left].
    case_decide as Hnd; intros [= <- <-]; [|by left]. right.
    exists cr. eexists. split_and!; [done|by apply merged_applied|done].
  - intros name cs data s o s' [= <-]. simpl. unfold apply_policy, statusPatch. simpl.
    rewrite unbits_bits, decode_encode. destruct (o_policies s !! name) as [p|] eqn:E;
      [|intros [= <- <-]; by left].
    case_decide as Hnd; intros [= <- <-]; [|by left]. right.
    exists p. eexists. split_and!; [done|by apply merged_applied|done].
Defined.
#[export] Instance server_CaughtUp : CaughtUp objects.
Proof.
  split.
  - intros nn s cr s'. simpl. case_match; by intros [= <- <-].
  - intros nn s p s'. simpl. do 2 (case_match; [|done]). intros [= <- <-]. done.
  - intros s l s' [= <- <-] p. simpl. unfold objects_of. simpl.
    rewrite list_elem_of_fmap. split.
    + intros ([n q] & -> & Hq%elem_of_map_to_list). simpl. rewrite map_lookup_imap in Hq.
      destruct (o_policies s !! n) as [p|] eqn:E; simpl in Hq; [|done].
      case_decide; [|done]. injection Hq as ->. subst n. done.
    + intros Hp. exists (p_Name p, p). split; [done|]. apply elem_of_map_to_list.
      rewrite map_lookup_imap. unfold id in Hp. rewrite Hp. simpl. by rewrite decide_True.
Defined.
End SampleServer.
