(* ===== verification/SampleCluster.v ===== *)
(** * A small concrete cluster

    Instances of the API server, the recorder, the clock and the JSON encoder
    that the witnesses of the controllers run against: a state with one
    request, one policy and the log of what was sent. *)
From S2P Require Import Prelude GoStrings K8s PolicyAPI Approver Validation Samples Client SSAClient.

Module SampleCluster.
Export Sample.

Record cluster := {
  cl_request : CertificateRequest;
  cl_policy : CertificateRequestPolicy;
  cl_patches : list StatusPatch;
  cl_events : list string }.

Definition add_patch (p : StatusPatch) : M cluster unit := λ s,
  (Ok tt, {| cl_request := cl_request s; cl_policy := cl_policy s;
             cl_patches := cl_patches s ++ [p]; cl_events := cl_events s |}).
Definition add_event (reason : string) : M cluster unit := λ s,
  (Ok tt, {| cl_request := cl_request s; cl_policy := cl_policy s;
             cl_patches := cl_patches s; cl_events := cl_events s ++ [reason] |}).

#[export] Instance cluster_Reader : Reader cluster := {
  List_CertificateRequestPolicies s := (Ok {| Items := [cl_policy s] |}, s);
  List_CertificateRequests s := (Ok [cl_request s], s);
  Get_Namespace_Labels _ s := (Ok ∅, s);
  Get_CertificateRequest _ s := (Ok (cl_request s), s);
  Get_CertificateRequestPolicy _ s := (Ok (cl_policy s), s) }.
#[export] Instance cluster_Client : Client cluster := {
  Create_SubjectAccessReview _ s := (Ok true, s);
  Status_Patch_CertificateRequest := add_patch;
  Status_Patch_CertificateRequestPolicy := add_patch }.
#[export] Instance cluster_Recorder : Recorder cluster := {
  Event_CertificateRequest _ _ reason _ := add_event reason;
  Event_CertificateRequestPolicy _ _ reason _ := add_event reason }.
#[export] Instance cluster_Clock : Clock cluster := { Now s := (Ok 42, s) }.
#[export] Instance cluster_PatchLog : PatchLog cluster := { patches := cl_patches }.
#[export, refine] Instance cluster_PatchLogLaws : PatchLogLaws cluster := {}.
Proof. all: repeat intro; simpl in *; unfold add_event, add_patch in *; by simplify_eq. Defined.

#[export] Instance cluster_JSONLib : JSONLib := {
  json_Marshal_CertificateRequest b := Ok (default "" (ac_Name _ b));
  json_Marshal_CertificateRequestPolicy b := Ok (default "" (ac_Name _ b));
  cmapi_SchemeGroupVersion_Identifier := "cert-manager.io/v1" }.

Definition existsb_condition (type : string) (cr : CertificateRequest) : bool :=
  existsb (λ c, bool_decide (crc_Type c = type) && bool_decide (crc_Status c = ConditionTrue))
    (crst_Conditions (cr_Status cr)).
#[export] Instance cluster_ApiUtil : ApiUtil := {
  CertificateRequestIsApproved := existsb_condition CertificateRequestConditionApproved;
  CertificateRequestIsDenied := existsb_condition CertificateRequestConditionDenied }.
Lemma existsb_condition_iff type cr :
  existsb_condition type cr = true ↔ has_true_condition type cr.
Proof.
  unfold existsb_condition, has_true_condition. rewrite existsb_exists.
  setoid_rewrite andb_true_iff. setoid_rewrite bool_decide_eq_true.
  by setoid_rewrite list_elem_of_In.
Qed.
#[export, refine] Instance cluster_ApiUtilLaws : ApiUtilLaws := {}.
Proof. all: intros; apply existsb_condition_iff. Defined.

Definition empty_policy : CertificateRequestPolicy := sample_policy "p" None None.
Definition new_request : CertificateRequest := sample_request [1] (Some 7200000000000).
Definition approved : CertificateRequestCondition :=
  {| crc_Type := CertificateRequestConditionApproved; crc_Status := ConditionTrue;
     crc_LastTransitionTime := Some 42; crc_Reason := "policy.cert-manager.io";
     crc_Message := "ok" |}.
Definition approved_request : CertificateRequest :=
  {| cr_ObjectMeta := cr_ObjectMeta new_request; cr_Spec := cr_Spec new_request;
     cr_Status := {| crst_Conditions := [approved] |} |}.
Definition cluster_of (cr : CertificateRequest) : cluster :=
  {| cl_request := cr; cl_policy := empty_policy; cl_patches := []; cl_events := [] |}.

(** A manager that approves, and one that fails. *)
Definition approving : manager.Interface cluster := λ _,
  mret {| manager.rv_Result := manager.ResultApproved; manager.rv_Message := "ok" |}.
Definition failing : manager.Interface cluster := λ _, fail (errors_New "no").
End SampleCluster.
