(* ===== verification/ManagerCost.v ===== *)
(** * What a review costs

    A bound on the requests to the API server and the evaluations of one
    review, by an amortised analysis: every policy that is left carries the
    credit for what is still to be asked about it. *)
From S2P Require Import Prelude GoStrings Wildcard K8s PolicyAPI Approver Samples Client Predicate PredicateSpec Manager SampleCluster.

(** ** Amortised cost

    [spends c n m credit]: by the measure [c], the call [m] costs at most [n],
    and what it answers still carries [credit] of that. *)
Definition spends {S A} (c : S → nat) (n : nat) (m : M S A) (credit : A → nat) : Prop :=
  ∀ s o s', m s = (o, s') →
    (c s' + match o with Ok a => credit a | _ => 0 end ≤ c s + n)%nat.

Section spends.
Context {S : Type} (c : S → nat).

Lemma spends_ret {A} n (a : A) (credit : A → nat) : (credit a ≤ n)%nat → spends c n (mret a) credit.
Proof. intros Ha s o s' [= <- <-]. lia. Qed.
Lemma spends_pure_call {A} n (o : outcome A) (credit : A → nat) :
  (∀ a, o = Ok a → (credit a ≤ n)%nat) → spends c n (pure_call o) credit.
Proof. intros Ho s o' s' [= <- <-]. destruct o; [|lia..]. specialize (Ho _ eq_refl). lia. Qed.
Lemma spends_bind {A B} n (m : M S A) (f : A → M S B) mid credit :
  spends c n m mid → (∀ a, spends c (mid a) (f a) credit) → spends c n (m ≫= f) credit.
Proof.
  intros Hm Hf s o s'. rewrite M_bind_step. destruct (m s) as [o1 s1] eqn:E.
  specialize (Hm _ _ _ E). destruct o1 as [a|e|w]; [|by intros [= <- <-]..].
  intros Ho. specialize (Hf a _ _ _ Ho). lia.
Qed.
Lemma spends_wrap_err {A} n msg (m : M S A) credit : spends c n m credit → spends c n (wrap_err msg m) credit.
Proof.
  intros Hm s o s'. unfold wrap_err. destruct (m s) as [o1 s1] eqn:E. specialize (Hm _ _ _ E).
  by destruct o1; intros [= <- <-].
Qed.
(** Money that is left stays with the answer. *)
Lemma spends_keep {A} n k (m : M S A) credit :
  spends c n m credit → spends c (n + k) m (λ a, credit a + k)%nat.
Proof. intros Hm s o s' E. specialize (Hm _ _ _ E). destruct o; lia. Qed.
Lemma spends_weaken {A} n n' (m : M S A) credit credit' :
  spends c n m credit → (n ≤ n')%nat → (∀ a, (credit' a ≤ credit a)%nat) → spends c n' m credit'.
Proof.
  intros Hm Hn Hc s o s' E. specialize (Hm _ _ _ E). destruct o as [a| |]; [|lia..].
  specialize (Hc a). lia.
Qed.
(** A loop in which every element pays for its round. *)
Lemma spends_for_range {A B} (w : nat) (credit : B → nat) (f : B → A → M S B) l acc :
  (∀ acc x, spends c (credit acc + w) (f acc x) credit) →
  spends c (credit acc + length l * w) (for_range l acc f) credit.
Proof.
  intros Hf. revert acc. induction l as [|x l IH]; intros acc; simpl.
  - apply spends_ret. lia.
  - eapply spends_bind; [|intros acc'; apply IH].
    rewrite Nat.add_assoc. apply spends_keep, Hf.
Qed.
End spends.

(** ** The review *)
Section review.
Context {S : Type} `{Reader S} `{Client S} `{LabelsLib} `{UnicodeTables}.

(** What each kind of call costs: a listing, reading a namespace, a
    SubjectAccessReview and one call of an evaluator. *)
Context (c : S → nat) (cl cn cs ce : nat) (evaluators : list (Evaluator S)).
Context (List_cost : spends c cl List_CertificateRequestPolicies (λ _, 0%nat)).
Context (Get_cost : ∀ ns, spends c cn (Get_Namespace_Labels ns) (λ _, 0%nat)).
Context (Create_cost : ∀ sar, spends c cs (Create_SubjectAccessReview sar) (λ _, 0%nat)).
Context (Evaluate_cost : ∀ e p cr, e ∈ evaluators → spends c ce (e p cr) (λ _, 0%nat)).

(** The credit of a policy before and after the RBAC check. *)
Let evaluation : nat := length evaluators * ce.
Let per_policy : nat := cs + evaluation.

Lemma runEvaluators_cost p cr es acc :
  (∀ e, e ∈ es → e ∈ evaluators) →
  spends c (length es * ce) (for_range es acc (runEvaluator p cr)) (λ _, 0%nat).
Proof.
  revert acc. induction es as [|e es IH]; intros acc Hes; simpl; [by apply spends_ret|].
  eapply spends_bind; [|intros acc'; apply IH; intros; apply Hes; by right].
  destruct acc as [denied msgs]. eapply spends_bind; [|intros r; by apply (spends_ret _ (length es * ce))].
  apply (spends_keep c ce (length es * ce) _ (λ _, 0%nat)), Evaluate_cost, Hes. by left.
Qed.
Lemma reviewPolicies_cost cr ps msgs :
  spends c (length ps * evaluation) (reviewPolicies evaluators cr ps msgs) (λ _, 0%nat).
Proof.
  revert msgs. induction ps as [|p ps IH]; intros msgs; simpl; [by apply spends_ret|].
  eapply spends_bind.
  - by apply (spends_keep c evaluation (length ps * evaluation) _ (λ _, 0%nat)), runEvaluators_cost.
  - intros [[] ms]; simpl; [apply IH|]. apply spends_ret. lia.
Qed.

Lemma SelectorNamespace_cost cr ps :
  spends c (cn + length ps * per_policy) (SelectorNamespace cr ps) (λ ps', length ps' * per_policy)%nat.
Proof.
  set (credit := λ acc : list CertificateRequestPolicy * option (gmap string string),
    (match acc.2 with Some _ => 0 | None => cn end + length acc.1 * per_policy)%nat).
  eapply spends_bind; [|intros acc; apply (spends_ret _ (credit acc)); unfold credit; lia].
  eapply spends_weaken; [apply (spends_for_range c per_policy credit)|unfold credit; simpl; lia|done].
  intros [kept labels] p. unfold selectNamespace.
  assert (∀ l, (credit (kept, l) ≤ credit (kept, l) + per_policy)%nat ∧
    (credit ((kept ++ [p])%list, l) ≤ credit (kept, l) + per_policy)%nat) as Hc.
  { intros l. unfold credit. simpl. rewrite length_app. simpl. lia. }
  destruct (sel_Namespace _) as [nsSel|]; [|apply spends_ret, Hc].
  destruct (namespaceNameMatched _ _); simpl; [|apply spends_ret, Hc].
  destruct (nsel_MatchLabels nsSel) as [matchLabels|]; [|apply spends_ret, Hc].
  eapply (spends_bind _ _ _ _ (λ l, credit (kept, Some l) + per_policy)%nat).
  { unfold fetchLabels. destruct labels as [l|]; [by apply spends_ret|].
    unfold credit. simpl. rewrite <-Nat.add_assoc.
    apply (spends_keep c cn _ _ (λ _, 0%nat)), spends_wrap_err, Get_cost. }
  intros l. eapply (spends_bind _ _ _ _ (λ _, credit (kept, Some l) + per_policy)%nat);
    [by apply spends_pure_call|].
  intros sel. destruct (selector_Matches sel l); simpl; apply spends_ret, Hc.
Qed.
Lemma RBACBound_cost cr ps :
  spends c (length ps * per_policy) (RBACBound cr ps) (λ ps', length ps' * evaluation)%nat.
Proof.
  apply (spends_for_range c per_policy (λ ps', length ps' * evaluation)%nat _ ps []).
  intros kept p. eapply (spends_bind _ _ _ _ (λ _, length kept * evaluation + evaluation)%nat).
  - eapply spends_weaken; [apply (spends_keep c cs (length kept * evaluation + evaluation) _ (λ _, 0%nat)),
      spends_wrap_err, Create_cost|unfold per_policy; lia|done].
  - intros []; apply spends_ret; rewrite ?length_app; simpl; lia.
Qed.

(** The policies a review can ask the API server about: ready, and selecting the
    issuer of the request. *)
Definition candidates cr (ps : list CertificateRequestPolicy) : list CertificateRequestPolicy :=
  filter (issuer_selected cr) (filter is_ready ps).

Lemma Review_spends cr l :
  Forall conditions_keyed (Items l) →
  spends c (cn + length (candidates cr (Items l)) * per_policy)
    (policies ← applyPredicates (predicates (New evaluators)) cr (Items l);
     if (length policies =? 0)%nat then mret
       {| manager.rv_Result := manager.ResultUnprocessed;
          manager.rv_Message := "No CertificateRequestPolicies bound or applicable" |}
     else reviewPolicies evaluators cr policies []) (λ _, 0%nat).
Proof.
  intros Hkeyed. eapply (spends_bind _ _ _ _ (λ ps, length ps * evaluation)%nat).
  - unfold applyPredicates, New. simpl predicates. intros s o s'.
    rewrite for_range_cons.
    rewrite (M_bind_run _ _ (filter is_ready (Items l)) s s)
      by (unfold wrap_err; by rewrite (Ready_filter cr _ _ Hkeyed)).
    rewrite for_range_cons.
    rewrite (M_bind_run _ _ (candidates cr (Items l)) s s)
      by (unfold wrap_err; by rewrite SelectorIssuerRef_filter).
    revert s o s'. eapply spends_bind; [apply spends_wrap_err, SelectorNamespace_cost|].
    intros ps. eapply spends_bind; [apply spends_wrap_err, RBACBound_cost|].
    intros ps'. by apply spends_ret.
  - intros ps. case_match; [apply spends_ret; lia|]. apply reviewPolicies_cost.
Qed.

(** [C26] However large the cluster, a review costs one listing and, at most, one
    read of the namespace and, for each policy that is ready and selects the
    issuer, one SubjectAccessReview and one call of each evaluator; other
    policies cost nothing.  This holds of every run, failing ones included. *)
Theorem Review_cost cr s o s' :
  (∀ l s1, List_CertificateRequestPolicies s = (Ok l, s1) → Forall conditions_keyed (Items l)) →
  Review (New evaluators) cr s = (o, s') →
  (c s' ≤ c s + cl +
    match (List_CertificateRequestPolicies s).1 with
    | Ok l => cn + length (candidates cr (Items l)) * (cs + length evaluators * ce)
    | _ => 0
    end)%nat.
Proof.
  intros Hkeyed. unfold Review. rewrite M_bind_step.
  destruct (List_CertificateRequestPolicies s) as [ol s1] eqn:El.
  pose proof (List_cost _ _ _ El) as Hl. destruct ol as [l|e|w]; simpl in *;
    [|intros [= <- <-]; lia..].
  case_match; [intros [= <- <-]; lia|]. intros Hrun.
  pose proof (Review_spends cr l (Hkeyed l s1 eq_refl) _ _ _ Hrun) as Hs.
  unfold per_policy, evaluation in Hs. lia.
Qed.
End review.

Module ReviewCostWitnesses.
Import SampleCluster.

(** A cluster of two policies, one of them ready, that counts the
    SubjectAccessReviews. *)
Definition ready_policy : CertificateRequestPolicy := sample_policy "p" None None.
Definition other_policy : CertificateRequestPolicy :=
  {| p_ObjectMeta := p_ObjectMeta ready_policy; p_Spec := p_Spec ready_policy;
     p_Status := {| pst_Conditions := [] |} |}.
#[local] Instance counting_Reader : Reader nat := {
  List_CertificateRequestPolicies := mret {| Items := [ready_policy; other_policy] |};
  List_CertificateRequests := mret [];
  Get_Namespace_Labels _ := mret ∅;
  Get_CertificateRequest _ := fail (errors_New "none");
  Get_CertificateRequestPolicy _ := fail (errors_New "none") }.
#[local] Instance counting_Client : Client nat := {
  Create_SubjectAccessReview _ n := (Ok false, S n);
  Status_Patch_CertificateRequest _ := mret tt;
  Status_Patch_CertificateRequestPolicy _ := mret tt }.

Example Review_cost_witness :
  ((Review (New []) new_request 0%nat).2 ≤ 1)%nat.
Proof.
  eapply Nat.le_trans; [apply (Review_cost id 0 0 1 0 []) with (cr := new_request) (s := 0%nat)
    (o := (Review (New []) new_request 0%nat).1)|].
  - by apply spends_ret.
  - intros ns. by apply spends_ret.
  - intros sar n o n' [= <- <-]. simpl. lia.
  - by intros e p cr He%elem_of_nil.
  - intros l s1 [= <- <-]. repeat (apply Forall_cons; split); [|by apply NoDup_nil_2|done].
    apply NoDup_singleton.
  - done.
  - by vm_compute.
Defined.
End ReviewCostWitnesses.
