(* ===== verification/Watches.v ===== *)
(** * What a controller watches

    A controller is built from watches: each names what it watches and how an
    event becomes reconcile requests.  The watches of the two controllers are
    definitions of their files; how controller-runtime calls their predicates and
    map functions when an event comes is a parameter, with its documented
    behaviour as laws. *)
From S2P Require Import Prelude GoStrings K8s PolicyAPI Client.

(** ** Objects and events *)

(** The types of the objects that are watched. *)
Inductive Kind :=
  | CertificateRequestKind | CertificateRequestPolicyKind
  | RoleKind | RoleBindingKind | ClusterRoleKind | ClusterRoleBindingKind | NamespaceKind
  | OtherKind (name : string).
#[export] Instance Kind_dec : EqDecision Kind.
Proof. solve_decision. Defined.

(** A [client.Object].  Of what is watched for its metadata only, that is all
    there is: a [PartialObjectMetadata] of the kind. *)
Inductive Object :=
  | FullRequest (cr : CertificateRequest)
  | FullPolicy (p : CertificateRequestPolicy)
  | PartialMetadata (k : Kind) (m : ObjectMeta).
Definition kind_of (obj : Object) : Kind :=
  match obj with
  | FullRequest _ => CertificateRequestKind
  | FullPolicy _ => CertificateRequestPolicyKind
  | PartialMetadata k _ => k
  end.
Definition GetObjectMeta (obj : Object) : ObjectMeta :=
  match obj with
  | FullRequest cr => cr_ObjectMeta cr
  | FullPolicy p => p_ObjectMeta p
  | PartialMetadata _ m => m
  end.
Definition ObjectKey (obj : Object) : NamespacedName :=
  {| nn_Namespace := om_Namespace (GetObjectMeta obj); nn_Name := om_Name (GetObjectMeta obj) |}.

(** The events of the informers, and those of the channel of a controller. *)
Inductive Event :=
  | CreateEvent (obj : Object)
  | UpdateEvent (old new : Object)
  | DeleteEvent (obj : Object)
  | GenericEvent (obj : Object).
Definition event_object (ev : Event) : Object :=
  match ev with
  | CreateEvent obj | UpdateEvent _ obj | DeleteEvent obj | GenericEvent obj => obj
  end.
Definition event_objects (ev : Event) : list Object :=
  match ev with
  | CreateEvent obj | DeleteEvent obj | GenericEvent obj => [obj]
  | UpdateEvent old new => [old; new]
  end.

(** ** Watches: the methods of the builder *)
Inductive Watch (S : Type) :=
  | For (kind : Kind) (predicates : list (Object → outcome bool))
  | Watches (kind : Kind) (mapFunc : Object → M S (list NamespacedName))
  | WatchesMetadata (kind : Kind) (mapFunc : Object → M S (list NamespacedName))
  | WatchesRawSource (mapFunc : Object → M S (list NamespacedName)).
#[global] Arguments For {S}.
#[global] Arguments Watches {S}.
#[global] Arguments WatchesMetadata {S}.
#[global] Arguments WatchesRawSource {S}.

(** The watch is for events of this sort: from the channel, or from the informer
    of its kind. *)
Definition watches_event {S} (ev : Event) (w : Watch S) : bool :=
  match ev, w with
  | GenericEvent _, WatchesRawSource _ => true
  | GenericEvent _, _ | _, WatchesRawSource _ => false
  | _, (For k _ | Watches k _ | WatchesMetadata k _) => bool_decide (k = kind_of (event_object ev))
  end.
Definition watches_kind {S} (k : Kind) (w : Watch S) : bool :=
  match w with
  | For k' _ | Watches k' _ | WatchesMetadata k' _ => bool_decide (k' = k)
  | WatchesRawSource _ => false
  end.
Lemma informer_watches {S} ev (ws : list (Watch S)) :
  (∀ obj, ev ≠ GenericEvent obj) →
  filter (watches_event ev) ws = filter (watches_kind (kind_of (event_object ev))) ws.
Proof.
  intros Hev. apply list_filter_iff. intros w.
  destruct ev as [obj|old new|obj|obj]; [by destruct w..|by destruct (Hev obj)].
Qed.
Definition watch_mapFunc {S} (w : Watch S) : option (Object → M S (list NamespacedName)) :=
  match w with
  | For _ _ => None
  | Watches _ f | WatchesMetadata _ f | WatchesRawSource f => Some f
  end.

(** ** controller-runtime

    [dispatch ws ev] handles the event for a controller with the watches [ws],
    and answers the requests that this puts in its queue. *)
Class EventDispatch (S : Type) := {
  dispatch : list (Watch S) → Event → M S (list NamespacedName) }.

(** Documented: [NewPredicateFuncs] filters an update by the new object, and what
    [For] watches is queued under its own key; [EnqueueRequestsFromMapFunc] runs
    the function on the object of the event, on both objects for an update, and
    queues all that it answers.  The queue is a set. *)
Class EventDispatchLaws (S : Type) `{EventDispatch S} := {
  dispatch_unwatched (ws : list (Watch S)) ev (s : S) :
    filter (watches_event ev) ws = [] → dispatch ws ev s = (Ok [], s);
  dispatch_For ws ev kind preds bs (s : S) :
    filter (watches_event ev) ws = [For kind preds] →
    Forall2 (λ (p : Object → outcome bool) b, p (event_object ev) = Ok b) preds bs →
    dispatch ws ev s = (Ok (if forallb id bs then [ObjectKey (event_object ev)] else []), s);
  dispatch_mapFunc ws ev w f qs s s' :
    filter (watches_event ev) ws = [w] → watch_mapFunc w = Some f →
    answers f s (event_objects ev) qs s' →
    ∃ q, dispatch ws ev s = (Ok q, s') ∧ ∀ nn, nn ∈ q ↔ ∃ q1, q1 ∈ qs ∧ nn ∈ q1;
  dispatch_mapFunc_panic ws ev w f pre obj post qs why s s1 s2 :
    filter (watches_event ev) ws = [w] → watch_mapFunc w = Some f →
    event_objects ev = pre ++ obj :: post → answers f s pre qs s1 → f obj s1 = (Panic why, s2) →
    dispatch ws ev s = (Panic why, s2) }.

(** ** A small dispatcher *)
Module SampleDispatch.
Definition handle {S} (ev : Event) (w : Watch S) : M S (list NamespacedName) :=
  match w with
  | For _ preds =>
      pass ← pure_call (for_range preds true (λ pass (p : Object → outcome bool),
        b ← p (event_object ev); Ok (pass && b)));
      mret (if (pass : bool) then [ObjectKey (event_object ev)] else [])
  | Watches _ f | WatchesMetadata _ f | WatchesRawSource f =>
      for_range (event_objects ev) [] (λ queue obj, q ← f obj; mret (queue ++ q))
  end.
#[export] Instance in_order S : EventDispatch S := {
  dispatch ws ev :=
    for_range (filter (watches_event ev) ws) [] (λ queue w, q ← handle ev w; mret (queue ++ q)) }.

Lemma one_watch {S} (w : Watch S) ev (s : S) :
  for_range [w] [] (λ queue w, q ← handle ev w; mret (queue ++ q)) s = handle ev w s.
Proof.
  rewrite for_range_cons, !M_bind_step. by destruct (handle ev w s) as [[]].
Qed.
Lemma predicates_pass (preds : list (Object → outcome bool)) bs obj pass :
  Forall2 (λ (p : Object → outcome bool) b, p obj = Ok b) preds bs →
  for_range preds pass (λ pass (p : Object → outcome bool), b ← p obj; Ok (pass && b)) =
    Ok (pass && forallb id bs).
Proof.
  intros Hps. revert pass. induction Hps as [|p b ps bs Hp _ IH]; intros pass; simpl.
  - by rewrite andb_true_r.
  - rewrite Hp. simpl. rewrite IH. by rewrite andb_assoc.
Qed.
Lemma handle_answers {S} (f : Object → M S (list NamespacedName)) objs acc s qs s' :
  answers f s objs qs s' →
  for_range objs acc (λ queue obj, q ← f obj; mret (queue ++ q)) s = (Ok (acc ++ concat qs), s').
Proof.
  intros Hrun. revert acc. induction Hrun as [s|s obj q s1 objs qs s2 Hq _ IH]; intros acc.
  - simpl. by rewrite app_nil_r.
  - rewrite for_range_cons, !M_bind_step. rewrite Hq. cbn -[for_range]. by rewrite IH, app_assoc.
Qed.
Lemma handle_panics {S} (f : Object → M S (list NamespacedName)) pre obj post acc s qs s1 why s2 :
  answers f s pre qs s1 → f obj s1 = (Panic why, s2) →
  for_range (pre ++ obj :: post) acc (λ queue obj, q ← f obj; mret (queue ++ q)) s = (Panic why, s2).
Proof.
  intros Hrun Hp. revert acc. induction Hrun as [s|s o q s1 objs qs s3 Hq _ IH]; intros acc.
  - by rewrite app_nil_l, for_range_cons, !M_bind_step, Hp.
  - rewrite <-app_comm_cons, for_range_cons, !M_bind_step. rewrite Hq. cbn -[for_range]. by apply IH.
Qed.
#[export] Instance in_order_laws S : EventDispatchLaws S.
Proof.
  split; unfold dispatch; simpl.
  - by intros ws ev s ->.
  - intros ws ev kind preds bs s -> Hps. rewrite one_watch. unfold handle.
    rewrite M_bind_step. unfold pure_call. by rewrite (predicates_pass _ _ _ _ Hps).
  - intros ws ev w f qs s s' -> Hf Hrun. rewrite one_watch. apply (handle_answers f _ []) in Hrun.
    exists (concat qs). split; [by destruct w; simplify_eq/=|]. intros nn.
    rewrite list_elem_of_In, in_concat. setoid_rewrite <-list_elem_of_In. done.
  - intros ws ev w f pre obj post qs why s s1 s2 -> Hf Eo Hrun Hp. rewrite one_watch.
    pose proof (handle_panics f pre obj post [] _ _ _ _ _ Hrun Hp) as E. rewrite <-Eo in E.
    by destruct w; simplify_eq/=.
Qed.
End SampleDispatch.
