(* ===== verification/CertificateRequests.v ===== *)
(** * The CertificateRequest controller: pkg/internal/controllers/certificaterequests.go

    Logging is left out: it has no effect the program can observe.  Both
    results of a Go function that returns a value together with an error are
    kept. *)
From S2P Require Import Prelude GoStrings K8s PolicyAPI Approver Client SSAClient Watches.

(** A [reconcile.Request] is a NamespacedName.  [conditionReason] is the reason
    of the conditions. *)
Definition second : Z := 1000000000.
Definition conditionReason : string := "policy.cert-manager.io".

(** The time the new condition gets: [now], unless a condition of the same
    type and status exists, whose time is kept; the last such one counts. *)
Definition keepTransitionTime (existingConditions : list CertificateRequestCondition)
    (conditionType status : string) (time : option Z) : option Z :=
  foldl (λ time cond,
    if bool_decide (crc_Type cond ≠ conditionType) then time
    else if bool_decide (crc_Status cond = status) then crc_LastTransitionTime cond else time)
    time existingConditions.

Definition newCondition (existingConditions : list CertificateRequestCondition)
    (conditionType status reason message : string) (now : Z) : CertificateRequestCondition :=
  {| crc_Type := conditionType; crc_Status := status; crc_Reason := reason; crc_Message := message;
     crc_LastTransitionTime :=
       keepTransitionTime existingConditions conditionType status (Some now) |}.

Section controller.
Context {S : Type} `{Reader S} `{Client S} `{Recorder S} `{Clock S}.
Context `{ApiUtil} `{ClientLib} `{ErrorLib} `{JSONLib}.

(** Answers the new [*patchConditions], and the values the Go function
    returns: the new condition and the time read from the clock. *)
Definition setCertificateRequestStatusCondition
    (existingConditions patchConditions : list CertificateRequestCondition)
    (conditionType status reason message : string)
    : M S (list CertificateRequestCondition * (CertificateRequestCondition * Z)) :=
  nowTime ← Now;
  let newCondition := newCondition existingConditions conditionType status reason message nowTime in
  mret (overwriteFirst (λ cond, bool_decide (crc_Type cond = conditionType))
          (λ _, newCondition) newCondition patchConditions,
        (newCondition, nowTime)).

Definition decided (cr : CertificateRequest) : bool :=
  CertificateRequestIsApproved cr || CertificateRequestIsDenied cr.

(** The two cases of the switch that end with a status patch. *)
Definition decisionPatch (cr : CertificateRequest) (t : EventType) (eventReason : string)
    (conditionType : string) (response : manager.ReviewResponse)
    : M S (Result * option CertificateRequestStatus * option error) :=
  _ ← Event_CertificateRequest cr t eventReason (manager.rv_Message response);
  set ← setCertificateRequestStatusCondition (crst_Conditions (cr_Status cr)) []
    conditionType ConditionTrue conditionReason (manager.rv_Message response);
  mret (Result_zero, Some {| crst_Conditions := set.1 |}, None).

(** The switch on the answer of the manager. *)
Definition respondPatch (cr : CertificateRequest) (response : manager.ReviewResponse)
    : M S (Result * option CertificateRequestStatus * option error) :=
  if manager.rv_Result response =? manager.ResultApproved then
    decisionPatch cr EventTypeNormal "Approved" CertificateRequestConditionApproved response
  else if manager.rv_Result response =? manager.ResultDenied then
    decisionPatch cr EventTypeWarning "Denied" CertificateRequestConditionDenied response
  else if manager.rv_Result response =? manager.ResultUnprocessed then
    _ ← Event_CertificateRequest cr EventTypeNormal "Unprocessed"
      "Request is not applicable for any policy so ignoring";
    mret (Result_zero, None, None)
  else
    _ ← Event_CertificateRequest cr EventTypeWarning "UnknownResponse"
      "Policy returned an unknown result. This is a bug. Please check the approver-policy logs and file an issue";
    mret ({| Requeue := true; RequeueAfter := second * 5 |}, None, None).

Definition reconcileStatusPatch (m : manager.Interface S) (req : NamespacedName)
    : M S (Result * option CertificateRequestStatus * option error) :=
  got ← try (Get_CertificateRequest req);
  match got with
  | inr err => mret (Result_zero, None, IgnoreNotFound err)
  | inl cr =>
      if decided cr then mret (Result_zero, None, None) else
      reviewed ← try (m cr);
      match reviewed with
      | inr err =>
          _ ← Event_CertificateRequest cr EventTypeWarning "EvaluationError"
            "approver-policy failed to review the request and will retry";
          mret (Result_zero, None, Some err)
      | inl response => respondPatch cr response
      end
  end.

(** What [Reconcile] does with the answer of [reconcileStatusPatch]. *)
Definition send (req : NamespacedName)
    (r : Result * option CertificateRequestStatus * option error) : M S (Result * option error) :=
  let '(result, patch, resultErr) := r in
  match patch with
  | None => mret (result, resultErr)
  | Some _ =>
      match GenerateCertificateRequestStatusPatch (nn_Name req) (nn_Namespace req) patch with
      | Panic w => panic w
      | Err err =>
          let err := Errorf_w "failed to generate CertificateRequest.Status patch" err in
          mret (Result_zero, NewAggregate [resultErr; Some err])
      | Ok (cr, p) =>
          patched ← try (Status_Patch_CertificateRequest (statusPatch cr p));
          match patched with
          | inr err =>
              let err := Errorf_w "failed to apply CertificateRequest.Status patch" err in
              mret (Result_zero, NewAggregate [resultErr; Some err])
          | inl _ => mret (result, resultErr)
          end
      end
  end.

Definition Reconcile (m : manager.Interface S) (req : NamespacedName)
    : M S (Result * option error) :=
  r ← reconcileStatusPatch m req;
  send req r.

(** ** addCertificateRequestController

    Its last part, which builds the controller, is in [Cmd].  The function the
    watches map every event with: all the undecided
    requests, or the end of the process when they cannot be listed. *)
Definition enqueueRequestFromMapFunc : M S (list NamespacedName) :=
  got ← try List_CertificateRequests;
  match got with
  | inr _ => panic "os.Exit(-1)"
  | inl items =>
      for_range items [] (λ requests cr,
        if CertificateRequestIsApproved cr || CertificateRequestIsDenied cr then mret requests
        else mret (requests ++ [{| nn_Namespace := cr_Namespace cr; nn_Name := cr_Name cr |}]))
  end.

(** The predicate on the watched requests: a function literal that begins with a
    type assertion. *)
Definition watchPredicate (cr : CertificateRequest) : bool :=
  negb (CertificateRequestIsApproved cr) && negb (CertificateRequestIsDenied cr).
Definition newPredicateFuncs (obj : Object) : outcome bool :=
  match obj with
  | FullRequest cr => Ok (watchPredicate cr)
  | _ => Panic "interface conversion: client.Object is not *v1.CertificateRequest"
  end.

(** What the controller is built from. *)
Definition certificateRequestWatches : list (Watch S) := [
  For CertificateRequestKind [newPredicateFuncs];
  Watches CertificateRequestPolicyKind (λ _, enqueueRequestFromMapFunc);
  WatchesMetadata RoleKind (λ _, enqueueRequestFromMapFunc);
  WatchesMetadata RoleBindingKind (λ _, enqueueRequestFromMapFunc);
  WatchesMetadata ClusterRoleKind (λ _, enqueueRequestFromMapFunc);
  WatchesMetadata ClusterRoleBindingKind (λ _, enqueueRequestFromMapFunc);
  WatchesMetadata NamespaceKind (λ _, enqueueRequestFromMapFunc)].
End controller.
