(* ===== verification/CertificateRequestsSpec.v ===== *)
(** * What the CertificateRequest controller does to requests

    What it sends, when it does not, and which requests it queues. *)
From S2P Require Import Prelude GoStrings K8s PolicyAPI Approver Client SSAClient Watches SampleCluster CertificateRequests.

Section spec.
Context {S : Type} `{Reader S} `{Client S} `{Recorder S} `{Clock S}.
Context `{ApiUtil} `{ClientLib} `{ErrorLib} `{JSONLib}.
Implicit Types (cr : CertificateRequest) (m : manager.Interface S).

(** ** Conditions *)

(** A condition that takes over the transition time, or starts a new one. *)
Definition transition_time (existing : list CertificateRequestCondition)
    (c : CertificateRequestCondition) (now : Z) : Prop :=
  (∃ e, e ∈ existing ∧ crc_Type e = crc_Type c ∧ crc_Status e = crc_Status c ∧
     crc_LastTransitionTime c = crc_LastTransitionTime e) ∨
  ((∀ e, e ∈ existing → crc_Type e = crc_Type c → crc_Status e ≠ crc_Status c) ∧
     crc_LastTransitionTime c = Some now).

Lemma newCondition_time existing ty st reason msg now :
  transition_time existing (newCondition existing ty st reason msg now) now.
Proof.
  unfold transition_time, newCondition, keepTransitionTime. simpl.
  destruct (foldl_keep (λ time cond,
    if bool_decide (crc_Type cond ≠ ty) then time
    else if bool_decide (crc_Status cond = st) then crc_LastTransitionTime cond else time)
    (λ c, crc_Type c = ty ∧ crc_Status c = st) crc_LastTransitionTime existing (Some now))
    as [[E Hno]|(e & He & [Ht Hs] & E)].
  - intros b x. repeat case_bool_decide; case_decide; naive_solver.
  - right. split; [|done]. intros e He Ht Hs. by apply (Hno e He).
  - left. by exists e.
Qed.

Lemma set_run existing patch ty st reason msg s conds' c now s' :
  NoDup (crc_Type <$> patch) →
  setCertificateRequestStatusCondition existing patch ty st reason msg s =
    (Ok (conds', (c, now)), s') →
  Now s = (Ok now, s') ∧ crc_Type c = ty ∧ crc_Status c = st ∧ crc_Reason c = reason ∧
    crc_Message c = msg ∧ transition_time existing c now ∧
    NoDup (crc_Type <$> conds') ∧
    ∀ d, d ∈ conds' ↔ d = c ∨ (d ∈ patch ∧ crc_Type d ≠ ty).
Proof.
  intros Hnd (t & s1 & Hnow & Hret)%M_bind_Ok. apply M_ret_Ok in Hret as [[= <- <- <-] <-].
  set (c := newCondition _ _ _ _ _ _).
  split_and!; try done; [apply newCondition_time|by apply overwriteFirst_NoDup|].
  intros d. rewrite (overwriteFirst_elem crc_Type ty) by done.
  destruct (decide (ty ∈ crc_Type <$> patch)) as [Hty|Hno].
  - apply list_elem_of_fmap in Hty as (e & Et & He). naive_solver.
  - assert (∀ e, e ∈ patch → crc_Type e ≠ ty) as Hne.
    { intros e He Et. apply Hno. rewrite <-Et. by apply list_elem_of_fmap_2. }
    naive_solver.
Qed.

(** ** What is sent to the API server *)

(** The patch the controller sends for a decision about [req]. *)
Definition decision_sent (req : NamespacedName) (c : CertificateRequestCondition)
    (p : StatusPatch) : Prop :=
  ∃ data, json_Marshal_CertificateRequest (certificateRequestStatusConfiguration
      (nn_Name req) (nn_Namespace req) (Some {| crst_Conditions := [c] |})) = Ok data ∧
    p = statusPatch req {| patch := data |}.

(** The condition that stands for a response of the manager. *)
Definition condition_of (resp : manager.ReviewResponse) (c : CertificateRequestCondition) : Prop :=
  ((manager.rv_Result resp = manager.ResultApproved ∧
      crc_Type c = CertificateRequestConditionApproved) ∨
   (manager.rv_Result resp = manager.ResultDenied ∧
      crc_Type c = CertificateRequestConditionDenied)) ∧
  crc_Status c = ConditionTrue ∧ crc_Reason c = conditionReason ∧
  crc_Message c = manager.rv_Message resp.

(** What a run of [reconcileStatusPatch] that answers a status has found. *)
Definition decision_made m (req : NamespacedName) (s : S) (c : CertificateRequestCondition) : Prop :=
  ∃ cr s1 resp s2 now, Get_CertificateRequest req s = (Ok cr, s1) ∧ decided cr = false ∧
    m cr s1 = (Ok resp, s2) ∧ condition_of resp c ∧
    transition_time (crst_Conditions (cr_Status cr)) c now.

Section observed.
Context {T : Type} (g : S → T) (Hg : bystanders g).

Lemma decisionPatch_run cr t r ty resp s res st err s' :
  decisionPatch cr t r ty resp s = (Ok (res, st, err), s') →
  g s' = g s ∧ res = Result_zero ∧ err = None ∧
  ∃ c now, st = Some {| crst_Conditions := [c] |} ∧ crc_Type c = ty ∧
    crc_Status c = ConditionTrue ∧ crc_Reason c = conditionReason ∧
    crc_Message c = manager.rv_Message resp ∧
    transition_time (crst_Conditions (cr_Status cr)) c now.
Proof.
  intros (u & s1 & Hev & (set & s2 & Hset & Hret)%M_bind_Ok)%M_bind_Ok.
  apply M_ret_Ok in Hret as [[= <- <- <-] <-].
  apply (Event_CertificateRequest_keeps g Hg) in Hev as <-.
  apply M_bind_Ok in Hset as (now & s3 & Hnow & Hset).
  apply (Now_keeps g Hg) in Hnow as <-. apply M_ret_Ok in Hset as [<- <-].
  split_and!; [done..|]. eexists _, now. split_and!; [done..|]. apply newCondition_time.
Qed.

Lemma reconcileStatusPatch_run m req s res st err s' :
  (∀ cr, keeps g (m cr)) →
  reconcileStatusPatch m req s = (Ok (res, st, err), s') →
  g s' = g s ∧
  (st = None ∨ ∃ c, st = Some {| crst_Conditions := [c] |} ∧ err = None ∧ res = Result_zero ∧
     decision_made m req s c).
Proof.
  intros Hm (got & s1 & Hget & Hrun)%M_bind_Ok.
  assert (g s1 = g s) as Hs1.
  { eapply keeps_try, Hget. apply (Get_CertificateRequest_keeps g Hg). }
  destruct got as [cr|e]; [|apply M_ret_Ok in Hrun as [[= <- <- <-] <-]; auto].
  destruct (decided cr) eqn:Ed; [apply M_ret_Ok in Hrun as [[= <- <- <-] <-]; auto|].
  assert (Get_CertificateRequest req s = (Ok cr, s1)) as Hget'.
  { unfold try in Hget. by destruct (Get_CertificateRequest req s) as [[]]; simplify_eq. }
  apply M_bind_Ok in Hrun as (reviewed & s2 & Hrev & Hrun).
  assert (g s2 = g s1) as Hs2 by (eapply keeps_try; [apply Hm|exact Hrev]).
  rewrite <-Hs1, <-Hs2.
  destruct reviewed as [resp|e].
  2:{ apply M_bind_Ok in Hrun as ([] & s3 & Hev & Hret). apply M_ret_Ok in Hret as [[= <- <- <-] <-].
      split; [by eapply (Event_CertificateRequest_keeps g Hg)|by left]. }
  assert (m cr s1 = (Ok resp, s2)) as Hrev'.
  { unfold try in Hrev. by destruct (m cr s1) as [[]]; simplify_eq. }
  unfold respondPatch in Hrun.
  destruct (manager.rv_Result resp =? manager.ResultApproved) eqn:EA;
    [|destruct (manager.rv_Result resp =? manager.ResultDenied) eqn:ED;
      [|destruct (manager.rv_Result resp =? manager.ResultUnprocessed)]].
  3-4: apply M_bind_Ok in Hrun as ([] & s3 & Hev & Hret);
    apply M_ret_Ok in Hret as [[= <- <- <-] <-];
    split; [by eapply (Event_CertificateRequest_keeps g Hg)|by left].
  all: apply decisionPatch_run in Hrun as (-> & -> & -> & c & now & -> & ? & ? & ? & ? & ?);
    split; [done|right]; exists c; split_and!; [done..|];
    exists cr, s1, resp, s2, now; split_and!; try done; split; [|done].
  - left. apply Z.eqb_eq in EA. done.
  - right. apply Z.eqb_eq in ED. done.
Qed.
End observed.

Context `{!PatchLog S, !PatchLogLaws S}.

Lemma reconcile_sent m req s res err s' :
  (∀ cr, no_patch (m cr)) → Reconcile m req s = (Ok (res, err), s') →
  patches s' = patches s ∨
  ∃ c p, patches s' = patches s ++ [p] ∧ decision_sent req c p ∧ decision_made m req s c.
Proof.
  intros Hm Hrun. apply M_bind_Ok in Hrun as ([[res1 st] err1] & s1 & Hrec & Hrun). unfold send in Hrun.
  destruct (reconcileStatusPatch_run _ patches_bystanders _ _ _ _ _ _ _ Hm Hrec) as [<- Hst].
  destruct Hst as [->|(c & -> & -> & -> & Hmade)]; [left; by apply M_ret_Ok in Hrun as [_ <-]|].
  destruct (GenerateCertificateRequestStatusPatch _ _ _) as [[key p]| |] eqn:Hgen; [|left..].
  2: by apply M_ret_Ok in Hrun as [_ <-]. 2: done.
  unfold GenerateCertificateRequestStatusPatch in Hgen.
  apply outcome_bind_Ok in Hgen as (data & Hdata & [= <- <-]).
  right. exists c, (statusPatch req {| patch := data |}). split_and!; [|by exists data|done].
  apply M_bind_Ok in Hrun as (patched & s2 & Hp & Hrun).
  assert (s' = s2) as -> by (destruct patched; by apply M_ret_Ok in Hrun as [_ <-]).
  unfold try in Hp. destruct req as [ns n]. simpl in *.
  destruct (Status_Patch_CertificateRequest _ s1) as [o s3] eqn:E.
  apply Status_Patch_CertificateRequest_log in E. by destruct o; simplify_eq.
Qed.

(** ** The claims *)

(** A request that carries a decision. *)
Definition has_decision cr : Prop :=
  has_true_condition CertificateRequestConditionApproved cr ∨
  has_true_condition CertificateRequestConditionDenied cr.

#[export] Instance has_true_condition_dec type cr : Decision (has_true_condition type cr).
Proof.
  refine (cast_if (decide (Exists (λ c, crc_Type c = type ∧ crc_Status c = ConditionTrue)
    (crst_Conditions (cr_Status cr))))); unfold has_true_condition; by rewrite <-Exists_exists.
Defined.
#[export] Instance has_decision_dec cr : Decision (has_decision cr).
Proof. unfold has_decision. apply _. Defined.

Lemma decided_iff `{!ApiUtilLaws} cr : decided cr = true ↔ has_decision cr.
Proof. unfold decided, has_decision. by rewrite orb_true_iff, IsApproved_iff, IsDenied_iff. Qed.
Lemma watchPredicate_iff `{!ApiUtilLaws} cr : watchPredicate cr = true ↔ ¬ has_decision cr.
Proof.
  rewrite <-decided_iff, not_true_iff_false. unfold watchPredicate, decided.
  by rewrite <-negb_orb, negb_true_iff.
Qed.

(** The names of the requests that are still open, in the order listed. *)
Definition open_requests (items : list CertificateRequest) : list NamespacedName :=
  (λ cr, {| nn_Namespace := cr_Namespace cr; nn_Name := cr_Name cr |}) <$>
    filter (λ cr, ¬ has_decision cr) items.

Lemma Reconcile_decided `{!ApiUtilLaws} m req s cr s1 :
  Get_CertificateRequest req s = (Ok cr, s1) → has_decision cr →
  Reconcile m req s = (Ok (Result_zero, None), s1).
Proof.
  intros Hget Hd%decided_iff. unfold Reconcile, reconcileStatusPatch.
  rewrite !M_bind_step. unfold try at 1. by rewrite Hget, Hd.
Qed.

(** A decision is final: reconciling a request that carries an Approved
    or Denied condition with status True only reads it.  It is not reviewed,
    no event is recorded, nothing is sent, and it is not queued again. *)
Theorem decision_is_final `{!ApiUtilLaws} m req s cr s1
  (Hget : Get_CertificateRequest req s = (Ok cr, s1))
  (Hdecided : has_decision cr) :
  Reconcile m req s = (Ok (Result_zero, None), s1) ∧ watchPredicate cr = false.
Proof.
  split; [by eapply Reconcile_decided|].
  apply not_true_is_false. by rewrite watchPredicate_iff; intros ?.
Qed.

(** [C13] Safety of the writes: one reconciliation sends at most one patch.
    It sends one only for a request that was read undecided and on which the
    manager answered, and the patch then consists of exactly one condition,
    Approved or Denied according to that answer, with its message.  A review
    itself must not patch, which holds of the manager of this program when
    it holds of its evaluators. *)
Theorem Reconcile_patches m req s res err s'
  (Hm : ∀ cr, no_patch (m cr)) (Hrun : Reconcile m req s = (Ok (res, err), s')) :
  patches s' = patches s ∨
  ∃ c p, patches s' = patches s ++ [p] ∧ decision_sent req c p ∧ decision_made m req s c.
Proof. by apply reconcile_sent in Hrun. Qed.

(** The decision sticks: once the condition of a patch of this
    controller is among the conditions of the request, the request counts as
    decided, so that it is neither reconciled again nor queued. *)
Theorem sent_decision_decides `{!ApiUtilLaws} m req s c cr
  (Hmade : decision_made m req s c) (Hin : c ∈ crst_Conditions (cr_Status cr)) :
  decided cr = true ∧ watchPredicate cr = false.
Proof.
  destruct Hmade as (cr0 & s1 & resp & s2 & now & _ & _ & _ & (Hty & Hst & _) & _).
  assert (decided cr = true) as E.
  { unfold decided. rewrite orb_true_iff, IsApproved_iff, IsDenied_iff. unfold has_true_condition.
    destruct Hty as [[_ Hty]|[_ Hty]]; [left|right]; by exists c. }
  split; [done|]. unfold watchPredicate. unfold decided in E. by rewrite <-negb_orb, E.
Qed.

(** A failed review is reported and retried, never answered: the error
    is returned as it is, after a warning event, and nothing is sent. *)
Theorem review_error_is_returned m req s cr s1 e s2 s3
  (Hget : Get_CertificateRequest req s = (Ok cr, s1)) (Hund : decided cr = false)
  (Hrev : m cr s1 = (Err e, s2))
  (Hevent : Event_CertificateRequest cr EventTypeWarning "EvaluationError"
     "approver-policy failed to review the request and will retry" s2 = (Ok tt, s3)) :
  Reconcile m req s = (Ok (Result_zero, Some e), s3).
Proof.
  unfold Reconcile, reconcileStatusPatch. rewrite !M_bind_step. unfold try.
  rewrite Hget, Hund, !M_bind_step. rewrite Hrev, M_bind_step, Hevent. done.
Qed.

(** Setting a condition writes the one condition of that type and leaves
    the conditions of other types as they were; the transition time changes
    exactly when the status does. *)
Theorem setCertificateRequestStatusCondition_correct existing patch ty st reason msg s conds' c now s'
  (Hnd : NoDup (crc_Type <$> patch))
  (Hrun : setCertificateRequestStatusCondition existing patch ty st reason msg s =
     (Ok (conds', (c, now)), s')) :
  Now s = (Ok now, s') ∧ crc_Type c = ty ∧ crc_Status c = st ∧ crc_Reason c = reason ∧
  crc_Message c = msg ∧ transition_time existing c now ∧ NoDup (crc_Type <$> conds') ∧
  ∀ d, d ∈ conds' ↔ d = c ∨ (d ∈ patch ∧ crc_Type d ≠ ty).
Proof. by apply set_run. Qed.

Lemma for_range_enqueue `{!ApiUtilLaws} items acc (s : S) :
  for_range (F:=M S) items acc (λ requests cr,
    if CertificateRequestIsApproved cr || CertificateRequestIsDenied cr then mret requests
    else mret (requests ++ [{| nn_Namespace := cr_Namespace cr; nn_Name := cr_Name cr |}])) s =
  (Ok (acc ++ open_requests items), s).
Proof.
  revert acc. induction items as [|cr items IH]; intros acc; [by rewrite app_nil_r|].
  rewrite for_range_cons, M_bind_step. unfold open_requests in IH |- *. rewrite filter_cons.
  pose proof (decided_iff cr) as Hiff. unfold decided in Hiff.
  destruct (CertificateRequestIsApproved cr || CertificateRequestIsDenied cr);
    unfold mret at 1, M_ret at 1; rewrite IH.
  - by rewrite decide_False by (intros Hn; by apply Hn, Hiff).
  - rewrite decide_True by (by intros Hd; apply Hiff in Hd). by rewrite fmap_cons, <-app_assoc.
Qed.

Lemma enqueueRequestFromMapFunc_run `{!ApiUtilLaws} (s : S) :
  match List_CertificateRequests s with
  | (Ok items, s') => enqueueRequestFromMapFunc s = (Ok (open_requests items), s')
  | (Err _, s') => enqueueRequestFromMapFunc s = (Panic "os.Exit(-1)", s')
  | (Panic w, s') => enqueueRequestFromMapFunc s = (Panic w, s')
  end.
Proof.
  unfold enqueueRequestFromMapFunc. rewrite M_bind_step. unfold try.
  destruct (List_CertificateRequests s) as [[items| |] s']; [|done..].
  apply (for_range_enqueue items []).
Qed.
Lemma enqueue_answers `{!ApiUtilLaws} (objs : list Object) (s : S) ls s' :
  answers (λ _ : Object, List_CertificateRequests) s objs ls s' →
  answers (λ _ : Object, enqueueRequestFromMapFunc) s objs (open_requests <$> ls) s'.
Proof.
  induction 1 as [s|s obj items s1 objs ls s2 Hl _ IH]; simpl; [constructor|].
  econstructor; [|exact IH]. unfold calls in *. pose proof (enqueueRequestFromMapFunc_run s) as E.
  by rewrite Hl in E.
Qed.

(** What decisions depend on beside the request itself: the policies, who may
    use them, and the labels of the namespace. *)
Definition decision_inputs : list Kind :=
  [CertificateRequestPolicyKind; RoleKind; RoleBindingKind; ClusterRoleKind;
   ClusterRoleBindingKind; NamespaceKind].
Lemma input_watch `{!EventDispatch S} ev :
  (∀ obj, ev ≠ GenericEvent obj) → kind_of (event_object ev) ∈ decision_inputs →
  ∃ w : Watch S, filter (watches_event ev) certificateRequestWatches = [w] ∧
    watch_mapFunc w = Some (λ _, enqueueRequestFromMapFunc).
Proof.
  intros Hev Hk. rewrite informer_watches by done.
  repeat (apply elem_of_cons in Hk as [->|Hk]; [by eexists|]). by apply elem_of_nil in Hk.
Qed.

(** [C33] What the controller is triggered by.  When a policy, a role, a cluster
    role, a binding of either or a namespace is created, updated or deleted, the
    requests that the listing of that moment shows without an Approved or Denied
    condition are queued, and only those; if they cannot be listed the process
    ends rather than lose one.  An event of a request queues that request unless
    it is decided, and no other event queues anything.  (For an update
    controller-runtime asks twice, for the old and for the new object, so there
    may be two listings.  The controller has no channel, and so no events but those
    of the informers.) *)
Theorem enqueue_complete `{!ApiUtilLaws} `{!EventDispatch S, !EventDispatchLaws S} ev (s : S)
  (Hev : ∀ obj, ev ≠ GenericEvent obj) :
  let kind := kind_of (event_object ev) in
  let enqueued := dispatch certificateRequestWatches ev s in
  (kind ∈ decision_inputs →
     (∀ ls s', answers (λ _ : Object, List_CertificateRequests) s (event_objects ev) ls s' →
        ∃ q, enqueued = (Ok q, s') ∧ ∀ nn, nn ∈ q ↔
          ∃ items cr, items ∈ ls ∧ cr ∈ items ∧ ¬ has_decision cr ∧
            nn = {| nn_Namespace := cr_Namespace cr; nn_Name := cr_Name cr |}) ∧
     (∀ before obj after ls s1 e s2, event_objects ev = before ++ obj :: after →
        answers (λ _ : Object, List_CertificateRequests) s before ls s1 →
        List_CertificateRequests s1 = (Err e, s2) → enqueued = (Panic "os.Exit(-1)", s2))) ∧
  (∀ cr, event_object ev = FullRequest cr →
     ∃ q, enqueued = (Ok q, s) ∧ ∀ nn, nn ∈ q ↔
       ¬ has_decision cr ∧ nn = {| nn_Namespace := cr_Namespace cr; nn_Name := cr_Name cr |}) ∧
  (kind ∉ CertificateRequestKind :: decision_inputs → enqueued = (Ok [], s)).
Proof.
  intros kind enqueued. split_and!.
  - intros Hk. destruct (input_watch ev Hev Hk) as (w & Hw & Hf). split.
    + intros ls s' Hls%enqueue_answers.
      destruct (dispatch_mapFunc _ _ _ _ _ _ _ Hw Hf Hls) as (q & Hq & Hin). exists q. split; [done|].
      intros nn. rewrite Hin. setoid_rewrite list_elem_of_fmap. unfold open_requests. split.
      * intros (q1 & (items & -> & Hi) & (cr & -> & [? ?]%list_elem_of_filter)%list_elem_of_fmap). eauto 10.
      * intros (items & cr & Hi & Hcr & Hno & ->). eexists. split; [by exists items|].
        apply list_elem_of_fmap. exists cr. split; [done|]. by apply list_elem_of_filter.
    + intros before obj after ls s1 e s2 Eo Hls%enqueue_answers Herr.
      apply (dispatch_mapFunc_panic _ _ _ _ _ _ _ _ _ _ _ _ Hw Hf Eo Hls).
      pose proof (enqueueRequestFromMapFunc_run s1) as E. by rewrite Herr in E.
  - intros cr Hcr. eexists. split.
    + apply (dispatch_For _ _ CertificateRequestKind [newPredicateFuncs] [watchPredicate cr]).
      * rewrite informer_watches, Hcr by done. reflexivity.
      * rewrite Hcr. by repeat constructor.
    + intros nn. rewrite Hcr. simpl. rewrite andb_true_r, <-watchPredicate_iff. unfold ObjectKey. simpl.
      destruct (watchPredicate cr); [rewrite list_elem_of_singleton|rewrite elem_of_nil]; naive_solver.
  - intros Hk. apply dispatch_unwatched. rewrite informer_watches by done. fold kind.
    destruct kind; try reflexivity; destruct Hk; set_solver.
Qed.
End spec.

Module CertificateRequestsWitnesses.
Import SampleCluster SampleDispatch.

Definition key : NamespacedName := {| nn_Namespace := "ns"; nn_Name := "cr" |}.
Definition after (cr : CertificateRequest) (m : manager.Interface cluster) : cluster :=
  (Reconcile m key (cluster_of cr)).2.

Lemma decision_is_final_witness :
  let s := cluster_of approved_request in
  Get_CertificateRequest key s = (Ok approved_request, s) ∧
  has_decision approved_request ∧
  Reconcile approving key s = (Ok (Result_zero, None), s) ∧
  watchPredicate approved_request = false.
Proof.
  intros s. assert (has_decision approved_request) as Ha.
  { left. exists approved. split; [by left|done]. }
  split; [reflexivity|]. split; [exact Ha|].
  apply (decision_is_final approving key s approved_request s); [reflexivity|exact Ha].
Defined.

(** A namespace is relabelled: the open request is queued. *)
Definition relabelled : Event :=
  let ns := PartialMetadata NamespaceKind {| om_Name := "ns"; om_Namespace := ""; om_Generation := 1 |} in
  UpdateEvent ns ns.
Lemma enqueue_complete_witness :
  let s := cluster_of new_request in
  ∃ q, dispatch certificateRequestWatches relabelled s = (Ok q, s) ∧ key ∈ q.
Proof.
  intros s.
  destruct (enqueue_complete relabelled s ltac:(done)) as [Hinputs _].
  destruct (Hinputs ltac:(by repeat (first [by left|right]))) as [Hqueue _].
  destruct (Hqueue [[new_request]; [new_request]] s) as (q & Hq & Hin);
    [repeat (econstructor; [reflexivity|]); constructor|].
  exists q. split; [exact Hq|]. apply Hin. exists [new_request], new_request.
  split_and!; [by left|by left| |done].
  intros [(c & Hc & _)|(c & Hc & _)]; by apply elem_of_nil in Hc.
Defined.

Lemma Reconcile_patches_witness :
  let s := cluster_of new_request in
  let s' := after new_request approving in
  Reconcile approving key s = (Ok (Result_zero, None), s') ∧ patches s' ≠ patches s ∧
  (patches s' = patches s ∨
   ∃ c p, patches s' = patches s ++ [p] ∧ decision_sent key c p ∧ decision_made approving key s c).
Proof.
  intros s s'. assert (Reconcile approving key s = (Ok (Result_zero, None), s')) as Hrun
    by reflexivity.
  split; [exact Hrun|]. split; [done|].
  apply (Reconcile_patches approving key s Result_zero None s'); [|exact Hrun].
  intros cr. apply keeps_ret.
Defined.

Lemma sent_decision_decides_witness :
  let s := cluster_of new_request in
  decision_made approving key s approved ∧
  approved ∈ crst_Conditions (cr_Status approved_request) ∧
  decided approved_request = true ∧ watchPredicate approved_request = false.
Proof.
  intros s. assert (decision_made approving key s approved) as Hm.
  { exists new_request, s, {| manager.rv_Result := manager.ResultApproved; manager.rv_Message := "ok" |},
      s, 42. split_and!; try done; [split; [by left|done]|right].
    split; [|done]. by intros e ?%elem_of_nil. }
  split; [exact Hm|]. split; [by left|].
  apply (sent_decision_decides approving key s approved approved_request Hm). by left.
Defined.

Lemma review_error_is_returned_witness :
  let s := cluster_of new_request in
  decided new_request = false ∧
  Reconcile failing key s =
    (Ok (Result_zero, Some (errors_New "no")), (add_event "EvaluationError" s).2).
Proof.
  intros s. split; [reflexivity|].
  by apply (review_error_is_returned failing key s new_request s (errors_New "no") s).
Defined.

Lemma setCertificateRequestStatusCondition_correct_witness :
  let s := cluster_of new_request in
  let c := newCondition [approved] CertificateRequestConditionApproved ConditionTrue "r" "m" 42 in
  setCertificateRequestStatusCondition [approved] [approved] CertificateRequestConditionApproved
    ConditionTrue "r" "m" s = (Ok ([c], (c, 42)), s) ∧
  Now s = (Ok 42, s) ∧ crc_Type c = CertificateRequestConditionApproved ∧
  crc_Status c = ConditionTrue ∧ crc_Reason c = "r" ∧ crc_Message c = "m" ∧
  transition_time [approved] c 42 ∧ NoDup (crc_Type <$> [c]) ∧
  ∀ d, d ∈ [c] ↔ d = c ∨ (d ∈ [approved] ∧ crc_Type d ≠ CertificateRequestConditionApproved).
Proof.
  intros s c. split; [reflexivity|].
  apply (setCertificateRequestStatusCondition_correct [approved] [approved]
    CertificateRequestConditionApproved ConditionTrue "r" "m" s [c] c 42 s); [|reflexivity].
  apply NoDup_singleton.
Defined.
End CertificateRequestsWitnesses.
