(* ===== verification/CertificateRequestPolicies.v ===== *)
(** * The CertificateRequestPolicy controller:
      pkg/internal/controllers/certificaterequestpolicies.go *)
From S2P Require Import Prelude GoStrings K8s PolicyAPI Approver Client SSAClient Watches.

(** ** setCertificateRequestPolicyCondition *)

(** The loop over the conditions of the policy: the last one of the same type
    and status gives its time. *)
Definition keepExistingTime (existingConditions : list CertificateRequestPolicyCondition)
    (conditionType status : string) (time : option Z) : option Z :=
  foldl (λ time existingCondition,
    if bool_decide (pc_Type existingCondition ≠ conditionType) then time
    else if bool_decide (pc_Status existingCondition = status)
    then pc_LastTransitionTime existingCondition else time)
    time existingConditions.

Definition set_LastTransitionTime (time : option Z) (c : CertificateRequestPolicyCondition)
    : CertificateRequestPolicyCondition :=
  {| pc_Type := pc_Type c; pc_Status := pc_Status c; pc_LastTransitionTime := time;
     pc_Reason := pc_Reason c; pc_Message := pc_Message c;
     pc_ObservedGeneration := pc_ObservedGeneration c |}.

(** The condition that is written, before the loop over the patch. *)
Definition stampCondition (existingConditions : list CertificateRequestPolicyCondition)
    (generation now : Z) (newCondition : CertificateRequestPolicyCondition)
    : CertificateRequestPolicyCondition :=
  {| pc_Type := pc_Type newCondition; pc_Status := pc_Status newCondition;
     pc_LastTransitionTime := keepExistingTime existingConditions (pc_Type newCondition)
       (pc_Status newCondition) (Some now);
     pc_Reason := pc_Reason newCondition; pc_Message := pc_Message newCondition;
     pc_ObservedGeneration := generation |}.

(** [fmt.Sprintf("%s", el.ToAggregate())] on a nil interface value. *)
Definition nilAggregate : string := "%!s(<nil>)".

Section controller.
Context {S : Type} `{Reader S} `{Client S} `{Recorder S} `{Clock S}.
Context `{ClientLib} `{ErrorLib} `{JSONLib} `{UnicodeTables}.

(** Answers the new [*patchConditions]. *)
Definition setCertificateRequestPolicyCondition
    (existingConditions patchConditions : list CertificateRequestPolicyCondition)
    (generation : Z) (newCondition : CertificateRequestPolicyCondition)
    : M S (list CertificateRequestPolicyCondition) :=
  now ← Now;
  let newCondition := stampCondition existingConditions generation now newCondition in
  mret (overwriteFirst
    (λ patchCondition, bool_decide (pc_Type patchCondition = pc_Type newCondition))
    (λ patchCondition,
      if bool_decide (pc_Status patchCondition = pc_Status newCondition)
      then set_LastTransitionTime (pc_LastTransitionTime patchCondition) newCondition
      else newCondition)
    newCondition patchConditions).

(** ** reconcileStatusPatch *)

(** The requeue of one response merged into the result. *)
Definition mergeRequeue (result response : Result) : Result :=
  if Requeue response || (0 <? RequeueAfter response) then
    {| RequeueAfter :=
         if negb (Requeue result) || (RequeueAfter response <? RequeueAfter result)
         then RequeueAfter response else RequeueAfter result;
       Requeue := true |}
  else result.

(** The variables the loop over the reconcilers changes. *)
Record readiness := { r_result : Result; r_ready : bool; r_el : ErrorList }.

Definition mergeReady (acc : readiness) (response : ReconcilerReadyResponse) : readiness :=
  {| r_result := mergeRequeue (r_result acc) (rr_Result response);
     r_ready := if negb (rr_Ready response) then false else r_ready acc;
     r_el := r_el acc ++ rr_Errors response |}.

Definition evaluateReady (name : string) (policy : CertificateRequestPolicy)
    (reconcilers : list (Reconciler S)) : M S readiness :=
  for_range reconcilers {| r_result := Result_zero; r_ready := true; r_el := [] |}
    (λ acc reconciler,
      response ← wrap_err ("failed to evaluate ready state of CertificateRequestPolicy "
        +:+ strconv_Quote name) (rec_Ready reconciler policy);
      mret (mergeReady acc response)).

Definition notReadyMessage (el : ErrorList) : string :=
  "CertificateRequestPolicy is not ready for approval evaluation: " +:+
    match ToAggregate el with
    | Some aggregate => agg_Error aggregate
    | None => nilAggregate
    end.

(** The end of the function, for either verdict. *)
Definition readyPatch (policy : CertificateRequestPolicy) (result : Result) (t : EventType)
    (status reason message : string)
    : M S (Result * option CertificateRequestPolicyStatus * option error) :=
  _ ← Event_CertificateRequestPolicy policy t reason message;
  conditions ← setCertificateRequestPolicyCondition (pst_Conditions (p_Status policy)) []
    (p_Generation policy)
    {| pc_Type := CertificateRequestPolicyConditionReady; pc_Status := status;
       pc_LastTransitionTime := None; pc_Reason := reason; pc_Message := message;
       pc_ObservedGeneration := 0 |};
  mret (result, Some {| pst_Conditions := conditions |}, None).

Definition reconcileStatusPatch (reconcilers : list (Reconciler S)) (req : NamespacedName)
    : M S (Result * option CertificateRequestPolicyStatus * option error) :=
  got ← try (Get_CertificateRequestPolicy req);
  match got with
  | inr err => mret (Result_zero, None, IgnoreNotFound err)
  | inl policy =>
      evaluated ← try (evaluateReady (nn_Name req) policy reconcilers);
      match evaluated with
      | inr err => mret (Result_zero, None, Some err)
      | inl acc =>
          if negb (r_ready acc) then
            readyPatch policy (r_result acc) EventTypeWarning ConditionFalse "NotReady"
              (notReadyMessage (r_el acc))
          else
            readyPatch policy (r_result acc) EventTypeNormal ConditionTrue "Ready"
              "CertificateRequestPolicy is ready for approval evaluation"
      end
  end.

(** What [Reconcile] does with the answer of [reconcileStatusPatch]. *)
Definition send (req : NamespacedName)
    (r : Result * option CertificateRequestPolicyStatus * option error) : M S (Result * option error) :=
  let '(result, patch, resultErr) := r in
  match patch with
  | None => mret (result, resultErr)
  | Some _ =>
      match GenerateCertificateRequestPolicyStatusPatch (nn_Name req) patch with
      | Panic w => panic w
      | Err err =>
          let err := Errorf_w "failed to generate CertificateRequestPolicy.Status patch" err in
          mret (Result_zero, NewAggregate [resultErr; Some err])
      | Ok (crp, p) =>
          patched ← try (Status_Patch_CertificateRequestPolicy (statusPatch crp p));
          match patched with
          | inr err =>
              let err := Errorf_w "failed to apply CertificateRequestPolicy.Status patch" err in
              mret (Result_zero, NewAggregate [resultErr; Some err])
          | inl _ => mret (result, resultErr)
          end
      end
  end.

Definition Reconcile (reconcilers : list (Reconciler S)) (req : NamespacedName)
    : M S (Result * option error) :=
  r ← reconcileStatusPatch reconcilers req;
  send req r.
End controller.

(** ** addCertificateRequestPolicyController: the enqueue watcher

    The goroutine that forwards the names received on the reconcilers'
    channels.  A case of the select has a channel, or none once the channel
    was found closed ([reflect.ValueOf(nil)] is never chosen). *)
Inductive chan := enqueueChan (id : nat) | ctxDone.

Definition enqueueListSelect {S} (reconcilers : list (Reconciler S)) : list (option chan) :=
  (λ id, Some (enqueueChan id)) <$> omap rec_EnqueueChan reconcilers.

Record watcher := {
  cases : list (option chan);
  sent : list string;       (* the names sent to the generic channel *)
  stopped : bool }.

Definition startWatcher (cases : list (option chan)) : watcher :=
  {| cases := cases ++ [Some ctxDone]; sent := []; stopped := false |}.

(** What [reflect.Select] answers: the case, and the value received or [None]
    when the channel is closed. *)
Record selected := { chosen : nat; val : option string }.

(** One round of the loop; [done] says that the inner select found the context
    cancelled. *)
Definition watchRound (sel : selected) (done : bool) (w : watcher) : watcher :=
  match val sel with
  | None =>
      if (chosen sel =? length (cases w) - 1)%nat
      then {| cases := cases w; sent := sent w; stopped := true |}
      else {| cases := <[chosen sel := None]> (cases w); sent := sent w; stopped := false |}
  | Some name =>
      if (done : bool) then {| cases := cases w; sent := sent w; stopped := true |}
      else {| cases := cases w; sent := sent w ++ [name]; stopped := false |}
  end.

(** The rounds that can happen: the case chosen has a channel, and nothing is
    ever sent on [ctx.Done()]. *)
Inductive watch : watcher → watcher → Prop :=
  | watch_round w sel done c :
      stopped w = false → cases w !! chosen sel = Some (Some c) →
      (c = ctxDone → val sel = None) →
      watch w (watchRound sel done w).

(** The map function of the generic channel. *)
Definition enqueueByName (name : string) : list NamespacedName :=
  [{| nn_Namespace := ""; nn_Name := name |}].

(** What the controller is built from. *)
Definition certificateRequestPolicyWatches {S} : list (Watch S) := [
  For CertificateRequestPolicyKind [];
  WatchesRawSource (λ obj, mret (enqueueByName (om_Name (GetObjectMeta obj))))].
