(* ===== verification/CertificateRequestPoliciesSpec.v ===== *)
(** * What the CertificateRequestPolicy controller reports

    Requeues, conditions, what is sent, and the enqueue watcher. *)
From S2P Require Import Prelude GoStrings K8s PolicyAPI Approver Client SSAClient Watches SampleCluster CertificateRequestPolicies.

Section requeue.
(** A response asks to be reconciled again. *)
Definition asks (r : ReconcilerReadyResponse) : Prop :=
  Requeue (rr_Result r) = true ∨ 0 < RequeueAfter (rr_Result r).
#[export] Instance asks_dec r : Decision (asks r).
Proof. unfold asks. apply _. Defined.

(** The result asks when some response does, after the least of their delays. *)
Definition requeue_merged (rs : list ReconcilerReadyResponse) (res : Result) : Prop :=
  ((∀ r, r ∈ rs → ¬ asks r) ∧ res = Result_zero) ∨
  (Requeue res = true ∧
   (∃ r, r ∈ rs ∧ asks r ∧ RequeueAfter res = RequeueAfter (rr_Result r)) ∧
   ∀ r, r ∈ rs → asks r → RequeueAfter res ≤ RequeueAfter (rr_Result r)).

Lemma mergeRequeue_asks res r :
  asks r → Requeue (mergeRequeue res (rr_Result r)) = true ∧
    RequeueAfter (mergeRequeue res (rr_Result r)) =
      if Requeue res then Z.min (RequeueAfter (rr_Result r)) (RequeueAfter res)
      else RequeueAfter (rr_Result r).
Proof.
  intros Ha. unfold mergeRequeue.
  assert (Requeue (rr_Result r) || (0 <? RequeueAfter (rr_Result r)) = true) as ->
    by (apply orb_true_iff; rewrite Z.ltb_lt; exact Ha).
  simpl. split; [done|]. destruct (Requeue res); simpl; [|done].
  destruct (Z.ltb_spec (RequeueAfter (rr_Result r)) (RequeueAfter res)); lia.
Qed.
Lemma mergeRequeue_no res r : ¬ asks r → mergeRequeue res (rr_Result r) = res.
Proof.
  unfold asks, mergeRequeue. intros Hno.
  destruct (Requeue (rr_Result r)) eqn:E; [tauto|].
  by destruct (Z.ltb_spec 0 (RequeueAfter (rr_Result r))); [tauto|].
Qed.

Lemma requeue_merged_snoc rs res r :
  requeue_merged rs res → requeue_merged (rs ++ [r]) (mergeRequeue res (rr_Result r)).
Proof.
  intros Hm. unfold requeue_merged. setoid_rewrite elem_of_app.
  setoid_rewrite list_elem_of_singleton.
  destruct (decide (asks r)) as [Ha|Ha].
  - right. destruct (mergeRequeue_asks res r Ha) as [-> ->]. split; [done|].
    destruct Hm as [[Hno ->]|(-> & (r0 & Hr0 & Ha0 & E0) & Hmin)]; simpl.
    + split; [exists r; tauto|]. intros r' [Hr'| ->] Ha'; [by destruct (Hno r')|lia].
    + split.
      * destruct (Z.le_gt_cases (RequeueAfter (rr_Result r)) (RequeueAfter res));
          [exists r|exists r0]; (split; [tauto|]); (split; [done|lia]).
      * intros r' [Hr'| ->] Ha'; [|lia]. specialize (Hmin r' Hr' Ha'). lia.
  - rewrite mergeRequeue_no by done.
    destruct Hm as [[Hno ->]|(Hq & (r0 & Hr0 & Ha0 & E0) & Hmin)]; [left|right].
    + split; [|done]. intros r' [Hr'| ->]; [by apply Hno|done].
    + split_and!; [done|exists r0; tauto|]. intros r' [Hr'| ->] Ha'; [by apply Hmin|done].
Qed.

Lemma foldl_mergeReady rs :
  let acc := foldl mergeReady {| r_result := Result_zero; r_ready := true; r_el := [] |} rs in
  requeue_merged rs (r_result acc) ∧ (r_ready acc = true ↔ Forall (λ r, rr_Ready r = true) rs) ∧
  r_el acc = (rs ≫= rr_Errors).
Proof.
  induction rs as [|r rs IH] using rev_ind.
  - simpl. split_and!; [|by rewrite Forall_nil|done]. left. split; [|done].
    by intros r ?%elem_of_nil.
  - rewrite foldl_app. simpl. destruct IH as (Hq & Hr & He). split_and!.
    + by apply requeue_merged_snoc.
    + rewrite Forall_app, Forall_singleton, <-Hr. simpl.
      destruct (rr_Ready r); simpl; naive_solver.
    + rewrite bind_app, He. simpl. by rewrite app_nil_r.
Qed.
End requeue.

Section spec.
Context {S : Type} `{Reader S} `{Client S} `{Recorder S} `{Clock S}.
Context `{ClientLib} `{ErrorLib} `{JSONLib} `{UnicodeTables}.
Implicit Types (recs : list (Reconciler S)) (p : CertificateRequestPolicy).

Definition same_state (c d : CertificateRequestPolicyCondition) : Prop :=
  pc_Type c = pc_Type d ∧ pc_Status c = pc_Status d.
(** The transition time of [c] comes from a condition of the same type and
    status, or is [now] when there is none. *)
Definition transition_time (existing : list CertificateRequestPolicyCondition)
    (c : CertificateRequestPolicyCondition) (now : Z) : Prop :=
  (∃ e, e ∈ existing ∧ same_state e c ∧ pc_LastTransitionTime c = pc_LastTransitionTime e) ∨
  ((∀ e, e ∈ existing → ¬ same_state e c) ∧ pc_LastTransitionTime c = Some now).

Lemma stampCondition_time existing gen now c :
  transition_time existing (stampCondition existing gen now c) now.
Proof.
  unfold transition_time, same_state, stampCondition, keepExistingTime. simpl.
  destruct (foldl_keep (λ time e,
    if bool_decide (pc_Type e ≠ pc_Type c) then time
    else if bool_decide (pc_Status e = pc_Status c) then pc_LastTransitionTime e else time)
    (λ e, pc_Type e = pc_Type c ∧ pc_Status e = pc_Status c) pc_LastTransitionTime existing
    (Some now)) as [[E Hno]|(e & He & Hs & E)].
  - intros b x. repeat case_bool_decide; case_decide; naive_solver.
  - right. split; [|done]. intros e He Hs. by apply (Hno e He).
  - left. by exists e.
Qed.

(** ** What a run finds *)

(** The Ready condition [c] and the requeue [res] of a policy. *)
Definition readiness_found recs (req : NamespacedName) (s : S)
    (c : CertificateRequestPolicyCondition) (res : Result) : Prop :=
  ∃ p s1 rs s2 now, Get_CertificateRequestPolicy req s = (Ok p, s1) ∧
    answers (λ r : Reconciler S, rec_Ready r p) s1 recs rs s2 ∧
    pc_Type c = CertificateRequestPolicyConditionReady ∧
    (pc_Status c = ConditionTrue ↔ Forall (λ r, rr_Ready r = true) rs) ∧
    (pc_Status c = ConditionTrue ∨
       pc_Status c = ConditionFalse ∧ pc_Message c = notReadyMessage (rs ≫= rr_Errors)) ∧
    pc_ObservedGeneration c = p_Generation p ∧
    transition_time (pst_Conditions (p_Status p)) c now ∧
    requeue_merged rs res.
Definition readiness_sent (req : NamespacedName) (c : CertificateRequestPolicyCondition)
    (patch : StatusPatch) : Prop :=
  ∃ data, json_Marshal_CertificateRequestPolicy (certificateRequestPolicyStatusConfiguration
      (nn_Name req) (Some {| pst_Conditions := [c] |})) = Ok data ∧
    patch = statusPatch {| nn_Namespace := ""; nn_Name := nn_Name req |} {| patch := data |}.

Lemma evaluateReady_Ok name p recs s acc s' :
  evaluateReady name p recs s = (Ok acc, s') ↔
    ∃ rs, answers (λ r : Reconciler S, rec_Ready r p) s recs rs s' ∧
      acc = foldl mergeReady {| r_result := Result_zero; r_ready := true; r_el := [] |} rs.
Proof.
  unfold evaluateReady.
  rewrite (for_range_answers (λ r : Reconciler S, wrap_err _ (rec_Ready r p)) mergeReady).
  by setoid_rewrite answers_wrap_err.
Qed.

Section observed.
Context {T : Type} (g : S → T) (Hg : bystanders g).

Lemma readyPatch_run p res t status reason msg s res' st err s' :
  readyPatch p res t status reason msg s = (Ok (res', st, err), s') →
  g s' = g s ∧ res' = res ∧ err = None ∧
  ∃ c now, st = Some {| pst_Conditions := [c] |} ∧
    pc_Type c = CertificateRequestPolicyConditionReady ∧ pc_Status c = status ∧
    pc_Message c = msg ∧ pc_ObservedGeneration c = p_Generation p ∧
    transition_time (pst_Conditions (p_Status p)) c now.
Proof.
  intros ([] & s1 & Hev & (conds & s2 & Hset & Hret)%M_bind_Ok)%M_bind_Ok.
  apply M_ret_Ok in Hret as [[= <- <- <-] <-].
  apply (Event_CertificateRequestPolicy_keeps g Hg) in Hev as <-.
  apply M_bind_Ok in Hset as (now & s3 & Hnow & Hset).
  apply (Now_keeps g Hg) in Hnow as <-. apply M_ret_Ok in Hset as [<- <-].
  split_and!; [done..|]. eexists _, now. split_and!; [done..|]. apply stampCondition_time.
Qed.

Lemma evaluateReady_follows R `{!PreOrder R} name p recs :
  (∀ r p, r ∈ recs → follows R (rec_Ready r p)) → follows R (evaluateReady name p recs).
Proof.
  intros Hm. apply follows_for_range_in; [done|]. intros acc r Hr.
  apply follows_bind; [done|by apply follows_wrap_err, Hm|]. intros. by apply follows_ret.
Qed.
Lemma policyStatusPatch_run recs req s res st err s' :
  (∀ r p, r ∈ recs → keeps g (rec_Ready r p)) →
  reconcileStatusPatch recs req s = (Ok (res, st, err), s') →
  g s' = g s ∧
  ((st = None ∧ ∀ p s1, Get_CertificateRequestPolicy req s = (Ok p, s1) → err ≠ None) ∨
   ∃ c, st = Some {| pst_Conditions := [c] |} ∧ err = None ∧ readiness_found recs req s c res).
Proof.
  intros Hm (got & s1 & Hget & Hrun)%M_bind_Ok.
  assert (g s1 = g s) as <-.
  { eapply keeps_try, Hget. apply (Get_CertificateRequestPolicy_keeps g Hg). }
  destruct got as [p|e].
  2:{ apply M_ret_Ok in Hrun as [[= <- <- <-] <-]. rewrite try_Ok_inr in Hget.
      split; [done|left; split; [done|]]. intros p s2 Hget'. congruence. }
  rewrite try_Ok_inl in Hget. apply M_bind_Ok in Hrun as (evaluated & s2 & Hev & Hrun).
  assert (g s2 = g s1) as <-.
  { by eapply keeps_try, Hev; apply (evaluateReady_follows (same g)). }
  destruct evaluated as [acc|e]; [|apply M_ret_Ok in Hrun as [[= <- <- <-] <-]; by auto].
  rewrite try_Ok_inl in Hev. apply evaluateReady_Ok in Hev as (rs & Hrs & Eacc).
  destruct (foldl_mergeReady rs) as (Hq & Hr & He). rewrite <-Eacc in Hq, Hr, He.
  destruct (r_ready acc) eqn:Eready; simpl in Hrun;
    apply readyPatch_run in Hrun as (-> & -> & -> & c & now & -> & ? & Est & Emsg & ? & ?);
    (split; [done|right]); exists c; (split_and!; [done..|]); exists p, s1, rs, s2, now;
    split_and!; try done; rewrite Est, ?Emsg, ?He; [tauto|by left|naive_solver|by right].
Qed.
End observed.

Context `{!PatchLog S, !PatchLogLaws S}.

(** ** The claims *)

(** [C21] A policy is reported Ready only when it is: one reconciliation sends
    at most one patch, of exactly one condition of type Ready, whose status is
    True exactly when every registered reconciler was asked about the policy
    that was read and answered ready; otherwise it is False and the message
    gives their errors.  The condition carries the generation that was read,
    and the transition time changes only with the status.  When no error is
    returned the requeue is the one that was found. *)
Theorem Reconcile_reports_readiness `{!ErrorLibLaws} recs req s res err s'
  (Hm : ∀ r p, r ∈ recs → no_patch (rec_Ready r p))
  (Hrun : Reconcile recs req s = (Ok (res, err), s')) :
  patches s' = patches s ∨
  ∃ c pt res', patches s' = patches s ++ [pt] ∧ readiness_sent req c pt ∧
    readiness_found recs req s c res' ∧ (err = None → res = res').
Proof.
  apply M_bind_Ok in Hrun as ([[res1 st] err1] & s1 & Hrec & Hrun).
  destruct (policyStatusPatch_run _ patches_bystanders _ _ _ _ _ _ _ Hm Hrec) as [<- Hst].
  destruct Hst as [[-> _]|(c & -> & -> & Hfound)]; [left; by apply M_ret_Ok in Hrun as [_ <-]|].
  unfold send in Hrun.
  destruct (GenerateCertificateRequestPolicyStatusPatch _ _) as [[key p]| |] eqn:Hgen; [|left..].
  2: by apply M_ret_Ok in Hrun as [_ <-]. 2: done.
  unfold GenerateCertificateRequestPolicyStatusPatch in Hgen.
  apply outcome_bind_Ok in Hgen as (data & Hdata & [= <- <-]).
  right. exists c, (statusPatch {| nn_Namespace := ""; nn_Name := nn_Name req |} {| patch := data |}), res1.
  apply M_bind_Ok in Hrun as (patched & s2 & Hp & Hrun).
  assert (s' = s2 ∧ (err = None → res = res1)) as [-> Hres].
  { destruct patched; apply M_ret_Ok in Hrun as [[= <- <-] <-]; [done|]. split; [done|].
    intros [_ [Hn _]%Forall_cons]%NewAggregate_None%Forall_cons. done. }
  split_and!; [|by exists data|done|done].
  unfold try in Hp. destruct (Status_Patch_CertificateRequestPolicy _ s1) as [o s3] eqn:E.
  apply Status_Patch_CertificateRequestPolicy_log in E. by destruct o; simplify_eq.
Qed.

(** Requeues are merged: the policy is reconciled again when some
    reconciler asks for it, after the shortest delay that was asked for. *)
Theorem evaluateReady_requeue name p recs s acc s'
  (Hrun : evaluateReady name p recs s = (Ok acc, s')) :
  ∃ rs, answers (λ r : Reconciler S, rec_Ready r p) s recs rs s' ∧
    requeue_merged rs (r_result acc).
Proof.
  apply evaluateReady_Ok in Hrun as (rs & Hrs & ->). exists rs. split; [done|].
  apply foldl_mergeReady.
Qed.

(** A reconciler's failure is reported and retried, and the readiness of
    the policy is left as it was: the error is returned with the name of the
    policy, the reconcilers after it are not asked, and nothing is sent. *)
Theorem reconciler_error_is_returned pre r post req s p s1 rs s2 e s3
  (Hget : Get_CertificateRequestPolicy req s = (Ok p, s1))
  (Hpre : answers (λ r : Reconciler S, rec_Ready r p) s1 pre rs s2)
  (Herr : rec_Ready r p s2 = (Err e, s3)) :
  Reconcile (pre ++ r :: post) req s =
    (Ok (Result_zero, Some (Errorf_w ("failed to evaluate ready state of CertificateRequestPolicy "
       +:+ strconv_Quote (nn_Name req)) e)), s3).
Proof.
  set (msg := "failed to evaluate ready state of CertificateRequestPolicy "
    +:+ strconv_Quote (nn_Name req)).
  assert (evaluateReady (nn_Name req) p (pre ++ r :: post) s1 = (Err (Errorf_w msg e), s3)) as Hev.
  { unfold evaluateReady. fold msg.
    apply (for_range_fails (λ r : Reconciler S, wrap_err msg (rec_Ready r p)) mergeReady
      _ _ _ _ _ rs s2); [by apply answers_wrap_err|]. unfold wrap_err. by rewrite Herr. }
  unfold Reconcile, reconcileStatusPatch. rewrite !M_bind_step. unfold try at 1.
  rewrite Hget, M_bind_step. unfold try. by rewrite Hev.
Qed.

(** Setting a condition writes the one condition of that type, with the
    generation given, and leaves the others as they were; its transition time
    comes from a condition of the patch or of the policy with the same type
    and status, and is the clock's when there is none. *)
Theorem setCertificateRequestPolicyCondition_correct existing patch gen new s conds s'
  (Hnd : NoDup (pc_Type <$> patch))
  (Hrun : setCertificateRequestPolicyCondition existing patch gen new s = (Ok conds, s')) :
  ∃ c now, Now s = (Ok now, s') ∧ same_state c new ∧ pc_Reason c = pc_Reason new ∧
    pc_Message c = pc_Message new ∧ pc_ObservedGeneration c = gen ∧
    (transition_time existing c now ∨
     ∃ e, e ∈ patch ∧ same_state e c ∧ pc_LastTransitionTime c = pc_LastTransitionTime e) ∧
    NoDup (pc_Type <$> conds) ∧
    ∀ d, d ∈ conds ↔ d = c ∨ (d ∈ patch ∧ pc_Type d ≠ pc_Type new).
Proof.
  apply M_bind_Ok in Hrun as (now & s1 & Hnow & Hret). apply M_ret_Ok in Hret as [<- <-].
  set (c0 := stampCondition existing gen now new).
  set (f := λ e, if bool_decide (pc_Status e = pc_Status c0)
    then set_LastTransitionTime (pc_LastTransitionTime e) c0 else c0).
  assert (∀ e, pc_Type (f e) = pc_Type new) as Hf by (intros e; unfold f; by case_bool_decide).
  pose proof (overwriteFirst_elem pc_Type (pc_Type c0) f c0 (λ e _, Hf e) eq_refl patch) as Helem.
  pose proof (overwriteFirst_NoDup pc_Type (pc_Type c0) f c0 (λ e _, Hf e) eq_refl patch Hnd) as Hnd'.
  destruct (decide (pc_Type c0 ∈ pc_Type <$> patch)) as [Hty|Hno].
  - apply list_elem_of_fmap in Hty as (e & Et & He).
    assert (∀ e', e' ∈ patch → pc_Type e' = pc_Type c0 → e' = e) as Huniq.
    { intros e' He' Et'. apply (NoDup_fmap_inj pc_Type patch); congruence || done. }
    exists (f e), now. unfold f at 1 2 3 4 5 6 7 8.
    split_and!; [done|by case_bool_decide..| |done|].
    + case_bool_decide as Hs; [right; exists e; by split_and!|left; apply stampCondition_time].
    + intros d. rewrite Helem by done. fold (f e). naive_solver.
  - exists c0, now. split_and!; try done; [left; apply stampCondition_time|].
    assert (∀ e, e ∈ patch → pc_Type e ≠ pc_Type c0) as Hne.
    { intros e He Et. apply Hno. rewrite <-Et. by apply list_elem_of_fmap_2. }
    intros d. rewrite Helem by done. naive_solver.
Qed.
End spec.

(** ** Triggers

    An event of a policy queues that policy, and so does the name that the
    watcher forwards on the channel; nothing else is queued. *)
Section triggers.
Context {S : Type} `{!EventDispatch S, !EventDispatchLaws S}.
Implicit Types (s : S).
Lemma policy_event_queues ev p s :
  (∀ obj, ev ≠ GenericEvent obj) → event_object ev = FullPolicy p →
  dispatch certificateRequestPolicyWatches ev s = (Ok [ObjectKey (FullPolicy p)], s).
Proof.
  intros Hev Hp. rewrite <-Hp. apply (dispatch_For _ _ CertificateRequestPolicyKind [] []); [|constructor].
  by rewrite informer_watches, Hp.
Qed.
Lemma forwarded_name_queues obj s :
  ∃ q, dispatch certificateRequestPolicyWatches (GenericEvent obj) s = (Ok q, s) ∧
    ∀ nn, nn ∈ q ↔ nn = {| nn_Namespace := ""; nn_Name := om_Name (GetObjectMeta obj) |}.
Proof.
  destruct (dispatch_mapFunc certificateRequestPolicyWatches (GenericEvent obj) _ _
    [enqueueByName (om_Name (GetObjectMeta obj))] s s eq_refl eq_refl) as (q & Hq & Hin).
  { econstructor; [reflexivity|constructor]. }
  exists q. split; [done|]. intros nn. rewrite Hin. unfold enqueueByName. split.
  - by intros (q1 & ->%list_elem_of_singleton & ->%list_elem_of_singleton).
  - intros ->. eexists. split; by apply list_elem_of_singleton.
Qed.
Lemma other_event_queues_nothing ev s :
  (∀ obj, ev ≠ GenericEvent obj) → kind_of (event_object ev) ≠ CertificateRequestPolicyKind →
  dispatch certificateRequestPolicyWatches ev s = (Ok [], s).
Proof.
  intros Hev Hk. apply dispatch_unwatched. rewrite informer_watches by done.
  by destruct (kind_of _).
Qed.
End triggers.

(** ** The enqueue watcher *)
Section watcher.
(** The cases a select can still choose. *)
Definition open_cases (w : watcher) : nat := length (omap id (cases w)).
Definition watcher_ok (n : nat) (w : watcher) : Prop :=
  length (cases w) = S n ∧ cases w !! n = Some (Some ctxDone).

Lemma close_case (l : list (option chan)) i c :
  l !! i = Some (Some c) → length (omap id l) = S (length (omap id (<[i:=None]> l))).
Proof.
  revert i. induction l as [|x l IH]; intros [|i] Hi; simplify_eq/=; [done|].
  destruct x; simpl; by rewrite (IH i Hi).
Qed.

Lemma watch_ok n w w' :
  watch w w' → watcher_ok n w →
  watcher_ok n w' ∧
  (S (length (sent w) + (open_cases w' + if stopped w' then 0 else 1)) ≤
    length (sent w') + (open_cases w + if stopped w then 0 else 1))%nat.
Proof.
  intros [w0 sel done c Hstop Hsel Hctx] [Hlen Hlast]. unfold watchRound, watcher_ok, open_cases.
  rewrite Hstop. destruct (val sel) as [name|] eqn:Ev.
  - destruct done; simpl; rewrite ?length_app; simpl; split; [done|lia|done|lia].
  - destruct (Nat.eqb_spec (chosen sel) (length (cases w0) - 1)) as [E|E]; simpl; [split; [done|lia]|].
    rewrite (close_case _ _ _ Hsel). split; [|lia].
    rewrite length_insert, list_lookup_insert_ne by lia. done.
Qed.

Lemma watch_bound n k w w' :
  nsteps watch k w w' → watcher_ok n w →
  watcher_ok n w' ∧
  (k + length (sent w) + (open_cases w' + if stopped w' then 0 else 1) ≤
    length (sent w') + (open_cases w + if stopped w then 0 else 1))%nat.
Proof.
  induction 1 as [w|k w w1 w2 Hw _ IH]; intros Hok; [split; [done|lia]|].
  destruct (watch_ok _ _ _ Hw Hok) as [Hok1 Hle]. destruct (IH Hok1). split; [done|lia].
Qed.

Lemma startWatcher_ok cs : watcher_ok (length cs) (startWatcher cs).
Proof.
  split; simpl; [by rewrite length_app, Nat.add_comm|].
  by rewrite lookup_app_r, Nat.sub_diag by done.
Qed.

(** [C34] The watcher does not spin: apart from one round per channel that was
    found closed and the last one, every round of its loop forwards a name
    that was received; and it can always be stopped by its context. *)
Theorem watcher_no_spin {T} (recs : list (Reconciler T)) k w
  (Hrun : nsteps watch k (startWatcher (enqueueListSelect recs)) w) :
  (k ≤ length (sent w) + length (enqueueListSelect recs) + 1)%nat ∧
  (stopped w = false → ∃ w', watch w w' ∧ stopped w' = true ∧ sent w' = sent w).
Proof.
  destruct (watch_bound _ _ _ _ Hrun (startWatcher_ok _)) as [[Hlen Hlast] Hle]. split.
  - assert (open_cases (startWatcher (enqueueListSelect recs)) =
      S (length (enqueueListSelect recs)))%nat as Eo.
    { unfold open_cases, startWatcher, enqueueListSelect. cbn [cases].
      rewrite omap_app, length_app, length_fmap, Nat.add_comm. simpl. f_equal.
      induction (omap rec_EnqueueChan recs) as [|c cs IH]; [done|]. apply (f_equal Datatypes.S), IH. }
    pose proof (close_case _ _ _ Hlast) as Hopen. fold (open_cases w) in Hopen.
    rewrite Eo in Hle. simpl in Hle. lia.
  - intros Hstop. eexists. split.
    + apply (watch_round w {| chosen := length (enqueueListSelect recs); val := None |} false ctxDone);
        done.
    + unfold watchRound. simpl. rewrite Hlen. simpl. rewrite Nat.sub_0_r, Nat.eqb_refl. done.
Qed.
End watcher.

Module CertificateRequestPoliciesWitnesses.
Import SampleCluster.

Definition key : NamespacedName := {| nn_Namespace := ""; nn_Name := "p" |}.
Definition reconciler (resp : outcome ReconcilerReadyResponse) (ch : option nat)
    : Reconciler cluster := {| rec_Ready _ := pure_call resp; rec_EnqueueChan := ch |}.
Definition ready : ReconcilerReadyResponse :=
  {| rr_Ready := true; rr_Errors := []; rr_Result := Result_zero |}.
Definition unready : ReconcilerReadyResponse :=
  {| rr_Ready := false; rr_Errors := []; rr_Result := {| Requeue := false; RequeueAfter := 5 |} |}.
Definition recs : list (Reconciler cluster) :=
  [reconciler (Ok ready) (Some 7%nat); reconciler (Ok unready) None].
Definition s0 : cluster := cluster_of new_request.
Definition s1 : cluster := (Reconcile recs key s0).2.

Lemma recs_no_patch r p : r ∈ recs → no_patch (rec_Ready r p).
Proof.
  intros Hr s o s'. repeat (apply elem_of_cons in Hr as [->|Hr]; [by intros [= _ <-]|]).
  by apply elem_of_nil in Hr.
Qed.
Lemma Reconcile_reports_readiness_witness :
  let res := {| Requeue := true; RequeueAfter := 5 |} in
  Reconcile recs key s0 = (Ok (res, None), s1) ∧ patches s1 ≠ patches s0 ∧
  (patches s1 = patches s0 ∨
   ∃ c pt res', patches s1 = patches s0 ++ [pt] ∧ readiness_sent key c pt ∧
     readiness_found recs key s0 c res' ∧ (@None error = None → res = res')).
Proof.
  intros res. assert (Reconcile recs key s0 = (Ok (res, None), s1)) as Hrun by reflexivity.
  split; [exact Hrun|]. split; [done|].
  apply (Reconcile_reports_readiness recs key s0 res None s1); [apply recs_no_patch|exact Hrun].
Defined.

Lemma evaluateReady_requeue_witness :
  let acc := (evaluateReady "p" empty_policy recs s0).1 in
  (∃ a, acc = Ok a) ∧
  ∀ a, acc = Ok a → ∃ rs, answers (λ r : Reconciler cluster, rec_Ready r empty_policy) s0 recs rs s0 ∧
    requeue_merged rs (r_result a).
Proof.
  intros acc. split; [by eexists|]. intros a Ha.
  apply (evaluateReady_requeue "p" empty_policy recs s0 a s0). unfold acc in Ha. by rewrite <-Ha.
Defined.

Lemma reconciler_error_is_returned_witness :
  let broken := reconciler (Err (errors_New "broken")) None in
  Reconcile ([reconciler (Ok ready) None] ++ broken :: recs) key s0 =
    (Ok (Result_zero, Some (Errorf_w ("failed to evaluate ready state of CertificateRequestPolicy "
       +:+ strconv_Quote (nn_Name key)) (errors_New "broken"))), s0).
Proof.
  intros broken.
  apply (reconciler_error_is_returned [reconciler (Ok ready) None] broken recs key s0
    empty_policy s0 [ready] s0); [reflexivity| |reflexivity].
  repeat econstructor.
Defined.

Lemma setCertificateRequestPolicyCondition_correct_witness :
  let existing := pst_Conditions (p_Status empty_policy) in
  let new := sample_condition "Ready" "False" in
  let conds := [stampCondition existing 3 42 new] in
  setCertificateRequestPolicyCondition existing [] 3 new s0 = (Ok conds, s0) ∧
  ∃ c now, Now s0 = (Ok now, s0) ∧ same_state c new ∧ pc_Reason c = pc_Reason new ∧
    pc_Message c = pc_Message new ∧ pc_ObservedGeneration c = 3 ∧
    (transition_time existing c now ∨
     ∃ e, e ∈ [] ∧ same_state e c ∧ pc_LastTransitionTime c = pc_LastTransitionTime e) ∧
    NoDup (pc_Type <$> conds) ∧
    ∀ d, d ∈ conds ↔ d = c ∨ (d ∈ [] ∧ pc_Type d ≠ pc_Type new).
Proof.
  intros existing new conds. split; [reflexivity|].
  apply (setCertificateRequestPolicyCondition_correct existing [] 3 new s0 conds s0);
    [apply NoDup_nil_2|reflexivity].
Defined.

Lemma watcher_no_spin_witness :
  let start := startWatcher (enqueueListSelect recs) in
  let w := watchRound {| chosen := 0; val := Some "p" |} false start in
  nsteps watch 1 start w ∧
  (1 ≤ length (sent w) + length (enqueueListSelect recs) + 1)%nat ∧
  (stopped w = false → ∃ w', watch w w' ∧ stopped w' = true ∧ sent w' = sent w).
Proof.
  intros start w. assert (nsteps watch 1 start w) as Hrun.
  { apply nsteps_once. by apply (watch_round start {| chosen := 0; val := Some "p" |} false
      (enqueueChan 7)). }
  split; [exact Hrun|]. apply (watcher_no_spin recs 1 w Hrun).
Defined.
End CertificateRequestPoliciesWitnesses.
