(* ===== verification/Lifecycle.v ===== *)
(** * Requests and policies over time

    The controllers against an API server that keeps what they write: what
    becomes of a request over any sequence of reconciliations, and when the
    readiness of a policy takes effect on reviews.  The laws of the API server
    have reads answer what is stored: with a cache that lags behind, a request
    that was just decided can be read as undecided, and the code itself would
    review it again.  [StaleReads] shows what still holds then. *)
From S2P Require Import Prelude GoStrings K8s PolicyAPI Approver Samples Client Predicate PredicateSpec Manager ManagerSpec SSAClient ApiServer SampleServer.
From S2P Require Import CertificateRequests CertificateRequestsSpec.
From S2P Require CertificateRequestPolicies CertificateRequestPoliciesSpec.

(** ** What one reconciliation does to the world

    Along a preorder [R], which is what the world may become while the
    controller works, and for any reading [applied] of what the API server does
    with a patch of the conditions of a request. *)
Section observed.
Context {S : Type} `{Reader S} `{Client S} `{Recorder S} `{Clock S}.
Context `{ApiUtil} `{ClientLib} `{ErrorLib} `{JSONLib} `{!ErrorLibLaws}.
Context (R : S → S → Prop) `{!PreOrder R}.
Context (applied : NamespacedName → list CertificateRequestCondition → S → S → Prop).
Context (Hr : unobtrusive R).
Context (Hpatch : ∀ nn cs data s o s',
  json_Marshal_CertificateRequest (certificateRequestStatusConfiguration (nn_Name nn)
    (nn_Namespace nn) (Some {| crst_Conditions := cs |})) = Ok data →
  Status_Patch_CertificateRequest (statusPatch nn {| patch := data |}) s = (o, s') →
  (o ≠ Ok tt ∧ R s s') ∨ applied nn cs s s').

(** A condition that is one of the two decisions. *)
Definition is_decision (c : CertificateRequestCondition) : Prop :=
  (crc_Type c = CertificateRequestConditionApproved ∨
   crc_Type c = CertificateRequestConditionDenied) ∧ crc_Status c = ConditionTrue.
Lemma decision_made_decision m req s c : decision_made m req s c → is_decision c.
Proof.
  intros (cr & s1 & resp & s2 & now & _ & _ & _ & (Hty & Hst & _) & _).
  split; [|done]. destruct Hty as [[_ ->]|[_ ->]]; auto.
Qed.

Lemma NewAggregate_error e1 e2 : NewAggregate [e1; Some e2] ≠ None.
Proof. intros [_ [Hn _]%Forall_cons]%NewAggregate_None%Forall_cons. done. Qed.

Lemma reconcileStatusPatch_follows m req :
  (∀ cr, follows R (m cr)) → follows R (reconcileStatusPatch m req).
Proof.
  intros Hm. pose proof Hr as [Hget _ Hev _ Hnow].
  apply follows_bind; [done|by apply follows_try|]. intros [cr|e]; [|by apply follows_ret].
  case_match; [by apply follows_ret|]. apply follows_bind; [done|by apply follows_try|].
  intros [resp|e]; [|apply follows_bind; [done..|]; intros; by apply follows_ret].
  unfold respondPatch. repeat case_match; unfold decisionPatch, setCertificateRequestStatusCondition; eauto 10 with go.
Qed.

Lemma send_applies req res c s o s' :
  send req (res, Some {| crst_Conditions := [c] |}, None) s = (o, s') →
  (R s s' ∧ ∀ r, o ≠ Ok (r, None)) ∨ applied req [c] s s'.
Proof.
  unfold send, GenerateCertificateRequestStatusPatch.
  destruct (json_Marshal_CertificateRequest _) as [data|e|w] eqn:Hdata; simpl.
  2:{ intros [= <- <-]. left. split; [done|]. intros r [= _ Hn]. by apply NewAggregate_error in Hn. }
  2:{ intros [= <- <-]. by left. }
  rewrite M_bind_step. unfold try. destruct req as [ns n]. simpl in *.
  destruct (Status_Patch_CertificateRequest _ s) as [o1 s1] eqn:Hp. intros Hfin.
  destruct (Hpatch {| nn_Namespace := ns; nn_Name := n |} [c] data _ _ _ Hdata Hp) as [[Ho Hsame]|Happ].
  - left. destruct o1 as [[]|e|w]; [done| |]; injection Hfin as <- <-; [|by split].
    split; [done|]. intros r [= _ Hn]. by apply NewAggregate_error in Hn.
  - right. destruct o1 as [[]|e|w]; by injection Hfin as <- <-.
Qed.

(** However it ends, a reconciliation applies no decision or exactly one. *)
Lemma reconcile_applies m req s o s' :
  (∀ cr, follows R (m cr)) → Reconcile m req s = (o, s') →
  R s s' ∨ ∃ s1 c, R s s1 ∧ decision_made m req s c ∧ applied req [c] s1 s'.
Proof.
  intros Hm. unfold Reconcile. rewrite M_bind_step. pose proof (reconcileStatusPatch_follows m req Hm) as Hk.
  destruct (reconcileStatusPatch m req s) as [[[[res st] err]|e|w] s1] eqn:Hrec; apply Hk in Hrec as Hs1.
  2-3: intros [= _ <-]; by left.
  destruct (reconcileStatusPatch_run (λ _, ()) ltac:(by split) _ _ _ _ _ _ _ ltac:(done) Hrec) as [_ Hst].
  destruct Hst as [->|(c & -> & -> & -> & Hmade)]; [intros [= _ <-]; by left|].
  intros Hsend%send_applies. destruct Hsend as [[? _]|Happ]; [left; by etrans|right]. by exists s1, c.
Qed.
End observed.

Section requests.
Context {S : Type} `{Reader S} `{Client S} `{Recorder S} `{Clock S}.
Context `{ApiUtil} `{ClientLib} `{ErrorLib} `{JSONLib} `{!ApiUtilLaws}.
Context `{!ErrorLibLaws} `{!ApiStore S, !ApiServerLaws S, !CaughtUp S}.
Implicit Types (m : manager.Interface S) (cr : CertificateRequest).

Definition approved_request cr : Prop := has_true_condition CertificateRequestConditionApproved cr.
Definition denied_request cr : Prop := has_true_condition CertificateRequestConditionDenied cr.

Lemma Reconcile_send m req : Reconcile m req = (r ← reconcileStatusPatch m req; send req r).
Proof. done. Qed.

Lemma Reconcile_reviewed m req s cr s1 resp s2 :
  Get_CertificateRequest req s = (Ok cr, s1) → decided cr = false → m cr s1 = (Ok resp, s2) →
  Reconcile m req s = (x ← respondPatch cr resp; send req x) s2.
Proof.
  intros Hget Hd Hrev. rewrite Reconcile_send. unfold reconcileStatusPatch.
  rewrite !M_bind_step. unfold try at 1. rewrite Hget, Hd, M_bind_step. unfold try. by rewrite Hrev.
Qed.

Lemma send_run req res c s o s' :
  send req (res, Some {| crst_Conditions := [c] |}, None) s = (o, s') →
  (objects_of s' = objects_of s ∧ ∀ r, o ≠ Ok (r, None)) ∨
  request_applied req [c] (objects_of s) (objects_of s').
Proof.
  apply (send_applies (same objects_of) (λ nn cs s s', request_applied nn cs (objects_of s) (objects_of s'))).
  intros nn cs data t p t'. apply Patch_CertificateRequest_applied.
Qed.

(** What one reconciliation does to the stored objects, however it ends:
    nothing, or one decision on the request, which had none. *)
Lemma reconcile_objects m req s o s' :
  (∀ cr, keeps objects_of (m cr)) → Reconcile m req s = (o, s') →
  objects_of s' = objects_of s ∨
  ∃ cr c, o_requests (objects_of s) !! req = Some cr ∧ decided cr = false ∧ is_decision c ∧
    request_applied req [c] (objects_of s) (objects_of s').
Proof.
  intros Hm Hrun.
  destruct (reconcile_applies (same objects_of)
    (λ nn cs s s', request_applied nn cs (objects_of s) (objects_of s'))
    (bystanders_unobtrusive _ objects_bystanders) (λ nn cs data t p t', Patch_CertificateRequest_applied nn cs data t p t')
    _ _ _ _ _ Hm Hrun) as [?|(s1 & c & Hs1 & Hmade & Happ)]; [by left|right].
  rewrite Hs1 in Happ. pose proof (decision_made_decision _ _ _ _ Hmade) as Hc.
  destruct Hmade as (cr & s2 & resp & s3 & now & Hget%Get_CertificateRequest_stored & Hund & _).
  by exists cr, c.
Qed.

(** ** Executions

    Reconciliations of any requests in any order, and whatever else happens in
    the cluster in between. *)
Definition consistent (o : objects) : Prop :=
  ∀ nn cr, o_requests o !! nn = Some cr → ¬ (approved_request cr ∧ denied_request cr).

Inductive step (world : objects → objects → Prop) m : S → S → Prop :=
  | step_reconcile req s o s' : Reconcile m req s = (o, s') → step world m s s'
  | step_world s s' : world (objects_of s) (objects_of s') → step world m s s'.

(** Applying a decision to an undecided request decides it that way and no
    other. *)
Lemma applied_exactly cr c conds ty :
  ¬ has_decision cr → is_decision c →
  conditions_applied crc_Type [c] (crst_Conditions (cr_Status cr)) conds →
  ty = CertificateRequestConditionApproved ∨ ty = CertificateRequestConditionDenied →
  has_true_condition ty (request_with cr conds) ↔ ty = crc_Type c.
Proof.
  intros Hno [_ Hst] (_ & Hsub & Hin) Hty. split.
  - intros (d & Hd & <- & Sd). simpl in Hd.
    destruct (Hin d Hd) as [->%list_elem_of_singleton|[Hold _]]; [done|].
    exfalso. apply Hno. destruct Hty as [Hty|Hty]; [left|right]; by exists d.
  - intros ->. exists c. split_and!; [apply Hsub; by left|done..].
Qed.
Lemma applied_consistent nn c o o' cr :
  o_requests o !! nn = Some cr → ¬ has_decision cr → is_decision c → consistent o →
  request_applied nn [c] o o' → consistent o'.
Proof.
  intros Hcr Hno Hc Hcons (cr0 & conds & Hcr0 & Happ & ->) nn' cr'. simplify_eq. simpl.
  destruct (decide (nn' = nn)) as [->|]; [|rewrite lookup_insert_ne by done; by apply Hcons].
  rewrite lookup_insert_eq. intros [= <-] [Ha Hd].
  apply (applied_exactly _ _ _ _ Hno Hc Happ) in Ha; [|by left].
  apply (applied_exactly _ _ _ _ Hno Hc Happ) in Hd; [|by right]. by rewrite <-Hd in Ha.
Qed.

(** [C14] Decisions never conflict and never change: over any execution in which
    reconciliations, successful or not, alternate with changes made by others,
    and reads go through a cache that has caught up,
    no request ever is both approved and denied, provided that the others do
    not make it so; and a reconciliation leaves every decided request, every
    other request and every policy exactly as they are, even if the answer to
    its patch is lost. *)
Theorem decisions_never_conflict (world : objects → objects → Prop) m s0 s
  (Hm : ∀ cr, keeps objects_of (m cr))
  (Hworld : ∀ o o', consistent o → world o o' → consistent o')
  (Hs0 : consistent (objects_of s0)) (Hrun : rtc (step world m) s0 s) :
  consistent (objects_of s) ∧
  ∀ req o s', Reconcile m req s = (o, s') →
    o_policies (objects_of s') = o_policies (objects_of s) ∧
    ∀ nn cr, o_requests (objects_of s) !! nn = Some cr → nn ≠ req ∨ has_decision cr →
      o_requests (objects_of s') !! nn = Some cr.
Proof.
  split.
  - revert Hs0. induction Hrun as [s|s1 s2 s3 [req t o t' Hr|t t' Hw] _ IH]; intros Hc; [done|..];
      apply IH; [|by eapply Hworld].
    destruct (reconcile_objects _ _ _ _ _ Hm Hr) as [->|(cr & c & Hcr & Hund & Hdec & Happ)]; [done|].
    eapply applied_consistent; [done| |done..]. rewrite <-decided_iff. by rewrite Hund.
  - intros req o s' Hr.
    destruct (reconcile_objects _ _ _ _ _ Hm Hr) as [->|(cr & c & Hcr & Hund & Hdec & Happ)]; [done|].
    destruct Happ as (cr0 & conds & Hcr0 & _ & ->). split; [done|]. intros nn cr' Hcr' Hne. simpl.
    rewrite lookup_insert_ne; [done|]. intros <-. simplify_eq.
    destruct Hne as [?|Hd%decided_iff]; [done|congruence].
Qed.

(** A decision is reached and stays: when the manager approved or denied
    the request that was read and the reconciliation returns no error, the
    stored request carries that decision and is otherwise unchanged, and
    reconciling it again does nothing. *)
Theorem Reconcile_settles m req s cr s1 resp s2 res s'
  (Hm : ∀ cr, keeps objects_of (m cr))
  (Hget : Get_CertificateRequest req s = (Ok cr, s1)) (Hund : ¬ has_decision cr)
  (Hrev : m cr s1 = (Ok resp, s2))
  (Hresp : manager.rv_Result resp = manager.ResultApproved ∨
     manager.rv_Result resp = manager.ResultDenied)
  (Hrun : Reconcile m req s = (Ok (res, None), s')) :
  ∃ cr', o_requests (objects_of s') !! req = Some cr' ∧
    cr' = request_with cr (crst_Conditions (cr_Status cr')) ∧
    (if bool_decide (manager.rv_Result resp = manager.ResultApproved)
     then approved_request cr' else denied_request cr') ∧
    ∀ m' cr'' s'', Get_CertificateRequest req s' = (Ok cr'', s'') →
      cr'' = cr' ∧ Reconcile m' req s' = (Ok (Result_zero, None), s'').
Proof.
  assert (decided cr = false) as Hd by (rewrite <-decided_iff in Hund; by apply not_true_is_false).
  assert (o_requests (objects_of s) !! req = Some cr) as Hcr by by eapply Get_CertificateRequest_stored.
  set (approved := bool_decide (manager.rv_Result resp = manager.ResultApproved)).
  set (ty := if approved then CertificateRequestConditionApproved else CertificateRequestConditionDenied).
  assert (∃ t r, Reconcile m req s = (x ← decisionPatch cr t r ty resp; send req x) s2) as (t & r & E).
  { rewrite (Reconcile_reviewed m req s cr s1 resp s2 Hget Hd Hrev). unfold respondPatch.
    destruct Hresp as [Ha|Ha]; unfold ty, approved; rewrite Ha;
      [by exists EventTypeNormal, "Approved"|by exists EventTypeWarning, "Denied"]. }
  rewrite E in Hrun. apply M_bind_Ok in Hrun as ([[res1 st] err1] & s3 & Hdec & Hsend).
  apply (decisionPatch_run _ objects_bystanders) in Hdec
    as (Ho & -> & -> & c & now & -> & Hty & Hst & _).
  apply send_run in Hsend as [[_ Hno]|Happ]; [by destruct (Hno res)|].
  destruct Happ as (cr0 & conds & Hcr0 & (_ & Hsub & _) & Eo).
  assert (objects_of s3 = objects_of s) as Hos.
  { rewrite Ho. apply (Hm _ _ _ _) in Hrev. rewrite Hrev.
    by apply (Get_CertificateRequest_keeps _ objects_bystanders) in Hget. }
  rewrite Hos in Hcr0. assert (cr0 = cr) as -> by congruence. exists (request_with cr conds).
  assert (o_requests (objects_of s') !! req = Some (request_with cr conds)) as Hcr'
    by (rewrite Eo; apply lookup_insert_eq).
  assert (has_true_condition ty (request_with cr conds)) as Htrue.
  { exists c. split_and!; [apply Hsub; by left|done..]. }
  split_and!; [done..| |].
  - unfold ty in Htrue. by destruct approved.
  - intros m' cr'' s'' Hget'. pose proof (Get_CertificateRequest_stored _ _ _ _ Hget') as Hst'.
    assert (cr'' = request_with cr conds) as -> by congruence.
    split; [done|]. apply (Reconcile_decided _ _ _ _ _ Hget').
    unfold ty in Htrue. destruct approved; [by left|by right].
Qed.
End requests.

(** ** Policies *)
Section policies.
Import CertificateRequestPolicies CertificateRequestPoliciesSpec.
Context {S : Type} `{Reader S} `{Client S} `{Recorder S} `{Clock S}.
Context `{ClientLib} `{ErrorLib} `{JSONLib} `{UnicodeTables} `{LabelsLib}.
Context `{!ErrorLibLaws} `{!ApiStore S, !ApiServerLaws S, !CaughtUp S}.

(** What one reconciliation does, as for requests. *)
Section observed_policies.
Context (R : S → S → Prop) `{!PreOrder R}.
Context (applied : string → list CertificateRequestPolicyCondition → S → S → Prop).
Context (Hr : unobtrusive R).
Context (Hpatch : ∀ name cs data s o s',
  json_Marshal_CertificateRequestPolicy (certificateRequestPolicyStatusConfiguration name
    (Some {| pst_Conditions := cs |})) = Ok data →
  Status_Patch_CertificateRequestPolicy
    (statusPatch {| nn_Namespace := ""; nn_Name := name |} {| patch := data |}) s = (o, s') →
  (o ≠ Ok tt ∧ R s s') ∨ applied name cs s s').

Lemma policy_send_applies req res c s o s' :
  send req (res, Some {| pst_Conditions := [c] |}, None) s = (o, s') →
  (R s s' ∧ ∀ r, o ≠ Ok (r, None)) ∨ applied (nn_Name req) [c] s s'.
Proof.
  unfold send, GenerateCertificateRequestPolicyStatusPatch.
  destruct (json_Marshal_CertificateRequestPolicy _) as [data|e|w] eqn:Hdata; simpl.
  2:{ intros [= <- <-]. left. split; [done|]. intros r [= _ Hn]. by apply NewAggregate_error in Hn. }
  2:{ intros [= <- <-]. by left. }
  rewrite M_bind_step. unfold try.
  destruct (Status_Patch_CertificateRequestPolicy _ s) as [o1 s1] eqn:Hp. intros Hfin.
  destruct (Hpatch (nn_Name req) [c] data _ _ _ Hdata Hp) as [[Ho Hsame]|Happ].
  - left. destruct o1 as [[]|e|w]; [done| |]; injection Hfin as <- <-; [|by split].
    split; [done|]. intros r [= _ Hn]. by apply NewAggregate_error in Hn.
  - right. destruct o1 as [[]|e|w]; by injection Hfin as <- <-.
Qed.
Lemma policyStatusPatch_follows recs req :
  (∀ r p, r ∈ recs → follows R (rec_Ready r p)) → follows R (reconcileStatusPatch recs req).
Proof.
  intros Hm. pose proof Hr as [_ Hget _ Hev Hnow].
  apply follows_bind; [done|by apply follows_try|]. intros [p|e]; [|by apply follows_ret].
  apply follows_bind; [done|by apply follows_try, evaluateReady_follows|].
  intros [acc|e]; [|by apply follows_ret]. unfold readyPatch, setCertificateRequestPolicyCondition.
  case_match; eauto 10 with go.
Qed.
(** However it ends, a reconciliation records nothing or what it found. *)
Lemma policy_reconcile_applies recs req s o s' :
  (∀ r p, r ∈ recs → follows R (rec_Ready r p)) → Reconcile recs req s = (o, s') →
  R s s' ∨ ∃ s1 c res, R s s1 ∧ readiness_found recs req s c res ∧ applied (nn_Name req) [c] s1 s'.
Proof.
  intros Hm. unfold Reconcile. rewrite M_bind_step. pose proof (policyStatusPatch_follows recs req Hm) as Hk.
  destruct (reconcileStatusPatch recs req s) as [[[[res st] err]|e|w] s1] eqn:Hrec; apply Hk in Hrec as Hs1.
  2-3: intros [= _ <-]; by left.
  destruct (policyStatusPatch_run (λ _, ()) ltac:(by split) _ _ _ _ _ _ _ ltac:(done) Hrec) as [_ Hst].
  destruct Hst as [[-> _]|(c & -> & -> & Hfound)]; [intros [= _ <-]; by left|].
  intros Hsend%policy_send_applies. destruct Hsend as [[? _]|Happ]; [left; by etrans|right].
  by exists s1, c, res.
Qed.
End observed_policies.

Lemma policy_send_run req res c s o s' :
  send req (res, Some {| pst_Conditions := [c] |}, None) s = (o, s') →
  (objects_of s' = objects_of s ∧ ∀ r, o ≠ Ok (r, None)) ∨
  policy_applied (nn_Name req) [c] (objects_of s) (objects_of s').
Proof.
  apply (policy_send_applies (same objects_of) (λ n cs t t', policy_applied n cs (objects_of t) (objects_of t'))).
  intros name cs data t x t'. apply Patch_CertificateRequestPolicy_applied.
Qed.

(** However it ends, a reconciliation does nothing or records what it found. *)
Lemma policy_reconcile_objects recs req s o s' :
  (∀ r p, r ∈ recs → keeps objects_of (rec_Ready r p)) → Reconcile recs req s = (o, s') →
  objects_of s' = objects_of s ∨
  ∃ c res, readiness_found recs req s c res ∧
    policy_applied (nn_Name req) [c] (objects_of s) (objects_of s').
Proof.
  intros Hm Hrun.
  destruct (policy_reconcile_applies (same objects_of)
    (λ n cs t t', policy_applied n cs (objects_of t) (objects_of t'))
    (bystanders_unobtrusive _ objects_bystanders)
    (λ name cs data t x t', Patch_CertificateRequestPolicy_applied name cs data t x t')
    _ _ _ _ _ Hm Hrun) as [?|(s1 & c & res & Hs1 & Hfound & Happ)]; [by left|right].
  exists c, res. by rewrite Hs1 in Happ.
Qed.
(** The readiness that is stored is the one that was found. *)
Lemma found_ready recs req s c res p conds :
  readiness_found recs req s c res →
  conditions_applied pc_Type [c] (pst_Conditions (p_Status p)) conds →
  is_ready (policy_with p conds) ↔ pc_Status c = ConditionTrue.
Proof.
  intros (p1 & s1 & rs & s2 & now & _ & _ & Hty & _) Happ. split.
  - intros (d & Hd & Td & Sd). simpl in Hd.
    assert (d = c) as <-; [|done].
    apply (applied_unique pc_Type [c] (pst_Conditions (p_Status p)) conds); [done|by left|done|congruence].
  - intros Hc. exists c. split_and!; [apply Happ; by left|done..].
Qed.

(** Readiness takes effect: once the policy controller has reconciled a
    policy without an error, every review that lists the policies from then on
    considers it exactly when all the reconcilers answered ready about it; what
    the policy says is left as it is, and no stale condition survives. *)
Theorem readiness_takes_effect recs req s p s1 res s'
  (Hm : ∀ r p, r ∈ recs → keeps objects_of (rec_Ready r p))
  (Hget : Get_CertificateRequestPolicy req s = (Ok p, s1))
  (Hrun : Reconcile recs req s = (Ok (res, None), s')) :
  ∃ rs s2 p', answers (λ r : Reconciler S, rec_Ready r p) s1 recs rs s2 ∧
    o_policies (objects_of s') !! nn_Name req = Some p' ∧
    p' = policy_with p (pst_Conditions (p_Status p')) ∧
    ∀ cr l s3, List_CertificateRequestPolicies s' = (Ok l, s3) →
      ∃ ps, Predicate.Ready cr (Items l) s3 = (Ok ps, s3) ∧
        (p' ∈ ps ↔ Forall (λ r, rr_Ready r = true) rs) ∧
        ∀ q, q ∈ ps → p_Name q = nn_Name req → q = p'.
Proof.
  apply M_bind_Ok in Hrun as ([[res1 st] err1] & t1 & Hrec & Hrun).
  destruct (policyStatusPatch_run _ objects_bystanders _ _ _ _ _ _ _ Hm Hrec) as [Ht1 Hst].
  destruct Hst as [[-> Herr]|(c & -> & -> & Hfound)].
  { apply M_ret_Ok in Hrun as [[= _ ->] _]. by destruct (Herr p s1 Hget). }
  apply policy_send_run in Hrun as [[_ Hno]|(p0 & conds & Hp0 & Happ & Eo)]; [by destruct (Hno res)|].
  pose proof Hfound as Hfound'.
  destruct Hfound as (p1 & s1' & rs & s2 & now & Hget' & Hrs & Hty & Htrue & Hstat & _).
  rewrite Hget in Hget'. injection Hget' as <- <-.
  destruct (Get_CertificateRequestPolicy_stored _ _ _ _ Hget) as [Hp Hname].
  rewrite Ht1 in Hp0. assert (p0 = p) as -> by congruence.
  assert (o_policies (objects_of s') !! nn_Name req = Some (policy_with p conds)) as Hp'
    by (rewrite Eo; apply lookup_insert_eq).
  assert (is_ready (policy_with p conds) ↔ Forall (λ r, rr_Ready r = true) rs) as Hready
    by (by rewrite (found_ready _ _ _ _ _ _ _ Hfound' Happ)).
  exists rs, s2, (policy_with p conds). split_and!; [done..|].
  intros cr l s3 Hl. pose proof (List_CertificateRequestPolicies_stored _ _ _ Hl) as Hitems.
  destruct (Ready_elem cr (Items l) s3) as (ps & Eps & Hps). exists ps. split_and!; [done| |].
  - rewrite Hps, Hready, Hitems. replace (p_Name (policy_with p conds)) with (nn_Name req) by done.
    naive_solver.
  - intros q [Hq _]%Hps Hn. apply Hitems in Hq. rewrite Hn in Hq. congruence.
Qed.
End policies.

Module LifecycleWitnesses.
Import SampleServer.

#[export] Instance sample_ApiUtil : ApiUtil := {
  CertificateRequestIsApproved cr := bool_decide (has_true_condition CertificateRequestConditionApproved cr);
  CertificateRequestIsDenied cr := bool_decide (has_true_condition CertificateRequestConditionDenied cr) }.
#[export] Instance sample_ApiUtilLaws : ApiUtilLaws.
Proof. split; intros cr; apply bool_decide_eq_true. Defined.

Definition key : NamespacedName := {| nn_Namespace := "ns"; nn_Name := "cr" |}.
Definition policy_key : NamespacedName := {| nn_Namespace := ""; nn_Name := "p" |}.
Definition open_request : CertificateRequest := sample_request [1] None.
Definition unready_policy : CertificateRequestPolicy :=
  policy_with (sample_policy "p" None None) [sample_condition "Ready" "False"].
Definition server : objects :=
  {| o_requests := {[key := open_request]}; o_policies := {["p" := unready_policy]} |}.

Definition approves : manager.Interface objects := λ _,
  mret {| manager.rv_Result := manager.ResultApproved; manager.rv_Message := "ok" |}.
Lemma approves_keeps cr : keeps objects_of (approves cr).
Proof. apply keeps_ret. Defined.
Definition after : objects := (Reconcile approves key server).2.
Definition quiet (o o' : objects) : Prop := o' = o.

Lemma decisions_never_conflict_witness :
  consistent server ∧ rtc (step quiet approves) server after ∧
  consistent after ∧ after ≠ server ∧
  ∀ req o s', Reconcile approves req after = (o, s') →
    o_policies s' = o_policies after ∧
    ∀ nn cr, o_requests after !! nn = Some cr → nn ≠ req ∨ has_decision cr →
      o_requests s' !! nn = Some cr.
Proof.
  assert (consistent server) as Hs.
  { intros nn cr Hcr [(c & Hc & _) _]. unfold server in Hcr. simpl in Hcr. apply lookup_singleton_Some in Hcr as [<- <-].
    by apply elem_of_nil in Hc. }
  assert (rtc (step quiet approves) server after) as Hrun.
  { apply rtc_once. eapply (step_reconcile _ _ key). apply surjective_pairing. }
  destruct (decisions_never_conflict quiet approves server after approves_keeps
    ltac:(by intros o o' Ho ->) Hs Hrun) as [Hc Hstep].
  split; [exact Hs|]. split; [exact Hrun|]. split; [exact Hc|]. split; [|exact Hstep].
  intros E. apply (f_equal (λ o, crst_Conditions ∘ cr_Status <$> (o_requests o !! key))) in E.
  vm_compute in E. discriminate E.
Defined.

Lemma Reconcile_settles_witness :
  ¬ has_decision open_request ∧
  Reconcile approves key server = (Ok (Result_zero, None), after) ∧
  ∃ cr', o_requests (objects_of after) !! key = Some cr' ∧
    cr' = request_with open_request (crst_Conditions (cr_Status cr')) ∧
    approved_request cr' ∧
    ∀ m' cr'' s'', Get_CertificateRequest key after = (Ok cr'', s'') →
      cr'' = cr' ∧ Reconcile m' key after = (Ok (Result_zero, None), s'').
Proof.
  assert (¬ has_decision open_request) as Hund
    by (intros [(c & Hc & _)|(c & Hc & _)]; by apply elem_of_nil in Hc).
  assert (Reconcile approves key server = (Ok (Result_zero, None), after)) as Hrun
    by (vm_compute; reflexivity).
  split; [exact Hund|]. split; [exact Hrun|].
  apply (Reconcile_settles approves key server open_request server
    {| manager.rv_Result := manager.ResultApproved; manager.rv_Message := "ok" |} server
    Result_zero after approves_keeps); [reflexivity|exact Hund|reflexivity|by left|exact Hrun].
Defined.

(** A reconciler that is always ready; the stale condition said it was not. *)
Definition ready_response : ReconcilerReadyResponse :=
  {| rr_Ready := true; rr_Errors := []; rr_Result := Result_zero |}.
Definition ready : Reconciler objects :=
  {| rec_Ready := λ _, mret ready_response; rec_EnqueueChan := None |}.
Definition policy_after : objects :=
  (CertificateRequestPolicies.Reconcile [ready] policy_key server).2.

Lemma readiness_takes_effect_witness :
  CertificateRequestPolicies.Reconcile [ready] policy_key server =
    (Ok (Result_zero, None), policy_after) ∧
  ∃ rs s2 p', answers (λ r : Reconciler objects, rec_Ready r unready_policy) server [ready] rs s2 ∧
    o_policies (objects_of policy_after) !! "p" = Some p' ∧
    p' = policy_with unready_policy (pst_Conditions (p_Status p')) ∧
    ∀ cr l s3, List_CertificateRequestPolicies policy_after = (Ok l, s3) →
      ∃ ps, Predicate.Ready cr (Items l) s3 = (Ok ps, s3) ∧
        (p' ∈ ps ↔ Forall (λ r, rr_Ready r = true) rs) ∧
        ∀ q, q ∈ ps → p_Name q = "p" → q = p'.
Proof.
  assert (CertificateRequestPolicies.Reconcile [ready] policy_key server =
    (Ok (Result_zero, None), policy_after)) as Hrun by (vm_compute; reflexivity).
  split; [exact Hrun|].
  apply (readiness_takes_effect [ready] policy_key server unready_policy server Result_zero policy_after);
    [|reflexivity|exact Hrun].
  intros r p ->%list_elem_of_singleton. apply keeps_ret.
Defined.

(** The reconciled policy is considered, which it was not before. *)
Example considered_after :
  let listed s := (l ← List_CertificateRequestPolicies; Predicate.Ready open_request (Items l)) s in
  (p_Name <$> default [] (match (listed server).1 with Ok l => Some l | _ => None end)) = [] ∧
  (p_Name <$> default [] (match (listed policy_after).1 with Ok l => Some l | _ => None end)) = ["p"].
Proof. vm_compute. by split. Qed.
End LifecycleWitnesses.
