(* ===== verification/Rollout.v ===== *)
(** * What becomes of the requests when policies change

    The watches queue the open requests, the queue has each of them reconciled
    (possibly more than once, in any order, with failures in between), and the
    manager reviews them by the policies of a world that now stands still.  The
    cluster then reaches the state that the policies describe, and rests. *)
From S2P Require Import Prelude GoStrings K8s PolicyAPI Approver Samples Client Predicate PredicateSpec Manager ManagerSpec SSAClient ApiServer SampleServer.
From S2P Require Import CertificateRequests CertificateRequestsSpec Lifecycle.

Definition key_of (cr : CertificateRequest) : NamespacedName :=
  {| nn_Namespace := cr_Namespace cr; nn_Name := cr_Name cr |}.

(** The requests a cache that has caught up lists, and what NotFound says. *)
Class RequestReads (S : Type) `{ApiStore S, Reader S, ClientLib} : Prop := {
  List_CertificateRequests_stored s items s' :
    List_CertificateRequests s = (Ok items, s') → objects_of s' = objects_of s ∧
    ∀ nn cr, o_requests (objects_of s) !! nn = Some cr → cr ∈ items ∧ key_of cr = nn;
  Get_CertificateRequest_absent nn s e s' :
    Get_CertificateRequest nn s = (Err e, s') → IgnoreNotFound e = None →
    o_requests (objects_of s) !! nn = None }.

(** ** Calls that stay within an invariant *)
Definition stays {S A} (I : S → Prop) (m : M S A) : Prop :=
  ∀ s o s', m s = (o, s') → I s → I s'.

Section stays.
Context {S : Type} (I : S → Prop).
Lemma stays_ret {A} (a : A) : stays I (mret a).
Proof. by intros s o s' [= _ <-]. Qed.
Lemma stays_bind {A B} (m : M S A) (f : A → M S B) :
  stays I m → (∀ a, stays I (f a)) → stays I (m ≫= f).
Proof.
  intros Hm Hf s o s'. rewrite M_bind_step. destruct (m s) as [[a| |] s1] eqn:E; intros Ho Hs;
    [eapply Hf, Hm; done|injection Ho as _ <-; by eapply Hm..].
Qed.
Lemma stays_panic {A} w : stays I (panic (A:=A) w).
Proof. by intros s o s' [= _ <-]. Qed.
Lemma stays_try {A} (m : M S A) : stays I m → stays I (try m).
Proof.
  intros Hm s o s'. unfold try. destruct (m s) as [[a| |] s1] eqn:E; intros [= _ <-]; by eapply Hm.
Qed.
End stays.
#[export] Hint Resolve stays_ret stays_bind stays_panic stays_try : go.

Section rollout.
Context {S : Type} `{Reader S} `{Client S} `{Recorder S} `{Clock S}.
Context `{ApiUtil} `{ClientLib} `{ErrorLib} `{JSONLib} `{!ApiUtilLaws}.
Context `{!ErrorLibLaws} `{!ApiStore S, !ApiServerLaws S, !CaughtUp S, !RequestReads S}.
Context `{LabelsLib} `{UnicodeTables}.

(** [I] is what a world that stands still is: the controller's own calls do not
    disturb it. *)
Record undisturbed (I : S → Prop) : Prop := {
  undisturbed_Get nn : stays I (Get_CertificateRequest nn);
  undisturbed_Event cr t r m : stays I (Event_CertificateRequest cr t r m);
  undisturbed_Now : stays I Now;
  undisturbed_Patch p : stays I (Status_Patch_CertificateRequest p) }.

Context (I : S → Prop) (HI : undisturbed I).
Context (evs : list (Evaluator S)) (w : CertificateRequest → world).
Context (Hreads : review_reads objects_of) (Hevs : ∀ e p cr, e ∈ evs → keeps objects_of (e p cr)).

Let reconcile : NamespacedName → M S (Result * option error) := Reconcile (Review (New evs)).

(** The worlds of the requests that are open in [o] are stable. *)
Definition still (o : objects) : Prop :=
  ∀ nn cr, o_requests o !! nn = Some cr → ¬ has_decision cr → stable I evs cr (w cr).

Lemma send_stays req r : stays I (send req r).
Proof.
  destruct HI as [_ _ _ Hp], r as [[res st] err]. unfold send.
  repeat case_match; eauto with go. apply stays_bind; [by apply stays_try|].
  intros []; apply stays_ret.
Qed.
Lemma respondPatch_stays cr resp : stays I (respondPatch cr resp).
Proof.
  destruct HI as [_ He Hn _]. unfold respondPatch, decisionPatch, setCertificateRequestStatusCondition.
  repeat case_match; eauto 10 with go.
Qed.

(** ** One reconciliation *)

(** What becomes of an open request on which the manager answered. *)
Definition decided_as cr (resp : manager.ReviewResponse) cr' : Prop :=
  ((manager.rv_Result resp = manager.ResultApproved ∧ approved_request cr' ∧ ¬ denied_request cr') ∨
   (manager.rv_Result resp = manager.ResultDenied ∧ denied_request cr' ∧ ¬ approved_request cr')) ∧
  cr' = request_with cr (crst_Conditions (cr_Status cr')).

Lemma decided_as_decision cr resp cr' : decided_as cr resp cr' → has_decision cr'.
Proof. intros [[(_ & ? & _)|(_ & ? & _)] _]; [by left|by right]. Qed.
Lemma review_trichotomy cr u :
  manager.rv_Result (review cr u) = manager.ResultApproved ∨
  manager.rv_Result (review cr u) = manager.ResultDenied ∨
  manager.rv_Result (review cr u) = manager.ResultUnprocessed.
Proof.
  destruct (review_cases cr u) as [[_ ->]|[_ ->]]; [by auto|].
  rewrite decision_result. case_match; auto.
Qed.

(** No reconciliation is needed for the request [nn] any more. *)
Definition at_rest (o : objects) (nn : NamespacedName) : Prop :=
  ∀ cr, o_requests o !! nn = Some cr →
    has_decision cr ∨ manager.rv_Result (review cr (w cr)) = manager.ResultUnprocessed.

Definition store (o : objects) (nn : NamespacedName) cr : objects :=
  {| o_requests := <[nn:=cr]> (o_requests o); o_policies := o_policies o |}.

Lemma applied_decided_as cr c conds resp :
  ¬ has_decision cr → condition_of resp c →
  conditions_applied crc_Type [c] (crst_Conditions (cr_Status cr)) conds →
  decided_as cr resp (request_with cr conds).
Proof.
  intros Hno (Hty & Hst & _) Happ.
  assert (is_decision c) as Hc by (split; [destruct Hty as [[_ ->]|[_ ->]]; auto|done]).
  pose proof (applied_exactly _ _ _ CertificateRequestConditionApproved Hno Hc Happ (or_introl eq_refl)) as Ha.
  pose proof (applied_exactly _ _ _ CertificateRequestConditionDenied Hno Hc Happ (or_intror eq_refl)) as Hd.
  split; [|done]. unfold approved_request, denied_request. rewrite Ha, Hd.
  destruct Hty as [[-> ->]|[-> ->]]; [left|right]; done.
Qed.

(** The branch on the answer of the manager, from a state with the same
    objects. *)
Lemma respond_step cr req t res err t' :
  o_requests (objects_of t) !! req = Some cr → ¬ has_decision cr →
  (x ← respondPatch cr (review cr (w cr)); send req x) t = (Ok (res, err), t') →
  (objects_of t' = objects_of t ∧
    (err = None → manager.rv_Result (review cr (w cr)) = manager.ResultUnprocessed)) ∨
  ∃ cr', decided_as cr (review cr (w cr)) cr' ∧ objects_of t' = store (objects_of t) req cr'.
Proof.
  intros Hcr Hno Hrun. set (resp := review cr (w cr)) in *.
  apply M_bind_Ok in Hrun as ([[res1 st] err1] & t1 & Hresp & Hsend).
  assert (∃ ty r k, (manager.rv_Result resp = manager.ResultApproved ∧ k = CertificateRequestConditionApproved ∨
      manager.rv_Result resp = manager.ResultDenied ∧ k = CertificateRequestConditionDenied) ∧
      respondPatch cr resp = decisionPatch cr ty r k resp ∨
    manager.rv_Result resp = manager.ResultUnprocessed) as (ty & r & k & [[Hk E]|Hu]).
  { destruct (review_trichotomy cr (w cr)) as [E|[E|E]]; fold resp in E; unfold respondPatch; rewrite E;
      [eexists _, _, _; left; split; [by left|done]|eexists _, _, _; left; split; [by right|done]
      |by exists EventTypeNormal, "", ""; right]. }
  - rewrite E in Hresp. apply (decisionPatch_run _ objects_bystanders) in Hresp
      as (Ho & -> & -> & c & now & -> & Hty & Hst & Hrea & Hmsg & _).
    apply send_run in Hsend as [[Ho' Hno']|(cr0 & conds & Hcr0 & Happ & Eo)].
    + left. split; [congruence|]. intros ->. by destruct (Hno' res).
    + right. rewrite Ho in *. assert (cr0 = cr) as -> by congruence.
      exists (request_with cr conds). split; [|by rewrite Eo].
      apply (applied_decided_as cr c); [done| |done]. subst k. split; [|done]. naive_solver.
  - left. unfold respondPatch in Hresp. rewrite Hu in Hresp. simpl in Hresp.
    apply M_bind_Ok in Hresp as ([] & t2 & Hev & [[= <- <- <-] <-]%M_ret_Ok).
    apply (Event_CertificateRequest_keeps _ objects_bystanders) in Hev.
    apply M_ret_Ok in Hsend as [_ <-]. done.
Qed.

Lemma Reconcile_step req t res err t' :
  I t → still (objects_of t) → reconcile req t = (Ok (res, err), t') →
  I t' ∧
  ((objects_of t' = objects_of t ∧ (err = None → at_rest (objects_of t) req)) ∨
   ∃ cr cr', o_requests (objects_of t) !! req = Some cr ∧ ¬ has_decision cr ∧
     decided_as cr (review cr (w cr)) cr' ∧ objects_of t' = store (objects_of t) req cr').
Proof.
  intros Ht Hstill Hrun. unfold reconcile in Hrun.
  destruct (Get_CertificateRequest req t) as [[cr|e|x] t1] eqn:Hget.
  - pose proof (Get_CertificateRequest_stored _ _ _ _ Hget) as Hcr.
    pose proof (Get_CertificateRequest_keeps _ objects_bystanders _ _ _ _ Hget) as Ho1.
    pose proof (undisturbed_Get _ HI _ _ _ _ Hget Ht) as Ht1.
    destruct (decide (has_decision cr)) as [Hd|Hno].
    + rewrite (Reconcile_decided _ _ _ _ _ Hget Hd) in Hrun. simplify_eq.
      split; [done|left]. split; [done|]. intros _ cr' Hcr'. left. congruence.
    + destruct (returns_Review _ _ _ _ (Hstill _ _ Hcr Hno) t1 Ht1) as (t2 & Hrev & Ht2).
      assert (decided cr = false) as Hd by (by rewrite <-decided_iff in Hno; apply not_true_is_false).
      rewrite (Reconcile_reviewed _ _ _ _ _ _ _ Hget Hd Hrev) in Hrun.
      pose proof (Review_keep objects_of evs cr Hreads (λ e p, Hevs e p cr) _ _ _ Hrev) as Ho2. rewrite Ho1 in Ho2. split.
      { eapply stays_bind; [apply respondPatch_stays|intros r; apply send_stays|exact Hrun|done]. }
      rewrite <-Ho2 in Hcr |- *.
      destruct (respond_step _ _ _ _ _ _ Hcr Hno Hrun) as [[Ho Herr]|(cr' & Hdec & Ho)].
      * left. split; [done|]. intros He%Herr cr' Hcr'. right. by assert (cr' = cr) as -> by congruence.
      * right. by exists cr, cr'.
  - unfold Reconcile, reconcileStatusPatch in Hrun. rewrite !M_bind_step in Hrun.
    unfold try at 1 in Hrun. rewrite Hget in Hrun. apply M_ret_Ok in Hrun as [[= <- <-] <-].
    split; [by eapply (undisturbed_Get _ HI)|left].
    split; [by apply (Get_CertificateRequest_keeps _ objects_bystanders) in Hget|].
    intros He cr Hcr. rewrite (Get_CertificateRequest_absent _ _ _ _ Hget He) in Hcr. done.
  - unfold Reconcile, reconcileStatusPatch in Hrun. rewrite !M_bind_step in Hrun.
    unfold try at 1 in Hrun. by rewrite Hget in Hrun.
Qed.

(** ** Any number of reconciliations *)
Definition progressed (o o' : objects) : Prop :=
  o_policies o' = o_policies o ∧ ∀ nn,
    match o_requests o !! nn with
    | None => o_requests o' !! nn = None
    | Some cr => o_requests o' !! nn = Some cr ∨
        (¬ has_decision cr ∧ ∃ cr', o_requests o' !! nn = Some cr' ∧ decided_as cr (review cr (w cr)) cr')
    end.

Lemma progressed_refl o : progressed o o.
Proof. split; [done|]. intros nn. case_match; auto. Qed.
(** What is still open has not changed. *)
Lemma progressed_open o o' nn cr :
  progressed o o' → o_requests o' !! nn = Some cr → ¬ has_decision cr → o_requests o !! nn = Some cr.
Proof.
  intros [_ Hp] Hcr Hno. specialize (Hp nn). destruct (o_requests o !! nn) as [cr0|] eqn:E; [|congruence].
  destruct Hp as [Hp|(_ & cr' & Hp & Hd%decided_as_decision)]; congruence.
Qed.
Lemma progressed_still o o' : progressed o o' → still o → still o'.
Proof. intros Hp Hs nn cr Hcr Hno. eapply Hs; [by eapply progressed_open|done]. Qed.
Lemma progressed_store o o' nn cr cr' :
  progressed o o' → o_requests o' !! nn = Some cr → ¬ has_decision cr →
  decided_as cr (review cr (w cr)) cr' → progressed o (store o' nn cr').
Proof.
  intros Hp Hcr Hno Hd. pose proof (progressed_open _ _ _ _ Hp Hcr Hno) as E.
  split; [apply Hp|]. intros mm. simpl. destruct (decide (mm = nn)) as [->|Hne].
  - rewrite E, lookup_insert_eq. eauto.
  - rewrite lookup_insert_ne by done. apply Hp.
Qed.
Lemma progressed_rest o o' nn : progressed o o' → at_rest o nn → at_rest o' nn.
Proof.
  intros Hp Hr cr Hcr. destruct (decide (has_decision cr)) as [|Hno]; [by left|].
  apply Hr. by eapply progressed_open.
Qed.

Lemma Reconcile_run t reqs rs t' :
  answers reconcile t reqs rs t' → I t → still (objects_of t) →
  I t' ∧ progressed (objects_of t) (objects_of t') ∧
  ∀ i nn res, reqs !! i = Some nn → rs !! i = Some (res, None) → at_rest (objects_of t') nn.
Proof.
  intros Hrun.
  assert (∀ o, progressed o (objects_of t) → I t → still (objects_of t) →
    I t' ∧ progressed o (objects_of t') ∧ progressed (objects_of t) (objects_of t') ∧
    ∀ i nn res, reqs !! i = Some nn → rs !! i = Some (res, None) → at_rest (objects_of t') nn) as Hgen.
  2:{ intros Ht Hs. destruct (Hgen (objects_of t) (progressed_refl _) Ht Hs) as (? & ? & _ & ?). done. }
  induction Hrun as [t|t req [res err] t1 reqs rs t2 Hreq _ IH]; intros o Hp Ht Hs.
  { split_and!; [done|done|apply progressed_refl|done]. }
  destruct (Reconcile_step _ _ _ _ _ Ht Hs Hreq) as [Ht1 Hstep].
  assert (progressed (objects_of t) (objects_of t1) ∧ progressed o (objects_of t1) ∧
    (err = None → at_rest (objects_of t1) req)) as (Hp1 & Hp2 & Hrest).
  { destruct Hstep as [[-> Hrest]|(cr & cr' & Hcr & Hno & Hd & ->)];
      [split_and!; [apply progressed_refl|done|done]|].
    split_and!; [by eapply progressed_store; [apply progressed_refl|..]|by eapply progressed_store|].
    intros _ cr2. simpl. rewrite lookup_insert_eq. intros [= <-]. left. by eapply decided_as_decision. }
  pose proof (progressed_still _ _ Hp1 Hs) as Hs1.
  destruct (IH o Hp2 Ht1 Hs1) as (Ht2 & Hp3 & Hp4 & Hall).
  destruct (IH (objects_of t) Hp1 Ht1 Hs1) as (_ & Hp5 & _).
  split_and!; [done..|]. intros [|i] nn res' Hnn Hr; simpl in *; [|by eapply Hall].
  simplify_eq. eapply progressed_rest; [exact Hp4|]. by apply Hrest.
Qed.

(** Once everything is at rest nothing moves. *)
Lemma Reconcile_rests t reqs rs t' :
  answers reconcile t reqs rs t' → I t → still (objects_of t) →
  (∀ nn, at_rest (objects_of t) nn) → objects_of t' = objects_of t.
Proof.
  induction 1 as [t|t req [res err] t1 reqs rs t2 Hreq _ IH]; intros Ht Hs Hrest; [done|].
  destruct (Reconcile_step _ _ _ _ _ Ht Hs Hreq) as [Ht1 [[Ho _]|(cr & cr' & Hcr & Hno & Hd & _)]].
  - rewrite Ho in IH. by apply IH.
  - destruct (Hrest req cr Hcr) as [|E]; [done|]. destruct Hd as [[(Ed & _)|(Ed & _)] _]; by rewrite Ed in E.
Qed.

(** ** The queue worked off *)

(** Every request that was queued has been reconciled without an error. *)
Definition served {A} (queue reqs : list A) (rs : list (Result * option error)) : Prop :=
  ∀ nn, nn ∈ queue → ∃ i res, reqs !! i = Some nn ∧ rs !! i = Some (res, None).

Lemma enqueue_Ok s queue s1 :
  enqueueRequestFromMapFunc s = (Ok queue, s1) →
  ∃ items, List_CertificateRequests s = (Ok items, s1) ∧ queue = open_requests items.
Proof.
  unfold enqueueRequestFromMapFunc. rewrite M_bind_step. unfold try.
  destruct (List_CertificateRequests s) as [[items|e|x] s2]; [|done..]. rewrite for_range_enqueue.
  intros [= <- <-]. by exists items.
Qed.
Lemma queue_worked_off s queue s1 reqs rs s' :
  I s1 → still (objects_of s) → enqueueRequestFromMapFunc s = (Ok queue, s1) →
  answers reconcile s1 reqs rs s' → served queue reqs rs →
  I s' ∧ progressed (objects_of s) (objects_of s') ∧ ∀ nn, at_rest (objects_of s') nn.
Proof.
  intros Hs Hstill (items & Hlist & ->)%enqueue_Ok Hrun Hall.
  apply List_CertificateRequests_stored in Hlist as [Ho Hitems]. rewrite <-Ho in Hstill, Hitems |- *.
  destruct (Reconcile_run _ _ _ _ Hrun Hs Hstill) as (Hs' & Hp & Hdone).
  split_and!; [done..|]. intros nn cr Hcr. destruct (decide (has_decision cr)) as [|Hno]; [by left|].
  destruct (Hitems nn cr) as [Hin <-]; [by eapply progressed_open|].
  destruct (Hall (key_of cr)) as (i & res & Hi & Hr).
  { apply list_elem_of_fmap. exists cr. split; [done|]. by apply list_elem_of_filter. }
  by eapply Hdone.
Qed.

(** What has become of the request [cr] when it is [cr']. *)
Definition outcome_of (cr cr' : CertificateRequest) : Prop :=
  cr' = request_with cr (crst_Conditions (cr_Status cr')) ∧
  (has_decision cr → cr' = cr) ∧
  (¬ has_decision cr →
    (approved_request cr' ↔ ∃ p, p ∈ w_items (w cr) ∧ applicable cr (w cr) p ∧
       passed (w_verdict (w cr) p) = true) ∧
    (denied_request cr' ↔ (∃ p, p ∈ w_items (w cr) ∧ applicable cr (w cr) p) ∧
       ∀ p, p ∈ w_items (w cr) → applicable cr (w cr) p → passed (w_verdict (w cr) p) = false) ∧
    ((∀ p, p ∈ w_items (w cr) → ¬ applicable cr (w cr) p) → cr' = cr)).
Lemma progressed_outcome o o' nn cr :
  progressed o o' → at_rest o' nn → o_requests o !! nn = Some cr →
  ∃ cr', o_requests o' !! nn = Some cr' ∧ outcome_of cr cr'.
Proof.
  intros [_ Hp] Hrest Hcr. specialize (Hp nn). rewrite Hcr in Hp.
  destruct (review_result cr (w cr)) as (RA & RU & RD).
  destruct Hp as [Hnn|(Hno & cr' & Hnn & Hd)].
  - exists cr. split; [done|]. split; [by destruct cr as [? ? []]|]. split; [done|]. intros Hno.
    rewrite <-RA, <-RD, <-RU.
    assert (manager.rv_Result (review cr (w cr)) = manager.ResultUnprocessed) as ->
      by (by destruct (Hrest _ Hnn)).
    split_and!; [| |done]; (split; [intros Hx; exfalso; apply Hno|done]); [by left|by right].
  - exists cr'. split; [done|]. split; [apply Hd|]. split; [done|]. intros _. rewrite <-RA, <-RD, <-RU.
    destruct Hd as [[(-> & ? & ?)|(-> & ? & ?)] _]; by split_and!.
Qed.

(** [C16] The cluster settles in the state its policies describe.  Let the watch
    handler have queued the open requests, and let each of them then be
    reconciled at least once without an error, in any order, among any other
    reconciliations, failing ones included.  In a world that stands still, and
    with reads that have caught up, every request that was open is then Approved exactly when some applicable policy is
    denied by no evaluator, Denied exactly when policies apply and each is denied,
    never both, and untouched when none applies; decided requests, policies and
    everything else are as they were; and no later reconciliation changes
    anything. *)
Theorem rollout_settles s queue s1 reqs rs s'
  (Hs : I s1) (Hstill : still (objects_of s))
  (Hqueue : enqueueRequestFromMapFunc s = (Ok queue, s1))
  (Hrun : answers (Reconcile (Review (New evs))) s1 reqs rs s')
  (Hall : ∀ nn, nn ∈ queue → ∃ i res, reqs !! i = Some nn ∧ rs !! i = Some (res, None)) :
  o_policies (objects_of s') = o_policies (objects_of s) ∧
  (∀ nn, o_requests (objects_of s) !! nn = None → o_requests (objects_of s') !! nn = None) ∧
  (∀ nn cr, o_requests (objects_of s) !! nn = Some cr → ∃ cr',
    o_requests (objects_of s') !! nn = Some cr' ∧
    cr' = request_with cr (crst_Conditions (cr_Status cr')) ∧
    (has_decision cr → cr' = cr) ∧
    (¬ has_decision cr →
      (approved_request cr' ↔ ∃ p, p ∈ w_items (w cr) ∧ applicable cr (w cr) p ∧
         passed (w_verdict (w cr) p) = true) ∧
      (denied_request cr' ↔ (∃ p, p ∈ w_items (w cr) ∧ applicable cr (w cr) p) ∧
         ∀ p, p ∈ w_items (w cr) → applicable cr (w cr) p → passed (w_verdict (w cr) p) = false) ∧
      ((∀ p, p ∈ w_items (w cr) → ¬ applicable cr (w cr) p) → cr' = cr))) ∧
  ∀ reqs' rs' s'', answers (Reconcile (Review (New evs))) s' reqs' rs' s'' →
    objects_of s'' = objects_of s'.
Proof.
  destruct (queue_worked_off _ _ _ _ _ _ Hs Hstill Hqueue Hrun Hall) as (Hs' & Hp & Hrest).
  split; [apply Hp|]. split.
  { intros nn E. destruct Hp as [_ Hp]. specialize (Hp nn). by rewrite E in Hp. }
  split; [intros nn cr Hcr; by eapply progressed_outcome|].
  intros reqs' rs' s'' Hr. eapply Reconcile_rests; [exact Hr|done|by eapply progressed_still|done].
Qed.
End rollout.

Module RolloutWitnesses.
Import SampleServer LifecycleWitnesses.

#[export] Instance server_RequestReads : RequestReads objects.
Proof.
  split.
  - intros s items s'. simpl. case_decide as Hk; [|done]. intros [= <- <-]. split; [done|].
    intros nn cr Hcr. unfold objects_of in Hcr. simpl in Hcr. split.
    + apply list_elem_of_fmap. exists (nn, cr). split; [done|]. by apply elem_of_map_to_list.
    + symmetry. by apply Hk.
  - intros nn s e s'. simpl. unfold objects_of. simpl. by destruct (o_requests s !! nn).
Defined.

(** One open request and one ready policy that no evaluator denies. *)
Definition ready_policy : CertificateRequestPolicy := sample_policy "p" None None.
Definition policies : gmap string CertificateRequestPolicy := {["p" := ready_policy]}.
Definition start : objects := {| o_requests := {[key_of open_request := open_request]}; o_policies := policies |}.
Definition standing (o : objects) : Prop := o_policies o = policies.
Definition lenient : Evaluator objects := λ _ _,
  mret {| ev_Result := ResultNotDenied; ev_Message := "" |}.
Definition sample_world : world := {|
  w_items := [ready_policy]; w_labels := ∅; w_may_use := λ _, true;
  w_verdict := λ _, [{| ev_Result := ResultNotDenied; ev_Message := "" |}] |}.
Definition reconcile : NamespacedName → M objects (Result * option error) :=
  Reconcile (Review (New [lenient])).
Definition finish : objects := (reconcile (key_of open_request) start).2.

Lemma standing_undisturbed : undisturbed standing.
Proof.
  split; intros; intros s o s'; try by intros [= _ <-].
  simpl. unfold apply_request. repeat case_match; by intros [= _ <-].
Qed.
Lemma sample_stable cr : stable standing [lenient] cr sample_world.
Proof.
  split.
  - intros s Hs. exists s. split; [|done]. unfold standing in Hs. simpl. by rewrite Hs.
  - apply Forall_singleton, NoDup_singleton.
  - apply returns_ret.
  - intros p ->%list_elem_of_singleton. by eexists.
  - intros p _ s Hs. by exists s.
  - intros p _. apply Forall2_cons. split; [apply returns_ret|constructor].
Qed.

Lemma rollout_settles_witness :
  enqueueRequestFromMapFunc start = (Ok [key_of open_request], start) ∧
  finish ≠ start ∧
  ∃ cr', o_requests (objects_of finish) !! key_of open_request = Some cr' ∧ approved_request cr' ∧
    ∀ reqs rs s'', answers reconcile finish reqs rs s'' → objects_of s'' = objects_of finish.
Proof.
  assert (enqueueRequestFromMapFunc start = (Ok [key_of open_request], start)) as Hq by reflexivity.
  assert (answers reconcile start [key_of open_request] [(Result_zero, None)] finish) as Hrun.
  { eapply run_cons; [|apply run_nil]. reflexivity. }
  assert (¬ has_decision open_request) as Hno
    by (intros [(c & Hc & _)|(c & Hc & _)]; by apply elem_of_nil in Hc).
  assert (review_reads (S:=objects) objects_of) as Hreads
    by (split; intros; intros s o s'; simpl; by intros [= _ <-]).
  destruct (rollout_settles standing standing_undisturbed [lenient] (λ _, sample_world) Hreads
    ltac:(intros e p cr ->%list_elem_of_singleton; apply keeps_ret)
    start [key_of open_request] start [key_of open_request] [(Result_zero, None)] finish
    eq_refl ltac:(intros nn cr _ _; apply sample_stable) Hq Hrun)
    as (_ & _ & Hcrs & Hquiet).
  { intros nn ->%list_elem_of_singleton. exists 0%nat, Result_zero. split; reflexivity. }
  split; [exact Hq|]. split.
  { intros E. apply (f_equal (λ o, crst_Conditions ∘ cr_Status <$> (o_requests o !! key_of open_request))) in E.
    vm_compute in E. discriminate E. }
  destruct (Hcrs (key_of open_request) open_request) as (cr' & Hcr' & _ & _ & Hopen); [done|].
  exists cr'. split; [exact Hcr'|]. split; [|exact Hquiet].
  apply (Hopen Hno). exists ready_policy. split_and!; [by left| |done].
  apply (bool_decide_unpack (applicable open_request sample_world ready_policy)). by vm_compute.
Defined.
End RolloutWitnesses.
