(* ===== verification/PolicyRollout.v ===== *)
(** * What becomes of the policies

    The controller of the policies watches the objects it writes, so each write
    of a status has the policy reconciled again.  It comes to rest because what
    it writes is, the second time, what is stored: once every policy has been
    reconciled, each one says whether it is ready, and nothing is written any
    more. *)
From S2P Require Import Prelude GoStrings K8s PolicyAPI Approver Samples Client Predicate PredicateSpec SSAClient ApiServer SampleServer.
From S2P Require Import Lifecycle Rollout.
From S2P Require Import CertificateRequestPolicies CertificateRequestPoliciesSpec.

(** What NotFound says, and that an apply is no change when it finds its
    condition stored: the program applies the Ready condition and no other, so
    it owns nothing that the apply could take back. *)
Class PolicyReads (S : Type) `{ApiStore S, Reader S, Client S, ClientLib, JSONLib} : Prop := {
  Get_CertificateRequestPolicy_absent nn s e s' :
    Get_CertificateRequestPolicy nn s = (Err e, s') → IgnoreNotFound e = None →
    o_policies (objects_of s) !! nn_Name nn = None;
  Patch_CertificateRequestPolicy_again name c data s o s' p :
    json_Marshal_CertificateRequestPolicy (certificateRequestPolicyStatusConfiguration name
      (Some {| pst_Conditions := [c] |})) = Ok data →
    Status_Patch_CertificateRequestPolicy
      (statusPatch {| nn_Namespace := ""; nn_Name := name |} {| patch := data |}) s = (o, s') →
    pc_Type c = CertificateRequestPolicyConditionReady →
    o_policies (objects_of s) !! name = Some p → c ∈ pst_Conditions (p_Status p) →
    objects_of s' = objects_of s }.

Section rollout.
Context {S : Type} `{Reader S} `{Client S} `{Recorder S} `{Clock S}.
Context `{ClientLib} `{ErrorLib} `{JSONLib} `{UnicodeTables} `{LabelsLib}.
Context `{!ErrorLibLaws} `{!ApiStore S, !ApiServerLaws S, !CaughtUp S, !PolicyReads S}.

(** ** What is written *)

(** The condition the controller asks for after the answers [rs]. *)
Definition verdict (rs : list ReconcilerReadyResponse) : CertificateRequestPolicyCondition :=
  let ready := forallb rr_Ready rs in
  {| pc_Type := CertificateRequestPolicyConditionReady;
     pc_Status := if ready then ConditionTrue else ConditionFalse;
     pc_LastTransitionTime := None;
     pc_Reason := if ready then "Ready" else "NotReady";
     pc_Message := if ready then "CertificateRequestPolicy is ready for approval evaluation"
                   else notReadyMessage (rs ≫= rr_Errors);
     pc_ObservedGeneration := 0 |}.
Definition written (p : CertificateRequestPolicy) (rs : list ReconcilerReadyResponse) (now : Z) :=
  stampCondition (pst_Conditions (p_Status p)) (p_Generation p) now (verdict rs).

Lemma readyPatch_exact p res t status reason msg s x s' :
  readyPatch p res t status reason msg s = (Ok x, s') →
  ∃ now, x = (res, Some {| pst_Conditions := [stampCondition (pst_Conditions (p_Status p)) (p_Generation p) now
    {| pc_Type := CertificateRequestPolicyConditionReady; pc_Status := status;
       pc_LastTransitionTime := None; pc_Reason := reason; pc_Message := msg;
       pc_ObservedGeneration := 0 |}] |}, None).
Proof.
  intros ([] & s1 & _ & (conds & s2 & (now & s3 & _ & [<- _]%M_ret_Ok)%M_bind_Ok & [<- _]%M_ret_Ok)%M_bind_Ok)%M_bind_Ok.
  by exists now.
Qed.
Lemma patch_exact recs req s p s1 rs s2 x s' :
  Get_CertificateRequestPolicy req s = (Ok p, s1) →
  answers (λ r : Reconciler S, rec_Ready r p) s1 recs rs s2 →
  reconcileStatusPatch recs req s = (Ok x, s') →
  ∃ res now, x = (res, Some {| pst_Conditions := [written p rs now] |}, None).
Proof.
  intros Hget Hrs. unfold reconcileStatusPatch. rewrite M_bind_step. unfold try at 1. rewrite Hget.
  assert (evaluateReady (nn_Name req) p recs s1 =
    (Ok (foldl mergeReady {| r_result := Result_zero; r_ready := true; r_el := [] |} rs), s2)) as Hev
    by (apply evaluateReady_Ok; by exists rs).
  rewrite M_bind_step. unfold try. rewrite Hev.
  destruct (foldl_mergeReady rs) as (_ & Hr & He). set (acc := foldl _ _ _) in *.
  assert (forallb rr_Ready rs = r_ready acc) as Ef
    by (apply eq_iff_eq_true; by rewrite forallb_Forall, Hr).
  unfold written, verdict. rewrite Ef, <-He.
  destruct (r_ready acc); simpl; intros [now ->]%readyPatch_exact; by exists (r_result acc), now.
Qed.

(** ** The policies in place *)

(** The reconciliation of [p] on the answers [rs] would write what is stored,
    whatever the time. *)
Definition settled (rs : list ReconcilerReadyResponse) (p : CertificateRequestPolicy) : Prop :=
  NoDup (pc_Type <$> pst_Conditions (p_Status p)) ∧
  ∃ c, c ∈ pst_Conditions (p_Status p) ∧ ∀ now, written p rs now = c.

Lemma settled_written rs p now :
  settled rs p → written p rs now ∈ pst_Conditions (p_Status p).
Proof. intros (_ & c & Hc & Hw). by rewrite Hw. Qed.
Lemma applied_settled rs p now conds :
  conditions_applied pc_Type [written p rs now] (pst_Conditions (p_Status p)) conds →
  settled rs (policy_with p conds).
Proof.
  intros Happ. destruct Happ as (Hnd & Hsub & Hin). split; [done|].
  set (c := written p rs now) in *. assert (c ∈ conds) as Hc by (apply Hsub; by left).
  exists c. split; [done|]. intros now'.
  assert (pc_LastTransitionTime (written (policy_with p conds) rs now') = pc_LastTransitionTime c) as Ht.
  { destruct (stampCondition_time conds (p_Generation p) now' (verdict rs)) as [(e & He & [Te _] & E)|[Hno _]].
    - etrans; [exact E|]. f_equal. by eapply (NoDup_fmap_inj pc_Type conds).
    - by destruct (Hno c Hc). }
  unfold c, written, stampCondition in Ht |- *. cbn in Ht |- *. by f_equal.
Qed.
Lemma settled_ready rs p : settled rs p → is_ready p ↔ Forall (λ r, rr_Ready r = true) rs.
Proof.
  intros (Hnd & c & Hc & Hw). rewrite <-forallb_Forall.
  assert (pc_Status c = if forallb rr_Ready rs then ConditionTrue else ConditionFalse) as Hs
    by by rewrite <-(Hw 0).
  assert (pc_Type c = CertificateRequestPolicyConditionReady) as Ht by by rewrite <-(Hw 0). split.
  - intros (d & Hd & Td & Sd). assert (d = c) as -> by (eapply NoDup_fmap_inj; [done..|congruence]).
    rewrite Sd in Hs. by destruct (forallb _ rs).
  - intros Ef. rewrite Ef in Hs. by exists c.
Qed.

(** ** One reconciliation

    [I] is what a world that stands still is, [answer p] what the reconcilers
    say of the policy in it; they look at what the policy says and not at its
    status. *)
Record undisturbed (I : S → Prop) : Prop := {
  undisturbed_Get nn : stays I (Get_CertificateRequestPolicy nn);
  undisturbed_Event p t r m : stays I (Event_CertificateRequestPolicy p t r m);
  undisturbed_Now : stays I Now;
  undisturbed_Patch p : stays I (Status_Patch_CertificateRequestPolicy p) }.
Record answering (I : S → Prop) (recs : list (Reconciler S))
    (answer : CertificateRequestPolicy → list ReconcilerReadyResponse) : Prop := {
  answering_run p s : I s → ∃ s', answers (λ r : Reconciler S, rec_Ready r p) s recs (answer p) s' ∧ I s';
  answering_keeps r p : r ∈ recs → keeps objects_of (rec_Ready r p);
  answering_status p conds : answer (policy_with p conds) = answer p }.

Context (I : S → Prop) (HI : undisturbed I).
Context (recs : list (Reconciler S)) (answer : CertificateRequestPolicy → list ReconcilerReadyResponse).
Context (Hans : answering I recs answer).

Definition in_place (o : objects) (name : string) : Prop :=
  ∀ p, o_policies o !! name = Some p → settled (answer p) p.
Definition store (o : objects) (name : string) p : objects :=
  {| o_requests := o_requests o; o_policies := <[name:=p]> (o_policies o) |}.

Lemma policy_send_stays req r : stays I (send req r).
Proof.
  destruct HI as [_ _ _ Hp], r as [[res st] err]. unfold send.
  repeat case_match; eauto with go. apply stays_bind; [by apply stays_try|].
  intros []; apply stays_ret.
Qed.
Lemma readyPatch_stays p res t status reason msg : stays I (readyPatch p res t status reason msg).
Proof.
  destruct HI as [_ He Hn _]. unfold readyPatch, setCertificateRequestPolicyCondition. eauto 10 with go.
Qed.

(** The patch, sent when the policy is read as it is stored. *)
Lemma policy_send_step req p now res t x t' :
  o_policies (objects_of t) !! nn_Name req = Some p →
  send req (res, Some {| pst_Conditions := [written p (answer p) now] |}, None) t = (Ok x, t') →
  (objects_of t' = objects_of t ∧ (x.2 = None → in_place (objects_of t) (nn_Name req))) ∨
  ∃ conds, ¬ settled (answer p) p ∧ settled (answer p) (policy_with p conds) ∧
    objects_of t' = store (objects_of t) (nn_Name req) (policy_with p conds).
Proof.
  intros Hp Hrun. set (c := written p (answer p) now) in *.
  assert (settled (answer p) p → in_place (objects_of t) (nn_Name req)) as Hplace
    by (intros Hs q Hq; by assert (q = p) as -> by congruence).
  apply (policy_send_applies (same objects_of) (λ n cs t t', policy_applied n cs (objects_of t) (objects_of t') ∧
    ∀ d q, cs = [d] → pc_Type d = CertificateRequestPolicyConditionReady →
      o_policies (objects_of t) !! n = Some q → d ∈ pst_Conditions (p_Status q) →
      objects_of t' = objects_of t)) in Hrun.
  2:{ intros n cs data u y u' Hd Hpatch.
      destruct (Patch_CertificateRequestPolicy_applied n cs data _ _ _ Hd Hpatch) as [?|Happ]; [by left|right].
      split; [done|]. intros d q -> Ht Hq Hin. by eapply Patch_CertificateRequestPolicy_again. }
  destruct Hrun as [[Ho Hno]|[(p' & conds & Hp' & Happ & Eo) Hagain]].
  { left. split; [done|]. intros Hx. destruct x as [r err]. simpl in Hx. subst err. by destruct (Hno r). }
  rewrite Hp in Hp'. injection Hp' as <-.
  destruct (decide (c ∈ pst_Conditions (p_Status p))) as [Hc|Hc].
  - left. pose proof (Hagain c p eq_refl eq_refl Hp Hc) as Ho. split; [done|]. intros _.
    rewrite <-Ho. intros q. rewrite Eo. simpl. rewrite lookup_insert_eq. intros [= <-].
    rewrite (answering_status _ _ _ Hans). by eapply applied_settled.
  - right. exists conds. split_and!; [|by eapply applied_settled|done].
    intros Hs. by apply Hc, settled_written.
Qed.

Lemma policy_step req t x t' :
  I t → Reconcile recs req t = (Ok x, t') →
  I t' ∧
  ((objects_of t' = objects_of t ∧ (x.2 = None → in_place (objects_of t) (nn_Name req))) ∨
   ∃ p conds, o_policies (objects_of t) !! nn_Name req = Some p ∧ ¬ settled (answer p) p ∧
     settled (answer p) (policy_with p conds) ∧
     objects_of t' = store (objects_of t) (nn_Name req) (policy_with p conds)).
Proof.
  intros Ht (y & t1 & Hrec & Hsend)%M_bind_Ok.
  destruct (Get_CertificateRequestPolicy req t) as [[p|e|w] u] eqn:Hget.
  - pose proof (undisturbed_Get _ HI _ _ _ _ Hget Ht) as Hu.
    destruct (answering_run _ _ _ Hans p u Hu) as (u2 & Hrs & Hu2).
    destruct (patch_exact _ _ _ _ _ _ _ _ _ Hget Hrs Hrec) as (res & now & ->).
    destruct (policyStatusPatch_run _ objects_bystanders _ _ _ _ _ _ _
      (answering_keeps _ _ _ Hans) Hrec) as [Ho1 _].
    destruct (Get_CertificateRequestPolicy_stored _ _ _ _ Hget) as [Hp _]. split.
    + eapply policy_send_stays; [exact Hsend|]. revert Hrec.
      unfold reconcileStatusPatch. rewrite M_bind_step. unfold try at 1. rewrite Hget.
      rewrite M_bind_step. unfold try.
      rewrite (proj2 (evaluateReady_Ok _ _ _ _ _ _) (ex_intro _ _ (conj Hrs eq_refl))).
      destruct (r_ready _); intros Hrp; by apply readyPatch_stays in Hrp; apply Hrp.
    + rewrite <-Ho1 in Hp |- *. destruct (policy_send_step _ _ _ _ _ _ _ Hp Hsend) as [?|(conds & ? & ? & ?)];
        [by left|right; by exists p, conds].
  - unfold reconcileStatusPatch in Hrec. rewrite M_bind_step in Hrec. unfold try in Hrec. rewrite Hget in Hrec.
    apply M_ret_Ok in Hrec as [<- <-]. apply M_ret_Ok in Hsend as [<- <-].
    split; [by eapply (undisturbed_Get _ HI)|left].
    split; [by apply (Get_CertificateRequestPolicy_keeps _ objects_bystanders) in Hget|].
    intros He p Hp. rewrite (Get_CertificateRequestPolicy_absent _ _ _ _ Hget He) in Hp. done.
  - unfold reconcileStatusPatch in Hrec. rewrite M_bind_step in Hrec. unfold try in Hrec. by rewrite Hget in Hrec.
Qed.

(** ** Any number of reconciliations *)
Definition progressed (o o' : objects) : Prop :=
  o_requests o' = o_requests o ∧ ∀ name,
    match o_policies o !! name with
    | None => o_policies o' !! name = None
    | Some p => o_policies o' !! name = Some p ∨
        (¬ settled (answer p) p ∧ ∃ conds, o_policies o' !! name = Some (policy_with p conds) ∧
          settled (answer p) (policy_with p conds))
    end.

Lemma policies_refl o : progressed o o.
Proof. split; [done|]. intros n. case_match; auto. Qed.
Lemma policies_store o o' name p conds :
  progressed o o' → o_policies o' !! name = Some p → ¬ settled (answer p) p →
  settled (answer p) (policy_with p conds) → progressed o (store o' name (policy_with p conds)).
Proof.
  intros [Hr Hp] Hname Hno Hs. split; [done|]. intros n. simpl. destruct (decide (n = name)) as [->|Hne].
  - specialize (Hp name). rewrite lookup_insert_eq. destruct (o_policies o !! name) as [q|]; [|congruence].
    destruct Hp as [E|(_ & cs & E & Hset)]; rewrite Hname in E; injection E as ->; [right|exfalso].
    + split; [done|]. by exists conds.
    + apply Hno. by rewrite (answering_status _ _ _ Hans).
  - rewrite lookup_insert_ne by done. apply Hp.
Qed.
Lemma policies_place o o' name : progressed o o' → in_place o name → in_place o' name.
Proof.
  intros [_ Hp] Hin q Hq. specialize (Hp name). destruct (o_policies o !! name) as [p|] eqn:E; [|congruence].
  destruct Hp as [E'|(_ & conds & E' & Hs)]; rewrite Hq in E'; injection E' as ->; [by apply Hin|].
  by rewrite (answering_status _ _ _ Hans).
Qed.

Lemma policy_progress o req t x t' :
  I t → progressed o (objects_of t) → Reconcile recs req t = (Ok x, t') →
  I t' ∧ progressed o (objects_of t') ∧ progressed (objects_of t) (objects_of t') ∧
  (x.2 = None → in_place (objects_of t') (nn_Name req)).
Proof.
  intros Ht Hp Hrun. destruct (policy_step _ _ _ _ Ht Hrun) as [Ht' Hstep]. split; [done|].
  destruct Hstep as [[-> Hin]|(p & conds & Hs & Hno & Hset & ->)].
  - split_and!; [done|apply policies_refl|done].
  - split_and!; [by apply policies_store|by apply policies_store; [apply policies_refl|..]|].
    intros _ q. simpl. rewrite lookup_insert_eq. intros [= <-]. by rewrite (answering_status _ _ _ Hans).
Qed.
Lemma policy_run o t reqs rs t' :
  answers (Reconcile recs) t reqs rs t' → I t → progressed o (objects_of t) →
  I t' ∧ progressed o (objects_of t') ∧ progressed (objects_of t) (objects_of t') ∧
  ∀ i req res, reqs !! i = Some req → rs !! i = Some (res, None) →
    in_place (objects_of t') (nn_Name req).
Proof.
  intros Hrun. revert o. induction Hrun as [t|t req x t1 reqs rs t2 Hreq _ IH]; intros o Ht Hp.
  { split_and!; [done|done|apply policies_refl|done]. }
  destruct (policy_progress _ _ _ _ _ Ht Hp Hreq) as (Ht1 & Hp1 & Hq1 & Hplace).
  destruct (IH o Ht1 Hp1) as (Ht2 & Hp2 & Hq2 & Hall).
  destruct (IH (objects_of t) Ht1 Hq1) as (_ & Hp3 & _).
  split_and!; [done..|]. intros [|i] nn res Hnn Hr; simpl in *; [|by eapply Hall].
  simplify_eq. eapply policies_place; [exact Hq2|]. by apply Hplace.
Qed.
Lemma policy_rests t reqs rs t' :
  answers (Reconcile recs) t reqs rs t' → I t → (∀ name, in_place (objects_of t) name) →
  objects_of t' = objects_of t.
Proof.
  induction 1 as [t|t req x t1 reqs rs t2 Hreq _ IH]; intros Ht Hin; [done|].
  destruct (policy_step _ _ _ _ Ht Hreq) as [Ht1 [[Ho _]|(p & conds & Hs & Hno & _)]].
  - rewrite <-Ho in Hin |- *. by apply IH.
  - by destruct Hno, (Hin (nn_Name req) p).
Qed.

(** Every policy has been reconciled without an error. *)
Definition all_served (o : objects) (reqs : list NamespacedName) (rs : list (Result * option error)) : Prop :=
  ∀ name p, o_policies o !! name = Some p →
    ∃ i req res, nn_Name req = name ∧ reqs !! i = Some req ∧ rs !! i = Some (res, None).
Lemma policies_worked_off s reqs rs s' :
  I s → answers (Reconcile recs) s reqs rs s' → all_served (objects_of s) reqs rs →
  I s' ∧ progressed (objects_of s) (objects_of s') ∧ ∀ name, in_place (objects_of s') name.
Proof.
  intros Hs Hrun Hall.
  destruct (policy_run _ _ _ _ _ Hrun Hs (policies_refl _)) as (Hs' & Hp & _ & Hdone).
  split_and!; [done..|]. intros name q Hq. pose proof (proj2 Hp name) as Hn.
  destruct (o_policies (objects_of s) !! name) as [p|] eqn:E; [|congruence].
  destruct (Hall name p E) as (i & req & res & <- & Hi & Hr). by eapply Hdone.
Qed.

(** [C22] The controller of the policies comes to rest, though each of its
    writes has the policy reconciled again.  Let every policy be reconciled at
    least once without an error, in any order, among any other reconciliations,
    failing ones included, in a world that stands still and with reads that have
    caught up.  Then every policy has
    the readiness the reconcilers answer, what it says, its generation and the
    requests are as they were, and no later reconciliation changes anything,
    the transition times included. *)
Theorem policies_settle s reqs rs s'
  (Hs : I s)
  (Hrun : answers (Reconcile recs) s reqs rs s')
  (Hall : ∀ name p, o_policies (objects_of s) !! name = Some p →
     ∃ i req res, nn_Name req = name ∧ reqs !! i = Some req ∧ rs !! i = Some (res, None)) :
  o_requests (objects_of s') = o_requests (objects_of s) ∧
  (∀ name, o_policies (objects_of s) !! name = None → o_policies (objects_of s') !! name = None) ∧
  (∀ name p, o_policies (objects_of s) !! name = Some p → ∃ p',
    o_policies (objects_of s') !! name = Some p' ∧
    p' = policy_with p (pst_Conditions (p_Status p')) ∧
    (is_ready p' ↔ Forall (λ r, rr_Ready r = true) (answer p))) ∧
  ∀ reqs' rs' s'', answers (Reconcile recs) s' reqs' rs' s'' → objects_of s'' = objects_of s'.
Proof.
  destruct (policies_worked_off _ _ _ _ Hs Hrun Hall) as (Hs' & [Hreq Hp] & Hin).
  split; [done|]. split.
  { intros name E. specialize (Hp name). by rewrite E in Hp. }
  split; [|intros reqs' rs' s'' Hrest; by eapply policy_rests].
  intros name p E. specialize (Hp name). rewrite E in Hp.
  destruct Hp as [E'|(_ & conds & E' & Hset)].
  - exists p. split_and!; [done|by destruct p as [? ? []]|]. by apply settled_ready, (Hin name).
  - exists (policy_with p conds). split_and!; [done..|]. by apply settled_ready.
Qed.
End rollout.

Module PolicyRolloutWitnesses.
Import SampleServer LifecycleWitnesses.

#[export] Instance server_PolicyReads : PolicyReads objects.
Proof.
  split.
  - intros nn s e s'. simpl. unfold objects_of. simpl.
    destruct (o_policies s !! nn_Name nn); [case_decide; [done|]|]; by intros [= <- <-].
  - intros name c data s o s' p [= <-] Hrun _ Hp Hc. revert Hrun. simpl. unfold apply_policy, statusPatch. simpl.
    rewrite unbits_bits, decode_encode. unfold objects_of in Hp |- *. simpl in Hp |- *. rewrite Hp.
    assert (merged pc_Type [c] (pst_Conditions (p_Status p)) = pst_Conditions (p_Status p)) as ->
      by (unfold merged; by rewrite decide_True by (by apply Forall_singleton)).
    case_decide; intros [= _ <-]; [|done]. unfold id in Hp.
    replace (policy_with p (pst_Conditions (p_Status p))) with p by by destruct p as [? ? []].
    destruct s as [rq ps]. simpl in *. by rewrite insert_id.
Defined.

(** A policy that says it is not ready, and a reconciler that says it is. *)
Definition everywhere (s : objects) : Prop := True.
Definition says_ready (p : CertificateRequestPolicy) : list ReconcilerReadyResponse :=
  [{| rr_Ready := true; rr_Errors := []; rr_Result := Result_zero |}].
Lemma ready_answering : answering everywhere [ready] says_ready.
Proof.
  split.
  - intros p s _. exists s. split; [|done]. eapply run_cons; [reflexivity|apply run_nil].
  - intros r p ->%list_elem_of_singleton. apply keeps_ret.
  - done.
Qed.

Lemma policies_settle_witness :
  policy_after ≠ server ∧
  ∃ p', o_policies (objects_of policy_after) !! "p" = Some p' ∧ is_ready p' ∧
    ∀ reqs rs s'', answers (Reconcile [ready]) policy_after reqs rs s'' →
      objects_of s'' = objects_of policy_after.
Proof.
  assert (answers (Reconcile [ready]) server [policy_key] [(Result_zero, None)] policy_after) as Hrun.
  { eapply run_cons; [|apply run_nil]. vm_compute. reflexivity. }
  destruct (policies_settle everywhere ltac:(split; by intros) [ready] says_ready ready_answering
    server [policy_key] [(Result_zero, None)] policy_after I Hrun) as (_ & _ & Hps & Hquiet).
  { intros name p Hp. exists 0%nat, policy_key, Result_zero. split_and!; [|done..].
    unfold server, objects_of in Hp. simpl in Hp. unfold id in Hp. simpl in Hp.
    by apply lookup_singleton_Some in Hp as [<- _]. }
  split.
  { intros E. apply (f_equal (λ o, pst_Conditions ∘ p_Status <$> (o_policies o !! "p"))) in E.
    vm_compute in E. discriminate E. }
  destruct (Hps "p" unready_policy) as (p' & Hp' & _ & Hready); [done|].
  exists p'. split; [exact Hp'|]. split; [|exact Hquiet]. apply Hready. by repeat constructor.
Defined.
End PolicyRolloutWitnesses.
