(* ===== verification/Cluster.v ===== *)
(** * The whole cluster

    Both controllers together.  The statuses that the one writes are what the
    other decides by, so after both have done their work the requests are as the
    policies say, whatever the statuses said before. *)
From S2P Require Import Prelude GoStrings K8s PolicyAPI Approver Samples Client Predicate PredicateSpec Manager ManagerSpec SSAClient ApiServer SampleServer.
From S2P Require Import CertificateRequests CertificateRequestsSpec Lifecycle.
From S2P Require CertificateRequestPolicies PolicyRollout.
From S2P Require Import Rollout.

Section cluster.
Context {S : Type} `{Reader S} `{Client S} `{Recorder S} `{Clock S}.
Context `{ApiUtil} `{ClientLib} `{ErrorLib} `{JSONLib} `{!ApiUtilLaws}.
Context `{!ErrorLibLaws} `{!ApiStore S, !ApiServerLaws S, !CaughtUp S, !RequestReads S, !PolicyRollout.PolicyReads S}.
Context `{LabelsLib} `{UnicodeTables}.

(** The world [I] stands still for the calls of both controllers, and a patch
    of a request changes no policy. *)
Context (I : S → Prop).
Record stands_still : Prop := {
  still_policies : PolicyRollout.undisturbed I;
  still_requests : Rollout.undisturbed I;
  still_list : stays I List_CertificateRequests;
  still_patch pt : keeps (λ s, o_policies (objects_of s)) (Status_Patch_CertificateRequest pt) }.
Context (HI : stands_still).

Context (recs : list (Reconciler S)) (answer : CertificateRequestPolicy → list ReconcilerReadyResponse).
Context (Hans : PolicyRollout.answering I recs answer).
Context (evs : list (Evaluator S)).
Context (Hreads : review_reads objects_of) (Hevs : ∀ e p cr, e ∈ evs → keeps objects_of (e p cr)).

(** What the world answers: the listing of the policies that are stored, and for
    a request the labels of its namespace, the policies that its requester may
    use and the verdicts of the evaluators, which do not look at statuses. *)
Context (o0 : objects).
Context (listing : gmap string CertificateRequestPolicy → list CertificateRequestPolicy).
Context (labels : CertificateRequest → gmap string string).
Context (may_use : CertificateRequest → CertificateRequestPolicy → bool).
Context (verdicts : CertificateRequest → CertificateRequestPolicy → list EvaluationResponse).

Definition world_of (P : gmap string CertificateRequestPolicy) (cr : CertificateRequest) : world := {|
  w_items := listing P; w_labels := labels cr;
  w_may_use := may_use cr; w_verdict := verdicts cr |}.
(** The stored policies, up to their statuses. *)
Definition restatused (P : gmap string CertificateRequestPolicy) : Prop :=
  ∀ name, match o_policies o0 !! name with
  | None => P !! name = None
  | Some p => ∃ conds, P !! name = Some (policy_with p conds)
  end.
Definition storing (P : gmap string CertificateRequestPolicy) (s : S) : Prop :=
  I s ∧ o_policies (objects_of s) = P.
Record described : Prop := {
  described_use cr p conds : may_use cr (policy_with p conds) = may_use cr p;
  described_verdicts cr p conds : verdicts cr (policy_with p conds) = verdicts cr p;
  described_stable P nn cr :
    restatused P → map_Forall (λ _, conditions_keyed) P →
    o_requests o0 !! nn = Some cr → ¬ has_decision cr →
    stable (storing P) evs cr (world_of P cr) }.
Context (Hdesc : described).

(** A reconciliation of either controller. *)
Definition controllers (req : NamespacedName + NamespacedName) : M S (Result * option error) :=
  match req with
  | inl policy => CertificateRequestPolicies.Reconcile recs policy
  | inr request => Reconcile (Review (New evs)) request
  end.

Lemma storing_undisturbed P : Rollout.undisturbed (storing P).
Proof.
  destruct HI as [_ [Hg He Hn Hp] _ Hpatch]. unfold storing. split.
  - intros nn s o s' Hrun [Hs <-]. split; [by eapply Hg|].
    by rewrite (Get_CertificateRequest_keeps _ objects_bystanders _ _ _ _ Hrun).
  - intros cr t r m s o s' Hrun [Hs <-]. split; [by eapply He|].
    by rewrite (Event_CertificateRequest_keeps _ objects_bystanders _ _ _ _ _ _ _ Hrun).
  - intros s o s' Hrun [Hs <-]. split; [by eapply Hn|].
    by rewrite (Now_keeps _ objects_bystanders _ _ _ Hrun).
  - intros pt s o s' Hrun [Hs <-]. split; [by eapply Hp|]. by eapply Hpatch.
Qed.

(** A policy of [o0] that decides about [cr], going by what it says. *)
Definition decides (cr : CertificateRequest) (p : CertificateRequestPolicy) : Prop :=
  o_policies o0 !! p_Name p = Some p ∧ Forall (λ r, rr_Ready r = true) (answer p) ∧
  issuer_selected cr p ∧ namespace_selected cr (labels cr) p ∧ may_use cr p = true.

(** ** After the policies *)
Lemma progressed_restatused o : PolicyRollout.progressed answer o0 o → restatused (o_policies o).
Proof.
  intros [_ Hp] name. specialize (Hp name). destruct (o_policies o0 !! name) as [p|]; [|done].
  destruct Hp as [E|(_ & conds & E & _)]; [|by exists conds].
  exists (pst_Conditions (p_Status p)). rewrite E. by destruct p as [? ? []].
Qed.
Lemma in_place_keyed o :
  (∀ name, PolicyRollout.in_place answer o name) → map_Forall (λ _, conditions_keyed) (o_policies o).
Proof. intros Hin name p Hp. apply (Hin name p Hp). Qed.

Section after_policies.
Context (o : objects) (Hp0 : PolicyRollout.progressed answer o0 o).
Context (Hin : ∀ name, PolicyRollout.in_place answer o name).

Lemma world_still : still (storing (o_policies o)) evs (world_of (o_policies o)) o.
Proof.
  intros nn cr Hcr Hno. eapply described_stable; [done|by apply progressed_restatused
    |by apply in_place_keyed| |done]. destruct Hp0 as [<- _]. done.
Qed.

Lemma decides_applicable cr s (Q : list EvaluationResponse → Prop) :
  stable (storing (o_policies o)) evs cr (world_of (o_policies o) cr) → storing (o_policies o) s →
  (∃ p, p ∈ listing (o_policies o) ∧ applicable cr (world_of (o_policies o) cr) p ∧ Q (verdicts cr p)) ↔
  ∃ p, decides cr p ∧ Q (verdicts cr p).
Proof.
  intros Hst [Hs Eo]. destruct (stable_items _ _ _ _ Hst s (conj Hs Eo)) as (s' & Hl & _).
  pose proof (List_CertificateRequestPolicies_stored _ _ _ Hl) as Hitems. rewrite Eo in Hitems. simpl in Hitems.
  pose proof (progressed_restatused _ Hp0) as Hre. split.
  - intros (q & Hq%Hitems & (Hr & Hi & Hn & Hu) & HQ). specialize (Hre (p_Name q)).
    destruct (o_policies o0 !! p_Name q) as [p|] eqn:Ep; [|congruence].
    destruct Hre as [conds E]. rewrite Hq in E. injection E as ->.
    exists p. simpl in *. rewrite described_use in Hu by done. rewrite described_verdicts in HQ by done.
    pose proof (Hin _ _ Hq) as Hset. apply PolicyRollout.settled_ready in Hset.
    split; [|done]. split_and!; [done| |done..]. apply Hset in Hr.
    by rewrite (PolicyRollout.answering_status _ _ _ Hans) in Hr.
  - intros (p & (Hp & Hr & Hi & Hn & Hu) & HQ). specialize (Hre (p_Name p)). rewrite Hp in Hre.
    destruct Hre as [conds E]. exists (policy_with p conds). split; [by apply Hitems|]. simpl.
    rewrite described_verdicts by done. split; [|done]. pose proof (Hin _ _ E) as Hset.
    apply PolicyRollout.settled_ready in Hset. split_and!; [|done..|by simpl; rewrite described_use].
    apply Hset. by rewrite (PolicyRollout.answering_status _ _ _ Hans).
Qed.

Lemma outcome_decided cr cr' s :
  stable (storing (o_policies o)) evs cr (world_of (o_policies o) cr) → storing (o_policies o) s →
  outcome_of (world_of (o_policies o)) cr cr' → ¬ has_decision cr →
  (approved_request cr' ↔ ∃ p, decides cr p ∧ passed (verdicts cr p) = true) ∧
  (denied_request cr' ↔ (∃ p, decides cr p) ∧ ∀ p, decides cr p → passed (verdicts cr p) = false) ∧
  ((∀ p, ¬ decides cr p) → cr' = cr).
Proof.
  intros Hst Hs (_ & _ & Hout) Hno. destruct (Hout Hno) as (HA & HD & HU).
  pose proof (decides_applicable cr s (λ v, passed v = true) Hst Hs) as Hpass.
  pose proof (decides_applicable cr s (λ _, True) Hst Hs) as Happ. split_and!.
  - by rewrite HA, <-Hpass.
  - rewrite HD. split.
    + intros [(q & Hq & Hap) Hall]. split.
      * destruct (proj1 Happ) as (p & Hp & _); [by exists q|by exists p].
      * intros p Hp. apply not_true_is_false. intros Hv.
        destruct (proj2 Hpass) as (r & Hr & Har & Hvr); [by exists p|]. pose proof (Hall r Hr Har) as Hf. simpl in Hf. by rewrite Hvr in Hf.
    + intros [(p & Hp) Hall]. split.
      * destruct (proj2 Happ) as (q & Hq & Hap & _); [by exists p|by exists q].
      * intros q Hq Hap. apply not_true_is_false. intros Hv.
        destruct (proj1 Hpass) as (r & Hr & Hvr); [by exists q|]. by pose proof (Hall r Hr); congruence.
  - intros Hnone. apply HU. intros q Hq Hap.
    destruct (proj1 Happ) as (p & Hp & _); [by exists q|]. by destruct (Hnone p).
Qed.
End after_policies.

(** ** At rest *)
Lemma controllers_rest reqs rs t t' :
  answers controllers t reqs rs t' →
  storing (o_policies (objects_of t)) t →
  (∀ name, PolicyRollout.in_place answer (objects_of t) name) →
  still (storing (o_policies (objects_of t))) evs (world_of (o_policies (objects_of t))) (objects_of t) →
  (∀ nn, at_rest (world_of (o_policies (objects_of t))) (objects_of t) nn) →
  objects_of t' = objects_of t.
Proof.
  induction 1 as [t|t [req|req] [res err] t1 reqs rs t2 Hstep _ IH]; intros Ht Hplace Hstill Hrest; [done|..].
  - destruct (PolicyRollout.policy_step I (still_policies HI) recs answer Hans _ _ _ _ (proj1 Ht) Hstep)
      as [Ht1 [[Ho _]|(p & conds & Hp & Hno & _)]]; [|by destruct Hno, (Hplace (nn_Name req) p)].
    rewrite <-Ho in Hplace, Hstill, Hrest |- *. by apply IH.
  - destruct (Reconcile_step _ (storing_undisturbed _) evs _ Hreads Hevs _ _ _ _ _ Ht Hstill Hstep)
      as [Ht1 [[Ho _]|(cr & cr' & Hcr & Hno & Hd & _)]].
    + rewrite <-Ho in Hplace, Hstill, Hrest, Ht1 |- *. apply IH; done.
    + destruct (Hrest req cr Hcr) as [|E]; [done|]. by destruct Hd as [[(Ed & _)|(Ed & _)] _]; rewrite Ed in E.
Qed.

(** [C2] The cluster does what its policies say.  Let every policy be reconciled
    once without an error, and then every request that the watches queue, each
    among any other reconciliations, in a world that stands still and with reads
    that have caught up.  Whatever the statuses of the policies were before, a request that was open is then
    Approved exactly when a policy that all reconcilers call ready, that selects
    it and that its requester may use is denied by no evaluator; Denied exactly
    when there are such policies and each is denied; untouched when there are
    none.  A decided request keeps its decision.  From then on no reconciliation
    of either controller, in any interleaving, changes anything. *)
Theorem cluster_settles s reqs1 rs1 s1 queue s2 reqs2 rs2 s3
  (Hs : I s) (Ho : objects_of s = o0)
  (Hpol : answers (CertificateRequestPolicies.Reconcile recs) s reqs1 rs1 s1)
  (Hall1 : PolicyRollout.all_served o0 reqs1 rs1)
  (Hqueue : enqueueRequestFromMapFunc s1 = (Ok queue, s2))
  (Hreq : answers (Reconcile (Review (New evs))) s2 reqs2 rs2 s3)
  (Hall2 : served queue reqs2 rs2) :
  (∀ nn cr, o_requests o0 !! nn = Some cr → ∃ cr',
    o_requests (objects_of s3) !! nn = Some cr' ∧
    cr' = request_with cr (crst_Conditions (cr_Status cr')) ∧
    (has_decision cr → cr' = cr) ∧
    (¬ has_decision cr →
      (approved_request cr' ↔ ∃ p, decides cr p ∧ passed (verdicts cr p) = true) ∧
      (denied_request cr' ↔ (∃ p, decides cr p) ∧ ∀ p, decides cr p → passed (verdicts cr p) = false) ∧
      ((∀ p, ¬ decides cr p) → cr' = cr))) ∧
  ∀ reqs rs s4, answers controllers s3 reqs rs s4 → objects_of s4 = objects_of s3.
Proof.
  rewrite <-Ho in Hall1.
  destruct (PolicyRollout.policies_worked_off I (still_policies HI) recs answer Hans _ _ _ _ Hs Hpol Hall1)
    as (Hs1 & Hp & Hplace). rewrite Ho in Hp.
  set (o := objects_of s1) in *. set (P := o_policies o) in *.
  pose proof (world_still o Hp Hplace) as Hstill. fold P in Hstill.
  destruct (enqueue_Ok _ _ _ Hqueue) as (items & Hlist & _).
  assert (storing P s2) as Hs2.
  { split; [by eapply (still_list HI)|]. by apply List_CertificateRequests_stored in Hlist as [-> _]. }
  destruct (queue_worked_off _ (storing_undisturbed P) evs (world_of P) Hreads Hevs _ _ _ _ _ _
    Hs2 Hstill Hqueue Hreq Hall2) as (Hs3 & Hq & Hrest).
  split.
  - intros nn cr Hcr. rewrite <-(proj1 Hp) in Hcr.
    destruct (progressed_outcome _ _ _ _ _ Hq (Hrest nn) Hcr) as (cr' & Hcr' & Hout).
    exists cr'. split; [done|]. split; [apply Hout|]. split; [apply Hout|]. intros Hno.
    eapply outcome_decided; [done|done|by eapply Hstill|exact Hs2|done|done].
  - intros reqs rs s4 Hrun. destruct Hs3 as [HIs3 E3].
    assert (∀ name, PolicyRollout.in_place answer (objects_of s3) name) as Hin3
      by (intros name p Hp'; rewrite E3 in Hp'; by apply (Hplace name)).
    pose proof (progressed_still _ _ _ _ _ Hq Hstill) as Hstill3. rewrite <-E3 in Hstill3, Hrest.
    eapply controllers_rest; [exact Hrun|by split|done..].
Qed.
End cluster.

Module ClusterWitnesses.
Import SampleServer LifecycleWitnesses RolloutWitnesses PolicyRollout.PolicyRolloutWitnesses.

(** An open request, and a policy that says it is not ready. *)
Definition before : objects :=
  {| o_requests := {[key_of open_request := open_request]}; o_policies := {["p" := unready_policy]} |}.
Definition listed (P : gmap string CertificateRequestPolicy) : list CertificateRequestPolicy :=
  (map_to_list (map_imap (λ n p, if decide (p_Name p = n) then Some p else None) P)).*2.
Definition lenient_verdicts (cr : CertificateRequest) (p : CertificateRequestPolicy) : list EvaluationResponse :=
  [{| ev_Result := ResultNotDenied; ev_Message := "" |}].
Definition after_policies_done : objects := (CertificateRequestPolicies.Reconcile [ready] policy_key before).2.
Definition after_requests_done : objects := (reconcile (key_of open_request) after_policies_done).2.

Lemma listed_elem P p :
  restatused before P → p ∈ listed P → P !! p_Name p = Some p ∧ ∃ conds, p = policy_with unready_policy conds.
Proof.
  intros Hre ([n q] & -> & Hq%elem_of_map_to_list)%list_elem_of_fmap. simpl.
  rewrite map_lookup_imap in Hq. destruct (P !! n) as [r|] eqn:E; [|done]. simpl in Hq.
  case_decide as Hn; [|done]. injection Hq as ->. subst n. split; [done|].
  specialize (Hre (p_Name q)). simpl in Hre. destruct (decide (p_Name q = "p")) as [En|Hne].
  - rewrite En, lookup_singleton_eq in Hre. destruct Hre as [conds Hre]. exists conds. congruence.
  - rewrite lookup_singleton_ne in Hre by done. congruence.
Qed.
Lemma before_described : described everywhere [lenient] before listed (λ _, ∅) (λ _ _, true) lenient_verdicts.
Proof.
  split; [done|done|]. intros P nn cr Hre Hkeyed _ _. split; simpl.
  - intros s [Hs <-]. by exists s.
  - apply Forall_forall. intros p [Hp _]%(listed_elem _ _ Hre). exact (Hkeyed _ _ Hp).
  - intros s Hs. by exists s.
  - intros p [_ [conds ->]]%(listed_elem _ _ Hre). by eexists.
  - intros p _ s Hs. by exists s.
  - intros p _. apply Forall2_cons. split; [apply returns_ret|constructor].
Qed.
Lemma everywhere_still : stands_still everywhere.
Proof.
  split; [by split; intros|by split; intros|by intros|].
  intros pt s o s'. simpl. unfold apply_request. repeat case_match; by intros [= _ <-].
Qed.

Lemma cluster_settles_witness :
  ∃ cr', o_requests (objects_of after_requests_done) !! key_of open_request = Some cr' ∧
    approved_request cr' ∧
    ∀ reqs rs s, answers (controllers [ready] [lenient]) after_requests_done reqs rs s →
      objects_of s = objects_of after_requests_done.
Proof.
  assert (review_reads (S:=objects) objects_of) as Hreads
    by (split; intros; intros s o s'; simpl; by intros [= _ <-]).
  assert (answers (CertificateRequestPolicies.Reconcile [ready]) before [policy_key] [(Result_zero, None)]
    after_policies_done) as Hpol by (eapply run_cons; [|apply run_nil]; reflexivity).
  assert (answers reconcile after_policies_done [key_of open_request] [(Result_zero, None)]
    after_requests_done) as Hreq by (eapply run_cons; [|apply run_nil]; reflexivity).
  destruct (cluster_settles everywhere everywhere_still [ready] says_ready ready_answering [lenient] Hreads
    ltac:(intros e p cr ->%list_elem_of_singleton; apply keeps_ret)
    before listed (λ _, ∅) (λ _ _, true) lenient_verdicts before_described
    before [policy_key] [(Result_zero, None)] after_policies_done [key_of open_request] after_policies_done
    [key_of open_request] [(Result_zero, None)] after_requests_done) as [Hcrs Hquiet].
  - done.
  - done.
  - exact Hpol.
  - intros name p Hp. exists 0%nat, policy_key, Result_zero. split_and!; [|done..].
    simpl in Hp. by apply lookup_singleton_Some in Hp as [<- _].
  - vm_compute. reflexivity.
  - exact Hreq.
  - intros nn ->%list_elem_of_singleton. by exists 0%nat, Result_zero.
  - destruct (Hcrs (key_of open_request) open_request) as (cr' & Hcr' & _ & _ & Hopen); [by vm_compute|].
    exists cr'. split; [exact Hcr'|]. split; [|exact Hquiet].
    apply Hopen; [by intros [(c & Hc & _)|(c & Hc & _)]; apply elem_of_nil in Hc|].
    exists unready_policy. split; [|reflexivity].
    split; [reflexivity|]. split; [by repeat constructor|]. split; [|split; [|reflexivity]].
    + apply (bool_decide_unpack (issuer_selected open_request unready_policy)). by vm_compute.
    + apply (bool_decide_unpack (namespace_selected open_request ∅ unready_policy)). by vm_compute.
Defined.
End ClusterWitnesses.
