(* ===== verification/StaleReads.v ===== *)
(** * Decisions when reads lag behind

    The controllers read through an informer cache, which may answer an older
    version of an object, and with several replicas even an old leader may still
    be at work.  Nothing is assumed here of what a read answers.  What keeps a
    request from being both approved and denied is then server-side apply alone:
    each patch declares the whole of what the program says about the request, so
    that the API server takes back what an earlier patch said. *)
From S2P Require Import Prelude GoStrings K8s PolicyAPI Approver Samples Client SSAClient ApiServer SampleServer.
From S2P Require Import CertificateRequests CertificateRequestsSpec Lifecycle.

Abbreviation ownership := (gmap NamespacedName (gset string)).

(** ** Field ownership

    [owned s] are, for each request, the types of the conditions that belong to
    the field manager of this program and to no other. *)
Class FieldOwners (S : Type) := { owned : S → ownership }.

(** What an accepted apply does to the conditions of a request: those applied
    are there, those that the program owned and no longer applies are gone, and
    what it applied anew, or owned before, is its own. *)
Definition owner_applied (nn : NamespacedName) (cs : list CertificateRequestCondition)
    (o o' : objects) (own own' : ownership) : Prop :=
  ∃ cr conds, o_requests o !! nn = Some cr ∧
    NoDup (crc_Type <$> conds) ∧ cs ⊆ conds ∧
    (∀ c, c ∈ conds → c ∈ cs ∨ (c ∈ crst_Conditions (cr_Status cr) ∧
       crc_Type c ∉ crc_Type <$> cs ∧ crc_Type c ∉ own !!! nn)) ∧
    o' = {| o_requests := <[nn:=request_with cr conds]> (o_requests o);
            o_policies := o_policies o |} ∧
    (∀ mm, mm ≠ nn → own' !!! mm = own !!! mm) ∧
    ∀ t, t ∈ crc_Type <$> cs →
      t ∈ own !!! nn ∨ t ∉ crc_Type <$> crst_Conditions (cr_Status cr) → t ∈ own' !!! nn.

Definition view {S} `{ApiStore S, FieldOwners S} (s : S) : objects * ownership :=
  (objects_of s, owned s).

Class FieldOwnersLaws (S : Type)
    `{ApiStore S, FieldOwners S, Reader S, Client S, Recorder S, Clock S, JSONLib} := {
  view_bystanders : bystanders view;
  Patch_CertificateRequest_owner nn cs data s o s' :
    json_Marshal_CertificateRequest (certificateRequestStatusConfiguration (nn_Name nn)
      (nn_Namespace nn) (Some {| crst_Conditions := cs |})) = Ok data →
    Status_Patch_CertificateRequest (statusPatch nn {| patch := data |}) s = (o, s') →
    (o ≠ Ok tt ∧ view s' = view s) ∨
    owner_applied nn cs (objects_of s) (objects_of s') (owned s) (owned s') }.

Section stale.
Context {S : Type} `{Reader S} `{Client S} `{Recorder S} `{Clock S}.
Context `{ApiUtil} `{ClientLib} `{ErrorLib} `{JSONLib} `{!ErrorLibLaws}.
Context `{!ApiStore S, !FieldOwners S, !FieldOwnersLaws S}.
Implicit Types (m : manager.Interface S).

(** The two types of conditions the program writes. *)
Definition verdict_type (t : string) : Prop :=
  t = CertificateRequestConditionApproved ∨ t = CertificateRequestConditionDenied.

(** Every condition of these types is the program's own, and there is at most
    one: no request carries an Approved next to a Denied condition, whatever
    their status. *)
Definition exclusive (v : objects * ownership) : Prop :=
  ∀ nn cr, o_requests v.1 !! nn = Some cr →
    (∀ c, c ∈ crst_Conditions (cr_Status cr) → verdict_type (crc_Type c) → crc_Type c ∈ v.2 !!! nn) ∧
    ∀ c d, c ∈ crst_Conditions (cr_Status cr) → d ∈ crst_Conditions (cr_Status cr) →
      verdict_type (crc_Type c) → verdict_type (crc_Type d) → c = d.

Lemma owner_applied_exclusive nn c v v' :
  is_decision c → owner_applied nn [c] v.1 v'.1 v.2 v'.2 → exclusive v → exclusive v'.
Proof.
  intros [Hty _] (cr & conds & Hcr & _ & _ & Hin & Ho & Hrest & Hown) Hex mm cr'.
  destruct (Hex nn cr Hcr) as [Hmine _]. rewrite Ho. simpl.
  destruct (decide (mm = nn)) as [->|Hne].
  2:{ rewrite lookup_insert_ne by done. rewrite Hrest by done. apply Hex. }
  rewrite lookup_insert_eq. intros [= <-]. simpl.
  assert (∀ d, d ∈ conds → verdict_type (crc_Type d) → d = c) as Honly.
  { intros d Hd Hv. destruct (Hin d Hd) as [->%list_elem_of_singleton|(Hold & _ & Hno)]; [done|].
    by destruct Hno; apply Hmine. }
  split; [|by intros d e Hd He Hvd Hve; rewrite (Honly d), (Honly e)].
  intros d Hd Hv. rewrite (Honly d Hd Hv). apply Hown; [by left|].
  destruct (decide (crc_Type c ∈ v.2 !!! nn)) as [|Hn]; [by left|right].
  intros (e & Ee & He)%list_elem_of_fmap. apply Hn. rewrite Ee. apply Hmine; [done|].
  unfold verdict_type. by rewrite <-Ee.
Qed.

(** Executions: reconciliations that read anything, and a world that does not
    touch the two types of conditions. *)
Inductive stale_step (world : objects * ownership → objects * ownership → Prop) : S → S → Prop :=
  | stale_reconcile m req s o s' :
      (∀ cr, keeps view (m cr)) → Reconcile m req s = (o, s') → stale_step world s s'
  | stale_world s s' : world (view s) (view s') → stale_step world s s'.

Lemma Reconcile_exclusive m req s o s' :
  (∀ cr, keeps view (m cr)) → Reconcile m req s = (o, s') →
  exclusive (view s) → exclusive (view s').
Proof.
  intros Hm Hrun.
  destruct (reconcile_applies (same view)
    (λ nn cs s s', owner_applied nn cs (objects_of s) (objects_of s') (owned s) (owned s'))
    (bystanders_unobtrusive _ view_bystanders) (λ nn cs data t p t', Patch_CertificateRequest_owner nn cs data t p t')
    _ _ _ _ _ Hm Hrun) as [->|(s1 & c & <- & Hmade%decision_made_decision & Happ)]; [done|].
  by apply (owner_applied_exclusive req c (view s1) (view s')).
Qed.

(** [C15] Even when reads are arbitrarily out of date, and whatever the managers
    answer, no request is ever both approved and denied: over any execution of
    reconciliations, by any number of replicas, among changes of a world that
    leaves the two conditions alone, a request has at most one of the conditions
    Approved and Denied.  At the start each of these conditions has to belong to
    the program, and no request may have two. *)
Theorem stale_reads_never_conflict (world : objects * ownership → objects * ownership → Prop) s0 s
  (Hworld : ∀ v v', exclusive v → world v v' → exclusive v')
  (Hs0 : exclusive (view s0)) (Hrun : rtc (stale_step world) s0 s) nn cr
  (Hcr : o_requests (objects_of s) !! nn = Some cr) :
  ¬ (has_true_condition CertificateRequestConditionApproved cr ∧
     has_true_condition CertificateRequestConditionDenied cr).
Proof.
  assert (exclusive (view s)) as Hs.
  { clear Hcr. induction Hrun as [s|s1 s2 s3 [m req t o t' Hm Hr|t t' Hw] _ IH]; [done|..];
      apply IH; [by eapply Reconcile_exclusive|by eapply Hworld]. }
  intros [(c & Hc & Tc & _) (d & Hd & Td & _)].
  destruct (Hs nn cr Hcr) as [_ Hone]. assert (c = d) as -> by (apply Hone; try done; [by left|by right]).
  by rewrite Tc in Td.
Qed.
End stale.

Module StaleWitnesses.
Import SampleServer LifecycleWitnesses.

(** An API server that keeps track of owners, behind a cache that never
    refreshes. *)
Record lagging := { l_objects : objects; l_owned : ownership; l_cache : objects }.
#[export] Instance lagging_ApiStore : ApiStore lagging := { objects_of := l_objects }.
#[export] Instance lagging_FieldOwners : FieldOwners lagging := { owned := l_owned }.

Definition cached {A} (m : M objects A) : M lagging A := λ s, ((m (l_cache s)).1, s).
#[export] Instance lagging_Reader : Reader lagging := {
  List_CertificateRequestPolicies := cached List_CertificateRequestPolicies;
  List_CertificateRequests := cached List_CertificateRequests;
  Get_Namespace_Labels ns := cached (Get_Namespace_Labels ns);
  Get_CertificateRequest nn := cached (Get_CertificateRequest nn);
  Get_CertificateRequestPolicy nn := cached (Get_CertificateRequestPolicy nn) }.

(** The conditions that stay next to those applied, and the types that are
    the program's own afterwards. *)
Definition kept (mine : gset string) (cs old : list CertificateRequestCondition) :=
  filter (λ c, crc_Type c ∉ crc_Type <$> cs ∧ crc_Type c ∉ mine) old.
Definition acquired (mine : gset string) (cs old : list CertificateRequestCondition) : gset string :=
  list_to_set (filter (λ t, t ∈ mine ∨ t ∉ crc_Type <$> old) (crc_Type <$> cs)).
Definition apply_owned (pt : StatusPatch) : M lagging unit := λ s,
  let nn := sp_Target pt in
  match o_requests (l_objects s) !! nn, decode (unbits (sp_Data pt)) with
  | Some cr, Some cs =>
      let old := crst_Conditions (cr_Status cr) in
      let mine := l_owned s !!! nn in
      let conds := cs ++ kept mine cs old in
      if decide (NoDup (crc_Type <$> conds))
      then (Ok tt, {|
        l_objects := {| o_requests := <[nn:=request_with cr conds]> (o_requests (l_objects s));
                        o_policies := o_policies (l_objects s) |};
        l_owned := <[nn:=acquired mine cs old]> (l_owned s); l_cache := l_cache s |})
      else (Err invalid, s)
  | _, _ => (Err NotFound, s)
  end.
#[export] Instance lagging_Client : Client lagging := {
  Create_SubjectAccessReview _ s := (Ok true, s);
  Status_Patch_CertificateRequest := apply_owned;
  Status_Patch_CertificateRequestPolicy pt s :=
    let '(o, os) := apply_policy pt (l_objects s) in
    (o, {| l_objects := os; l_owned := l_owned s; l_cache := l_cache s |}) }.
#[export] Instance lagging_Recorder : Recorder lagging := {
  Event_CertificateRequest _ _ _ _ := mret tt;
  Event_CertificateRequestPolicy _ _ _ _ := mret tt }.
#[export] Instance lagging_Clock : Clock lagging := { Now := mret 42 }.

#[export] Instance lagging_FieldOwnersLaws : FieldOwnersLaws lagging.
Proof.
  split.
  - split; intros; intros s o s'; simpl; unfold cached, mret, M_ret; by intros [= _ <-].
  - intros nn cs data s o s' [= <-]. simpl. unfold apply_owned, statusPatch. simpl.
    rewrite unbits_bits, decode_encode. destruct (o_requests (l_objects s) !! nn) as [cr|] eqn:E;
      [|intros [= <- <-]; by left].
    case_decide as Hnd; intros [= <- <-]; [|by left]. right.
    exists cr. eexists. split_and!; [done|exact Hnd|by intros c Hc; apply elem_of_app; left| |done|..].
    + intros c [?|[[??] ?]%list_elem_of_filter]%elem_of_app; auto.
    + intros mm Hne. unfold owned. simpl. by rewrite lookup_total_insert_ne.
    + intros t Ht Hown. unfold owned in *. simpl in *. rewrite lookup_total_insert_eq. unfold acquired.
      apply elem_of_list_to_set, list_elem_of_filter. done.
Defined.

Definition denies : manager.Interface lagging := λ _,
  mret {| manager.rv_Result := manager.ResultDenied; manager.rv_Message := "no" |}.
Definition accepts : manager.Interface lagging := λ _,
  mret {| manager.rv_Result := manager.ResultApproved; manager.rv_Message := "ok" |}.
Definition start : lagging := {| l_objects := server; l_owned := ∅; l_cache := server |}.
Definition approved_first : lagging := (Reconcile accepts key start).2.
Definition denied_next : lagging := (Reconcile denies key approved_first).2.
Definition idle (v v' : objects * ownership) : Prop := v' = v.
Definition types_of (s : lagging) : option (list string) :=
  (λ cr, crc_Type <$> crst_Conditions (cr_Status cr)) <$> (o_requests (l_objects s) !! key).

(** With reads that lag a decision is not final, it is replaced: the request that
    was approved is read as still open, reviewed again and denied. *)
Example stale_decision_flips :
  types_of approved_first = Some [CertificateRequestConditionApproved] ∧
  types_of denied_next = Some [CertificateRequestConditionDenied].
Proof. split; vm_compute; reflexivity. Qed.

Lemma stale_reads_never_conflict_witness :
  exclusive (view start) ∧ rtc (stale_step idle) start denied_next ∧
  ∀ cr, o_requests (objects_of denied_next) !! key = Some cr →
    ¬ (has_true_condition CertificateRequestConditionApproved cr ∧
       has_true_condition CertificateRequestConditionDenied cr).
Proof.
  assert (exclusive (view start)) as Hs.
  { intros nn cr Hcr. unfold view, server in Hcr. simpl in Hcr. apply lookup_singleton_Some in Hcr as [<- <-].
    split; [by intros c ?%elem_of_nil|by intros c d ?%elem_of_nil]. }
  assert (rtc (stale_step idle) start denied_next) as Hrun.
  { eapply rtc_l; [|apply rtc_once]; eapply (stale_reconcile _ _ key);
      [intros cr; apply keeps_ret|apply surjective_pairing|intros cr; apply keeps_ret|apply surjective_pairing]. }
  split; [exact Hs|]. split; [exact Hrun|]. intros cr Hcr.
  eapply (stale_reads_never_conflict idle start denied_next); [|exact Hs|exact Hrun|exact Hcr].
  by intros v v' Hv ->.
Defined.
End StaleWitnesses.
