(* ===== verification/StateMachine.v ===== *)
(** * The approver as a state machine

    What the two controllers promise together, without the code: a small
    machine over the phases of the requests and the names of the policies that
    are ready.  Every step of the code, whatever its outcome, is some steps of
    this machine, and each decision that the code makes has the evidence that the
    machine asks for.  So every approval and every denial in the cluster can be
    traced back to the reconciliation that made it, and to what that
    reconciliation was told.

    Nothing is assumed of what the reads answer, so the informer cache may lag
    behind, and others may act at any moment of a reconciliation.  A decision
    then need not find the request open: the machine says when it may not, and
    what becomes of the request. *)
From S2P Require Import Prelude GoStrings K8s PolicyAPI Approver Samples Client Predicate PredicateSpec Manager ManagerSpec SSAClient ApiServer SampleServer.
From S2P Require Import CertificateRequests CertificateRequestsSpec Lifecycle.
From S2P Require CertificateRequestPolicies CertificateRequestPoliciesSpec.
From S2P Require Import StaleReads.

(** ** The machine *)
Inductive verdict := Approval | Denial.
Inductive phase := Open | Decided (d : verdict) | Conflicting.
#[export] Instance verdict_dec : EqDecision verdict.
Proof. solve_decision. Defined.
#[export] Instance phase_dec : EqDecision phase.
Proof. solve_decision. Defined.

(** The request carries the condition for [d]. *)
Definition carries (ph : phase) (d : verdict) : Prop := ph = Decided d ∨ ph = Conflicting.
(** What a decision [d] makes of a request: the program's own earlier decision
    is replaced, somebody else's stays next to it. *)
Definition after_decision (d : verdict) (ph ph' : phase) : Prop :=
  ph' = Decided d ∨ (ph ≠ Open ∧ ph ≠ Decided d ∧ ph' = Conflicting).

Record book := { phases : gmap NamespacedName phase; ready_policies : gset string }.

Definition set_phase (b : book) (nn : NamespacedName) (ph : phase) : book :=
  {| phases := <[nn := ph]> (phases b); ready_policies := ready_policies b |}.
Definition set_ready (b : book) (name : string) (r : bool) : book :=
  {| phases := phases b;
     ready_policies := if r then {[name]} ∪ ready_policies b else ready_policies b ∖ {[name]} |}.

(** What the reconciliations of the machine, the [source]s, have to show:
    [evidence e d nn], that [e] found reason for the decision [d] on the request
    [nn]; [overtaken e nn], that what [e] read of [nn] is not what is stored any
    more; [finds e name r], that [e] found the readiness of [name] to be [r].
    [others] is what others do. *)
Inductive spec {E} (source : E → Prop) (evidence : E → verdict → NamespacedName → Prop)
    (overtaken : E → NamespacedName → Prop) (finds : E → string → bool → Prop)
    (others : book → book → Prop) (b : book) : book → Prop :=
  | spec_decide e d nn ph ph' :
      source e → evidence e d nn → phases b !! nn = Some ph → ph = Open ∨ overtaken e nn →
      after_decision d ph ph' → spec source evidence overtaken finds others b (set_phase b nn ph')
  | spec_ready e name r :
      source e → finds e name r →
      spec source evidence overtaken finds others b (set_ready b name r)
  | spec_others b' :
      others b b' → spec source evidence overtaken finds others b b'.

(** ** What the stored objects stand for *)
#[export] Instance approved_request_dec cr : Decision (approved_request cr).
Proof. unfold approved_request. apply _. Defined.
#[export] Instance denied_request_dec cr : Decision (denied_request cr).
Proof. unfold denied_request. apply _. Defined.
Definition verdict_of (c : CertificateRequestCondition) : verdict :=
  if decide (crc_Type c = CertificateRequestConditionApproved) then Approval else Denial.
Definition has_verdict (d : verdict) (cr : CertificateRequest) : Prop :=
  match d with Approval => approved_request cr | Denial => denied_request cr end.
Definition phase_of (cr : CertificateRequest) : phase :=
  if decide (approved_request cr) then
    if decide (denied_request cr) then Conflicting else Decided Approval
  else if decide (denied_request cr) then Decided Denial else Open.
Definition stored_ready (entry : string * CertificateRequestPolicy) : Prop := is_ready entry.2.
#[export] Instance stored_ready_dec entry : Decision (stored_ready entry).
Proof. unfold stored_ready. apply _. Defined.
Definition book_of (v : objects * ownership) : book :=
  {| phases := phase_of <$> o_requests v.1; ready_policies := dom (filter stored_ready (o_policies v.1)) |}.

Lemma phase_of_Open cr : phase_of cr = Open ↔ ¬ has_decision cr.
Proof.
  unfold phase_of, has_decision, approved_request, denied_request.
  repeat case_decide; naive_solver.
Qed.
Lemma phase_of_carries cr d : carries (phase_of cr) d ↔ has_verdict d cr.
Proof. unfold carries, phase_of. destruct d; simpl; repeat case_decide; naive_solver. Qed.
Lemma book_ready v name :
  name ∈ ready_policies (book_of v) ↔ ∃ p, o_policies v.1 !! name = Some p ∧ is_ready p.
Proof.
  simpl. rewrite elem_of_dom. unfold is_Some. setoid_rewrite map_lookup_filter_Some. done.
Qed.

(** A decision that is applied, whatever the request carries. *)
Lemma phase_after cr c conds :
  is_decision c → [c] ⊆ conds →
  (∀ d, d ∈ conds → d ∈ [c] ∨ (d ∈ crst_Conditions (cr_Status cr) ∧ crc_Type d ∉ crc_Type <$> [c])) →
  after_decision (verdict_of c) (phase_of cr) (phase_of (request_with cr conds)).
Proof.
  intros [Hty Hst] Hsub Hin.
  assert (has_true_condition (crc_Type c) (request_with cr conds)) as Hc
    by (exists c; split_and!; [apply Hsub; by left|done..]).
  assert (∀ ty, ty ≠ crc_Type c → has_true_condition ty (request_with cr conds) → has_true_condition ty cr)
    as Hold.
  { intros ty Hne (d & Hd & Td & Sd). destruct (Hin d Hd) as [->%list_elem_of_singleton|[? _]]; [by subst|].
    by exists d. }
  unfold after_decision, verdict_of, phase_of, approved_request, denied_request.
  assert (CertificateRequestConditionDenied ≠ CertificateRequestConditionApproved) as Hne by done.
  destruct Hty as [E|E]; rewrite E in Hc, Hold |- *;
    [pose proof (Hold _ Hne)|pose proof (Hold _ (not_eq_sym Hne))]; repeat case_decide; naive_solver.
Qed.
Lemma book_decided nn c (v v' : objects * ownership) :
  is_decision c → owner_applied nn [c] v.1 v'.1 v.2 v'.2 →
  ∃ cr ph', o_requests v.1 !! nn = Some cr ∧ after_decision (verdict_of c) (phase_of cr) ph' ∧
    book_of v' = set_phase (book_of v) nn ph'.
Proof.
  intros Hc (cr & conds & Hcr & _ & Hsub & Hin & Ho & _). exists cr, (phase_of (request_with cr conds)).
  split_and!; [done|apply phase_after; [done..|]|].
  - intros d Hd. destruct (Hin d Hd) as [?|(? & ? & _)]; auto.
  - unfold book_of, set_phase. rewrite Ho. simpl. by rewrite fmap_insert.
Qed.
(** The readiness of a policy, once it is stored. *)
Lemma book_found (v v' : objects * ownership) p name conds (r : bool) :
  (is_ready (policy_with p conds) ↔ r = true) →
  v'.1 = {| o_requests := o_requests v.1;
            o_policies := <[name := policy_with p conds]> (o_policies v.1) |} →
  book_of v' = set_ready (book_of v) name r.
Proof.
  intros Hr Ho. unfold book_of, set_ready. rewrite Ho. simpl. f_equal. apply set_eq. intros n.
  rewrite elem_of_dom. unfold is_Some. setoid_rewrite map_lookup_filter_Some. unfold stored_ready. simpl.
  destruct (decide (n = name)) as [->|Hne].
  - rewrite lookup_insert_eq. destruct r; [set_solver|].
    split; [|set_solver]. intros (q & [= <-] & Hq). by apply Hr in Hq.
  - rewrite lookup_insert_ne by done.
    assert (n ∈ dom (filter stored_ready (o_policies v.1)) ↔
      ∃ q, o_policies v.1 !! n = Some q ∧ is_ready q) as <- by apply (book_ready v n).
    destruct r; set_solver.
Qed.

(** ** The steps of the code *)
Section audit.
Context {S : Type} `{Reader S} `{Client S} `{Recorder S} `{Clock S}.
Context `{ApiUtil} `{ClientLib} `{ErrorLib} `{JSONLib} `{!ApiUtilLaws} `{!ErrorLibLaws}.
Context `{!ApiStore S, !FieldOwners S} `{LabelsLib} `{UnicodeTables}.

(** What others do in the middle of a reconciliation, the other controller
    included, and what they do between two; each is one change of what is
    stored. *)
Context (meanwhile world : objects * ownership → objects * ownership → Prop).
Definition drifts (s s' : S) : Prop := rtc meanwhile (view s) (view s').
#[export] Instance drifts_preorder : PreOrder drifts.
Proof. split; [by intros s; constructor|intros s t u Hst Htu; unfold drifts in *; by etrans]. Qed.
(** A change that is made while others go on before and after. *)
Definition lands (change : objects * ownership → objects * ownership → Prop) (s s' : S) : Prop :=
  ∃ v v', rtc meanwhile (view s) v ∧ change v v' ∧ rtc meanwhile v' (view s').

(** The API server: only patches that are applied change what is stored, apart
    from what others do.  The answer to a patch can be lost.  Nothing is said of
    what the reads answer. *)
Record live_server : Prop := {
  live_unobtrusive : unobtrusive drifts;
  live_reads : review_follows drifts;
  Patch_CertificateRequest_lands nn cs data s o s' :
    json_Marshal_CertificateRequest (certificateRequestStatusConfiguration (nn_Name nn)
      (nn_Namespace nn) (Some {| crst_Conditions := cs |})) = Ok data →
    Status_Patch_CertificateRequest (statusPatch nn {| patch := data |}) s = (o, s') →
    (o ≠ Ok tt ∧ drifts s s') ∨ lands (λ v v', owner_applied nn cs v.1 v'.1 v.2 v'.2) s s';
  Patch_CertificateRequestPolicy_lands name cs data s o s' :
    json_Marshal_CertificateRequestPolicy (certificateRequestPolicyStatusConfiguration name
      (Some {| pst_Conditions := cs |})) = Ok data →
    Status_Patch_CertificateRequestPolicy
      (statusPatch {| nn_Namespace := ""; nn_Name := name |} {| patch := data |}) s = (o, s') →
    (o ≠ Ok tt ∧ drifts s s') ∨ lands (λ v v', policy_applied name cs v.1 v'.1) s s' }.

Context (Hserver : live_server).
Context (recs : list (Reconciler S)) (evs : list (Evaluator S)).
Context (Hrecs : ∀ r p, r ∈ recs → follows drifts (rec_Ready r p)).
Context (Hevs : ∀ e p cr, e ∈ evs → follows drifts (e p cr)).

(** A reconciliation of either controller, however it ends, or a change that
    others make. *)
Inductive act : S → S → Prop :=
  | act_request req s o s' : Reconcile (Review (New evs)) req s = (o, s') → act s s'
  | act_policy req s o s' : CertificateRequestPolicies.Reconcile recs req s = (o, s') → act s s'
  | act_world s s' : world (view s) (view s') → act s s'.

(** ** The evidence

    What a reconciliation that starts at [s] reads and is told: the request,
    without a decision; the listing, and in it the policy [p], which is ready and
    selects the request; that the requester may use the policy; and then what
    all the evaluators say about it. *)
Definition listed (s : S) (nn : NamespacedName) cr (p : CertificateRequestPolicy) (s2 : S) : Prop :=
  ∃ s1 l, Get_CertificateRequest nn s = (Ok cr, s1) ∧ ¬ has_decision cr ∧
    List_CertificateRequestPolicies s1 = (Ok l, s2) ∧ p ∈ Items l ∧ is_ready p.
Definition judged (pass : bool) (s : S) (nn : NamespacedName) (p : CertificateRequestPolicy) : Prop :=
  ∃ cr s2 rs u, listed s nn cr p s2 ∧ issuer_selected cr p ∧ labels_witness cr s2 p ∧
    consulted evs cr s2 p rs u ∧ length rs = length evs ∧ passed rs = pass.
Definition passed_over (s : S) (nn : NamespacedName) (p : CertificateRequestPolicy) : Prop :=
  ∃ cr s2, listed s nn cr p s2 ∧ excluded evs cr s2 p.
(** The reasons for an approval, and for a denial. *)
Definition accounted (s : S) (d : verdict) (nn : NamespacedName) : Prop :=
  match d with
  | Approval => ∃ p, judged true s nn p
  | Denial => (∃ p, judged false s nn p) ∧
      ∀ cr p s2, listed s nn cr p s2 → judged false s nn p ∨ passed_over s nn p
  end.
(** The request that the reconciliation reads is not, or not any more, the one
    that is stored: the read came late, or others have changed the request. *)
Definition overtaken (s : S) (nn : NamespacedName) : Prop :=
  ∃ cr s1 v, Get_CertificateRequest nn s = (Ok cr, s1) ∧ ¬ has_decision cr ∧
    rtc meanwhile (view s) v ∧ o_requests v.1 !! nn ≠ Some cr.
(** What a reconciliation of the policy [name] that starts at [s] reads and
    what all the reconcilers answer. *)
Definition found (s : S) (name : string) (r : bool) : Prop :=
  ∃ req p s1 rs s2, nn_Name req = name ∧ Get_CertificateRequestPolicy req s = (Ok p, s1) ∧
    answers (λ r : Reconciler S, rec_Ready r p) s1 recs rs s2 ∧ forallb rr_Ready rs = r.

(** The manager's answer, as evidence. *)
Lemma review_evidence nn s cr s1 resp s2 :
  Get_CertificateRequest nn s = (Ok cr, s1) → ¬ has_decision cr →
  Review (New evs) cr s1 = (Ok resp, s2) →
  (manager.rv_Result resp = manager.ResultApproved → accounted s Approval nn) ∧
  (manager.rv_Result resp = manager.ResultDenied → accounted s Denial nn).
Proof.
  intros Hget Hno Hrev. split; intros Hres.
  - destruct (review_approved _ _ _ _ _ Hrev Hres)
      as (items & s3 & p & rs & Hl & Hp & Hr & Hi & Hn & Hc & Hlen & Hpass & _).
    exists p, cr, s3, rs, s2. split_and!; try done; [by exists s1, {| Items := items |}|].
    apply forallb_forall. intros x Hx%list_elem_of_In. apply bool_decide_eq_true.
    by apply (proj1 (Forall_forall _ _) Hpass).
  - destruct (review_denied _ _ _ _ _ Hrev Hres) as (items & s3 & ps & Hl & Hne & Hps & Hall).
    assert (∀ p, p ∈ ps → judged false s nn p) as Hj.
    { intros p Hp. destruct (Hps p Hp) as (Hin & Hr & ? & ? & rs & u & Hc & ?).
      exists cr, s3, rs, u. split_and!; try done; [by exists s1, {| Items := items |}|].
      destruct Hc as (? & ? & ? & _ & _ & _ & Hev). by eapply run_length. }
    split; [destruct ps as [|p ps]; [done|]; exists p; apply Hj; by left|].
    intros cr' p t (s1' & l & Hget' & _ & Hl' & Hin & Hr).
    rewrite Hget in Hget'. injection Hget' as <- <-. rewrite Hl in Hl'. injection Hl' as <- <-.
    destruct (Hall p Hin Hr) as [?|Hex]; [left; by apply Hj|right].
    exists cr, s3. split; [by exists s1, {| Items := items |}|done].
Qed.

(** A step of the code is others' doing, with one step of the machine in between
    that has its evidence, or none. *)
Definition audited (s : S) : book → book → Prop :=
  spec (eq s) accounted overtaken found (λ _ _, False).
Definition audited_step (s s' : S) : Prop :=
  drifts s s' ∨ lands (λ v v', audited s (book_of v) (book_of v')) s s'.

Lemma request_audited req s o s' :
  Reconcile (Review (New evs)) req s = (o, s') → audited_step s s'.
Proof.
  intros Hrun.
  destruct (reconcile_applies drifts (λ nn cs, lands (λ v v', owner_applied nn cs v.1 v'.1 v.2 v'.2))
    (live_unobtrusive Hserver) (Patch_CertificateRequest_lands Hserver)
    _ _ _ _ _ (λ cr, Review_follows drifts (live_reads Hserver) evs cr (λ e p, Hevs e p cr)) Hrun)
    as [?|(t & c & Ht & Hmade & (v & v' & Hv & Happ & Hv'))]; [by left|right].
  assert (rtc meanwhile (view s) v) as Hsv by (unfold drifts in Ht; by etrans).
  pose proof (decision_made_decision _ _ _ _ Hmade) as Hc.
  destruct Hmade as (cr & s1 & resp & s2 & now & Hget & Hund & Hrev & (Hty & _) & _).
  assert (¬ has_decision cr) as Hno by (by rewrite <-decided_iff, Hund).
  destruct (review_evidence _ _ _ _ _ _ Hget Hno Hrev) as [HA HD].
  destruct (book_decided _ _ _ _ Hc Happ) as (cr1 & ph' & Hcr1 & Hph & Eb).
  exists v, v'. split_and!; [done| |done]. rewrite Eb.
  apply (spec_decide _ _ _ _ _ _ s (verdict_of c) req (phase_of cr1)); [done| | | |done].
  - unfold verdict_of. destruct Hty as [[Hres ->]|[Hres ->]]; [by apply HA|by apply HD].
  - simpl. by rewrite lookup_fmap, Hcr1.
  - destruct (decide (phase_of cr1 = Open)) as [|Hn]; [by left|right].
    exists cr, s1, v. split_and!; [done..|]. rewrite Hcr1. intros [= ->]. by apply Hn, phase_of_Open.
Qed.
Lemma policy_audited req s o s' :
  CertificateRequestPolicies.Reconcile recs req s = (o, s') → audited_step s s'.
Proof.
  intros Hrun.
  destruct (policy_reconcile_applies drifts (λ name cs, lands (λ v v', policy_applied name cs v.1 v'.1))
    (live_unobtrusive Hserver) (Patch_CertificateRequestPolicy_lands Hserver) _ _ _ _ _ Hrecs Hrun)
    as [?|(t & c & res & Ht & Hfound & (v & v' & Hv & (p & conds & Hp & Happ & Ho) & Hv'))]; [by left|right].
  exists v, v'. split_and!; [unfold drifts in Ht; by etrans| |done].
  pose proof (found_ready _ _ _ _ _ p conds Hfound Happ) as Hready.
  destruct Hfound as (p1 & s1 & rs & s2 & now & Hget & Hrs & _ & Htrue & _).
  rewrite (book_found v v' p (nn_Name req) conds (forallb rr_Ready rs)); [|by rewrite Hready, Htrue, forallb_Forall|done].
  eapply spec_ready; [done|]. by exists req, p1, s1, rs, s2.
Qed.

(** ** Executions *)
Context (others : book → book → Prop).
Context (Hmeanwhile : ∀ v v', meanwhile v v' → others (book_of v) (book_of v')).
Context (Hworld : ∀ v v', world v v' → others (book_of v) (book_of v')).

(** The machine whose evidence comes from the reconciliations that start in the
    states that the code reaches. *)
Definition machine (s0 : S) : book → book → Prop :=
  spec (rtc act s0) accounted overtaken found others.

Lemma audited_machine s0 s b b' : rtc act s0 s → audited s b b' → machine s0 b b'.
Proof.
  intros Hs [e d nn ph ph' <- He Hnn Hph Hd|e name r <- Hf|b'' []].
  - by eapply spec_decide.
  - by eapply spec_ready.
Qed.
Lemma meanwhile_machine s0 v v' : rtc meanwhile v v' → rtc (machine s0) (book_of v) (book_of v').
Proof.
  induction 1 as [v|v w v' Hvw _ IH]; [done|]. eapply rtc_l; [|exact IH]. by apply spec_others, Hmeanwhile.
Qed.
Lemma act_audited s s' :
  act s s' → audited_step s s' ∨ world (view s) (view s').
Proof.
  intros [req t o t' Hr|req t o t' Hr|t t' Hw]; [left..|by right].
  - by apply request_audited in Hr.
  - by apply policy_audited in Hr.
Qed.

(** [C3] The program refines the machine.  Take any execution of both
    controllers, in any order, among what others do between and during the
    reconciliations, with reads that may be out of date, and with reconciliations
    that fail, panic or lose the answer to a patch.  The phases of the requests
    and the readiness of the policies then follow the machine: a request is
    approved only by a reconciliation that read it undecided and found, in the
    listing it read, a ready policy that admits it, and denied only by one that
    read it undecided and found that a ready policy applies and refuses it and
    that every ready policy of the listing refuses it or does not apply; the
    request was open then, or what the reconciliation had read of it was out of
    date; the readiness of a policy changes only to what the reconcilers
    answered; and nothing else changes.  While one controller reconciles, the
    other one counts among the others.  When nobody interferes and the reads have
    caught up, decisions fall on open requests only ([never_overtaken]) and the
    listing is what is stored ([caught_up_listing]). *)
Theorem controllers_refine_machine s0 s (Hrun : rtc act s0 s) :
  rtc (machine s0) (book_of (view s0)) (book_of (view s)).
Proof.
  revert s Hrun. apply rtc_ind_r; [done|]. intros s s' Hs Hact IH. etrans; [exact IH|].
  destruct (act_audited _ _ Hact) as [[Hd|(v & v' & Hv & Ha & Hv')]|Hw].
  - by apply meanwhile_machine.
  - etrans; [by apply meanwhile_machine|].
    eapply rtc_l; [by eapply audited_machine|by apply meanwhile_machine].
  - by apply rtc_once, spec_others, Hworld.
Qed.

(** ** Tracing a decision back *)
Definition carried (v : objects * ownership) (nn : NamespacedName) (d : verdict) : Prop :=
  ∃ ph, phases (book_of v) !! nn = Some ph ∧ carries ph d.

(** The others decide no request themselves. *)
Definition undeciding : Prop :=
  ∀ b b' nn ph' d, others b b' → phases b' !! nn = Some ph' → carries ph' d →
    ∃ ph, phases b !! nn = Some ph ∧ carries ph d.

(** The reconciliation that starts at [s] makes the decision [d]: it has the
    reasons, and the request was open, or it was not as it had been read. *)
Definition decides_for_reason (s : S) (nn : NamespacedName) (d : verdict) : Prop :=
  accounted s d nn ∧
  ∃ v ph, rtc meanwhile (view s) v ∧ phases (book_of v) !! nn = Some ph ∧ (ph = Open ∨ overtaken s nn).

Lemma meanwhile_carried v v' nn d : undeciding → rtc meanwhile v v' → carried v' nn d → carried v nn d.
Proof.
  intros Hun. induction 1 as [v|v w v' Hvw _ IH]; [done|]. intros Hv'.
  destruct (IH Hv') as (ph & Hph & Hd). by eapply Hun; [apply Hmeanwhile|..].
Qed.
Lemma audited_decides s b b' nn ph' d :
  audited s b b' → phases b' !! nn = Some ph' → carries ph' d →
  (∃ ph, phases b !! nn = Some ph ∧ carries ph d) ∨
  accounted s d nn ∧ ∃ ph, phases b !! nn = Some ph ∧ (ph = Open ∨ overtaken s nn).
Proof.
  intros [e d' mm ph1 ph2 <- He Hmm Hopen Hafter|e name r _ _|b'' []]; simpl; [|by eauto].
  intros [[-> <-]|[_ Hph]]%lookup_insert_Some Hd; [|by eauto].
  destruct (decide (d = d')) as [->|Hne]; [by eauto|left]. exists ph1. split; [done|].
  unfold after_decision, carries in *.
  destruct Hafter as [->|(Hn1 & Hn2 & _)]; [naive_solver|]. destruct ph1 as [|[]|]; destruct d, d'; naive_solver.
Qed.
Lemma act_decides s s' nn d :
  undeciding → act s s' → carried (view s') nn d →
  carried (view s) nn d ∨ decides_for_reason s nn d.
Proof.
  intros Hun Hact Hc. destruct (act_audited _ _ Hact) as [[Hdr|(v & v' & Hv & Ha & Hv')]|Hw].
  - left. by eapply meanwhile_carried.
  - apply (meanwhile_carried _ _ _ _ Hun Hv') in Hc as (ph & Hph & Hd).
    destruct (audited_decides _ _ _ _ _ _ Ha Hph Hd) as [?|[? (ph1 & ?)]]; [left|right].
    + by eapply meanwhile_carried.
    + split; [done|by exists v, ph1].
  - left. destruct Hc as (ph & Hph & Hd). by eapply Hun; [apply Hworld|..].
Qed.

(** [C4] Every decision is accounted for, also when reads are out of date and
    others interfere, as in C3.  Provided that others decide no requests, a
    decision that a request carries after any execution was carried at its start,
    or else some reconciliation of the execution made it, which had read the
    request undecided; and the request was open when the decision was applied, or
    it was not as it had been read.  If it is an approval, a ready policy of the
    listing selected the request's issuer and its namespace, the API server
    granted its requester the use of that policy, and then every evaluator
    answered and none denied.  If it is a denial, there was such a policy that
    some evaluator denied, and each policy that the listing showed ready was such
    a one, or was found not to select the request or not to be granted. *)
Theorem decisions_accounted_for s0 s nn d
  (Hun : undeciding) (Hrun : rtc act s0 s) (Hd : carried (view s) nn d) :
  carried (view s0) nn d ∨
  ∃ t t', rtc act s0 t ∧ act t t' ∧ rtc act t' s ∧ decides_for_reason t nn d.
Proof.
  induction Hrun as [s|s t s' Hact Hrun IH]; [by left|].
  destruct (IH Hd) as [Ht|(u & u' & Hu & Hstep & Hu' & Hj)].
  - destruct (act_decides _ _ _ _ Hun Hact Ht) as [|?]; [by left|right].
    exists s, t. by split_and!.
  - right. exists u, u'. split_and!; [by eapply rtc_l|done..].
Qed.

(** ** When the cache has caught up and nobody interferes *)
Context `{!CaughtUp S} (Halone : ∀ v v', ¬ meanwhile v v').

Lemma drifts_view s s' : drifts s s' → view s' = view s.
Proof. intros [->|(w & Hw & _)]%rtc_inv; [done|]. by apply Halone in Hw. Qed.
Lemma never_overtaken s nn : ¬ overtaken s nn.
Proof.
  intros (cr & s1 & v & Hget & _ & Hv & Hne).
  assert (v = view s) as ->.
  { apply rtc_inv in Hv as [<-|(w & Hw & _)]; [done|]. by apply Halone in Hw. }
  by apply Hne, (Get_CertificateRequest_stored _ _ _ _ Hget).
Qed.
Lemma caught_up_listing s nn cr s1 l s2 p :
  Get_CertificateRequest nn s = (Ok cr, s1) → ¬ has_decision cr →
  List_CertificateRequestPolicies s1 = (Ok l, s2) →
  listed s nn cr p s2 ↔ o_policies (objects_of s) !! p_Name p = Some p ∧ is_ready p.
Proof.
  intros Hget Hno Hl.
  pose proof (List_CertificateRequestPolicies_stored _ _ _ Hl p) as Hp.
  apply (Get_CertificateRequest_follows _ (live_unobtrusive Hserver)) in Hget as Hs1.
  apply drifts_view in Hs1. injection Hs1 as Ho _. rewrite Ho in Hp. rewrite <-Hp. split.
  - intros (s1' & l' & Hget' & _ & Hl' & ? & ?). rewrite Hget in Hget'. injection Hget' as <-.
    rewrite Hl in Hl'. by injection Hl' as <-.
  - intros [? ?]. by exists s1, l.
Qed.
End audit.

Module StateMachineWitnesses.
Import SampleServer LifecycleWitnesses StaleWitnesses.

(** A server behind a cache that never refreshes, as in [StaleReads].  The cache
    has the request open and the policy ready; the policy has become unready
    since.  The evaluator changes its mind once the request is decided. *)
Definition ready_policy : CertificateRequestPolicy :=
  policy_with (sample_policy "p" None None) [sample_condition "Ready" "True"].
Definition begin : lagging :=
  {| l_objects := server; l_owned := ∅;
     l_cache := {| o_requests := {[key := open_request]}; o_policies := {["p" := ready_policy]} |} |}.
Definition fickle : Evaluator lagging := λ _ _ s,
  (Ok {| ev_Result := if decide (phases (book_of (view s)) !! key = Some (Decided Approval)) then ResultDenied else ResultNotDenied;
         ev_Message := "" |}, s).
Definition ready_again : Reconciler lagging :=
  {| rec_Ready := λ _, mret ready_response; rec_EnqueueChan := None |}.
Definition nothing (v v' : objects * ownership) : Prop := False.
Definition idle_book (b b' : book) : Prop := b' = b.

Lemma lagging_server : live_server (S:=lagging) nothing.
Proof.
  split.
  - split; intros; intros s o s'; simpl; unfold cached, mret, M_ret; intros [= _ <-]; reflexivity.
  - split; intros; intros s o s'; simpl; unfold cached; intros [= _ <-]; reflexivity.
  - intros nn cs data s o s' Hd Hp.
    destruct (Patch_CertificateRequest_owner _ _ _ _ _ _ Hd Hp) as [[? E]|?]; [left|right].
    + split; [done|]. unfold drifts. by rewrite E.
    + exists (view s), (view s'). by split_and!.
  - intros name cs data s o s' Hd. simpl.
    set (pt := statusPatch _ _).
    destruct (apply_policy pt (l_objects s)) as [o1 os] eqn:Hp. intros [= <- <-].
    assert (Status_Patch_CertificateRequestPolicy (S:=objects) pt (l_objects s) = (o1, os)) as Hp'
      by exact Hp.
    destruct (Patch_CertificateRequestPolicy_applied (S:=objects) name cs data (l_objects s) o1 os Hd Hp') as [[? E]|?]; [left|right].
    + split; [done|]. unfold drifts, view, objects_of, owned, id in *. simpl in *. by rewrite E.
    + eexists (view s), _. split_and!; [done| |done]. done.
Qed.
Lemma ready_again_follows r p : r ∈ [ready_again] → follows (drifts nothing) (rec_Ready r p).
Proof. intros ->%list_elem_of_singleton. apply follows_ret, _. Qed.
Lemma fickle_follows (e : Evaluator lagging) p cr : e ∈ [fickle] → follows (drifts nothing) (e p cr).
Proof. intros ->%list_elem_of_singleton s o s' [= _ <-]. reflexivity. Qed.
Lemma nothing_idle v v' : nothing v v' → idle_book (book_of v) (book_of v').
Proof. done. Qed.

(** The request is approved; read as still open, it is reviewed again and denied;
    then the policy is found ready. *)
Definition steps : list lagging :=
  let s1 := (Reconcile (Review (New [fickle])) key begin).2 in
  let s2 := (Reconcile (Review (New [fickle])) key s1).2 in
  [s1; s2; (CertificateRequestPolicies.Reconcile [ready_again] policy_key s2).2].
Definition finish : lagging := default begin (last steps).
Lemma steps_acts : rtc (act nothing [ready_again] [fickle]) begin finish.
Proof.
  eapply rtc_l; [by eapply (act_request _ _ _ key), surjective_pairing|].
  eapply rtc_l; [by eapply (act_request _ _ _ key), surjective_pairing|].
  apply rtc_once. by eapply (act_policy _ _ _ policy_key), surjective_pairing.
Qed.

Lemma controllers_refine_machine_witness :
  ((λ s, (phases (book_of (view s)) !! key, ready_policies (book_of (view s)))) <$> begin :: steps) =
    [(Some Open, ∅); (Some (Decided Approval), ∅); (Some (Decided Denial), ∅);
     (Some (Decided Denial), {["p"]})] ∧
  rtc (machine nothing nothing [ready_again] [fickle] idle_book begin)
    (book_of (view begin)) (book_of (view finish)).
Proof.
  split; [by vm_compute|].
  apply (controllers_refine_machine nothing nothing lagging_server [ready_again] [fickle]
    ready_again_follows fickle_follows idle_book nothing_idle nothing_idle begin finish steps_acts).
Defined.

(** The denial traced back to its policy. *)
Lemma idle_undeciding : undeciding idle_book.
Proof. intros b b' nn ph' d ->. eauto. Qed.
Lemma decisions_accounted_for_witness :
  carried (view finish) key Denial ∧
  ∃ t p, rtc (act nothing [ready_again] [fickle]) begin t ∧ judged [fickle] false t key p.
Proof.
  assert (carried (view finish) key Denial) as Hd by (eexists; split; [by vm_compute|by left]).
  split; [exact Hd|].
  destruct (decisions_accounted_for nothing nothing lagging_server [ready_again] [fickle]
    ready_again_follows fickle_follows idle_book nothing_idle nothing_idle begin finish key Denial
    idle_undeciding steps_acts Hd) as [(ph & Hph & Hc)|(t & t' & Ht & _ & _ & [[p Hp] _] & _)].
  - assert (ph = Open) as -> by (vm_compute in Hph; by injection Hph). by destruct Hc.
  - by exists t, p.
Defined.
End StateMachineWitnesses.
