(* ===== verification/Fake.v ===== *)
(** * The fakes: pkg/approver/fake, pkg/approver/manager/fake

    Approvers and managers whose methods are functions supplied by a test.  A
    function that was not supplied is nil, and so can be the embedded fakes:
    calling either panics.  A setter changes the fake and answers the same
    pointer, so a chain of setters is the composition of these functions. *)
From S2P Require Import Prelude GoStrings K8s PolicyAPI Approver.

Section fake.
Context {S : Type}.

(** A call of a function that may be nil. *)
Definition nil_dereference : string := "invalid memory address or nil pointer dereference".
Definition call_fn {A B} (fn : option (A → M S B)) (a : A) : M S B :=
  match fn with Some fn => fn a | None => panic nil_dereference end.
(** A promoted method: the receiver is an embedded pointer. *)
Definition promoted {F B} (f : option F) (method : F → M S B) : M S B :=
  match f with Some f => method f | None => panic nil_dereference end.

(** ** evaluator.go *)
Record FakeEvaluator := { evaluateFunc : option (CertificateRequestPolicy * CertificateRequest → M S EvaluationResponse) }.
Definition NewFakeEvaluator : FakeEvaluator := {| evaluateFunc := None |}.
Definition WithEvaluate (fn : Evaluator S) (f : FakeEvaluator) : FakeEvaluator :=
  {| evaluateFunc := Some (λ '(policy, cr), fn policy cr) |}.
Definition Evaluate (f : FakeEvaluator) : Evaluator S := λ policy cr,
  call_fn (evaluateFunc f) (policy, cr).

(** ** webhook.go *)
Record FakeWebhook := { validateFunc : option (Webhook S) }.
Definition NewFakeWebhook : FakeWebhook := {| validateFunc := None |}.
Definition WithValidate (fn : Webhook S) (f : FakeWebhook) : FakeWebhook :=
  {| validateFunc := Some fn |}.
Definition Validate (f : FakeWebhook) : Webhook S := λ policy, call_fn (validateFunc f) policy.

(** ** reconciler.go *)
Record FakeReconciler := {
  name : string;
  readyFunc : option (CertificateRequestPolicy → M S ReconcilerReadyResponse);
  enqueueFunc : option (unit → M S (option nat)) }.
Definition NewFakeReconciler : FakeReconciler :=
  {| name := ""; readyFunc := None; enqueueFunc := Some (λ _, mret None) |}.
Definition WithName (n : string) (f : FakeReconciler) : FakeReconciler :=
  {| name := n; readyFunc := readyFunc f; enqueueFunc := enqueueFunc f |}.
Definition WithReady (fn : CertificateRequestPolicy → M S ReconcilerReadyResponse)
    (f : FakeReconciler) : FakeReconciler :=
  {| name := name f; readyFunc := Some fn; enqueueFunc := enqueueFunc f |}.
Definition WithEnqueueChan (fn : unit → M S (option nat)) (f : FakeReconciler) : FakeReconciler :=
  {| name := name f; readyFunc := readyFunc f; enqueueFunc := Some fn |}.
Definition Name (f : FakeReconciler) : M S string := mret (name f).
Definition Ready (f : FakeReconciler) : CertificateRequestPolicy → M S ReconcilerReadyResponse :=
  λ policy, call_fn (readyFunc f) policy.
Definition EnqueueChan (f : FakeReconciler) : M S (option nat) := call_fn (enqueueFunc f) tt.

(** ** approver.go

    The flag set is an argument the function changes: a step of the state. *)
Record FakeApprover := {
  registerFlagsFn : option (unit → M S unit);
  prepareFn : option (unit → M S unit);
  fa_FakeEvaluator : option FakeEvaluator;
  fa_FakeWebhook : option FakeWebhook;
  fa_FakeReconciler : option FakeReconciler }.
Definition NewFakeApprover : FakeApprover :=
  {| registerFlagsFn := None; prepareFn := None;
     fa_FakeEvaluator := Some NewFakeEvaluator;
     fa_FakeWebhook := Some NewFakeWebhook;
     fa_FakeReconciler := Some NewFakeReconciler |}.
Definition WithEvaluator (evaluator : option FakeEvaluator) (f : FakeApprover) : FakeApprover :=
  {| registerFlagsFn := registerFlagsFn f; prepareFn := prepareFn f;
     fa_FakeEvaluator := evaluator; fa_FakeWebhook := fa_FakeWebhook f;
     fa_FakeReconciler := fa_FakeReconciler f |}.
Definition WithReconciler (reconciler : option FakeReconciler) (f : FakeApprover) : FakeApprover :=
  {| registerFlagsFn := registerFlagsFn f; prepareFn := prepareFn f;
     fa_FakeEvaluator := fa_FakeEvaluator f; fa_FakeWebhook := fa_FakeWebhook f;
     fa_FakeReconciler := reconciler |}.
Definition WithRegisterFlags (fn : unit → M S unit) (f : FakeApprover) : FakeApprover :=
  {| registerFlagsFn := Some fn; prepareFn := prepareFn f;
     fa_FakeEvaluator := fa_FakeEvaluator f; fa_FakeWebhook := fa_FakeWebhook f;
     fa_FakeReconciler := fa_FakeReconciler f |}.
Definition WithPrepare (fn : unit → M S unit) (f : FakeApprover) : FakeApprover :=
  {| registerFlagsFn := registerFlagsFn f; prepareFn := Some fn;
     fa_FakeEvaluator := fa_FakeEvaluator f; fa_FakeWebhook := fa_FakeWebhook f;
     fa_FakeReconciler := fa_FakeReconciler f |}.
Definition RegisterFlags (f : FakeApprover) : M S unit := call_fn (registerFlagsFn f) tt.
Definition Prepare (f : FakeApprover) : M S unit := call_fn (prepareFn f) tt.

(** The methods of [approver.Interface], the promoted ones through the embedded
    pointers. *)
Record methods := {
  m_Name : M S string;
  m_RegisterFlags : M S unit;
  m_Prepare : M S unit;
  m_Evaluate : Evaluator S;
  m_Validate : Webhook S;
  m_Ready : CertificateRequestPolicy → M S ReconcilerReadyResponse;
  m_EnqueueChan : M S (option nat) }.
Definition as_approver (f : FakeApprover) : methods := {|
  m_Name := promoted (fa_FakeReconciler f) Name;
  m_RegisterFlags := RegisterFlags f;
  m_Prepare := Prepare f;
  m_Evaluate := λ policy cr, promoted (fa_FakeEvaluator f) (λ e, Evaluate e policy cr);
  m_Validate := λ policy, promoted (fa_FakeWebhook f) (λ w, Validate w policy);
  m_Ready := λ policy, promoted (fa_FakeReconciler f) (λ r, Ready r policy);
  m_EnqueueChan := promoted (fa_FakeReconciler f) EnqueueChan |}.

(** ** manager/fake/fake.go *)
Record FakeManager := { reviewFunc : option (manager.Interface S) }.
Definition NewFakeManager : FakeManager := {| reviewFunc := None |}.
Definition WithReview (fn : manager.Interface S) (f : FakeManager) : FakeManager :=
  {| reviewFunc := Some fn |}.
Definition Review (f : FakeManager) : manager.Interface S := λ cr, call_fn (reviewFunc f) cr.

(** ** What a fake promises

    The methods of an approver, seen as the interface the program uses. *)
Definition of_Interface (flags : M S unit) (i : Interface S) : methods := {|
  m_Name := mret (ap_Name i);
  m_RegisterFlags := flags;
  m_Prepare := ap_Prepare i;
  m_Evaluate := ap_Evaluator i;
  m_Validate := ap_Webhook i;
  m_Ready := rec_Ready (ap_Reconciler i);
  m_EnqueueChan := mret (rec_EnqueueChan (ap_Reconciler i)) |}.

(** The fake a test builds to stand for [i]; the webhook has no setter, so its
    field is assigned. *)
Definition with_FakeWebhook (webhook : option FakeWebhook) (f : FakeApprover) : FakeApprover :=
  {| registerFlagsFn := registerFlagsFn f; prepareFn := prepareFn f;
     fa_FakeEvaluator := fa_FakeEvaluator f; fa_FakeWebhook := webhook;
     fa_FakeReconciler := fa_FakeReconciler f |}.
Definition faking (flags : M S unit) (i : Interface S) : FakeApprover :=
  with_FakeWebhook (Some (WithValidate (ap_Webhook i) NewFakeWebhook)) $
  WithRegisterFlags (λ _, flags) $ WithPrepare (λ _, ap_Prepare i) $
  WithReconciler (Some (WithName (ap_Name i) $ WithReady (rec_Ready (ap_Reconciler i)) $
    WithEnqueueChan (λ _, mret (rec_EnqueueChan (ap_Reconciler i))) NewFakeReconciler)) $
  WithEvaluator (Some (WithEvaluate (ap_Evaluator i) NewFakeEvaluator)) NewFakeApprover.

(** A fake approver can stand for any approver: set up with its methods, it has
    the same behaviour. *)
Theorem faking_correct flags i : as_approver (faking flags i) = of_Interface flags i.
Proof. done. Qed.
(** The same for a manager. *)
Lemma fake_manager_correct (i : manager.Interface S) cr : Review (WithReview i NewFakeManager) cr = i cr.
Proof. done. Qed.

(** Setters of different methods do not disturb each other, whatever is already
    set. *)
Lemma WithEvaluator_WithReconciler e r f :
  WithEvaluator e (WithReconciler r f) = WithReconciler r (WithEvaluator e f).
Proof. done. Qed.
Lemma WithPrepare_WithRegisterFlags p r f :
  WithPrepare p (WithRegisterFlags r f) = WithRegisterFlags r (WithPrepare p f).
Proof. done. Qed.

(** A fresh fake has no behaviour: every method but [Name] and [EnqueueChan]
    panics. *)
Lemma NewFakeApprover_methods :
  as_approver NewFakeApprover = {|
    m_Name := mret ""; m_RegisterFlags := panic nil_dereference;
    m_Prepare := panic nil_dereference;
    m_Evaluate := λ _ _, panic nil_dereference;
    m_Validate := λ _, panic nil_dereference;
    m_Ready := λ _, panic nil_dereference;
    m_EnqueueChan := mret None |}.
Proof. done. Qed.
End fake.
