(* ===== verification/ImageTool.v ===== *)
(** * The image build tool: make/_shared/oci-build/image_tool

    Three commands on a directory in OCI layout: append layers to every image,
    convert one image to a tarball for docker, and list digests.  The
    go-containerregistry library, the file system and the tar writer are
    parameters; images and indexes are immutable values of that library.
    The tool ends the process on the first error ([must]), which is a panic
    here, with what it printed. *)
From S2P Require Import Prelude GoStrings.

Abbreviation Hash := string.
Abbreviation MediaType := string.
Record Platform := { Architecture : string }.
Record Descriptor := {
  d_MediaType : MediaType;
  d_Size : Z;
  d_Digest : Hash;
  d_Platform : option Platform }.

(** ** github.com/google/go-containerregistry/pkg/v1 *)
Class OCILib := {
  ImageIndex : Type;
  Image : Type;
  Layer : Type;
  IsImage : MediaType → bool;
  IsIndex : MediaType → bool;
  DockerLayer : MediaType;
  OCILayer : MediaType;
  OCIManifestSchema1 : MediaType;
  IndexManifest : ImageIndex → outcome (list Descriptor);
  index_Image : ImageIndex → Hash → outcome Image;
  index_ImageIndex : ImageIndex → Hash → outcome ImageIndex;
  index_Digest : ImageIndex → outcome Hash;
  index_Size : ImageIndex → outcome Z;
  image_MediaType : Image → outcome MediaType;
  image_Digest : Image → outcome Hash;
  image_Size : Image → outcome Z;
  (** [img.ConfigFile()], and the platform it names. *)
  image_ConfigFile : Image → outcome (option Platform);
  (** [mutate.AppendLayers], [mutate.RemoveManifests] with [match.Digests], and
      [mutate.AppendManifests] of an image or an index. *)
  AppendLayers : Image → Layer → outcome Image;
  RemoveManifests : ImageIndex → Hash → ImageIndex;
  AppendManifests : ImageIndex → Image + ImageIndex → Descriptor → ImageIndex;
  (** How [fmt.Fprintf] prints an error for the verb [%w], which only
      [fmt.Errorf] knows. *)
  fmt_w : error → string }.

(** ** Files *)
Inductive opener := from_bytes (content : string) | from_file (path : string).
Record tar_Header := {
  h_Typeflag : Z; h_Name : string; h_Mode : Z; h_Linkname : string; h_Size : Z }.
Record FileInfo := { fi_Name : string; fi_IsDir : bool }.

Class ToolLib (S : Type) `{OCILib} := {
  tarWriter : Type;
  tar_NewWriter : tarWriter;
  tar_WriteHeader : tarWriter → tar_Header → outcome tarWriter;
  tar_Write : tarWriter → string → outcome tarWriter;
  (** [Close], whose error is dropped, and the bytes written. *)
  tar_Bytes : tarWriter → string;
  FileInfoHeader : FileInfo → string → outcome tar_Header;
  filepath_Rel : string → string → outcome string;
  (** What [filepath.Walk] calls its function with. *)
  Walk : string → M S (list (string * FileInfo * option error));
  os_Stat : string → M S FileInfo;
  ReadFile : string → M S string;
  layout_ImageIndex : string → M S ImageIndex;
  layout_FromPath : string → M S string;
  layout_Write : string → ImageIndex → M S unit;
  LayerFromOpener : opener → MediaType → M S Layer;
  ParseReference : string → outcome string;
  tarball_WriteToFile : string → string → Image → M S unit;
  Println : string → M S unit;
  GOARCH : string }.

(** ** main.go *)
Section tool.
Context `{OCILib} {S : Type} `{!ToolLib S}.

Definition fail {A} (msg : string) : M S A := panic ("exit status 1: " +:+ msg).
Definition must {A} (msg : string) (m : M S A) : M S A :=
  got ← try m;
  match got with
  | inl a => mret a
  | inr err => fail (msg +:+ ": " +:+ fmt_w err)
  end.
(** The same around a call of the library on values. *)
Definition must_pure {A} (msg : string) (o : outcome A) : M S A := must msg (pure_call o).

(** ** append_layers.go *)
Definition imageMutateFn : Type := Image → M S Image.

Definition with_content (d : Descriptor) (digest : Hash) (size : Z) : Descriptor :=
  {| d_MediaType := d_MediaType d; d_Size := size; d_Digest := digest; d_Platform := d_Platform d |}.

(** The body of the loop of [mutateImage], which calls itself on a nested
    index. *)
Definition mutateEntry (mutateImage : ImageIndex → M S ImageIndex) (fn : imageMutateFn)
    (index : ImageIndex) (descriptor : Descriptor) : M S ImageIndex :=
  if IsImage (d_MediaType descriptor) then
    img ← must_pure "could not load oci image with digest"
      (index_Image index (d_Digest descriptor));
    img ← fn img;
    digest ← must_pure "could not get image digest" (image_Digest img);
    size ← must_pure "could not get image size" (image_Size img);
    let index := RemoveManifests index (d_Digest descriptor) in
    mret (AppendManifests index (inl img) (with_content descriptor digest size))
  else if IsIndex (d_MediaType descriptor) then
    child ← must_pure "could not load oci index manifest"
      (index_ImageIndex index (d_Digest descriptor));
    child ← mutateImage child;
    digest ← must_pure "could not get index digest" (index_Digest child);
    size ← must_pure "could not get index size" (index_Size child);
    let index := RemoveManifests index (d_Digest descriptor) in
    mret (AppendManifests index (inr child) (with_content descriptor digest size))
  else mret index.

(** Indexes nest; [fuel] bounds the depth. *)
Fixpoint mutateImage (fuel : nat) (index : ImageIndex) (fn : imageMutateFn) : M S ImageIndex :=
  match fuel with
  | O => panic "out of fuel"
  | Datatypes.S fuel =>
      manifest ← must_pure "could not load oci image manifest" (IndexManifest index);
      for_range manifest index (mutateEntry (λ child, mutateImage fuel child fn) fn)
  end.

(** The function given to [filepath.Walk]: a file or directory of the tree
    becomes an entry of the tarball. *)
Definition walkEntry (path : string) (tw : tarWriter) (entry : string * FileInfo * option error)
    : M S tarWriter :=
  let '(target, info, err) := entry in
  _ ← must_pure "walk error" (match err with Some e => Err e | None => Ok tt end);
  header ← must_pure "could not create tar header" (FileInfoHeader info (fi_Name info));
  name ← must_pure "could not build relative path" (filepath_Rel path target);
  tw ← must_pure "could not write tar header" (tar_WriteHeader tw
    {| h_Typeflag := h_Typeflag header; h_Name := name; h_Mode := h_Mode header;
       h_Linkname := h_Linkname header; h_Size := h_Size header |});
  if negb (fi_IsDir info) then
    content ← must "could not write tar contents" (ReadFile target);
    must_pure "could not write tar contents" (tar_Write tw content)
  else mret tw.

(** An [untypedLayer] is its opener. *)
Definition newUntypedLayerFromPath (path : string) : M S opener :=
  stat ← must "could not open directory or tarball" (os_Stat path);
  if fi_IsDir stat then
    entries ← Walk path;
    tw ← for_range entries tar_NewWriter (walkEntry path);
    mret (from_bytes (tar_Bytes tw))
  else mret (from_file path).
Definition ToLayer (ul : opener) (mediaType : MediaType) : M S Layer :=
  LayerFromOpener ul mediaType.

(** The function literal of the command: all the layers on one image. *)
Definition appendLayers (layers : list opener) : imageMutateFn := λ img,
  imgMediaType ← must_pure "could not get image media type" (image_MediaType img);
  let layerType := if bool_decide (imgMediaType = OCIManifestSchema1) then OCILayer else DockerLayer in
  for_range layers img (λ img untypedLayer,
    layer ← must "could not load image layer" (ToLayer untypedLayer layerType);
    must_pure "could not append layer" (AppendLayers img layer)).

(** [CommandAppendLayers]; cobra checks that there is an argument. *)
Definition CommandAppendLayers (fuel : nat) (oci : string) (extra : list string) : M S unit :=
  if (length extra =? 0)%nat then mret tt
  else
    path ← must "could not load oci directory" (layout_FromPath oci);
    index ← must "could not load oci image index" (layout_ImageIndex path);
    layers ← collect (λ path, layer ← newUntypedLayerFromPath path; mret [layer]) extra;
    index ← mutateImage fuel index (appendLayers layers);
    must "could not write image" (layout_Write oci index).

(** ** convert_to_docker_tar.go *)
Definition with_Platform (p : option Platform) (d : Descriptor) : Descriptor :=
  {| d_MediaType := d_MediaType d; d_Size := d_Size d; d_Digest := d_Digest d; d_Platform := p |}.

(** The descriptor with the platform the image names when it has none. *)
Definition loadPlatform (index : ImageIndex) (descriptor : Descriptor) : M S Descriptor :=
  match d_Platform descriptor with
  | None =>
      img ← must_pure "could not load image" (index_Image index (d_Digest descriptor));
      cfg ← must_pure "could not load image config" (image_ConfigFile img);
      mret (with_Platform cfg descriptor)
  | Some _ => mret descriptor
  end.

Fixpoint getImagesFromIndex (fuel : nat) (index : ImageIndex) (matcher : Descriptor → bool)
    : M S (list Image) :=
  match fuel with
  | O => panic "out of fuel"
  | Datatypes.S fuel =>
      manifest ← must_pure "could not load oci index manifest" (IndexManifest index);
      collect (λ descriptor,
        if IsImage (d_MediaType descriptor) then
          descriptor ← loadPlatform index descriptor;
          if matcher descriptor then
            img ← must_pure "could not load image" (index_Image index (d_Digest descriptor));
            mret [img]
          else mret []
        else if IsIndex (d_MediaType descriptor) then
          idx ← must_pure "could not load image index" (index_ImageIndex index (d_Digest descriptor));
          getImagesFromIndex fuel idx matcher
        else mret []) manifest
  end.

(** The matcher of the command. *)
Definition matchArchitecture (desc : Descriptor) : bool :=
  match d_Platform desc with
  | Some p => bool_decide (Architecture p = GOARCH)
  | None => false
  end.
Definition CommandConvertToDockerTar (fuel : nat) (path output imageName : string) : M S unit :=
  ociLayout ← must "could not load oci directory" (layout_FromPath path);
  index ← must "could not load oci image index" (layout_ImageIndex ociLayout);
  images ← getImagesFromIndex fuel index matchArchitecture;
  match images with
  | [] => fail "no matching images found"
  | [image] =>
      ref ← must_pure "invalid image name" (ParseReference imageName);
      must "could not write tarball" (tarball_WriteToFile output ref image)
  | _ => fail "multiple matching images found"
  end.

(** ** list_digests.go *)
Definition CommandListDigests (path : string) : M S unit :=
  ociLayout ← must "could not load oci directory" (layout_FromPath path);
  imageIndex ← must "could not load oci image index" (layout_ImageIndex ociLayout);
  indexManifest ← must_pure "could not load oci index manifest" (IndexManifest imageIndex);
  for_range indexManifest tt (λ _ man, Println (d_Digest man)).

(** ** The command line

    A [cobra.Command]: what it says of its use, which arguments it accepts and
    what it runs.  [MinimumNArgs], [ExactArgs] and the dispatch of [Execute] to
    the command that the command line names are cobra's. *)
Record Command := {
  Use : string;
  Args : list string → option error;
  Run : list string → M S unit }.
Context (MinimumNArgs ExactArgs : nat → list string → option error).
Context (Execute : string → list Command → M S unit).

(** [args[i]] of an argument that is not there. *)
Definition no_argument (args : list string) : M S unit :=
  panic ("index out of range with length " +:+ pretty (length args)).

Definition append_layers (fuel : nat) : Command := {|
  Use := "append-layers oci-path [path-to-tarball...]";
  Args := MinimumNArgs 1;
  Run args := match args with
    | oci :: extra => CommandAppendLayers fuel oci extra
    | _ => no_argument args
    end |}.
Definition convert_to_docker_tar (fuel : nat) : Command := {|
  Use := "convert-to-docker-tar oci-path output image-name";
  Args := ExactArgs 3;
  Run args := match args with
    | path :: output :: imageName :: _ => CommandConvertToDockerTar fuel path output imageName
    | _ => no_argument args
    end |}.
Definition list_digests : Command := {|
  Use := "list-digests oci-path";
  Args := ExactArgs 1;
  Run args := match args with
    | path :: _ => CommandListDigests path
    | _ => no_argument args
    end |}.

Definition CommandRoot : string := "image-tool".
Definition main (fuel : nat) : M S unit :=
  must "error running command" (Execute CommandRoot
    [append_layers fuel; convert_to_docker_tar fuel; list_digests]).
End tool.
