(* ===== verification/ImageToolSpec.v ===== *)
(** * The image build tool: which images it rewrites and exports

    The layout on disk is read as the list of its images, in the order of the
    manifests ([holds]).  Appending layers maps the function over this list and
    leaves the structure of the layout alone; converting writes the one image
    of the architecture of the host. *)
From S2P Require Import Prelude GoStrings ImageTool.

(** ** What is relied on of go-containerregistry

    Removing and appending edit the list of descriptors and leave the lookups
    by other digests alone; an index whose manifest loads has a digest; a digest
    names one content.  What is appended has to be well formed: the library
    computes its descriptor, and takes from the given one the fields that are
    not empty.  The lookups are those of an index whose manifest has been asked
    for. *)
Definition add_Digest `{OCILib} (add : Image + ImageIndex) : outcome Hash :=
  match add with inl img => image_Digest img | inr child => index_Digest child end.
(** The descriptor that is given is the one that would be computed, but for its
    platform; it has a media type. *)
Definition addendum_ok `{OCILib} (add : Image + ImageIndex) (d : Descriptor) : Prop :=
  add_Digest add = Ok (d_Digest d) ∧ d_MediaType d ≠ "" ∧
  match add with
  | inl img => image_Size img = Ok (d_Size d) ∧ is_Ok (image_MediaType img)
  | inr child => index_Size child = Ok (d_Size d) ∧ is_Ok (IndexManifest child)
  end.

Class OCILibLaws `{OCILib} : Prop := {
  RemoveManifests_manifest i h ms :
    IndexManifest i = Ok ms →
    IndexManifest (RemoveManifests i h) = Ok (filter (λ d, d_Digest d ≠ h) ms);
  RemoveManifests_Image i h h' :
    h' ≠ h → index_Image (RemoveManifests i h) h' = index_Image i h';
  RemoveManifests_ImageIndex i h h' :
    h' ≠ h → index_ImageIndex (RemoveManifests i h) h' = index_ImageIndex i h';
  AppendManifests_manifest i add d ms :
    addendum_ok add d → IndexManifest i = Ok ms →
    ∃ d', IndexManifest (AppendManifests i add d) = Ok (ms ++ [d']) ∧
      d_MediaType d' = d_MediaType d ∧ d_Digest d' = d_Digest d ∧
      (d_Platform d ≠ None → d_Platform d' = d_Platform d);
  AppendManifests_Image i img d h :
    addendum_ok (inl img) d →
    index_Image (AppendManifests i (inl img) d) h =
      if decide (h = d_Digest d) then Ok img else index_Image i h;
  AppendManifests_Image_index i child d h :
    addendum_ok (inr child) d →
    index_Image (AppendManifests i (inr child) d) h = index_Image i h;
  AppendManifests_ImageIndex i child d h :
    addendum_ok (inr child) d →
    index_ImageIndex (AppendManifests i (inr child) d) h =
      if decide (h = d_Digest d) then Ok child else index_ImageIndex i h;
  AppendManifests_ImageIndex_image i img d h :
    addendum_ok (inl img) d →
    index_ImageIndex (AppendManifests i (inl img) d) h = index_ImageIndex i h;
  IsImage_named mt : IsImage mt = true → mt ≠ "";
  IsIndex_named mt : IsIndex mt = true → mt ≠ "";
  index_Digest_Ok i ms :
    IndexManifest i = Ok ms → is_Ok (index_Digest i) ∧ is_Ok (index_Size i);
  image_Digest_inj i j h : image_Digest i = Ok h → image_Digest j = Ok h → i = j;
  index_Digest_inj i j h : index_Digest i = Ok h → index_Digest j = Ok h → i = j }.

Section spec.
Context `{lib : !OCILib, !OCILibLaws} {S : Type} `{!ToolLib S}.

(** ** The images of an index *)

(** What the descriptor [d] of [index] contributes.  Only images and nested
    indexes count, and a nested index has at least one image. *)
Definition entry (nested : ImageIndex → list (Descriptor * Image) → Prop) (index : ImageIndex)
    (d : Descriptor) (l : list (Descriptor * Image)) : Prop :=
  if IsImage (d_MediaType d) then
    ∃ img, index_Image index (d_Digest d) = Ok img ∧ image_Digest img = Ok (d_Digest d) ∧
      l = [(d, img)]
  else if IsIndex (d_MediaType d) then
    ∃ child, index_ImageIndex index (d_Digest d) = Ok child ∧
      index_Digest child = Ok (d_Digest d) ∧ nested child l ∧ l ≠ []
  else l = [].

(** [holds W n index l]: [index] nests at most [n] deep, [l] are its images in
    order, and every manifest on the way satisfies [W]. *)
Fixpoint holds (W : list Descriptor → Prop) (n : nat) (index : ImageIndex)
    (l : list (Descriptor * Image)) : Prop :=
  match n with
  | O => False
  | Datatypes.S n => ∃ ms ls, IndexManifest index = Ok ms ∧ W ms ∧
      Forall2 (entry (holds W n) index) ms ls ∧ l = concat ls
  end.

(** A layout as the tool expects it: no digest twice in a manifest, and all of
    them among the digests [old]. *)
Definition wf_manifest (old : Hash → Prop) (ms : list Descriptor) : Prop :=
  NoDup (d_Digest <$> ms) ∧ Forall old (d_Digest <$> ms).
Definition any_manifest (ms : list Descriptor) : Prop := True.

(** An image that can be read and whose digest is not in use yet.  [mutateImage]
    relies on the latter: an image that gets the digest of one that is still to
    be visited is dropped when that one is ([appended_twice_lost]). *)
Definition fresh (old : Hash → Prop) (img : Image) : Prop :=
  (∃ h, image_Digest img = Ok h ∧ ¬ old h) ∧ is_Ok (image_Size img) ∧ is_Ok (image_MediaType img).

(** The same kind of descriptor, for the same platform if there was one. *)
Definition same_descriptor (d d' : Descriptor) : Prop :=
  d_MediaType d' = d_MediaType d ∧ (d_Platform d ≠ None → d_Platform d' = d_Platform d).

(** ** Calls that succeed *)
Lemma must_Ok {A} msg (m : M S A) a s s' : m s = (Ok a, s') → must msg m s = (Ok a, s').
Proof. intros E. unfold must. erewrite M_bind_run by (by apply try_Ok_inl). done. Qed.
Lemma must_pure_Ok {A} msg (o : outcome A) a (s : S) : o = Ok a → must_pure msg o s = (Ok a, s).
Proof. intros ->. by apply must_Ok. Qed.

Lemma filter_id {A} (P : A → Prop) `{!∀ x, Decision (P x)} l : Forall P l → filter P l = l.
Proof.
  induction 1 as [|x l Hx _ IH]; [done|]. by rewrite filter_cons_True, IH.
Qed.
Lemma Forall2_impl_in {A B} (P Q : A → B → Prop) l k :
  Forall2 P l k → (∀ x y, x ∈ l → P x y → Q x y) → Forall2 Q l k.
Proof.
  induction 1 as [|x y l k Hxy _ IH]; intros HQ; [done|].
  constructor; [apply HQ; [by left|done]|]. apply IH. intros x' y' Hin. apply HQ. by right.
Qed.
Lemma run_app_inv {A B} (R : S → A → B → S → Prop) s l1 l2 ys s' :
  run R s (l1 ++ l2) ys s' → ∃ ys1 ys2 s1, run R s l1 ys1 s1 ∧ run R s1 l2 ys2 s' ∧ ys = ys1 ++ ys2.
Proof.
  revert s ys. induction l1 as [|x l1 IH]; simpl; intros s ys Hrun.
  - exists [], ys, s. split_and!; [constructor|done..].
  - apply run_cons_inv in Hrun as (y & s1 & ys' & Hx & (ys1 & ys2 & s2 & ? & ? & ->)%IH & ->).
    exists (y :: ys1), ys2, s2. split_and!; [by econstructor|done..].
Qed.

(** ** Appending *)
Section append.
Context (old : Hash → Prop).
(** A digest in use stands for an index of digests in use. *)
Context (old_closed : ∀ i h ms, index_Digest i = Ok h → old h → IndexManifest i = Ok ms →
  Forall old (d_Digest <$> ms)).
Context (fn : Image → M S Image).

(** An index that holds a fresh image is not one of the old ones. *)
Lemma holds_fresh n i l h :
  holds any_manifest n i l → l ≠ [] → Forall (fresh old) (snd <$> l) →
  index_Digest i = Ok h → ¬ old h.
Proof.
  revert i l h. induction n as [|n IH]; intros i l h; simpl; [done|].
  intros (ms & ls & Hms & _ & Hls & ->) Hne Hfr Hh Hold.
  pose proof (old_closed _ _ _ Hh Hold Hms) as Hall.
  clear Hms. induction Hls as [|d l ms ls Hd _ IHls]; [done|]. simpl in *.
  rewrite fmap_app in Hfr. apply Forall_app in Hfr as [Hfr Hfr']. inv Hall.
  destruct (decide (l = [])) as [->|Hl]; [by apply IHls|].
  unfold entry in Hd. destruct (IsImage _).
  - destruct Hd as (img & _ & Hdig & ->). apply Forall_cons in Hfr as [[(h' & ? & ?) _] _].
    simpl in *. congruence.
  - destruct (IsIndex _); [|done]. destruct Hd as (child & _ & Hdig & Hc & _). by eapply IH.
Qed.

Section replace.
Context (cur : ImageIndex) (pre post : list Descriptor) (d : Descriptor) (add : Image + ImageIndex).
Context (h : Hash) (size : Z).
Context (Hcur : IndexManifest cur = Ok (pre ++ d :: post)).
Context (Hd : ∀ e, e ∈ pre ++ post → d_Digest e ≠ d_Digest d) (Hadd : addendum_ok add (with_content d h size)).
Let cur' : ImageIndex :=
  AppendManifests (RemoveManifests cur (d_Digest d)) add (with_content d h size).

Lemma replace_manifest :
  ∃ d', IndexManifest cur' = Ok (pre ++ post ++ [d']) ∧ d_Digest d' = h ∧ same_descriptor d d'.
Proof.
  destruct (AppendManifests_manifest (RemoveManifests cur (d_Digest d)) add (with_content d h size)
    (pre ++ post)) as (d' & E & ? & ? & ?); [done| |].
  - rewrite (RemoveManifests_manifest _ _ _ Hcur), filter_app, filter_cons_False by (by intros []).
    f_equal. rewrite <-filter_app. apply filter_id, Forall_forall, Hd.
  - exists d'. by rewrite (assoc_L (++)).
Qed.
(** What the index holds under other digests stays, even if the new content was
    there already. *)
Lemma replace_entry W n e le :
  d_Digest e ≠ d_Digest d → entry (holds W n) cur e le → entry (holds W n) cur' e le.
Proof.
  unfold entry, cur'. intros Hne He. destruct (IsImage _); [|destruct (IsIndex _); [|done]].
  - destruct He as (img & Ei & Edig & ->). exists img. split_and!; [|done..].
    destruct add; [rewrite AppendManifests_Image by done; case_decide as Eh; simpl in Eh|
      rewrite AppendManifests_Image_index by done]; rewrite ?RemoveManifests_Image by done; [|done..].
    f_equal. eapply image_Digest_inj; [apply Hadd|]. simpl. congruence.
  - destruct He as (child & Ei & Edig & Hnest & Hle). exists child. split_and!; [|done..].
    destruct add; [rewrite AppendManifests_ImageIndex_image by done|
      rewrite AppendManifests_ImageIndex by done; case_decide as Eh; simpl in Eh];
      rewrite ?RemoveManifests_ImageIndex by done; [done| |done].
    f_equal. eapply index_Digest_inj; [apply Hadd|]. simpl. congruence.
Qed.
End replace.

(** What a call of [mutateImage] on a nested index achieves. *)
Definition mutates (n : nat) : Prop := ∀ i l s imgs' s',
  holds (wf_manifest old) n i l →
  answers fn s (snd <$> l) imgs' s' → Forall (fresh old) imgs' →
  ∃ i' l', mutateImage n i fn s = (Ok i', s') ∧ holds any_manifest n i' l' ∧
    snd <$> l' = imgs' ∧ Forall2 same_descriptor (fst <$> l) (fst <$> l').

(** The step of the loop for an image or a nested index that is listed once. *)
Lemma mutateEntry_step n cur pre d post l s imgs' s' :
  mutates n →
  IndexManifest cur = Ok (pre ++ d :: post) →
  (∀ e, e ∈ pre ++ post → d_Digest e ≠ d_Digest d) →
  l ≠ [] → entry (holds (wf_manifest old) n) cur d l →
  answers fn s (snd <$> l) imgs' s' → Forall (fresh old) imgs' →
  ∃ cur' d' l', mutateEntry (λ child, mutateImage n child fn) fn cur d s = (Ok cur', s') ∧
    IndexManifest cur' = Ok (pre ++ post ++ [d']) ∧ ¬ old (d_Digest d') ∧
    entry (holds any_manifest n) cur' d' l' ∧ snd <$> l' = imgs' ∧
    Forall2 same_descriptor (fst <$> l) (fst <$> l') ∧
    (∀ W e le, d_Digest e ≠ d_Digest d → entry (holds W n) cur e le → entry (holds W n) cur' e le).
Proof.
  intros IH Hms Hd Hl He Hrun Hfr. unfold entry in He. unfold mutateEntry.
  destruct (IsImage (d_MediaType d)) eqn:EI; [|destruct (IsIndex (d_MediaType d)) eqn:EX; [|done]].
  - destruct He as (img & Ei & _ & ->). simpl in *.
    apply run_cons_inv in Hrun as (img' & s1 & ? & Hfn & [-> ->]%run_nil_inv & ->).
    apply Forall_singleton in Hfr as ((h & Eh & Hh) & [size Es] & Emt).
    assert (addendum_ok (inl img') (with_content d h size)) as Hok
      by (split_and!; [done|by apply IsImage_named|done..]).
    destruct (replace_manifest cur pre post d (inl img') h size Hms Hd Hok) as (d' & Em & Edig & Hsame).
    eexists _, d', [(d', img')]. split_and!.
    + rewrite (M_bind_run _ _ _ _ _ (must_pure_Ok _ _ _ s Ei)), (M_bind_run _ _ _ _ _ Hfn).
      rewrite (M_bind_run _ _ _ _ _ (must_pure_Ok _ _ _ s1 Eh)).
      by rewrite (M_bind_run _ _ _ _ _ (must_pure_Ok _ _ _ s1 Es)).
    + done.
    + by rewrite Edig.
    + unfold entry. destruct Hsame as [-> _]. rewrite EI. exists img'.
      rewrite AppendManifests_Image, decide_True by done. by rewrite Edig.
    + done.
    + by apply Forall2_cons.
    + intros. by eapply replace_entry.
  - destruct He as (child & Ei & _ & Hc & _).
    destruct (IH _ _ _ _ _ Hc Hrun Hfr) as (child' & l' & Hrec & Hc' & <- & Hsame').
    assert (l' ≠ []) as Hl'.
    { intros ->. by apply Forall2_length in Hsame'; destruct l. }
    assert (∃ h size, index_Digest child' = Ok h ∧ index_Size child' = Ok size ∧ is_Ok (IndexManifest child'))
      as (h & size & Eh & Es & Ems).
    { destruct n; [done|]. destruct Hc' as (ms & _ & Hm & _).
      destruct (index_Digest_Ok _ _ Hm) as [[h ?] [z ?]]. exists h, z. split_and!; [done..|by eexists]. }
    assert (addendum_ok (inr child') (with_content d h size)) as Hok
      by (split_and!; [done|by apply IsIndex_named|done..]).
    destruct (replace_manifest cur pre post d (inr child') h size Hms Hd Hok) as (d' & Em & Edig & Hsame).
    eexists _, d', l'. split_and!.
    + rewrite (M_bind_run _ _ _ _ _ (must_pure_Ok _ _ _ s Ei)), (M_bind_run _ _ _ _ _ Hrec).
      rewrite (M_bind_run _ _ _ _ _ (must_pure_Ok _ _ _ s' Eh)).
      by rewrite (M_bind_run _ _ _ _ _ (must_pure_Ok _ _ _ s' Es)).
    + done.
    + rewrite Edig. by eapply holds_fresh.
    + unfold entry. destruct Hsame as [-> _]. rewrite EI, EX. exists child'.
      rewrite AppendManifests_ImageIndex, decide_True by done. by rewrite Edig.
    + done.
    + done.
    + intros. by eapply replace_entry.
Qed.

Lemma wf_manifest_middle pre d post :
  wf_manifest old (pre ++ d :: post) →
  old (d_Digest d) ∧ wf_manifest old (pre ++ post) ∧ ∀ e, e ∈ pre ++ post → d_Digest e ≠ d_Digest d.
Proof.
  unfold wf_manifest. rewrite <-(Permutation_middle pre post d). simpl.
  rewrite NoDup_cons, Forall_cons. intros [[Hn ?] [? ?]]. split_and!; [done..|].
  intros e He E. apply Hn. rewrite <-E. by apply list_elem_of_fmap_2.
Qed.
(** The loop: what is left to visit sits between the descriptors that are kept
    and those added so far. *)
Lemma mutateEntries n post ls : mutates n → ∀ cur kept added la s imgs' s',
  IndexManifest cur = Ok (kept ++ post ++ added) →
  Forall (λ d, IsImage (d_MediaType d) = false ∧ IsIndex (d_MediaType d) = false) kept →
  wf_manifest old (kept ++ post) → Forall (λ d, ¬ old (d_Digest d)) added →
  Forall2 (entry (holds (wf_manifest old) n) cur) post ls →
  Forall2 (entry (holds any_manifest n) cur) added la →
  answers fn s (snd <$> concat ls) imgs' s' → Forall (fresh old) imgs' →
  ∃ cur' l', for_range post cur (mutateEntry (λ child, mutateImage n child fn) fn) s = (Ok cur', s') ∧
    holds any_manifest (Datatypes.S n) cur' (concat la ++ l') ∧
    snd <$> l' = imgs' ∧ Forall2 same_descriptor (fst <$> concat ls) (fst <$> l').
Proof.
  intros IH. revert ls. induction post as [|d post IHpost];
    intros ls cur kept added la s imgs' s' Hms Hkept [Hnd Hold] Hadded Hls Hla Hrun Hfr.
  - inv Hls. simpl in *. apply run_nil_inv in Hrun as [-> ->].
    exists cur, []. split_and!; [done| |done|constructor].
    exists (kept ++ added), (((λ _, []) <$> kept) ++ la). split_and!; [done|done| |].
    + apply Forall2_app; [|done]. apply Forall2_fmap_r, Forall_Forall2_diag.
      eapply Forall_impl; [done|]. intros d [E1 E2]. unfold entry. by rewrite E1, E2.
    + rewrite app_nil_r, concat_app. clear. by induction kept.
  - apply Forall2_cons_inv_l in Hls as (l & ls' & He & Hls & ->).
    simpl concat in Hrun. rewrite fmap_app in Hrun.
    apply run_app_inv in Hrun as (imgs1 & imgs2 & s1 & Hrun1 & Hrun2 & ->).
    apply Forall_app in Hfr as [Hfr1 Hfr2]. rewrite for_range_cons.
    destruct (decide (l = [])) as [->|Hl].
    + assert (IsImage (d_MediaType d) = false ∧ IsIndex (d_MediaType d) = false) as [E1 E2].
      { unfold entry in He. destruct (IsImage _); [naive_solver|]. destruct (IsIndex _); naive_solver. }
      simpl in Hrun1. apply run_nil_inv in Hrun1 as [-> ->].
      rewrite (M_bind_run _ _ cur s s) by (unfold mutateEntry; by rewrite E1, E2).
      eapply (IHpost ls' _ (kept ++ [d])); try done.
      * by rewrite <-(assoc_L (++)).
      * apply Forall_app. by split; [|apply Forall_singleton].
      * split; by rewrite <-(assoc_L (++)).
    + assert (old (d_Digest d) ∧ wf_manifest old (kept ++ post) ∧
        ∀ e, e ∈ kept ++ post → d_Digest e ≠ d_Digest d) as (Hd & Hwf & Hdig) by (by apply wf_manifest_middle).
      destruct (mutateEntry_step n cur kept d (post ++ added) l s imgs1 s1)
        as (cur' & d' & l' & Hstep & Hms' & Hd' & He' & <- & Hsame & Hpres); try done.
      { intros e. rewrite (assoc_L (++)), elem_of_app. intros [Hin|Hin]; [by apply Hdig|].
        eapply Forall_forall in Hadded; [|done]. intros E. by rewrite E in Hadded. }
      rewrite (M_bind_run _ _ _ _ _ Hstep).
      destruct (IHpost ls' cur' kept (added ++ [d']) (la ++ [l']) s1 imgs2 s')
        as (cur2 & l2 & Hloop & Hcur2 & <- & Hsame2); try done.
      * by rewrite Hms', <-!(assoc_L (++)).
      * by apply Forall_app, conj, Forall_singleton.
      * eapply Forall2_impl_in; [done|]. intros e le Hin Hle.
        apply Hpres; [|done]. apply Hdig, elem_of_app. by right.
      * apply Forall2_app; [|by apply Forall2_cons].
        eapply Forall2_impl_in; [done|]. intros e le Hin Hle. apply Hpres; [|done].
        eapply Forall_forall in Hadded; [|done]. intros E. by rewrite E in Hadded.
      * exists cur2, (l' ++ l2). rewrite concat_app in Hcur2. simpl in Hcur2.
        rewrite app_nil_r, <-(assoc_L (++)) in Hcur2.
        split_and!; [done|done|by rewrite fmap_app|].
        simpl. rewrite !fmap_app. by apply Forall2_app.
Qed.

Lemma mutateImage_mutates n : mutates n.
Proof.
  induction n as [|n IH]; intros i l s imgs' s'; [done|].
  intros (ms & ls & Hms & Hwf & Hls & ->) Hrun Hfr. simpl.
  rewrite (M_bind_run _ _ _ _ _ (must_pure_Ok _ _ _ s Hms)).
  eapply (mutateEntries n ms ls IH i [] [] []); try done. by rewrite app_nil_r.
Qed.
End append.

(** [C36] Appending layers to a layout writes one layout back, in which every
    image, nested ones included, is the image with the layers appended, once and
    in the order of the manifests, under a descriptor of the same media type and
    platform; the recursion ends.  This needs a layout in which no manifest lists
    a digest twice and every nested index holds an image, and images that the
    layers can be appended to, such that none then has a digest that is in use in
    the layout ([old] are the digests in use, those that an index in use lists
    included).  The last condition excludes a
    failure of the code: [appended_twice_lost] is a layout of which an image is
    lost. *)
Theorem CommandAppendLayers_correct old n oci extra s path s1 index s2 layers s3 l imgs' s4 :
  (∀ i h ms, index_Digest i = Ok h → old h → IndexManifest i = Ok ms →
    Forall old (d_Digest <$> ms)) →
  extra ≠ [] →
  layout_FromPath oci s = (Ok path, s1) →
  layout_ImageIndex path s1 = (Ok index, s2) →
  collect (λ path, layer ← newUntypedLayerFromPath path; mret [layer]) extra s2 = (Ok layers, s3) →
  holds (wf_manifest old) n index l →
  answers (appendLayers layers) s3 (snd <$> l) imgs' s4 → Forall (fresh old) imgs' →
  ∃ index' l',
    CommandAppendLayers n oci extra s = must "could not write image" (layout_Write oci index') s4 ∧
    holds any_manifest n index' l' ∧ snd <$> l' = imgs' ∧
    Forall2 same_descriptor (fst <$> l) (fst <$> l').
Proof.
  intros Hold Hne Epath Eindex Elayers Hl Hrun Hfr.
  destruct (mutateImage_mutates old Hold _ n _ _ _ _ _ Hl Hrun Hfr) as (index' & l' & Hcall & Hl' & ? & ?).
  exists index', l'. split_and!; [|done..]. unfold CommandAppendLayers.
  destruct extra; [done|]. simpl length. rewrite (proj2 (Nat.eqb_neq _ 0)) by done.
  rewrite (M_bind_run _ _ _ _ _ (must_Ok _ _ _ _ _ Epath)).
  rewrite (M_bind_run _ _ _ _ _ (must_Ok _ _ _ _ _ Eindex)).
  rewrite (M_bind_run _ _ _ _ _ Elayers). by rewrite (M_bind_run _ _ _ _ _ Hcall).
Qed.

(** ** Exporting *)

(** The platform of an image: the one of its descriptor, else the one of its
    configuration. *)
Definition platform_of (e : Descriptor * Image) : option Platform :=
  match d_Platform e.1 with
  | Some p => Some p
  | None => match image_ConfigFile e.2 with Ok p => p | _ => None end
  end.
Definition for_host (e : Descriptor * Image) : Prop :=
  Architecture <$> platform_of e = Some GOARCH.
#[export] Instance for_host_dec e : Decision (for_host e).
Proof. unfold for_host. apply _. Defined.
Definition host_images (l : list (Descriptor * Image)) : list Image := snd <$> filter for_host l.
Definition config_loads (e : Descriptor * Image) : Prop :=
  d_Platform e.1 = None → is_Ok (image_ConfigFile e.2).

Lemma collect_pure {A B} (f : A → M S (list B)) l ys s :
  Forall2 (λ x y, f x s = (Ok y, s)) l ys → collect f l s = (Ok (concat ys), s).
Proof.
  unfold collect. generalize 0%nat as i. intros i Hl. revert i.
  induction Hl as [|x y l ys Hx _ IH]; intros i; [done|]. simpl.
  rewrite (M_bind_run _ _ _ _ _ Hx). by rewrite (M_bind_run _ _ _ _ _ (IH _)).
Qed.

Lemma matchArchitecture_for_host d img :
  matchArchitecture (with_Platform (platform_of (d, img)) d) = bool_decide (for_host (d, img)).
Proof.
  unfold matchArchitecture. simpl. case_bool_decide as Hh; unfold for_host in Hh;
    destruct (platform_of _) as [p|]; simpl in *; try done.
  - apply bool_decide_eq_true_2. congruence.
  - apply bool_decide_eq_false_2. congruence.
Qed.
Lemma loadPlatform_Ok index d img (s : S) :
  index_Image index (d_Digest d) = Ok img → config_loads (d, img) →
  loadPlatform index d s = (Ok (with_Platform (platform_of (d, img)) d), s).
Proof.
  unfold loadPlatform, config_loads, platform_of. simpl. intros Ei Hcfg.
  destruct d as [mt sz dg [p|]]; simpl in *; [done|].
  destruct (Hcfg eq_refl) as [cfg E]. rewrite (M_bind_run _ _ _ _ _ (must_pure_Ok _ _ _ s Ei)).
  rewrite (M_bind_run _ _ _ _ _ (must_pure_Ok _ _ _ s E)). by rewrite E.
Qed.
Lemma getImagesFromIndex_correct W n index l (s : S) :
  holds W n index l → Forall config_loads l →
  getImagesFromIndex n index matchArchitecture s = (Ok (host_images l), s).
Proof.
  revert index l. induction n as [|n IH]; intros index l; [done|].
  intros (ms & ls & Hms & _ & Hls & ->) Hcfg. simpl.
  rewrite (M_bind_run _ _ _ _ _ (must_pure_Ok _ _ _ s Hms)).
  assert (host_images (concat ls) = concat (host_images <$> ls)) as ->.
  { clear. induction ls as [|l ls IH]; [done|]. simpl.
    unfold host_images in *. by rewrite filter_app, fmap_app, IH. }
  apply collect_pure, Forall2_fmap_r. clear Hms.
  induction Hls as [|d l ms ls Hd _ IHls]; constructor;
    apply Forall_app in Hcfg as [Hcfg Hcfg']; [|by apply IHls]. clear IHls Hcfg' ls.
  unfold entry in Hd. destruct (IsImage _); [|destruct (IsIndex _)].
  - destruct Hd as (img & Ei & _ & ->). rewrite Forall_singleton in Hcfg.
    rewrite (M_bind_run _ _ _ _ _ (loadPlatform_Ok _ _ _ s Ei Hcfg)). simpl.
    rewrite matchArchitecture_for_host. case_bool_decide as Eh.
    + rewrite (M_bind_run _ _ _ _ _ (must_pure_Ok _ _ _ s Ei)).
      unfold host_images. by rewrite filter_cons_True.
    + unfold host_images. by rewrite filter_cons_False.
  - destruct Hd as (child & Ei & _ & Hc & _).
    rewrite (M_bind_run _ _ _ _ _ (must_pure_Ok _ _ _ s Ei)). by apply IH.
  - by subst.
Qed.

(** Converting a layout writes the tarball exactly when one of its images,
    nested ones included, is for the architecture of the host, and that image is
    what it writes; otherwise it ends the process and writes nothing. *)
Theorem CommandConvertToDockerTar_correct W n path output imageName s ociLayout s1 index s2 l :
  layout_FromPath path s = (Ok ociLayout, s1) →
  layout_ImageIndex ociLayout s1 = (Ok index, s2) →
  holds W n index l → Forall config_loads l →
  CommandConvertToDockerTar n path output imageName s =
    match host_images l with
    | [] => fail "no matching images found" s2
    | [image] =>
        match ParseReference imageName with
        | Ok ref => must "could not write tarball" (tarball_WriteToFile output ref image) s2
        | Err e => fail ("invalid image name: " +:+ fmt_w e) s2
        | Panic w => (Panic w, s2)
        end
    | _ => fail "multiple matching images found" s2
    end.
Proof.
  intros Epath Eindex Hl Hcfg. unfold CommandConvertToDockerTar.
  rewrite (M_bind_run _ _ _ _ _ (must_Ok _ _ _ _ _ Epath)).
  rewrite (M_bind_run _ _ _ _ _ (must_Ok _ _ _ _ _ Eindex)).
  rewrite (M_bind_run _ _ _ _ _ (getImagesFromIndex_correct _ _ _ _ s2 Hl Hcfg)).
  destruct (host_images l) as [|img [|]]; [done| |done].
  by destruct (ParseReference imageName) as [ref|e|w].
Qed.
End spec.

(** ** The command line

    What cobra's argument checks accept has every argument that the commands
    index. *)
Section command_line.
Context `{OCILib} {S : Type} `{!ToolLib S}.
Context (MinimumNArgs ExactArgs : nat → list string → option error).
Context (MinimumNArgs_None : ∀ n args, MinimumNArgs n args = None → (n ≤ length args)%nat).
Context (ExactArgs_None : ∀ n args, ExactArgs n args = None → length args = n).

Lemma append_layers_arguments n args :
  Args (append_layers (S:=S) MinimumNArgs n) args = None →
  ∃ oci extra, args = oci :: extra ∧
    Run (append_layers MinimumNArgs n) args = CommandAppendLayers (S:=S) n oci extra.
Proof.
  intros Hn%MinimumNArgs_None. destruct args as [|oci extra]; simpl in Hn; [lia|]. by exists oci, extra.
Qed.
Lemma convert_to_docker_tar_arguments n args :
  Args (convert_to_docker_tar (S:=S) ExactArgs n) args = None →
  ∃ path output name, args = [path; output; name] ∧
    Run (convert_to_docker_tar ExactArgs n) args = CommandConvertToDockerTar (S:=S) n path output name.
Proof.
  intros Hn%ExactArgs_None. destruct args as [|path [|output [|name [|]]]]; try done.
  by exists path, output, name.
Qed.
Lemma list_digests_arguments args :
  Args (list_digests (S:=S) ExactArgs) args = None →
  ∃ path, args = [path] ∧ Run (list_digests ExactArgs) args = CommandListDigests (S:=S) path.
Proof.
  intros Hn%ExactArgs_None. destruct args as [|path [|]]; try done. by exists path.
Qed.
End command_line.

(** ** A concrete layout

    Indexes are trees of descriptors with what they name, images are their
    contents, and digests print the whole content. *)
Module ImageToolWitnesses.
#[local] Instance Platform_eq_dec : EqDecision Platform.
Proof. solve_decision. Defined.
#[local] Instance Descriptor_eq_dec : EqDecision Descriptor.
Proof. solve_decision. Defined.
#[local] Instance Descriptor_countable : Countable Descriptor.
Proof.
  apply (inj_countable'
    (λ d, (d_MediaType d, d_Size d, d_Digest d, Architecture <$> d_Platform d))
    (λ '(mt, size, dig, p), {| d_MediaType := mt; d_Size := size; d_Digest := dig;
       d_Platform := (λ a, {| Architecture := a |}) <$> p |})).
  by intros [mt size dig [[a]|]].
Defined.

Abbreviation tree := (gen_tree (Descriptor * string)).
Definition entries (t : tree) : list tree := match t with GenNode _ es => es | GenLeaf _ => [] end.
(** An entry is an image, or a nested index with its descriptor. *)
Definition entry_Descriptor (e : tree) : option Descriptor :=
  match e with
  | GenLeaf (d, _) => Some d
  | GenNode _ (GenLeaf (d, _) :: _) => Some d
  | _ => None
  end.
Definition lookup_image (es : list tree) (h : Hash) : outcome string :=
  foldl (λ acc e, match e with
    | GenLeaf (d, img) => if decide (d_Digest d = h) then Ok img else acc
    | _ => acc
    end) (Err (errors_New "unknown digest")) es.
Definition lookup_index (es : list tree) (h : Hash) : outcome tree :=
  foldl (λ acc e, match e with
    | GenNode _ [GenLeaf (d, _); child] => if decide (d_Digest d = h) then Ok child else acc
    | _ => acc
    end) (Err (errors_New "unknown digest")) es.
Definition other_entry (h : Hash) (e : tree) : Prop := d_Digest <$> entry_Descriptor e ≠ Some h.
#[local] Instance other_entry_dec h e : Decision (other_entry h e).
Proof. unfold other_entry. apply _. Defined.

Fixpoint print_positive (p : positive) : string :=
  match p with
  | xH => ""
  | xO p => String "0" (print_positive p)
  | xI p => String "1" (print_positive p)
  end.
Lemma print_positive_inj p q : print_positive p = print_positive q → p = q.
Proof. revert q. induction p; intros []; simpl; intros [=]; f_equal; auto. Qed.

Definition image_hash (img : string) : Hash := String "m" img.
Definition index_hash (t : tree) : Hash := String "i" (print_positive (encode t)).

Lemma index_hash_inj i j : index_hash i = index_hash j → i = j.
Proof. unfold index_hash. intros [= E]. by apply print_positive_inj, (inj encode) in E. Qed.

#[local] Instance sample_oci : OCILib := {|
  ImageIndex := tree; Image := string; Layer := string;
  IsImage mt := bool_decide (mt = "image"); IsIndex mt := bool_decide (mt = "index");
  DockerLayer := "docker"; OCILayer := "oci"; OCIManifestSchema1 := "image";
  IndexManifest t := Ok (omap entry_Descriptor (entries t));
  index_Image t h := lookup_image (entries t) h;
  index_ImageIndex t h := lookup_index (entries t) h;
  index_Digest t := Ok (index_hash t);
  index_Size t := Ok (Z.of_nat (length (entries t)));
  image_MediaType _ := Ok "image";
  image_Digest img := Ok (image_hash img);
  image_Size img := Ok (Z.of_nat (String.length img));
  image_ConfigFile _ := Ok (Some {| Architecture := "arm64" |});
  AppendLayers img layer := Ok (img +:+ layer);
  RemoveManifests t h := GenNode 0 (filter (other_entry h) (entries t));
  AppendManifests t add d := GenNode 0 (entries t ++
    [match add with inl img => GenLeaf (d, img) | inr child => GenNode 1 [GenLeaf (d, ""); child] end]);
  fmt_w e := error_Error e |}.

Lemma lookup_filter {B} (get : B → tree → B) (P : tree → Prop) `{!∀ e, Decision (P e)} es (b : B) :
  (∀ b e, ¬ P e → get b e = b) → foldl get b (filter P es) = foldl get b es.
Proof.
  intros Hget. revert b. induction es as [|e es IH]; intros b; [done|]. rewrite filter_cons.
  case_decide as He; simpl; [done|]. by rewrite IH, Hget.
Qed.
#[local] Instance sample_oci_laws : OCILibLaws.
Proof.
  split; simpl.
  - intros t h ms [= <-]. f_equal. induction (entries t) as [|e es IH]; [done|].
    rewrite filter_cons. case_decide as He; unfold other_entry in He; simpl;
      destruct (entry_Descriptor e) as [d|] eqn:E; simpl in *; rewrite ?IH; try done;
      [rewrite filter_cons_True by congruence; f_equal; exact IH|].
    rewrite filter_cons_False; [done|]. intros Hd. apply He. congruence.
  - intros t h h' Hne. apply lookup_filter. intros b [[d img]|? es] Hn; [|done].
    rewrite decide_False; [done|]. intros <-. apply Hn. unfold other_entry. simpl. congruence.
  - intros t h h' Hne. apply lookup_filter. intros b [|? [|[[d ?]|] [|? []]]] Hn; try done.
    rewrite decide_False; [done|]. intros <-. apply Hn. unfold other_entry. simpl. congruence.
  - intros t add d ms _ [= <-]. exists d. rewrite omap_app. by destruct add.
  - intros t img d h _. unfold lookup_image. rewrite foldl_app. simpl. repeat case_decide; congruence.
  - intros t child d h _. unfold lookup_image. by rewrite foldl_app.
  - intros t child d h _. unfold lookup_index. rewrite foldl_app. simpl. repeat case_decide; congruence.
  - intros t img d h _. unfold lookup_index. by rewrite foldl_app.
  - intros mt ->%bool_decide_eq_true. done.
  - intros mt ->%bool_decide_eq_true. done.
  - intros t ms _. split; by eexists.
  - unfold image_hash. congruence.
  - intros i j h Ei Ej. apply index_hash_inj. congruence.
Qed.

(** The log of what the tool writes. *)
Inductive event := Wrote (path : string) (t : tree) | Exported (path ref img : string) | Printed (line : string).
Definition log (e : event) : M (list event) unit := λ s, (Ok tt, s ++ [e]).

(** A layout with an image, a nested index with one image of unknown platform,
    and an entry that is neither. *)
Definition desc (mt h : string) (p : option string) : Descriptor :=
  {| d_MediaType := mt; d_Size := 0; d_Digest := h; d_Platform := (λ a, {| Architecture := a |}) <$> p |}.
Definition d_a : Descriptor := desc "image" (image_hash "a") (Some "amd64").
Definition d_b : Descriptor := desc "image" (image_hash "b") None.
Definition child_index : tree := GenNode 0 [GenLeaf (d_b, "b")].
Definition d_child : Descriptor := desc "index" (index_hash child_index) None.
Definition d_other : Descriptor := desc "attestation" "x" None.
Definition sample_index : tree :=
  GenNode 0 [GenLeaf (d_a, "a"); GenNode 1 [GenLeaf (d_child, ""); child_index]; GenLeaf (d_other, "")].
Definition sample_images : list (Descriptor * string) := [(d_a, "a"); (d_b, "b")].

Definition answer {A} (a : A) : M (list event) A := mret a.
#[local] Instance sample_tool : ToolLib (list event) := {|
  tarWriter := string; tar_NewWriter := "";
  tar_WriteHeader tw h := Ok (tw +:+ h_Name h); tar_Write tw content := Ok (tw +:+ content);
  tar_Bytes tw := tw;
  FileInfoHeader info link := Ok {| h_Typeflag := 48; h_Name := fi_Name info; h_Mode := 0;
    h_Linkname := ""; h_Size := 0 |};
  filepath_Rel base target := Ok target;
  Walk path := answer []; os_Stat path := answer {| fi_Name := path; fi_IsDir := false |};
  ReadFile path := answer ""; layout_ImageIndex path := answer sample_index;
  layout_FromPath path := answer path; layout_Write path t := log (Wrote path t);
  LayerFromOpener o mt :=
    answer ("+" +:+ match o with from_bytes b => b | from_file path => path end);
  ParseReference name := Ok name;
  tarball_WriteToFile path ref img := log (Exported path ref img);
  Println line := log (Printed line); GOARCH := "arm64" |}.

(** The digests of the layout. *)
Definition old : Hash → Prop := λ h,
  h ∈ [image_hash "a"; image_hash "b"; index_hash child_index; index_hash sample_index; "x"].
Lemma old_digests :
  old (image_hash "a") ∧ old (image_hash "b") ∧ old (index_hash child_index) ∧ old "x".
Proof. unfold old. split_and!; [left|do 1 right; left|do 2 right; left|do 4 right; left]. Qed.
Lemma old_closed (i : tree) h ms :
  index_Digest i = Ok h → old h → IndexManifest i = Ok ms → Forall old (d_Digest <$> ms).
Proof.
  simpl. intros [= <-] Hold [= <-].
  assert (i = child_index ∨ i = sample_index) as [-> | ->].
  { assert (index_hash i = index_hash child_index ∨ index_hash i = index_hash sample_index) as Hi.
    { unfold old in Hold. rewrite !elem_of_cons, elem_of_nil in Hold.
      destruct Hold as [E|[E|[E|[E|[E|[]]]]]]; [discriminate E|discriminate E|left; exact E|right; exact E|discriminate E]. }
    destruct Hi; [left|right]; by apply index_hash_inj. }
  - change (Forall old [image_hash "b"]). apply Forall_singleton, old_digests.
  - change (Forall old [image_hash "a"; index_hash child_index; "x"]).
    rewrite !Forall_cons. pose proof old_digests. naive_solver.
Qed.
Lemma sample_holds : holds (wf_manifest old) 2 sample_index sample_images.
Proof.
  exists [d_a; d_child; d_other], [[(d_a, "a")]; [(d_b, "b")]; []]. split_and!; [done| | |done].
  - split; [|by apply (old_closed sample_index (index_hash sample_index)); [|do 3 right; left|]].
    change (NoDup [image_hash "a"; index_hash child_index; "x"]).
    apply (bool_decide_unpack _). by vm_compute.
  - repeat constructor; unfold entry; simpl; [by exists "a"|].
    exists child_index. split_and!; [|done| |done].
    + by vm_compute.
    + exists [d_b], [[(d_b, "b")]]. split_and!; [done| | |done].
      * split; [apply NoDup_singleton|]. apply Forall_singleton, old_digests.
      * repeat constructor. unfold entry. simpl. by exists "b".
Qed.

Definition appended_images : list string := ["a+layer.tar"; "b+layer.tar"].

Example CommandAppendLayers_correct_witness :
  ∃ index' l',
    CommandAppendLayers 2 "dir" ["layer.tar"] [] =
      must "could not write image" (layout_Write "dir" index') [] ∧
    holds any_manifest 2 index' l' ∧ snd <$> l' = appended_images ∧
    Forall2 same_descriptor (fst <$> sample_images) (fst <$> l').
Proof.
  eapply (CommandAppendLayers_correct (lib:=sample_oci) old 2 "dir" ["layer.tar"] [] "dir" [] sample_index []
    [from_file "layer.tar"] [] sample_images appended_images []).
  - exact old_closed.
  - done.
  - done.
  - done.
  - done.
  - exact sample_holds.
  - repeat econstructor.
  - unfold fresh, old, appended_images. repeat constructor; simpl; [|by eexists|by eexists| |by eexists|by eexists].
    all: eexists; split; [done|]. all: rewrite !elem_of_cons, elem_of_nil; intuition discriminate.
Defined.
Example CommandConvertToDockerTar_correct_witness :
  CommandConvertToDockerTar 2 "dir" "out.tar" "image:v1" [] =
    (Ok tt, [Exported "out.tar" "image:v1" "b"]).
Proof.
  rewrite (CommandConvertToDockerTar_correct (lib:=sample_oci) (wf_manifest old) 2 "dir" "out.tar" "image:v1" [] "dir" []
    sample_index [] sample_images).
  - reflexivity.
  - done.
  - done.
  - exact sample_holds.
  - repeat constructor; intros ?; by eexists.
Defined.

(** An image and the same image with the layer appended: the first becomes the
    second, which is still to be visited, and goes with it; then the layer is
    appended to what is found under that digest, and one image is left of two. *)
Definition twice_index : tree :=
  GenNode 0 [GenLeaf (desc "image" (image_hash "a") None, "a");
             GenLeaf (desc "image" (image_hash "a+layer") None, "a+layer")].
Example appended_twice_lost :
  match (mutateImage (S:=list event) 1 twice_index (appendLayers [from_file "layer"]) []).1 with
  | Ok t => omap entry_Descriptor (entries t)
  | _ => []
  end = [{| d_MediaType := "image"; d_Size := 13; d_Digest := image_hash "a+layer+layer"; d_Platform := None |}].
Proof. vm_compute. reflexivity. Qed.
End ImageToolWitnesses.
