(* ===== verification/Metrics.v ===== *)
(** * The metrics collector: pkg/internal/metrics/metrics.go

    What is sent on the channel is the list of metrics answered.  Logging is
    left out. *)
From S2P Require Import Prelude GoStrings K8s PolicyAPI Client SSAClient SampleCluster CertificateRequests.

(** A [prometheus.Desc]: the name, the help and the variable labels. *)
Record Desc := { fqName : string; help : string; variableLabels : list string }.
Definition approvedCount : Desc :=
  {| fqName := "approverpolicy_certificaterequest_approved_count";
     help := "Number of CertificateRequests that have been approved (Approved=True).";
     variableLabels := ["namespace"] |}.
Definition deniedCount : Desc :=
  {| fqName := "approverpolicy_certificaterequest_denied_count";
     help := "Number of CertificateRequests that have been denied (Denied=True).";
     variableLabels := ["namespace"] |}.
Definition unmatchedCount : Desc :=
  {| fqName := "approverpolicy_certificaterequest_unmatched_count";
     help := "Number of CertificateRequests not matched to any policy, i.e., that don't have an Approved or Denied condition set yet.";
     variableLabels := ["namespace"] |}.

(** [prometheus.MustNewConstMetric] of a gauge. *)
Record Metric := { m_desc : Desc; m_value : Z; m_namespace : string }.

Fixpoint getStatus (condTyp : string) (conditions : list CertificateRequestCondition) : string :=
  match conditions with
  | [] => ConditionUnknown
  | cond :: conditions =>
      if bool_decide (crc_Type cond = condTyp) then crc_Status cond
      else getStatus condTyp conditions
  end.

(** One round of the loop the three functions share: the variables are
    [labels] and [count], and [skip] is the condition of the [continue]. *)
Definition countRequest (skip : CertificateRequest → bool)
    (acc : list string * gmap string Z) (cr : CertificateRequest) : list string * gmap string Z :=
  let '(labels, count) := acc in
  if skip cr then (labels, count)
  else
    let k := cr_Namespace cr in
    let labels := match count !! k with Some _ => labels | None => labels ++ [k] end in
    (labels, <[k := default 0 (count !! k) + 1]> count).

Definition countRequests (skip : CertificateRequest → bool) (desc : Desc)
    (items : list CertificateRequest) : list Metric :=
  let '(labels, count) := foldl (countRequest skip) ([], ∅) items in
  (λ key, {| m_desc := desc; m_value := default 0 (count !! key); m_namespace := key |}) <$> labels.

Definition status_of (condTyp : string) (cr : CertificateRequest) : string :=
  getStatus condTyp (crst_Conditions (cr_Status cr)).
Definition notApproved (cr : CertificateRequest) : bool :=
  bool_decide (status_of CertificateRequestConditionApproved cr ≠ "True").
Definition notDenied (cr : CertificateRequest) : bool :=
  bool_decide (status_of CertificateRequestConditionDenied cr ≠ "True").
Definition matched (cr : CertificateRequest) : bool :=
  bool_decide (status_of CertificateRequestConditionApproved cr = "True")
  || bool_decide (status_of CertificateRequestConditionDenied cr = "True").

(** What the collector uses of the cache and of prometheus: [WaitForCacheSync]
    under a timeout, [prometheus.DescribeByCollect], and [MustRegister] of a
    collector, known by its two methods. *)
Definition millisecond : Z := 1000000.
Class MetricsHost (S : Type) := {
  WaitForCacheSync : Z → M S bool;
  DescribeByCollect : M S (list Metric) → M S (list Desc);
  MustRegister : M S (list Desc) → M S (list Metric) → M S unit }.

Section collector.
Context {S : Type} `{Reader S} `{MetricsHost S}.

Definition collectCRsApproved : M S (list Metric) :=
  got ← try List_CertificateRequests;
  match got with
  | inr _ => mret []
  | inl items => mret (countRequests notApproved approvedCount items)
  end.
Definition collectCRsDenied : M S (list Metric) :=
  got ← try List_CertificateRequests;
  match got with
  | inr _ => mret []
  | inl items => mret (countRequests notDenied deniedCount items)
  end.
Definition collectCRsUnmatched : M S (list Metric) :=
  got ← try List_CertificateRequests;
  match got with
  | inr _ => mret []
  | inl items => mret (countRequests matched unmatchedCount items)
  end.

(** Waiting is bounded, so that a cache that never syncs cannot block. *)
Definition hasSynced : M S bool := WaitForCacheSync (10 * millisecond).

Definition Collect : M S (list Metric) :=
  synced ← hasSynced;
  if negb synced then mret []
  else
    a ← collectCRsApproved;
    d ← collectCRsDenied;
    u ← collectCRsUnmatched;
    mret (a ++ d ++ u).

Definition Describe : M S (list Desc) := DescribeByCollect Collect.
Definition RegisterMetrics : M S unit := MustRegister Describe Collect.

(** A scrape before the cache has synced lists nothing and reports nothing: the
    state is the one the bounded wait left. *)
Lemma Collect_unsynced s s' : hasSynced s = (Ok false, s') → Collect s = (Ok [], s').
Proof. intros E. unfold Collect. by rewrite (M_bind_run _ _ _ _ _ E). Qed.
(** A scrape does not fail because the requests cannot be listed. *)
Lemma Collect_list_error s s1 e s2 :
  hasSynced s = (Ok true, s1) → (∀ t, List_CertificateRequests t = (Err e, s2)) →
  Collect s = (Ok [], s2).
Proof.
  intros E El. unfold Collect. rewrite (M_bind_run _ _ _ _ _ E). simpl.
  unfold collectCRsApproved, collectCRsDenied, collectCRsUnmatched.
  by repeat (rewrite M_bind_step; unfold try; rewrite ?El; simpl).
Qed.
End collector.

(** ** Properties *)
Section counts.
Implicit Types (items : list CertificateRequest) (skip : CertificateRequest → bool).

(** The requests that are counted, and how many of them are in a namespace. *)
Definition counted skip items (ns : string) : Z :=
  Z.of_nat (length (filter (λ cr, skip cr = false ∧ cr_Namespace cr = ns) items)).

Lemma counted_snoc skip items cr ns :
  counted skip (items ++ [cr]) ns =
    counted skip items ns + if decide (skip cr = false ∧ cr_Namespace cr = ns) then 1 else 0.
Proof.
  unfold counted. rewrite filter_app, length_app, filter_cons. case_decide; simpl; lia.
Qed.

Definition count_inv skip items (acc : list string * gmap string Z) : Prop :=
  NoDup acc.1 ∧ (∀ ns, ns ∈ acc.1 ↔ is_Some (acc.2 !! ns)) ∧
  (∀ ns, acc.2 !! ns = if decide (0 < counted skip items ns) then Some (counted skip items ns)
                       else None).

Lemma counted_nonneg skip items ns : 0 ≤ counted skip items ns.
Proof. unfold counted. lia. Qed.

Lemma countRequest_inv skip items acc cr :
  count_inv skip items acc → count_inv skip (items ++ [cr]) (countRequest skip acc cr).
Proof.
  destruct acc as [labels count]. intros (Hnd & Hl & Hc). simpl in *. unfold countRequest.
  destruct (skip cr) eqn:Es.
  - split_and!; [done|done|]. intros ns. simpl. rewrite counted_snoc, Hc.
    rewrite (decide_False (P:=skip cr = false ∧ _)) by (by intros [? _]; congruence).
    by rewrite Z.add_0_r.
  - set (k := cr_Namespace cr).
    assert (∀ ns, counted skip (items ++ [cr]) ns =
      counted skip items ns + if decide (k = ns) then 1 else 0) as Hcnt.
    { intros ns. rewrite counted_snoc. f_equal. repeat case_decide; naive_solver. }
    pose proof (counted_nonneg skip items k) as Hk.
    assert (default 0 (count !! k) = counted skip items k) as Hd.
    { rewrite Hc. case_decide; simpl; lia. }
    unfold count_inv. simpl. rewrite Hd. split_and!.
    + destruct (count !! k) eqn:Ek; [done|]. apply NoDup_app. split_and!; [done| |apply NoDup_singleton].
      intros x Hx ->%list_elem_of_singleton. apply Hl in Hx. rewrite Ek in Hx. by destruct Hx.
    + intros ns. destruct (decide (k = ns)) as [<-|Hne].
      * rewrite lookup_insert_eq. split; [by eexists|intros _].
        destruct (count !! k) eqn:Ek; [apply Hl; by rewrite Ek|apply elem_of_app; right; by left].
      * rewrite lookup_insert_ne by done. rewrite <-Hl.
        destruct (count !! k); [done|]. rewrite elem_of_app, list_elem_of_singleton. naive_solver.
    + intros ns. rewrite Hcnt. destruct (decide (k = ns)) as [<-|Hne].
      * rewrite lookup_insert_eq, decide_True by lia. done.
      * rewrite lookup_insert_ne, Hc, Z.add_0_r by done. done.
Qed.
Lemma foldl_countRequest skip items : count_inv skip items (foldl (countRequest skip) ([], ∅) items).
Proof.
  induction items as [|cr items IH] using rev_ind.
  - split_and!; simpl; [apply NoDup_nil_2| |by intros ns; rewrite lookup_empty].
    intros ns. rewrite lookup_empty, elem_of_nil. split; [done|by intros []].
  - rewrite foldl_app. by apply countRequest_inv.
Qed.

(** One metric per namespace that has a counted request, with their number. *)
Lemma countRequests_spec skip desc items :
  NoDup (m_namespace <$> countRequests skip desc items) ∧
  ∀ m, m ∈ countRequests skip desc items ↔
    m_desc m = desc ∧ m_value m = counted skip items (m_namespace m) ∧ 0 < m_value m.
Proof.
  pose proof (foldl_countRequest skip items) as Hinv. unfold countRequests.
  destruct (foldl _ _ _) as [labels count]. destruct Hinv as (Hnd & Hl & Hc). simpl in *. split.
  - rewrite <-list_fmap_compose. by rewrite list_fmap_id.
  - intros m. rewrite list_elem_of_fmap. split.
    + intros (ns & -> & Hns). simpl. apply Hl in Hns. rewrite Hc in Hns |- *.
      case_decide; [done|by destruct Hns].
    + intros (Hdesc & Hval & Hpos). exists (m_namespace m). rewrite Hl, Hc.
      rewrite decide_True by lia. split; [|by eexists]. destruct m; simpl in *; congruence.
Qed.

Lemma counted_sum items ns :
  counted notApproved items ns + counted notDenied items ns + counted matched items ns =
    Z.of_nat (length (filter (λ cr, cr_Namespace cr = ns) items)) +
    Z.of_nat (length (filter (λ cr, notApproved cr = false ∧ notDenied cr = false ∧ cr_Namespace cr = ns) items)).
Proof.
  unfold counted. induction items as [|cr items IH]; [done|]. rewrite !filter_cons.
  assert (matched cr = negb (notApproved cr && notDenied cr)) as ->.
  { unfold matched, notApproved, notDenied. repeat case_bool_decide; naive_solver. }
  destruct (notApproved cr), (notDenied cr); simpl; repeat case_decide; simpl; naive_solver lia.
Qed.

(** Conditions keyed by type, as the API server keeps them. *)
Definition keyed (cr : CertificateRequest) : Prop :=
  NoDup (crc_Type <$> crst_Conditions (cr_Status cr)).

Lemma getStatus_True ty conds :
  NoDup (crc_Type <$> conds) →
  getStatus ty conds = "True" ↔ ∃ c, c ∈ conds ∧ crc_Type c = ty ∧ crc_Status c = ConditionTrue.
Proof.
  induction conds as [|c conds IH]; simpl; [by split; [|intros (c & ?%elem_of_nil & _)]|].
  intros [Hc Hnd]%NoDup_cons. setoid_rewrite elem_of_cons. case_bool_decide as E.
  - split; [intros; exists c; tauto|]. intros (d & [->|Hd] & Ed & Hs); [done|].
    destruct Hc. apply list_elem_of_fmap. exists d. split; [congruence|done].
  - rewrite IH by done. split; [naive_solver|]. intros (d & [->|Hd] & ? & ?); [done|by exists d].
Qed.

(** ** The claims *)

(** [C35] Each gauge is exact: for a listing of the requests, a namespace has
    one metric exactly when some of its requests are counted, and its value
    is their number. *)
Theorem countRequests_correct skip desc items :
  NoDup (m_namespace <$> countRequests skip desc items) ∧
  ∀ m, m ∈ countRequests skip desc items ↔
    m_desc m = desc ∧ m_value m = counted skip items (m_namespace m) ∧ 0 < m_value m.
Proof. apply countRequests_spec. Qed.

(** The three gauges split the requests: in every namespace they add up
    to the number of requests, those that are both approved and denied being
    counted in both; and a request counts as unmatched exactly when the
    controller would still review it. *)
Theorem gauges_partition `{ApiUtilLaws} items ns (Hk : Forall keyed items) :
  counted notApproved items ns + counted notDenied items ns + counted matched items ns =
    Z.of_nat (length (filter (λ cr, cr_Namespace cr = ns) items)) +
    Z.of_nat (length (filter (λ cr, notApproved cr = false ∧ notDenied cr = false ∧
              cr_Namespace cr = ns) items)) ∧
  Forall (λ cr, matched cr = false ↔ watchPredicate cr = true) items.
Proof.
  split; [apply counted_sum|]. eapply Forall_impl; [exact Hk|]. intros cr Hcr.
  assert (matched cr = decided cr) as ->.
  { apply eq_true_iff_eq. unfold matched, decided.
    rewrite !orb_true_iff, !bool_decide_eq_true, IsApproved_iff, IsDenied_iff.
    unfold status_of, has_true_condition. by rewrite !getStatus_True by exact Hcr. }
  unfold watchPredicate, decided.
  by destruct (CertificateRequestIsApproved cr), (CertificateRequestIsDenied cr).
Qed.
End counts.

Module MetricsWitnesses.
Import SampleCluster.
Lemma gauges_partition_witness :
  let items := [new_request; approved_request; new_request] in
  Forall keyed items ∧
  counted notApproved items "ns" + counted notDenied items "ns" + counted matched items "ns" =
    Z.of_nat (length (filter (λ cr, cr_Namespace cr = "ns") items)) +
    Z.of_nat (length (filter (λ cr, notApproved cr = false ∧ notDenied cr = false ∧
              cr_Namespace cr = "ns") items)) ∧
  Forall (λ cr, matched cr = false ↔ watchPredicate cr = true) items.
Proof.
  intros items. assert (Forall keyed items) as Hk
    by (repeat constructor; by intros ?%elem_of_nil).
  split; [exact Hk|]. apply (gauges_partition items "ns" Hk).
Defined.
End MetricsWitnesses.
