(* ===== verification/Options.v ===== *)
(** * Command line options: pkg/internal/cmd/options/options.go

    The flag library only assigns: a flag is its name, shorthand and
    default, and parsing a value is the [Set] method of its type.  The
    Kubernetes flags and those of the approvers belong to other code. *)
From S2P Require Import Prelude GoStrings K8s.

Definition logFormatText : string := "text".
Definition logFormatJSON : string := "json".

(** A double quote, and a string between two of them. *)
Definition dquote : string := String (ascii_of_nat 34) "".
Definition quoted (s : string) : string := dquote +:+ s +:+ dquote.

(** The methods of [*logFormat]; the receiver is the state. *)
Definition logFormat_String (e : string) : string :=
  if (String.length e =? 0)%nat then logFormatText else e.
Definition logFormat_Set (v : string) : M string unit := λ e,
  if bool_decide (v = "text") || bool_decide (v = "json") then (Ok tt, v)
  else (Err (errors_New ("must be one of " +:+ quoted "text" +:+ " or " +:+ quoted "json")), e).
Definition logFormat_Type : string := "string".

Definition hour : Z := 3600 * 1000000000.

Record Webhook := {
  Host : string;
  Port : Z;
  ServiceName : string;
  CASecretNamespace : string;
  CASecretName : string;
  CADuration : Z;
  LeafDuration : Z }.

Record Options := {
  MetricsAddress : string;
  LeaderElectionNamespace : string;
  ReadyzAddress : string;
  log_format : string;
  log_level : Z;
  o_Webhook : Webhook }.

(** The values a flag can be given, and the flags by their Go method. *)
Inductive flagValue :=
  | StringValue (s : string)
  | IntValue (z : Z)
  | DurationValue (d : Z).
Record flag := { flag_Name : string; flag_Shorthand : string; flag_Default : flagValue }.
Definition StringVar (name default : string) : flag :=
  {| flag_Name := name; flag_Shorthand := ""; flag_Default := StringValue default |}.
Definition IntVarP (name shorthand : string) (default : Z) : flag :=
  {| flag_Name := name; flag_Shorthand := shorthand; flag_Default := IntValue default |}.
Definition DurationVar (name : string) (default : Z) : flag :=
  {| flag_Name := name; flag_Shorthand := ""; flag_Default := DurationValue default |}.

(** The flags in the order they are declared. *)
Definition addAppFlags : list flag :=
  [StringVar "leader-election-namespace" "";
   StringVar "metrics-bind-address" ":9402";
   StringVar "readiness-probe-bind-address" ":6060"].
(** [fs.Var] takes the default from the variable: the zero [logFormat]. *)
Definition addLoggingFlags : list flag :=
  [{| flag_Name := "log-format"; flag_Shorthand := "";
      flag_Default := StringValue (logFormat_String "") |};
   IntVarP "log-level" "v" 1].
Definition addWebhookFlags : list flag :=
  [StringVar "webhook-host" "0.0.0.0";
   IntVarP "webhook-port" "" 6443;
   StringVar "webhook-service-name" "cert-manager-approver-policy";
   StringVar "webhook-ca-secret-namespace" "cert-manager";
   StringVar "webhook-ca-secret-name" "cert-manager-approver-policy-tls";
   DurationVar "webhook-ca-duration" (hour * 24 * 365);
   DurationVar "webhook-leaf-cert-duration" (hour * 24 * 7);
   StringVar "webhook-certificate-dir" "/tmp"].
Definition addFlags : list flag := addAppFlags ++ addLoggingFlags ++ addWebhookFlags.

(** The zero [Options], and the assignment the flag library makes for a flag:
    declaring it assigns the default, parsing it assigns the value. *)
Definition Options_zero : Options :=
  Build_Options "" "" "" "" 0 (Build_Webhook "" 0 "" "" "" 0 0).

Definition setWebhook (name : string) (v : flagValue) (w : Webhook) : Webhook :=
  match name, v with
  | "webhook-host", StringValue s => Build_Webhook s (Port w) (ServiceName w) (CASecretNamespace w) (CASecretName w) (CADuration w) (LeafDuration w)
  | "webhook-port", IntValue z => Build_Webhook (Host w) z (ServiceName w) (CASecretNamespace w) (CASecretName w) (CADuration w) (LeafDuration w)
  | "webhook-service-name", StringValue s => Build_Webhook (Host w) (Port w) s (CASecretNamespace w) (CASecretName w) (CADuration w) (LeafDuration w)
  | "webhook-ca-secret-namespace", StringValue s => Build_Webhook (Host w) (Port w) (ServiceName w) s (CASecretName w) (CADuration w) (LeafDuration w)
  | "webhook-ca-secret-name", StringValue s => Build_Webhook (Host w) (Port w) (ServiceName w) (CASecretNamespace w) s (CADuration w) (LeafDuration w)
  | "webhook-ca-duration", DurationValue d => Build_Webhook (Host w) (Port w) (ServiceName w) (CASecretNamespace w) (CASecretName w) d (LeafDuration w)
  | "webhook-leaf-cert-duration", DurationValue d => Build_Webhook (Host w) (Port w) (ServiceName w) (CASecretNamespace w) (CASecretName w) (CADuration w) d
  | _, _ => w
  end.
Definition assign (name : string) (v : flagValue) (o : Options) : Options :=
  match name, v with
  | "metrics-bind-address", StringValue s => Build_Options s (LeaderElectionNamespace o) (ReadyzAddress o) (log_format o) (log_level o) (o_Webhook o)
  | "leader-election-namespace", StringValue s => Build_Options (MetricsAddress o) s (ReadyzAddress o) (log_format o) (log_level o) (o_Webhook o)
  | "readiness-probe-bind-address", StringValue s => Build_Options (MetricsAddress o) (LeaderElectionNamespace o) s (log_format o) (log_level o) (o_Webhook o)
  | "log-format", StringValue s =>
      Build_Options (MetricsAddress o) (LeaderElectionNamespace o) (ReadyzAddress o)
        (logFormat_Set s (log_format o)).2 (log_level o) (o_Webhook o)
  | "log-level", IntValue z => Build_Options (MetricsAddress o) (LeaderElectionNamespace o) (ReadyzAddress o) (log_format o) z (o_Webhook o)
  | _, _ => Build_Options (MetricsAddress o) (LeaderElectionNamespace o) (ReadyzAddress o) (log_format o) (log_level o) (setWebhook name v (o_Webhook o))
  end.

(** [Prepare] on the options [o]: every flag but [log-format], whose variable
    is left as it is, gets its default. *)
Definition Prepare (o : Options) : Options :=
  foldl (λ o f, if bool_decide (flag_Name f = "log-format") then o
                else assign (flag_Name f) (flag_Default f) o) o addFlags.

(** [Complete]: the handler and level of the logger, and the Kubernetes
    configuration that other code builds. *)
Inductive Handler := TextHandler (level : Z) | JSONHandler (level : Z).
Definition logHandler (o : Options) : Handler :=
  let level := - log_level o in
  if bool_decide (log_format o = logFormatJSON) then JSONHandler level else TextHandler level.

Class CompleteOps (S : Type) := {
  RestConfig : Type;
  SetLogger : Handler → M S unit;
  ToRESTConfig : M S RestConfig }.

Section complete.
Context {S : Type} `{CompleteOps S}.
Definition Complete (o : Options) : M S RestConfig :=
  _ ← SetLogger (logHandler o);
  got ← try ToRESTConfig;
  match got with
  | inl c => mret c
  | inr err => fail (errors_New ("failed to build kubernetes rest config: " +:+ error_Error err))
  end.
End complete.

(** The log format takes exactly the two documented values and keeps its
    value on any other; what it prints can be set again, to the same effect,
    and a format that was never set is the text one. *)
Theorem logFormat_roundtrip v e :
  (is_Ok (logFormat_Set v e).1 ↔ v = "text" ∨ v = "json") ∧
  (¬ is_Ok (logFormat_Set v e).1 → (logFormat_Set v e).2 = e) ∧
  (e = "" ∨ e = "text" ∨ e = "json" →
    logFormat_Set (logFormat_String e) e = (Ok tt, logFormat_String e)) ∧
  (∀ o, log_format o = "" → logHandler o = TextHandler (- log_level o)).
Proof.
  unfold logFormat_Set, logFormat_String, is_Ok. split_and!.
  - repeat case_bool_decide; simpl; naive_solver.
  - repeat case_bool_decide; simpl; naive_solver.
  - by intros [-> |[-> | ->]].
  - intros o E. unfold logHandler. by rewrite E.
Qed.
