(* ===== verification/Flags.v ===== *)
(** * Registering the flags: Options.addFlags and NewCommand

    The sets of flags, one per name, are merged into the command in the order in
    which Go visits the map that holds them.  [github.com/spf13/pflag] is a
    parameter: a flag set is what [Lookup] answers about it. *)
From S2P Require Import Prelude GoStrings K8s Options.

(** ** github.com/spf13/pflag *)
Class PFlag := {
  FlagSet : Type;
  NewFlagSet : string → FlagSet;
  Lookup : FlagSet → string → option flag;
  (** Declaring a flag, which panics on a name or shorthand that is taken. *)
  AddFlag : FlagSet → flag → outcome FlagSet;
  MarkDeprecated : FlagSet → string → string → outcome FlagSet;
  (** A flag whose name is taken is left out; its shorthand may panic. *)
  AddFlagSet : FlagSet → FlagSet → outcome FlagSet }.

Class PFlagLaws `{PFlag} : Prop := {
  Lookup_New name n : Lookup (NewFlagSet name) n = None;
  Lookup_name fs n f : Lookup fs n = Some f → flag_Name f = n;
  AddFlag_Lookup fs f fs' n :
    AddFlag fs f = Ok fs' → Lookup fs' n = if decide (n = flag_Name f) then Some f else Lookup fs n;
  AddFlag_taken fs f : is_Some (Lookup fs (flag_Name f)) → ∃ w, AddFlag fs f = Panic w;
  MarkDeprecated_Lookup fs name msg :
    is_Some (Lookup fs name) → msg ≠ "" →
    ∃ fs', MarkDeprecated fs name msg = Ok fs' ∧ ∀ n, Lookup fs' n = Lookup fs n;
  AddFlagSet_Lookup fs new fs' n :
    AddFlagSet fs new = Ok fs' →
    Lookup fs' n = match Lookup fs n with Some f => Some f | None => Lookup new n end }.

Section flags.
Context `{PFlag}.

(** [cliflag.NamedFlagSets]: its method [FlagSet] answers the set of the name,
    a new one at first, which the caller goes on to change. *)
Abbreviation NamedFlagSets := (gmap string FlagSet).
Definition nfs_FlagSet (nfs : NamedFlagSets) (name : string) (register : FlagSet → outcome FlagSet)
    : outcome NamedFlagSets :=
  fs ← register (default (NewFlagSet name) (nfs !! name));
  mret (<[name:=fs]> nfs).

(** The three functions that declare the options' own flags. *)
Definition declare (flags : list flag) (fs : FlagSet) : outcome FlagSet := for_range flags fs AddFlag.
Definition declareWebhookFlags (fs : FlagSet) : outcome FlagSet :=
  fs ← declare addWebhookFlags fs;
  match MarkDeprecated fs "webhook-certificate-dir" "webhook-certificate-dir is deprecated" with
  | Err err => Panic (error_Error err)
  | r => r
  end.

(** [o.kubeConfigFlags.AddFlags], and the [Name] and [RegisterFlags] of the
    approvers. *)
Context (kubeConfigFlags : FlagSet → outcome FlagSet).
Abbreviation plugin := (string * (FlagSet → outcome FlagSet))%type.

Definition namedFlagSets (approvers : list plugin) : outcome NamedFlagSets :=
  nfs ← nfs_FlagSet ∅ "App" (declare addAppFlags);
  nfs ← nfs_FlagSet nfs "Logging" (declare addLoggingFlags);
  nfs ← nfs_FlagSet nfs "Webhook" declareWebhookFlags;
  nfs ← nfs_FlagSet nfs "Kubernetes" kubeConfigFlags;
  for_range approvers nfs (λ nfs '(name, registerFlags), nfs_FlagSet nfs name registerFlags).

(** [for _, f := range nfs.FlagSets]: [visit] is the order of the day. *)
Definition mergeFlagSets (visit : NamedFlagSets → list (string * FlagSet)) (nfs : NamedFlagSets)
    (cmdFlags : FlagSet) : outcome FlagSet :=
  for_range (visit nfs) cmdFlags (λ fs '(_, f), AddFlagSet fs f).
(** The flags of the command, with the sets that usage and help print. *)
Definition addFlags (visit : NamedFlagSets → list (string * FlagSet)) (approvers : list plugin)
    (cmdFlags : FlagSet) : outcome (NamedFlagSets * FlagSet) :=
  nfs ← namedFlagSets approvers;
  fs ← mergeFlagSets visit nfs cmdFlags;
  mret (nfs, fs).

(** What is printed as usage and as help, [sections] being the flags by name. *)
Definition usageFmt (useLine : string) : string :=
  let newline := String (ascii_of_nat 10) "" in
  "Usage:" +:+ newline +:+ "  " +:+ useLine +:+ newline.
Definition usageFunc (useLine sections : string) : string := usageFmt useLine +:+ sections.
Definition helpFunc (long useLine sections : string) : string :=
  let newline := String (ascii_of_nat 10) "" in
  long +:+ newline +:+ newline +:+ usageFmt useLine +:+ sections.

(** ** What the command ends up with *)
Context `{!PFlagLaws}.

Lemma mergeFlagSets_first visit nfs cmdFlags fs n :
  mergeFlagSets visit nfs cmdFlags = Ok fs →
  Lookup fs n =
    match Lookup cmdFlags n with
    | Some f => Some f
    | None => head (omap (λ p : string * FlagSet, Lookup p.2 n) (visit nfs))
    end.
Proof.
  unfold mergeFlagSets. revert cmdFlags. induction (visit nfs) as [|[name new] l IH]; intros cmdFlags.
  - intros [= ->]. by destruct (Lookup fs n).
  - simpl. intros (fs1 & E1 & E)%outcome_bind_Ok. rewrite (IH _ E), (AddFlagSet_Lookup _ _ _ n E1).
    by destruct (Lookup cmdFlags n), (Lookup new n).
Qed.

(** What is known of code that registers flags: it takes none away. *)
Definition grows (register : FlagSet → outcome FlagSet) : Prop :=
  ∀ fs fs', register fs = Ok fs' → ∀ n f, Lookup fs n = Some f → Lookup fs' n = Some f.
(** The set [name] has the flags [l]. *)
Definition holds_flags (nfs : NamedFlagSets) (name : string) (l : list flag) : Prop :=
  ∃ fs, nfs !! name = Some fs ∧ ∀ f, f ∈ l → Lookup fs (flag_Name f) = Some f.

(** What is known of it to declare the flags [l]. *)
Definition declares (register : FlagSet → outcome FlagSet) (l : list flag) : Prop :=
  ∀ fs fs', register fs = Ok fs' → ∀ f, f ∈ l → Lookup fs' (flag_Name f) = Some f.

Lemma AddFlag_grows f : grows (λ fs, AddFlag fs f).
Proof.
  intros fs fs' E n g Hg. rewrite (AddFlag_Lookup _ _ _ n E). case_decide as Hn; [|done].
  destruct (AddFlag_taken fs f) as [w Ew]; [subst; by exists g|]. congruence.
Qed.
Lemma declare_grows l : grows (declare l).
Proof.
  unfold declare. intros fs fs'. revert fs. induction l as [|f l IH]; intros fs; [by intros [= ->]|].
  simpl. intros (fs1 & E1 & E)%outcome_bind_Ok n g Hg. eapply IH; [exact E|].
  by eapply AddFlag_grows.
Qed.
Lemma declare_declares l : declares (declare l) l.
Proof.
  intros fs fs'. revert fs. induction l as [|f l IH]; intros fs; [by intros _ f ?%elem_of_nil|].
  unfold declare. simpl. intros (fs1 & E1 & E)%outcome_bind_Ok g [->|Hg]%elem_of_cons.
  - eapply (declare_grows l); [exact E|]. rewrite (AddFlag_Lookup _ _ _ _ E1). by rewrite decide_True.
  - by eapply IH.
Qed.
Lemma declareWebhookFlags_run fs fs' :
  declareWebhookFlags fs = Ok fs' →
  ∃ fs1, declare addWebhookFlags fs = Ok fs1 ∧ ∀ n, Lookup fs' n = Lookup fs1 n.
Proof.
  unfold declareWebhookFlags. intros (fs1 & E1 & E)%outcome_bind_Ok. exists fs1. split; [done|].
  destruct (MarkDeprecated_Lookup fs1 "webhook-certificate-dir" "webhook-certificate-dir is deprecated")
    as (fs2 & E2 & Hsame); [|done|by rewrite E2 in E; injection E as <-].
  eexists. apply (declare_declares _ _ _ E1 (StringVar "webhook-certificate-dir" "/tmp")).
  do 7 right. by left.
Qed.
Lemma declareWebhookFlags_grows : grows declareWebhookFlags.
Proof.
  intros fs fs' (fs1 & E & Hsame)%declareWebhookFlags_run n f Hf. rewrite Hsame.
  by eapply declare_grows.
Qed.
Lemma declareWebhookFlags_declares : declares declareWebhookFlags addWebhookFlags.
Proof.
  intros fs fs' (fs1 & E & Hsame)%declareWebhookFlags_run f Hf. rewrite Hsame.
  by eapply declare_declares.
Qed.

(** ** The sets by name *)
Definition registerAll (l : list plugin) (nfs : NamedFlagSets) : outcome NamedFlagSets :=
  for_range l nfs (λ nfs '(name, registerFlags), nfs_FlagSet nfs name registerFlags).
Lemma registerAll_grows l nfs nfs' name flags :
  Forall (λ p, grows p.2) l → registerAll l nfs = Ok nfs' →
  holds_flags nfs name flags → holds_flags nfs' name flags.
Proof.
  unfold registerAll. intros Hg. revert nfs. induction Hg as [|[name' reg] ps Hp _ IH]; intros nfs; simpl.
  - by intros [= ->].
  - intros (nfs1 & (fs' & E1 & [= <-])%outcome_bind_Ok & E)%outcome_bind_Ok (fs & Hfs & Hl).
    eapply IH; [exact E|]. destruct (decide (name' = name)) as [->|Hne].
    + rewrite Hfs in E1. exists fs'. split; [apply lookup_insert_eq|]. intros f Hf.
      eapply Hp; [exact E1|]. by apply Hl.
    + exists fs. by rewrite lookup_insert_ne.
Qed.
Lemma registerAll_declares l nfs nfs' name register flags :
  Forall (λ p, grows p.2) l → registerAll l nfs = Ok nfs' →
  (name, register) ∈ l → declares register flags → holds_flags nfs' name flags.
Proof.
  intros Hg. revert nfs. induction Hg as [|[name' reg] ps Hp Hps IH]; intros nfs; [by intros _ ?%elem_of_nil|].
  intros (nfs1 & E1 & E)%outcome_bind_Ok [[= <- <-]|Hin]%elem_of_cons Hd; [|by eapply IH].
  eapply registerAll_grows; [done|exact E|].
  apply outcome_bind_Ok in E1 as (fs' & E1 & [= <-]). exists fs'. split; [apply lookup_insert_eq|].
  by eapply Hd.
Qed.
Lemma namedFlagSets_registerAll approvers :
  namedFlagSets approvers = registerAll ([("App", declare addAppFlags); ("Logging", declare addLoggingFlags);
    ("Webhook", declareWebhookFlags); ("Kubernetes", kubeConfigFlags)] ++ approvers) ∅.
Proof. done. Qed.

(** Two names that are never used for the same flag. *)
Definition disjoint_sets (nfs : NamedFlagSets) : Prop :=
  ∀ a b A B n f g, nfs !! a = Some A → nfs !! b = Some B →
    Lookup A n = Some f → Lookup B n = Some g → a = b.

Lemma head_disjoint nfs l n f :
  disjoint_sets nfs → l ≡ₚ map_to_list nfs →
  head (omap (λ p : string * FlagSet, Lookup p.2 n) l) = Some f ↔
  ∃ name fs, nfs !! name = Some fs ∧ Lookup fs n = Some f.
Proof.
  intros Hd Hl.
  assert (∀ g, g ∈ omap (λ p : string * FlagSet, Lookup p.2 n) l ↔
    ∃ name fs, nfs !! name = Some fs ∧ Lookup fs n = Some g) as Hin.
  { intros g. rewrite list_elem_of_omap. setoid_rewrite Hl. split.
    - intros ([name fs] & Hp%elem_of_map_to_list & Hg). eauto.
    - intros (name & fs & Hp & Hg). exists (name, fs). by rewrite elem_of_map_to_list. }
  rewrite <-Hin. destruct (omap _ l) as [|g gs] eqn:E; simpl; [split; [done|by intros ?%elem_of_nil]|].
  split; [by intros [= ->]; left|]. intros Hf. f_equal.
  assert (g ∈ g :: gs) as Hg by by left. apply Hin in Hf as (a & A & Ha & HA), Hg as (b & B & Hb & HB).
  assert (a = b) as -> by by eapply Hd. congruence.
Qed.

Lemma addFlags_Ok visit approvers cmdFlags nfs fs :
  addFlags visit approvers cmdFlags = Ok (nfs, fs) →
  namedFlagSets approvers = Ok nfs ∧ mergeFlagSets visit nfs cmdFlags = Ok fs.
Proof. by intros (nfs' & ? & (fs' & ? & [= <- <-])%outcome_bind_Ok)%outcome_bind_Ok. Qed.

(** [C32] The options' own flags are what the command understands.  When no two
    sets have a flag of the same name, the flags of the command do not depend on
    the order in which Go visits the map of the sets; every flag the options
    declare is among them with its default, unless the command had one of that
    name before; and so is every flag of an approver. *)
Theorem addFlags_deterministic visit1 visit2 approvers cmdFlags nfs fs1 fs2
  (Hv1 : visit1 nfs ≡ₚ map_to_list nfs) (Hv2 : visit2 nfs ≡ₚ map_to_list nfs)
  (Hkube : grows kubeConfigFlags) (Happ : Forall (λ p, grows p.2) approvers)
  (Hd : disjoint_sets nfs)
  (H1 : addFlags visit1 approvers cmdFlags = Ok (nfs, fs1))
  (H2 : addFlags visit2 approvers cmdFlags = Ok (nfs, fs2)) :
  (∀ n, Lookup fs1 n = Lookup fs2 n) ∧
  (∀ f, f ∈ Options.addFlags → Lookup cmdFlags (flag_Name f) = None →
    Lookup fs1 (flag_Name f) = Some f) ∧
  ∀ n f, Lookup cmdFlags n = None →
    Lookup fs1 n = Some f ↔ ∃ name fs, nfs !! name = Some fs ∧ Lookup fs n = Some f.
Proof.
  apply addFlags_Ok in H1 as [Hnfs H1], H2 as [_ H2].
  assert (∀ n f, Lookup cmdFlags n = None →
    Lookup fs1 n = Some f ↔ ∃ name fs, nfs !! name = Some fs ∧ Lookup fs n = Some f) as Hall.
  { intros n f Hn. rewrite (mergeFlagSets_first _ _ _ _ n H1), Hn. by apply head_disjoint. }
  split_and!; [| |done].
  - intros n. rewrite (mergeFlagSets_first _ _ _ _ n H1), (mergeFlagSets_first _ _ _ _ n H2).
    destruct (Lookup cmdFlags n); [done|]. apply option_eq. intros f. by rewrite !head_disjoint.
  - intros f Hf Hn. rewrite (Hall _ _ Hn).
    rewrite namedFlagSets_registerAll in Hnfs.
    assert (Forall (λ p, grows p.2) ([("App", declare addAppFlags); ("Logging", declare addLoggingFlags);
      ("Webhook", declareWebhookFlags); ("Kubernetes", kubeConfigFlags)] ++ approvers)) as Hg.
    { repeat (constructor; [first [apply declare_grows|apply declareWebhookFlags_grows|apply Hkube]|]).
      exact Happ. }
    assert (∃ name l, holds_flags nfs name l ∧ f ∈ l) as (name & l & (fs & Hfs & Hl) & Hin);
      [|exists name, fs; split; [done|by apply Hl]].
    apply elem_of_app in Hf as [Hf|[Hf|Hf]%elem_of_app].
    + exists "App", addAppFlags. split; [|done].
      eapply registerAll_declares; [done..|by left|apply declare_declares].
    + exists "Logging", addLoggingFlags. split; [|done].
      eapply registerAll_declares; [done..|by right; left|apply declare_declares].
    + exists "Webhook", addWebhookFlags. split; [|done].
      eapply registerAll_declares; [done..|by do 2 right; left|apply declareWebhookFlags_declares].
Qed.
End flags.

(** ** Flag sets as lists *)
Module FlagWitnesses.
Definition lookup_flag (l : list flag) (n : string) : option flag := head (filter (λ f, flag_Name f = n) l).
Definition shorthand_taken (l : list flag) (f : flag) : Prop :=
  flag_Shorthand f ≠ "" ∧ flag_Shorthand f ∈ flag_Shorthand <$> l.
Definition add_flag (l : list flag) (f : flag) : outcome (list flag) :=
  match lookup_flag l (flag_Name f) with
  | Some _ => Panic ("flag redefined: " +:+ flag_Name f)
  | None =>
      if decide (flag_Shorthand f ≠ "" ∧ flag_Shorthand f ∈ flag_Shorthand <$> l)
      then Panic ("unable to redefine shorthand " +:+ flag_Shorthand f) else Ok (l ++ [f])
  end.
#[export] Instance list_PFlag : PFlag := {
  FlagSet := list flag;
  NewFlagSet _ := [];
  Lookup := lookup_flag;
  AddFlag := add_flag;
  MarkDeprecated l n msg :=
    match lookup_flag l n with
    | Some _ => if decide (msg = "") then Err (errors_New "empty message") else Ok l
    | None => Err (errors_New ("flag " +:+ n +:+ " does not exist"))
    end;
  AddFlagSet l new := for_range new l (λ l f,
    match lookup_flag l (flag_Name f) with Some _ => Ok l | None => add_flag l f end) }.

Lemma lookup_flag_app l k n :
  lookup_flag (l ++ k) n = match lookup_flag l n with Some f => Some f | None => lookup_flag k n end.
Proof. unfold lookup_flag. rewrite filter_app. by destruct (filter _ l). Qed.
Lemma lookup_flag_Some l n f : lookup_flag l n = Some f → f ∈ l ∧ flag_Name f = n.
Proof.
  unfold lookup_flag. intros E. assert (f ∈ filter (λ f, flag_Name f = n) l) as Hin.
  { destruct (filter _ l); [done|]. injection E as ->. by left. }
  apply list_elem_of_filter in Hin. tauto.
Qed.
Lemma lookup_flag_cons f l n :
  lookup_flag (f :: l) n = if decide (n = flag_Name f) then Some f else lookup_flag l n.
Proof. unfold lookup_flag. rewrite filter_cons. by repeat case_decide; subst. Qed.
Lemma add_flag_Lookup l f l' n :
  add_flag l f = Ok l' → lookup_flag l' n = if decide (n = flag_Name f) then Some f else lookup_flag l n.
Proof.
  unfold add_flag. destruct (lookup_flag l (flag_Name f)) eqn:E; [done|]. case_decide; [done|].
  intros [= <-]. rewrite lookup_flag_app, lookup_flag_cons. case_decide; subst; [by rewrite E|].
  by destruct (lookup_flag l n).
Qed.
#[export] Instance list_PFlagLaws : PFlagLaws.
Proof.
  split; simpl.
  - done.
  - intros l n f. by intros [_ ?]%lookup_flag_Some.
  - intros l f l' n. apply add_flag_Lookup.
  - intros l f [g Hg]. unfold add_flag. rewrite Hg. by eexists.
  - intros l n msg [f Hf] Hmsg. rewrite Hf. exists l. by rewrite decide_False.
  - intros l new l' n. revert l. induction new as [|f new IH]; intros l; simpl.
    { intros [= ->]. by destruct (lookup_flag l' n). }
    intros (l1 & E1 & E)%outcome_bind_Ok. rewrite (IH _ E), lookup_flag_cons.
    destruct (lookup_flag l (flag_Name f)) as [g|] eqn:Ef.
    + injection E1 as <-. destruct (lookup_flag l n) eqn:En; [done|]. case_decide; [congruence|done].
    + rewrite (add_flag_Lookup _ _ _ n E1). case_decide; [by subst; rewrite Ef|done].
Defined.

(** The two built-in approvers declare no flags; a third one does. *)
Definition kube : list flag → outcome (list flag) := declare [StringVar "kubeconfig" ""].
Definition vault : flag := StringVar "vault-address" "".
Definition approvers : list (string * (list flag → outcome (list flag))) :=
  [("allowed", mret); ("constraints", mret); ("vault", declare [vault])].
Definition in_order (nfs : gmap string (list flag)) : list (string * list flag) := map_to_list nfs.
Definition backwards (nfs : gmap string (list flag)) : list (string * list flag) := reverse (map_to_list nfs).
Definition run_addFlags visit aps : list flag :=
  match addFlags kube visit aps [] with Ok (_, l) => l | _ => [] end.
Definition sample_sets : gmap string (list flag) :=
  match namedFlagSets kube approvers with Ok nfs => nfs | _ => ∅ end.

(** An approver that declares a flag of the options: which of the two defaults
    the program uses depends on the order of a map. *)
Definition clashing : list (string * (list flag → outcome (list flag))) :=
  [("proxy", declare [IntVarP "webhook-port" "" 8443])].
Example clash_depends_on_order :
  flag_Default <$> lookup_flag (run_addFlags in_order clashing) "webhook-port" ≠
  flag_Default <$> lookup_flag (run_addFlags backwards clashing) "webhook-port".
Proof. by vm_compute. Qed.

(** A check that no flag name is in two sets. *)
Definition all_names (nfs : gmap string (list flag)) : list (string * string) :=
  map_to_list nfs ≫= λ p, (λ f, (p.1, flag_Name f)) <$> p.2.
Lemma map_disjoint_check nfs :
  forallb (λ x, forallb (λ y, implb (bool_decide (x.2 = y.2)) (bool_decide (x.1 = y.1))) (all_names nfs))
    (all_names nfs) = true →
  disjoint_sets nfs.
Proof.
  rewrite forallb_Forall, Forall_forall. intros Hc a b A B n f g Ha Hb [Hf <-]%lookup_flag_Some [Hg Eg]%lookup_flag_Some.
  assert (∀ k K h, nfs !! k = Some K → h ∈ K → (k, flag_Name h) ∈ all_names nfs) as Hin.
  { intros k K h Hk Hh. apply list_elem_of_bind. exists (k, K).
    split; [by apply (list_elem_of_fmap_2 (λ f, (k, flag_Name f)))|by apply elem_of_map_to_list]. }
  specialize (Hc _ (Hin a A f Ha Hf)). rewrite forallb_Forall, Forall_forall in Hc.
  specialize (Hc _ (Hin b B g Hb Hg)). simpl in Hc. rewrite bool_decide_eq_true_2 in Hc by done.
  by apply bool_decide_eq_true in Hc.
Qed.

Lemma addFlags_deterministic_witness :
  (∀ n, lookup_flag (run_addFlags in_order approvers) n = lookup_flag (run_addFlags backwards approvers) n) ∧
  (∀ f, f ∈ Options.addFlags → lookup_flag (run_addFlags in_order approvers) (flag_Name f) = Some f).
Proof.
  destruct (addFlags_deterministic (H:=list_PFlag) kube in_order backwards approvers [] sample_sets
    (run_addFlags in_order approvers) (run_addFlags backwards approvers)) as (Hsame & Hown & _).
  - done.
  - unfold backwards. apply reverse_Permutation.
  - apply declare_grows.
  - repeat constructor; [by intros l l' [= <-]|by intros l l' [= <-]|apply declare_grows].
  - apply (map_disjoint_check sample_sets). by vm_compute.
  - by vm_compute.
  - by vm_compute.
  - split; [exact Hsame|]. intros f Hf. by apply Hown.
Defined.
End FlagWitnesses.
