(* ===== verification/Cmd.v ===== *)
(** * Starting the program: pkg/internal/cmd and pkg/internal/controllers/controllers.go

    The controller manager, its builder and its webhook server are parameters;
    the order in which the parts are put together, and what each failure does,
    is the program's. *)
From S2P Require Import Prelude GoStrings K8s PolicyAPI Approver Client SSAClient Watches Predicate Manager Registry Webhook CertificateRequests CertificateRequestPolicies Metrics Options Flags SampleCluster.

(** [servertls.DynamicSource] with its authority. *)
Record DynamicSource := {
  ds_DNSNames : list string;
  ds_SecretNamespace : string;
  ds_SecretName : string;
  ds_CADuration : Z;
  ds_LeafDuration : Z }.

(** The fields of [ctrl.Options] that depend on the options. *)
Record ManagerOptions := {
  mo_LeaderElection : bool;
  mo_LeaderElectionID : string;
  mo_LeaderElectionNamespace : string;
  mo_HealthProbeBindAddress : string;
  mo_MetricsBindAddress : string;
  mo_WebhookPort : Z;
  mo_WebhookHost : string }.

(** The controller manager.  [Builder_Complete] is the whole chain of calls on
    the builder of a controller: it is given what the controller watches and
    how it reconciles. *)
Class ControllerManager (S : Type) := {
  ctrl_NewManager : ManagerOptions → M S unit;
  mgr_Add_certificateSource : DynamicSource → M S unit;
  mgr_Add_watcher : list (option chan) → M S unit;
  Builder_Complete : list (Watch S) → (NamespacedName → M S (Result * option error)) → M S unit;
  mgr_Start : M S unit }.

Section cmd.
Context {S : Type} `{ControllerManager S} `{MetricsHost S} `{WebhookManager S} `{Reader S} `{Client S}.
Context `{Recorder S} `{Clock S} `{ApiUtil} `{ClientLib} `{ErrorLib} `{JSONLib}.
Context `{LabelsLib} `{UnicodeTables}.

(** ** pkg/internal/controllers *)
Definition addCertificateRequestController (evaluators : list (Evaluator S)) : M S unit :=
  Builder_Complete certificateRequestWatches (CertificateRequests.Reconcile (Review (New evaluators))).

Definition addCertificateRequestPolicyController (reconcilers : list (Reconciler S)) : M S unit :=
  let select := enqueueListSelect reconcilers in
  _ ← (if (0 <? length select)%nat
       then wrap_err "failed to add CertificateRequestPolicy generic event watcher"
              (mgr_Add_watcher select)
       else mret tt);
  Builder_Complete certificateRequestPolicyWatches (CertificateRequestPolicies.Reconcile reconcilers).

Definition AddControllers (evaluators : list (Evaluator S)) (reconcilers : list (Reconciler S))
    : M S unit :=
  _ ← wrap_err "failed to add certificaterequest controller"
    (addCertificateRequestController evaluators);
  wrap_err "failed to add certificaterequestpolicy controller"
    (addCertificateRequestPolicyController reconcilers).

(** ** pkg/internal/cmd/cmd.go *)
Definition certificateSource (opts : Options) : DynamicSource :=
  let w := o_Webhook opts in
  {| ds_DNSNames := [ServiceName w +:+ "." +:+ CASecretNamespace w +:+ ".svc"];
     ds_SecretNamespace := CASecretNamespace w;
     ds_SecretName := CASecretName w;
     ds_CADuration := CADuration w;
     ds_LeafDuration := LeafDuration w |}.

Definition managerOptions (opts : Options) : ManagerOptions :=
  {| mo_LeaderElection := true;
     mo_LeaderElectionID := "policy.cert-manager.io";
     mo_LeaderElectionNamespace := LeaderElectionNamespace opts;
     mo_HealthProbeBindAddress := ReadyzAddress opts;
     mo_MetricsBindAddress := MetricsAddress opts;
     mo_WebhookPort := Port (o_Webhook opts);
     mo_WebhookHost := Host (o_Webhook opts) |}.

(** The loop over the registered approvers. *)
Definition prepareApprovers (approvers : list (Interface S)) : M S unit :=
  for_range approvers tt (λ _ approver,
    wrap_err ("failed to prepare approver " +:+ strconv_Quote (ap_Name approver))
      (ap_Prepare approver)).

Definition RunE (opts : Options) (shared : Registry S) : M S unit :=
  _ ← wrap_err "unable to create controller manager" (ctrl_NewManager (managerOptions opts));
  _ ← mgr_Add_certificateSource (certificateSource opts);
  _ ← RegisterMetrics;
  _ ← wrap_err "failed to register webhook" (Register shared (Webhooks shared));
  _ ← prepareApprovers (Approvers shared);
  _ ← wrap_err "failed to add controllers"
    (AddControllers (Evaluators shared) (Reconcilers shared));
  mgr_Start.

(** The [cobra.Command].  The functions that run read the options, which the
    flags have been parsed into by then; usage and help are given the line
    that [cobra] makes of the command's name and flags. *)
Context `{CompleteOps S} `{PFlag}.
Record Command := {
  cmd_Use : string;
  cmd_Short : string;
  cmd_Long : string;
  cmd_Flags : FlagSet;
  cmd_UsageFunc : string → string;
  cmd_HelpFunc : string → string;
  cmd_PreRunE : Options → M S unit;
  cmd_RunE : Options → M S unit }.
Definition helpOutput : string :=
  "A cert-manager CertificateRequest approver that bases decisions on CertificateRequestPolicies".

(** The flags of client-go and of the approvers, the printing of the sections,
    and the order in which a map of flag sets is visited. *)
Context (kubeConfigFlags : FlagSet → outcome FlagSet).
Context (RegisterFlags : Interface S → FlagSet → outcome FlagSet).
Context (PrintSections : gmap string FlagSet → string).
Context (visit : gmap string FlagSet → list (string * FlagSet)).

Definition NewCommand (shared : Registry S) : outcome Command :=
  let approvers := (λ a, (ap_Name a, RegisterFlags a)) <$> Approvers shared in
  '(nfs, flags) ← addFlags kubeConfigFlags visit approvers (NewFlagSet "approver-policy");
  mret {|
    cmd_Use := "approver-policy";
    cmd_Short := helpOutput;
    cmd_Long := helpOutput;
    cmd_Flags := flags;
    cmd_UsageFunc useLine := usageFunc useLine (PrintSections nfs);
    cmd_HelpFunc useLine := helpFunc helpOutput useLine (PrintSections nfs);
    cmd_PreRunE opts := _ ← Complete opts; mret tt;
    cmd_RunE opts := RunE opts shared |}.

(** [cmd.Execute] parses the arguments into the options and runs [PreRunE] and
    [RunE]; the error it returns ends the process with status 1. *)
Context (ParseFlags : FlagSet → outcome Options).
Definition Execute (cmd : Command) : M S unit :=
  opts ← pure_call (ParseFlags (cmd_Flags cmd));
  _ ← cmd_PreRunE cmd opts;
  cmd_RunE cmd opts.
Definition ExecutePolicyApprover (shared : Registry S) : M S unit :=
  cmd ← pure_call (NewCommand shared);
  got ← try (Execute cmd);
  match got with
  | inr _ => panic "os.Exit(1)"
  | inl _ => mret tt
  end.
(** cmd/main.go *)
Definition main (shared : Registry S) : M S unit := ExecutePolicyApprover shared.
End cmd.

(** ** What must precede the start *)
Section startup.
Context {S : Type} `{ControllerManager S} `{MetricsHost S} `{WebhookManager S} `{Reader S} `{Client S}.
Context `{Recorder S} `{Clock S} `{ApiUtil} `{ClientLib} `{ErrorLib} `{JSONLib}.
Context `{LabelsLib} `{UnicodeTables}.

(** [started s]: the controller manager has been started. *)
Context (started : S → bool).
Context (NewManager_keeps : ∀ o, keeps started (ctrl_NewManager o)).
Context (Add_keeps : ∀ d, keeps started (mgr_Add_certificateSource d)).
Context (MustRegister_keeps : ∀ d c, keeps started (MustRegister d c)).
Context (watcher_keeps : ∀ c, keeps started (mgr_Add_watcher c)).
Context (Builder_keeps : ∀ ws r, keeps started (Builder_Complete ws r)).
Context (webhook_keeps : ∀ v, keeps started (WebhookManagedBy_Complete v)).
Context (readyz_keeps : ∀ n, keeps started (AddReadyzCheck n)).

Lemma bind_started {A B} (m : M S A) (f : A → M S B) s o s' :
  keeps started m → (m ≫= f) s = (o, s') → started s = false → started s' = true →
  ∃ a s1, m s = (Ok a, s1) ∧ started s1 = false ∧ f a s1 = (o, s').
Proof.
  intros Hm. rewrite M_bind_step. destruct (m s) as [[a| |] s1] eqn:E; intros Hrun Hs Hs'.
  - exists a, s1. rewrite (Hm _ _ _ E). done.
  - injection Hrun as <- <-. rewrite (Hm _ _ _ E) in Hs'. congruence.
  - injection Hrun as <- <-. rewrite (Hm _ _ _ E) in Hs'. congruence.
Qed.

Lemma Register_keeps shared whs : keeps started (Register shared whs).
Proof.
  unfold Register. apply keeps_bind; [by apply keeps_try|]. intros [u|e]; [|apply keeps_fail].
  apply keeps_bind; [by apply keeps_try|]. intros [v|e]; [apply keeps_ret|apply keeps_fail].
Qed.
Lemma AddControllers_keeps evs recs : keeps started (AddControllers evs recs).
Proof.
  unfold AddControllers, addCertificateRequestController, addCertificateRequestPolicyController.
  apply keeps_bind; [by apply keeps_wrap_err|]. intros _. apply keeps_wrap_err, keeps_bind; [|done].
  case_match; [by apply keeps_wrap_err|apply keeps_ret].
Qed.

Lemma prepareApprovers_Ok aps s s' :
  prepareApprovers aps s = (Ok tt, s') → ∃ us, answers (λ a : Interface S, ap_Prepare a) s aps us s'.
Proof.
  unfold prepareApprovers. revert s. induction aps as [|a aps IH]; intros s.
  - intros [_ <-]%M_ret_Ok. exists []. constructor.
  - rewrite for_range_cons. intros ([] & s1 & Ha & Hrest)%M_bind_Ok.
    destruct (IH _ Hrest) as [us Hus]. exists (tt :: us). econstructor; [|exact Hus].
    unfold wrap_err in Ha. unfold calls. by destruct (ap_Prepare a s) as [[] ?]; simplify_eq.
Qed.

(** [C31] Nothing runs half configured.  When the manager is started, the
    webhook has been registered with the webhooks of every registered
    approver, every approver has been prepared, once and in order of
    registration, and the two controllers have been added with every
    registered evaluator and reconciler, in that order; a failure before
    that leaves the manager not started. *)
Theorem startup_complete opts shared s o s'
  (Hprep : ∀ a, a ∈ Approvers shared → keeps started (ap_Prepare a))
  (Hrun : RunE opts shared s = (o, s'))
  (Hbefore : started s = false) (Hafter : started s' = true) :
  ∃ s1 s2 s3 us s4,
    Register shared (Webhooks shared) s1 = (Ok tt, s2) ∧
    answers (λ a : Interface S, ap_Prepare a) s2 (Approvers shared) us s3 ∧
    AddControllers (Evaluators shared) (Reconcilers shared) s3 = (Ok tt, s4) ∧
    mgr_Start s4 = (o, s').
Proof.
  assert (∀ A m (x : M S A), keeps started x → keeps started (wrap_err m x)) as Hw
    by (intros; by apply keeps_wrap_err).
  apply bind_started in Hrun as (_ & a1 & _ & Hst1 & Hrun); [|by apply Hw|done..].
  apply bind_started in Hrun as (_ & a2 & _ & Hst2 & Hrun); [|done..].
  apply bind_started in Hrun as (_ & s1 & _ & Hst3 & Hrun); [|apply MustRegister_keeps|done..].
  apply bind_started in Hrun as ([] & s2 & Hreg & Hst4 & Hrun);
    [|apply Hw, Register_keeps|done..].
  apply bind_started in Hrun as ([] & s3 & Hp & Hst5 & Hrun); [| |done..].
  2:{ apply keeps_for_range_in. intros _ a Ha. by apply keeps_wrap_err, Hprep. }
  apply bind_started in Hrun as ([] & s4 & Hadd & Hst6 & Hrun);
    [|apply Hw, AddControllers_keeps|done..].
  apply prepareApprovers_Ok in Hp as [us Hus].
  exists s1, s2, s3, us, s4. split_and!; [|done| |done].
  - unfold wrap_err in Hreg. by destruct (Register _ _ s1) as [[] ?]; simplify_eq.
  - unfold wrap_err in Hadd. by destruct (AddControllers _ _ s3) as [[] ?]; simplify_eq.
Qed.

(** The program starts the manager nowhere else. *)
Lemma ExecutePolicyApprover_started `{CompleteOps S} `{PFlag} kubeConfigFlags RegisterFlags
    PrintSections visit ParseFlags shared s o s' :
  (∀ h, keeps started (SetLogger h)) → keeps started ToRESTConfig →
  ExecutePolicyApprover kubeConfigFlags RegisterFlags PrintSections visit ParseFlags shared s = (o, s') →
  started s = false → started s' = true →
  ∃ cmd opts s1 o1,
    NewCommand kubeConfigFlags RegisterFlags PrintSections visit shared = Ok cmd ∧
    ParseFlags (cmd_Flags cmd) = Ok opts ∧ started s1 = false ∧ RunE opts shared s1 = (o1, s').
Proof.
  intros Hlog Hconf Hrun Hs Hs'.
  apply bind_started in Hrun as (cmd & _s & Hcmd & Hst & Hrun); [|apply keeps_pure_call|done..].
  injection Hcmd as Hcmd <-. exists cmd.
  assert (∃ o1, Execute ParseFlags cmd s = (o1, s')) as [o1 Hexec].
  { unfold try in Hrun. rewrite M_bind_step in Hrun.
    destruct (Execute ParseFlags cmd s) as [[[]|e|w] s1]; injection Hrun as _ <-; by eexists. }
  apply bind_started in Hexec as (opts & _s & Hopts & _ & Hexec); [|apply keeps_pure_call|done..].
  injection Hopts as Hopts <-. exists opts.
  apply outcome_bind_Ok in Hcmd as Hc. destruct Hc as ([nfs flags] & _ & [= Hc]).
  apply bind_started in Hexec as (_ & s1 & _ & Hst1 & Hexec); [|subst cmd; simpl|done..].
  - exists s1, o1. split_and!; [done..|]. by subst cmd.
  - unfold Complete. apply keeps_bind; [|intros; apply keeps_ret].
    apply keeps_bind; [apply Hlog|intros _]. apply keeps_bind; [by apply keeps_try|].
    intros [|]; [apply keeps_ret|apply keeps_fail].
Qed.
End startup.

Module StartupWitnesses.
Import SampleCluster.

(** A process whose state is whether the manager was started. *)
#[export] Instance flag_Manager : ControllerManager bool := {
  ctrl_NewManager _ := mret tt;
  mgr_Add_certificateSource _ := mret tt;
  mgr_Add_watcher _ := mret tt;
  Builder_Complete _ _ := mret tt;
  mgr_Start _ := (Ok tt, true) }.
#[export] Instance flag_MetricsHost : MetricsHost bool := {
  WaitForCacheSync _ := mret true;
  DescribeByCollect m := l ← m; mret (m_desc <$> l);
  MustRegister _ _ := mret tt }.
#[export] Instance flag_WebhookManager : WebhookManager bool := {
  WebhookManagedBy_Complete _ := mret tt;
  AddReadyzCheck _ := mret tt }.
#[export] Instance flag_Reader : Reader bool := {
  List_CertificateRequestPolicies := mret {| Items := [] |};
  List_CertificateRequests := mret [];
  Get_Namespace_Labels _ := mret ∅;
  Get_CertificateRequest _ := fail (errors_New "none");
  Get_CertificateRequestPolicy _ := fail (errors_New "none") }.
#[export] Instance flag_Client : Client bool := {
  Create_SubjectAccessReview _ := mret true;
  Status_Patch_CertificateRequest _ := mret tt;
  Status_Patch_CertificateRequestPolicy _ := mret tt }.

#[export] Instance flag_Recorder : Recorder bool := {
  Event_CertificateRequest _ _ _ _ := mret tt;
  Event_CertificateRequestPolicy _ _ _ _ := mret tt }.
#[export] Instance flag_Clock : Clock bool := { Now := mret 0 }.

Definition plugin : Interface bool :=
  {| ap_Name := "plugin"; ap_Prepare := mret tt;
     ap_Evaluator _ _ := mret {| ev_Result := ResultNotDenied; ev_Message := "" |};
     ap_Webhook _ := mret {| wv_Allowed := true; wv_Errors := []; wv_Warnings := [] |};
     ap_Reconciler := {| rec_Ready _ :=
         mret {| rr_Ready := true; rr_Errors := []; rr_Result := Result_zero |};
       rec_EnqueueChan := Some 1%nat |} |}.
Definition shared : Registry bool := {| approvers := [plugin] |}.
Definition opts : Options := Prepare Options_zero.

Lemma startup_complete_witness :
  RunE opts shared false = (Ok tt, true) ∧
  ∃ s1 s2 s3 us s4,
    Register shared (Webhooks shared) s1 = (Ok tt, s2) ∧
    answers (λ a : Interface bool, ap_Prepare a) s2 (Approvers shared) us s3 ∧
    AddControllers (Evaluators shared) (Reconcilers shared) s3 = (Ok tt, s4) ∧
    mgr_Start s4 = (Ok tt, true).
Proof.
  assert (RunE opts shared false = (Ok tt, true)) as Hrun by reflexivity.
  split; [exact Hrun|].
  apply (startup_complete id) with (opts := opts) (s := false) (s' := true);
    try done; intros; try apply keeps_ret.
  match goal with H : _ ∈ _ |- _ => apply list_elem_of_singleton in H as -> end.
  apply keeps_ret.
Defined.
End StartupWitnesses.
