(* ===== verification/System.v ===== *)
(** * The program as a whole

    The parts put together as the program does: the approvers "allowed" and
    "constraints" in the registry, the manager over their evaluators, the
    webhook over their webhooks, and the controller over the manager. *)
From S2P Require Import Prelude GoStrings Wildcard K8s PolicyAPI Approver Validation Samples Allowed AllowedSpec Constraints Client Predicate PredicateSpec Manager ManagerSpec Registry Webhook WebhookSpec SSAClient SampleCluster CertificateRequests CertificateRequestsSpec.

Section system.
Context {S : Type} `{Hcache : Cache S} `{!CacheLaws S} `{PKILib} `{ErrorLib} `{!ErrorLibLaws}.

(** The init functions of the two packages store their approver. *)
Definition core_registry : Registry S :=
  {| approvers := [allowed_approver; constraints_approver] |}.

(** ** Review *)
Section review.
Context `{Reader S} `{Client S} `{LabelsLib} `{UnicodeTables}.

(** A policy permits a request: the CSR decodes, the key is of a kind that is
    recognised if the policy constrains it, and both blocks are met. *)
Definition permits (cr : CertificateRequest) (p : CertificateRequestPolicy) : Prop :=
  ∃ csr key, DecodeX509CertificateRequestBytes (crs_Request (cr_Spec cr)) = Ok csr ∧
    inspected_key p cr = Ok key ∧
    allowed_admits (S:=S) (allowed_of p) cr csr ∧ constraints_satisfied p cr key.
(** The evaluators do not fail on the request. *)
Definition evaluable (cr : CertificateRequest) (p : CertificateRequestPolicy) : Prop :=
  is_Ok (DecodeX509CertificateRequestBytes (crs_Request (cr_Spec cr))) ∧ is_Ok (inspected_key p cr).

(** The API server, as it stands during the review. *)
Record settled (cr : CertificateRequest) (items : list CertificateRequestPolicy)
    (labels : gmap string string) (may_use : CertificateRequestPolicy → bool) : Prop := {
  settled_items : returns cache_ok List_CertificateRequestPolicies (Ok {| Items := items |});
  settled_keyed : Forall conditions_keyed items;
  settled_labels : returns cache_ok (Get_Namespace_Labels (cr_Namespace cr)) (Ok labels);
  settled_may_use p : p ∈ items → returns cache_ok (ask cr p) (Ok (may_use p)) }.

(** The outcomes of the two evaluators, read off a run from [s]. *)
Definition core_outcomes (cr : CertificateRequest) (s : S) (p : CertificateRequestPolicy)
    : list (outcome EvaluationResponse) :=
  [(Allowed.Evaluate p cr s).1; Constraints.Evaluate p cr].
Definition core_setting (cr : CertificateRequest) (s : S) items labels may_use : setting :=
  {| st_items := items; st_labels := labels; st_may_use := may_use;
     st_outcomes := core_outcomes cr s |}.

Lemma allowed_outcome p cr s :
  cache_ok s → returns cache_ok (Allowed.Evaluate p cr) (Allowed.Evaluate p cr s).1.
Proof.
  intros Hs. pose proof (Evaluate_returns (S:=S) p cr) as Ha.
  assert (∃ o, returns cache_ok (Allowed.Evaluate p cr) o) as [o Ho]
    by (destruct (DecodeX509CertificateRequestBytes _); [destruct Ha as (r & Hr & _)|..]; eauto).
  destruct (Ho s Hs) as (s' & E & _). by rewrite E.
Qed.
Lemma settled_steady cr items labels may_use s :
  settled cr items labels may_use → cache_ok s →
  steady cache_ok (Evaluators core_registry) cr (core_setting cr s items labels may_use).
Proof.
  intros [] Hs. split; try done. simpl. intros p _. repeat constructor; [by apply allowed_outcome|].
  apply returns_pure_call.
Qed.

(** When both answer, no one denies exactly when the policy permits. *)
Lemma core_outcomes_permits cr s p rs :
  cache_ok s → core_outcomes cr s p = Ok <$> rs → (passed rs = true ↔ permits cr p).
Proof.
  intros Hs Hrs. destruct rs as [|ra [|rc [|]]]; try done. injection Hrs as Ea Ec.
  pose proof (Evaluate_returns (S:=S) p cr) as Ha. pose proof (Evaluate_outcome p cr) as Hc.
  unfold permits. destruct (DecodeX509CertificateRequestBytes _) as [csr|e|w].
  2-3: by destruct (Ha s Hs) as (s' & E & _); rewrite E in Ea.
  destruct Ha as (ra' & Hra & Hadmits). destruct (Hra s Hs) as (s' & E & _). rewrite E in Ea.
  destruct (inspected_key p cr) as [key|e|w]; [|by rewrite Hc in Ec..].
  destruct Hc as (rc' & Hrc & Hsat). rewrite Hrc in Ec. simplify_eq/=.
  unfold passed, passes. simpl. rewrite !andb_true_iff, !bool_decide_eq_true, Hadmits, Hsat.
  split; [intros (? & ? & _); by exists csr, key|intros (? & ? & ? & ? & ? & ?); by simplify_eq].
Qed.
Lemma core_outcomes_Ok cr s p : cache_ok s → evaluable cr p → Forall is_Ok (core_outcomes cr s p).
Proof.
  intros Hs [[csr Hcsr] [key Hkey]].
  pose proof (Evaluate_returns (S:=S) p cr) as Ha. pose proof (Evaluate_outcome p cr) as Hc.
  rewrite Hcsr in Ha. rewrite Hkey in Hc. destruct Ha as (ra & Hra & _). destruct Hc as (rc & Hrc & _).
  destruct (Hra s Hs) as (s' & E & _). unfold core_outcomes. rewrite E, Hrc.
  repeat constructor; by eexists.
Qed.
End review.

(** ** Admission *)
Section admission.
Context `{LabelsLib}.

Definition core_wellformed (p : CertificateRequestPolicy) : Prop :=
  (∀ a, ps_Allowed (p_Spec p) = Some a → allowed_wellformed (S:=S) a) ∧
  (∀ c, ps_Constraints (p_Spec p) = Some c → constraints_wellformed c).

Lemma core_webhooks_run p s :
  cache_ok s → ∃ rs s', answers (λ w : Webhook S, w p) s (Webhooks core_registry) rs s' ∧
    cache_ok s' ∧ (Forall (λ r, wv_Allowed r = true) rs ↔ core_wellformed p).
Proof.
  intros Hs. destruct (Validate_returns (S:=S) p) as (ra & Hra & _ & Ha).
  destruct (Hra s Hs) as (s' & Erun & Hs').
  exists [ra; Constraints.Validate p], s'. split_and!; [|done|].
  - econstructor; [exact Erun|]. econstructor; [done|constructor].
  - rewrite !Forall_cons, Forall_nil, Ha. destruct (Validate_wellformed p) as [_ Hc].
    rewrite Hc. unfold core_wellformed. tauto.
Qed.
End admission.
End system.

(** ** The claims *)
Section claims.
Context {S : Type} `{Hcache : Cache S} `{!CacheLaws S} `{PKILib} `{ErrorLib} `{!ErrorLibLaws}.
Context `{Reader S} `{Client S} `{LabelsLib} `{UnicodeTables}.

(** What a review that answers has decided, and when it answers. *)
Definition decides_rightly (cr : CertificateRequest) (items : list CertificateRequestPolicy)
    (applies : CertificateRequestPolicy → Prop) (resp : manager.ReviewResponse) : Prop :=
  (manager.rv_Result resp = manager.ResultApproved ↔
     ∃ p, p ∈ items ∧ applies p ∧ permits (S:=S) cr p) ∧
  (manager.rv_Result resp = manager.ResultUnprocessed ↔ ∀ p, p ∈ items → ¬ applies p) ∧
  (manager.rv_Result resp = manager.ResultDenied ↔
     (∃ p, p ∈ items ∧ applies p) ∧ ∀ p, p ∈ items → applies p → ¬ permits (S:=S) cr p).

Lemma settled_review cr items labels may_use s
  (Hset : settled (S:=S) cr items labels may_use) (Hs : cache_ok s) :
  let applies p := is_ready p ∧ issuer_selected cr p ∧ namespace_selected cr labels p ∧
    may_use p = true in
  (∀ resp s', Review (New (Evaluators core_registry)) cr s = (Ok resp, s') →
     cache_ok s' ∧ decides_rightly cr items applies resp) ∧
  ((∀ p, p ∈ items → is_Ok (ns_keep cr labels p) ∧ evaluable cr p) →
     ∃ resp s', Review (New (Evaluators core_registry)) cr s = (Ok resp, s')).
Proof.
  intros applies. pose proof (settled_steady cr items labels may_use s Hset Hs) as Ht. split.
  - intros resp s' Hrun. destruct (steady_Review _ _ _ _ _ _ _ Ht Hs Hrun) as (Hs' & _ & Hcase).
    split; [done|]. unfold decides_rightly. simpl in Hcase.
    assert (∀ v p, judged_as (core_setting cr s items labels may_use) v p → (v = true ↔ permits (S:=S) cr p)) as Hj.
    { intros v p (rs & Hrs & <-). by apply (core_outcomes_permits cr s). }
    change (applicable cr _) with applies in Hcase.
    assert (∀ q, judged_as (core_setting cr s items labels may_use) false q → ¬ permits (S:=S) cr q)
      as Hnj by (intros q Hq Hp%(Hj false q Hq); done).
    clear -Hcase Hj Hnj. clearbody applies.
    destruct Hcase as [[-> Hno]|[[-> (p & Hp & Ha & Hv%Hj)]|[-> [Hsome Hall]]]].
    + split; [|split]; (split; [done|]); [intros (p & Hp & Ha & _)|done|intros [(p & Hp & Ha) _]];
        by destruct (Hno p).
    + assert (permits (S:=S) cr p) as Hper by (by apply Hv).
      split; [|split]; split; try done; [eauto|intros Hno|intros [_ Hno]];
        by edestruct (Hno p).
    + assert (∀ q, q ∈ items → applies q → ¬ permits (S:=S) cr q) as Hnot by eauto.
      destruct Hsome as (q & Hq & Ha).
      split; [|split]; split; try done; [intros (p & Hp & Ha' & Hper); by destruct (Hnot p)|
        intros Hno; by destruct (Hno q)|by eauto].
  - intros Hok. destruct (returns_Review cache_ok (Evaluators core_registry) cr
      (world_of (core_setting cr s items labels may_use))) with (s := s) as (s' & E & _); [|done|eauto].
    apply steady_stable; [done|intros p Hp; by apply Hok|].
    intros p Hp. apply core_outcomes_Ok; [done|]. by apply Hok.
Qed.

(** [C7] What the program decides: with the two core approvers, in a world that
    stands still, a review that answers approves exactly when some policy of the
    cluster is ready, selects the issuer and namespace of the request, may be used
    by the requester, admits every attribute of the CSR and of the request, and
    has its constraints met; it leaves the request alone exactly when no policy
    applies, and denies it exactly when some apply and none of them permits it.
    It does answer if the CSR decodes, the key is of a kind that is recognised by
    each listed policy that constrains the key, and the namespace selectors parse;
    otherwise it may end with an error instead, depending on which policies come
    first.  (Conditions are keyed by type, as the CRD declares.) *)
Theorem system_review_correct cr items labels may_use s
  (Hset : settled (S:=S) cr items labels may_use) (Hs : cache_ok s) :
  let applies p := is_ready p ∧ issuer_selected cr p ∧ namespace_selected cr labels p ∧
    may_use p = true in
  (∀ resp s', Review (New (Evaluators core_registry)) cr s = (Ok resp, s') →
     cache_ok s' ∧
     (manager.rv_Result resp = manager.ResultApproved ↔
        ∃ p, p ∈ items ∧ applies p ∧ permits (S:=S) cr p) ∧
     (manager.rv_Result resp = manager.ResultUnprocessed ↔ ∀ p, p ∈ items → ¬ applies p) ∧
     (manager.rv_Result resp = manager.ResultDenied ↔
        (∃ p, p ∈ items ∧ applies p) ∧ ∀ p, p ∈ items → applies p → ¬ permits (S:=S) cr p)) ∧
  ((∀ p, p ∈ items → is_Ok (ns_keep cr labels p) ∧ evaluable cr p) →
     ∃ resp s', Review (New (Evaluators core_registry)) cr s = (Ok resp, s')).
Proof. by apply settled_review. Qed.

(** [C8] What the program admits: with the two core approvers registered, the
    webhook accepts a policy exactly when its plugins are registered, it
    selects something, its namespace labels parse, its allowed block is well
    formed with every CEL rule compiling, and so are its constraints.  It
    always gives an answer. *)
Theorem system_admission_correct registered names p s
  (Hnames : names ≡ₚ (map_to_list (ps_Plugins (p_Spec p))).*1)
  (Hlabels : ∀ ml w, LabelSelectorAsSelector ml ≠ Panic w) (Hs : cache_ok s) :
  let v := {| registeredPlugins := registered; webhooks := Webhooks core_registry |} in
  ∃ ws err s', validate v names (obj_CertificateRequestPolicy p) s = (Ok (ws, err), s') ∧
    cache_ok s' ∧
    (err = None ↔ plugins_known v p ∧ selector_given p ∧ labels_parse p ∧ core_wellformed (S:=S) p).
Proof.
  intros v. destruct (core_webhooks_run (S:=S) p s Hs) as (rs & s' & Hrs & Hs' & Hwf).
  assert (∃ ws err, validate v names (obj_CertificateRequestPolicy p) s = (Ok (ws, err), s'))
    as (ws & err & Hrun).
  { unfold validate. rewrite M_bind_step. unfold pure_call.
    assert (∃ es, matchLabelsErrors p (NewPath "spec" []) = Ok es) as [es ->].
    { unfold matchLabelsErrors. repeat case_match; eauto. by edestruct Hlabels. }
    rewrite M_bind_step. unfold try. set (a0 := {| a_fieldErrs := _; a_warnings := _; a_allAllowed := _ |}).
    assert (for_range (webhooks v) a0 (runWebhook p) s = (Ok (foldl tally a0 rs), s')) as ->.
    { rewrite (for_range_ext _ _ _ _ _ (runWebhook_tally p)).
      apply (for_range_answers (λ w : Webhook S, w p) tally). by exists rs. }
    by eexists _, _. }
  exists ws, err, s'. split_and!; [done..|]. split.
  - intros ->. apply validate_admits in Hrun as (? & ? & ? & rs' & Hrs' & Hall & _); [|done].
    split_and!; try done. apply Hwf. by rewrite <-(run_calls_det _ _ _ _ _ _ _ Hrs' Hrs).
  - intros (Hp & Hsel & Hl & Hc). apply Hwf in Hc.
    assert (validate v names (obj_CertificateRequestPolicy p) s = (Ok (rs ≫= wv_Warnings, None), s'))
      as Hrun' by (apply validate_admits; [done|]; split_and!; try done; by exists rs).
    congruence.
Qed.
End claims.

(** ** From the controller to the policies *)
Section controller.
Context {S : Type} `{Reader S} `{Client S} `{Recorder S} `{Clock S}.
Context `{ApiUtil} `{ClientLib} `{ErrorLib} `{JSONLib} `{LabelsLib} `{UnicodeTables}.
Context `{!PatchLog S, !PatchLogLaws S}.

(** [C1] No request is approved without a policy: when a reconciliation sends
    anything about a request that it marks Approved, then whatever the API
    server answered and whatever the evaluators did, there is a policy that
    was listed, is ready and selects the request by issuer and namespace, that
    the API server, asked in this review, said the requester may use, and that
    every evaluator was then asked about and none denied. *)
Theorem approval_end_to_end evs req s res err s'
  (Hreads : review_reads patches) (Hevs : ∀ e p cr, e ∈ evs → no_patch (e p cr))
  (Hrun : Reconcile (Review (New evs)) req s = (Ok (res, err), s')) :
  patches s' = patches s ∨
  ∃ c pt cr s1, patches s' = patches s ++ [pt] ∧ decision_sent req c pt ∧
    Get_CertificateRequest req s = (Ok cr, s1) ∧ decided cr = false ∧
    (crc_Type c = CertificateRequestConditionApproved →
     ∃ p items s2, List_CertificateRequestPolicies s1 = (Ok {| Items := items |}, s2) ∧
       p ∈ items ∧ is_ready p ∧ issuer_selected cr p ∧ labels_witness cr s2 p ∧
       (∃ rs t, consulted evs cr s2 p rs t ∧ length rs = length evs ∧
          Forall (λ r, ev_Result r = ResultNotDenied) rs) ∧
       crc_Message c = "Approved by CertificateRequestPolicy: " +:+ strconv_Quote (p_Name p)).
Proof.
  assert (∀ cr, no_patch (Review (S:=S) (New evs) cr)) as Hm by (intros; by apply Review_keep; eauto).
  destruct (reconcile_sent _ _ _ _ _ _ Hm Hrun) as [->|(c & pt & -> & Hsent & Hmade)]; [by left|].
  destruct Hmade as (cr & s1 & resp & s2 & now & Hget & Hund & Hrev & (Hty & Hst & Hreason & Hmsg) & _).
  right. exists c, pt, cr, s1. split_and!; try done. intros Happ.
  assert (manager.rv_Result resp = manager.ResultApproved) as Hres.
  { destruct Hty as [[? _]|[_ Hden]]; [done|]. by rewrite Happ in Hden. }
  destruct (review_approved evs cr s1 resp s2 Hrev Hres) as
    (items & s3 & p & rs & Hl & Hin & Hr & Hi & Hns & Hc & Hlen & Hall & ->).
  exists p, items, s3. split_and!; try done. by exists rs, s2.
Qed.
End controller.

Module SystemWitnesses.
Import SampleCluster.

(** A cluster that stands still, seen by a process whose state is the cache. *)
Definition open_policy : CertificateRequestPolicy :=
  sample_policy "open" (Some (sample_allowed [])) (Some (sample_constraints "RSA")).
Definition closed_policy : CertificateRequestPolicy := sample_policy "closed" None None.
Definition policies : list CertificateRequestPolicy := [closed_policy; open_policy].
#[export] Instance still_Reader : Reader cache := {
  List_CertificateRequestPolicies := mret {| Items := policies |};
  List_CertificateRequests := mret [];
  Get_Namespace_Labels _ := mret ∅;
  Get_CertificateRequest _ := fail (errors_New "none");
  Get_CertificateRequestPolicy _ := fail (errors_New "none") }.
#[export] Instance still_Client : Client cache := {
  Create_SubjectAccessReview _ := mret true;
  Status_Patch_CertificateRequest _ := mret tt;
  Status_Patch_CertificateRequestPolicy _ := mret tt }.
Definition rsa_csr : x509_CertificateRequest := sample_csr (rsa_PublicKey_ptr (2 ^ 2047)).

Lemma still_settled : settled (S:=cache) new_request policies ∅ (λ _, true).
Proof.
  split; [apply returns_ret| |apply returns_ret|intros p _; apply returns_ret].
  repeat constructor; by intros ?%elem_of_nil.
Qed.
Lemma still_evaluable p :
  p ∈ policies → is_Ok (ns_keep new_request ∅ p) ∧ evaluable new_request p.
Proof.
  intros Hp. repeat (apply elem_of_cons in Hp as [->|Hp]; [|]); [..|by apply elem_of_nil in Hp];
    (split; [|split]); by eexists.
Qed.

Lemma system_review_correct_witness :
  let applies p := is_ready p ∧ issuer_selected new_request p ∧
    namespace_selected new_request ∅ p ∧ true = true in
  settled (S:=cache) new_request policies ∅ (λ _, true) ∧ cache_ok NewCache ∧
  ∃ resp s', Review (New (Evaluators core_registry)) new_request NewCache = (Ok resp, s') ∧
    cache_ok s' ∧
    (manager.rv_Result resp = manager.ResultApproved ↔
       ∃ p, p ∈ policies ∧ applies p ∧ permits (S:=cache) new_request p).
Proof.
  intros applies. split; [apply still_settled|]. split; [apply NewCache_coherent|].
  destruct (system_review_correct new_request policies ∅ (λ _, true) NewCache still_settled
    NewCache_coherent) as [Hdecides Hanswers].
  destruct (Hanswers still_evaluable) as (resp & s' & Hrun).
  destruct (Hdecides resp s' Hrun) as (Hs' & Happroved & _). by exists resp, s'.
Defined.

(** The run itself: the open policy approves. *)
Example still_approved :
  (Review (New (Evaluators core_registry)) new_request NewCache).1 = Ok (approvedResponse open_policy).
Proof. vm_compute. reflexivity. Qed.

Lemma no_panic (ml : gmap string string) w : LabelSelectorAsSelector ml ≠ Panic w.
Proof. simpl. by case_match. Qed.

Lemma system_admission_correct_witness :
  let v := {| registeredPlugins := []; webhooks := Webhooks core_registry |} in
  [] ≡ₚ (map_to_list (ps_Plugins (p_Spec open_policy))).*1 ∧
  ∃ ws err s', validate v [] (obj_CertificateRequestPolicy open_policy) NewCache = (Ok (ws, err), s') ∧
    cache_ok s' ∧
    (err = None ↔ plugins_known v open_policy ∧ selector_given open_policy ∧
       labels_parse open_policy ∧ core_wellformed (S:=cache) open_policy).
Proof.
  intros v. assert ([] ≡ₚ (map_to_list (ps_Plugins (p_Spec open_policy))).*1) as Hn by reflexivity.
  split; [exact Hn|].
  apply (system_admission_correct [] [] open_policy NewCache Hn no_panic), NewCache_coherent.
Defined.
Example open_admitted :
  (validate {| registeredPlugins := []; webhooks := Webhooks core_registry |} []
    (obj_CertificateRequestPolicy open_policy) NewCache).1 = Ok ([], None).
Proof. vm_compute. reflexivity. Qed.

(** The controller, over the cluster and one evaluator that never denies. *)
Definition never_denies : Evaluator cluster := λ _ _,
  mret {| ev_Result := ResultNotDenied; ev_Message := "" |}.
Definition key : NamespacedName := {| nn_Namespace := "ns"; nn_Name := "cr" |}.
Definition s0 : cluster := cluster_of new_request.
Definition s1 : cluster := (Reconcile (Review (New [never_denies])) key s0).2.

Lemma approval_end_to_end_witness :
  Reconcile (Review (New [never_denies])) key s0 = (Ok (Result_zero, None), s1) ∧
  patches s1 ≠ patches s0 ∧
  (patches s1 = patches s0 ∨
   ∃ c pt cr s2, patches s1 = patches s0 ++ [pt] ∧ decision_sent key c pt ∧
    Get_CertificateRequest key s0 = (Ok cr, s2) ∧ decided cr = false ∧
    (crc_Type c = CertificateRequestConditionApproved →
     ∃ p items s3, List_CertificateRequestPolicies s2 = (Ok {| Items := items |}, s3) ∧
       p ∈ items ∧ is_ready p ∧ issuer_selected cr p ∧ labels_witness cr s3 p ∧
       (∃ rs t, consulted [never_denies] cr s3 p rs t ∧ length rs = length [never_denies] ∧
          Forall (λ r, ev_Result r = ResultNotDenied) rs) ∧
       crc_Message c = "Approved by CertificateRequestPolicy: " +:+ strconv_Quote (p_Name p))).
Proof.
  assert (Reconcile (Review (New [never_denies])) key s0 = (Ok (Result_zero, None), s1)) as Hrun
    by reflexivity.
  split; [exact Hrun|]. split; [by vm_compute|].
  apply (approval_end_to_end [never_denies] key s0 Result_zero None s1); [| |exact Hrun].
  - split; intros; by intros ? ? ? [= _ <-].
  - intros e p cr ->%list_elem_of_singleton. apply keeps_ret.
Defined.
End SystemWitnesses.
