(* ===== verification/NoPanic.v ===== *)
(** * Nothing panics

    A panic ends the process, and with it the decisions on every request of the
    cluster.  Here the program is composed as it runs, and shown not to panic
    whatever the policies, the requests and the answers of the API server are:
    malformed ones, ones that never passed the webhook, and errors included. *)
From S2P Require Import Prelude GoStrings K8s PolicyAPI Approver Validation Samples Allowed AllowedSpec Constraints Client Predicate Manager Registry Webhook SSAClient Metrics.
From S2P Require CertificateRequests CertificateRequestPolicies SampleCluster.

(** ** Calls that do not panic

    [calm I m]: from a state of [I] the call ends in a state of [I], with a value
    or an error. *)
Definition no_panic {A} (o : outcome A) : Prop := ∀ w, o ≠ Panic w.
Definition calm {S A} (I : S → Prop) (m : M S A) : Prop :=
  ∀ s, I s → no_panic (m s).1 ∧ I (m s).2.

Section calm.
Context {S : Type} (I : S → Prop).

Lemma calm_ret {A} (a : A) : calm I (mret a).
Proof. by intros s Hs. Qed.
Lemma calm_fail {A} e : calm I (fail (A:=A) e).
Proof. by intros s Hs. Qed.
Lemma calm_pure_call {A} (o : outcome A) : no_panic o → calm I (pure_call o).
Proof. by intros Ho s Hs. Qed.
Lemma calm_bind {A B} (m : M S A) (f : A → M S B) :
  calm I m → (∀ a, calm I (f a)) → calm I (m ≫= f).
Proof.
  intros Hm Hf s Hs. rewrite M_bind_step. destruct (Hm s Hs) as [Hno Hs'].
  destruct (m s) as [[a|e|w] s']; simpl in *; [by apply Hf|by split|by edestruct Hno].
Qed.
Lemma calm_try {A} (m : M S A) : calm I m → calm I (try m).
Proof.
  intros Hm s Hs. unfold try. destruct (Hm s Hs) as [Hno Hs'].
  destruct (m s) as [[a|e|w] s']; simpl in *; [by split..|by edestruct Hno].
Qed.
Lemma calm_wrap_err {A} msg (m : M S A) : calm I m → calm I (wrap_err msg m).
Proof.
  intros Hm s Hs. unfold wrap_err. destruct (Hm s Hs) as [Hno Hs'].
  destruct (m s) as [[a|e|w] s']; simpl in *; [by split..|by edestruct Hno].
Qed.
Lemma calm_for_range {A B} (f : B → A → M S B) l acc :
  (∀ acc x, x ∈ l → calm I (f acc x)) → calm I (for_range l acc f).
Proof.
  revert acc. induction l as [|x l IH]; intros acc Hf; [apply calm_ret|].
  apply calm_bind; [apply Hf; by left|]. intros acc'. apply IH. intros a y Hy. apply Hf. by right.
Qed.
Lemma returns_calm {A} (m : M S A) o : returns I m o → no_panic o → calm I m.
Proof. intros Hm Ho s Hs. destruct (Hm s Hs) as (s' & -> & Hs'). by split. Qed.
Lemma calm_run {A} (m : M S A) s o s' : calm I m → I s → m s = (o, s') → no_panic o ∧ I s'.
Proof. intros Hm Hs E. destruct (Hm s Hs). by rewrite E in *. Qed.
End calm.

#[export] Hint Resolve calm_ret calm_fail calm_bind calm_try calm_wrap_err : calm.
(** One call after the other, all cases of a match. *)
Ltac calm :=
  repeat (lazymatch goal with |- ∀ _, _ => intro | _ => idtac end;
    first [apply calm_bind|apply calm_try|apply calm_wrap_err|case_match]);
  repeat (lazymatch goal with |- ∀ _, _ => intro end); eauto with calm.

(** ** The approvers *)
Section approvers.
Context {S : Type} (I : S → Prop).

Record calm_approver (a : Interface S) : Prop := {
  calm_Evaluator p cr : calm I (ap_Evaluator a p cr);
  calm_Webhook p : calm I (ap_Webhook a p);
  calm_Reconciler p : calm I (rec_Ready (ap_Reconciler a) p) }.

Lemma calm_Evaluators (r : Registry S) e p cr :
  Forall calm_approver (approvers r) → e ∈ Evaluators r → calm I (e p cr).
Proof.
  rewrite Forall_forall. intros Hr (a & -> & Ha)%list_elem_of_fmap. by apply (calm_Evaluator a), Hr.
Qed.
Lemma calm_Webhooks (r : Registry S) w p :
  Forall calm_approver (approvers r) → w ∈ Webhooks r → calm I (w p).
Proof.
  rewrite Forall_forall. intros Hr (a & -> & Ha)%list_elem_of_fmap. by apply (calm_Webhook a), Hr.
Qed.
Lemma calm_Reconcilers (r : Registry S) c p :
  Forall calm_approver (approvers r) → c ∈ Reconcilers r → calm I (rec_Ready c p).
Proof.
  rewrite Forall_forall. intros Hr (a & -> & Ha)%list_elem_of_fmap. by apply (calm_Reconciler a), Hr.
Qed.
End approvers.

(** The two core approvers, over any cache that keeps its contract. *)
Section core.
Context {S : Type} `{Hcache : Cache S} `{!CacheLaws S} `{PKILib} `{ErrorLib} `{!ErrorLibLaws}.
Context (Hdecode : ∀ bytes, no_panic (DecodeX509CertificateRequestBytes bytes)).

Lemma allowed_calm : calm_approver (S:=S) cache_ok allowed_approver.
Proof.
  split.
  - intros p cr. pose proof (Evaluate_returns (S:=S) p cr) as Ha.
    pose proof (Hdecode (crs_Request (cr_Spec cr))) as Hno.
    destruct (DecodeX509CertificateRequestBytes _) as [csr|e|w]; [|by eapply returns_calm|by edestruct Hno].
    destruct Ha as (r & Hr & _). by eapply returns_calm.
  - intros p. destruct (Validate_returns (S:=S) p) as (r & Hr & _). by eapply returns_calm.
  - intros p. apply calm_ret.
Qed.
Lemma decodePublicKey_no_panic k : no_panic (decodePublicKey k).
Proof. by intros w; destruct k. Qed.
Lemma constraints_calm : calm_approver (S:=S) cache_ok constraints_approver.
Proof.
  split.
  - intros p cr. apply calm_pure_call. intros w.
    pose proof (Constraints.Evaluate_outcome p cr) as Hc. unfold inspected_key in Hc.
    destruct (_ ≫= con_PrivateKey); simpl in Hc; [|by destruct Hc as (r & -> & _)].
    pose proof (Hdecode (crs_Request (cr_Spec cr))) as Hno.
    destruct (DecodeX509CertificateRequestBytes _) as [csr|e|w']; simpl in Hc; [|by rewrite Hc|by edestruct Hno].
    pose proof (decodePublicKey_no_panic (csr_PublicKey csr)) as Hk.
    destruct (decodePublicKey _) as [k|e|w']; simpl in Hc;
      [by destruct Hc as (r & -> & _)|by rewrite Hc|by edestruct Hk].
  - intros p. apply calm_ret.
  - intros p. apply calm_ret.
Qed.
End core.

(** ** The program *)
Section program.
Context {S : Type} (I : S → Prop).
Context `{Reader S} `{Client S} `{Recorder S} `{Clock S} `{MetricsHost S}.
Context `{ApiUtil} `{ClientLib} `{ErrorLib} `{JSONLib} `{LabelsLib} `{UnicodeTables}.

(** What is asked of the code of others: a call may fail, and may answer
    anything, but does not panic and leaves the process as it should be. *)
Record calm_world : Prop := {
  calm_List_policies : calm I List_CertificateRequestPolicies;
  calm_List_requests : calm I List_CertificateRequests;
  calm_Labels ns : calm I (Get_Namespace_Labels ns);
  calm_Get_request nn : calm I (Get_CertificateRequest nn);
  calm_Get_policy nn : calm I (Get_CertificateRequestPolicy nn);
  calm_SubjectAccessReview r : calm I (Create_SubjectAccessReview r);
  calm_Patch_request p : calm I (Status_Patch_CertificateRequest p);
  calm_Patch_policy p : calm I (Status_Patch_CertificateRequestPolicy p);
  calm_Event_request cr t r m : calm I (Event_CertificateRequest cr t r m);
  calm_Event_policy p t r m : calm I (Event_CertificateRequestPolicy p t r m);
  calm_Now : calm I Now;
  calm_WaitForCacheSync d : calm I (WaitForCacheSync d);
  calm_LabelSelector ml : no_panic (LabelSelectorAsSelector ml);
  calm_Marshal_request b : no_panic (json_Marshal_CertificateRequest b);
  calm_Marshal_policy b : no_panic (json_Marshal_CertificateRequestPolicy b) }.

Context (HW : calm_world).
#[local] Hint Resolve calm_List_policies calm_List_requests calm_Labels calm_Get_request calm_Get_policy
  calm_SubjectAccessReview calm_Patch_request calm_Patch_policy calm_Event_request calm_Event_policy
  calm_Now calm_WaitForCacheSync : calm.

Lemma parseSelector_calm ml : calm I (pure_call (parseSelector ml)).
Proof.
  apply calm_pure_call. unfold parseSelector. intros w. pose proof (calm_LabelSelector HW ml) as Hl.
  destruct (LabelSelectorAsSelector ml) as [x|e|w']; [done..|by edestruct Hl].
Qed.
#[local] Hint Resolve parseSelector_calm : calm.

Lemma predicate_calm evs (pr : Predicate S) cr ps :
  pr ∈ predicates (Manager.New evs) → calm I (pr cr ps).
Proof.
  intros Hp. apply elem_of_cons in Hp as [->|Hp]; [apply calm_ret|].
  apply elem_of_cons in Hp as [->|Hp]; [apply calm_ret|].
  apply elem_of_cons in Hp as [->|Hp].
  { apply calm_bind; [|intros; apply calm_ret]. apply calm_for_range. intros [l labels] p _.
    unfold selectNamespace, fetchLabels. calm. }
  apply list_elem_of_singleton in Hp as ->. apply calm_for_range. intros l p _. calm.
Qed.

Lemma Review_calm evs cr :
  (∀ e p, e ∈ evs → calm I (e p cr)) → calm I (Review (Manager.New evs) cr).
Proof.
  intros Hevs. unfold Review. apply calm_bind; [calm|]. intros items. case_match; [calm|].
  apply calm_bind.
  { apply calm_for_range. intros ps pr Hp. apply calm_wrap_err. by eapply predicate_calm. }
  intros ps. destruct (length ps =? 0)%nat; [calm|]. generalize (@nil policyMessage) as ms.
  induction ps as [|p ps IH]; intros ms; [apply calm_ret|]. simpl. apply calm_bind.
  - apply calm_for_range. intros [d l] e He. unfold runEvaluator. apply calm_bind; [by apply Hevs|]. calm.
  - intros [d l]. case_match; [calm|apply IH].
Qed.

(** ** The controllers, the webhook and the metrics *)
Lemma request_Reconcile_calm m req :
  (∀ cr, calm I (m cr)) → calm I (CertificateRequests.Reconcile m req).
Proof.
  intros Hm. unfold CertificateRequests.Reconcile, CertificateRequests.reconcileStatusPatch,
    CertificateRequests.respondPatch, CertificateRequests.decisionPatch,
    CertificateRequests.setCertificateRequestStatusCondition.
  apply calm_bind; [calm|]. intros [[res [st|]] err]; [|apply calm_ret]. simpl.
  pose proof (calm_Marshal_request HW (certificateRequestStatusConfiguration (nn_Name req) (nn_Namespace req) (Some st))) as Hno.
  unfold GenerateCertificateRequestStatusPatch.
  destruct (json_Marshal_CertificateRequest _) as [data|e|w]; simpl; [calm..|by edestruct Hno].
Qed.

Lemma policy_Reconcile_calm recs req :
  (∀ r p, r ∈ recs → calm I (rec_Ready r p)) → calm I (CertificateRequestPolicies.Reconcile recs req).
Proof.
  intros Hrecs. unfold CertificateRequestPolicies.Reconcile.
  apply calm_bind.
  - unfold CertificateRequestPolicies.reconcileStatusPatch. apply calm_bind; [calm|].
    intros [p|e]; [|apply calm_ret]. apply calm_bind.
    { apply calm_try, calm_for_range. intros acc r Hr. apply calm_bind; [|calm].
      by apply calm_wrap_err, Hrecs. }
    unfold CertificateRequestPolicies.readyPatch,
      CertificateRequestPolicies.setCertificateRequestPolicyCondition. calm.
  - intros [[res [st|]] err]; [|apply calm_ret]. simpl.
    pose proof (calm_Marshal_policy HW (certificateRequestPolicyStatusConfiguration (nn_Name req) (Some st))) as Hno.
    unfold GenerateCertificateRequestPolicyStatusPatch.
    destruct (json_Marshal_CertificateRequestPolicy _) as [data|e|w]; simpl; [calm..|by edestruct Hno].
Qed.

Lemma validate_calm (v : validator S) names obj :
  (∀ w p, w ∈ webhooks v → calm I (w p)) → calm I (validate v names obj).
Proof.
  intros Hw. unfold validate. destruct obj as [p|T]; [|apply calm_ret]. apply calm_bind.
  - apply calm_pure_call. unfold matchLabelsErrors. intros x. repeat case_match; try done.
    by edestruct (calm_LabelSelector HW).
  - intros errs. apply calm_bind; [|calm]. apply calm_try, calm_for_range.
    intros a w Hin. unfold runWebhook. apply calm_bind; [by apply Hw|calm].
Qed.

Lemma Collect_calm : calm I Collect.
Proof. unfold Collect, hasSynced, collectCRsApproved, collectCRsDenied, collectCRsUnmatched. calm. Qed.
End program.

(** ** The process *)
Section process.
Context {S : Type} `{Hcache : Cache S} `{!CacheLaws S} `{PKILib} `{ErrorLib} `{!ErrorLibLaws}.
Context `{Reader S} `{Client S} `{Recorder S} `{Clock S} `{MetricsHost S}.
Context `{ApiUtil} `{ClientLib} `{JSONLib} `{LabelsLib} `{UnicodeTables}.

(** What the process is asked for: to reconcile a request or a policy, to
    validate an object, to report its metrics. *)
Inductive event :=
  | ev_request (req : NamespacedName)
  | ev_policy (req : NamespacedName)
  | ev_admission (names : list string) (obj : Object)
  | ev_scrape.

Definition handle (shared : Registry S) (e : event) : M S unit :=
  match e with
  | ev_request req =>
      _ ← CertificateRequests.Reconcile (Review (Manager.New (Evaluators shared))) req; mret tt
  | ev_policy req => _ ← CertificateRequestPolicies.Reconcile (Reconcilers shared) req; mret tt
  | ev_admission names obj =>
      _ ← validate {| registeredPlugins := pluginNames shared; webhooks := Webhooks shared |} names obj;
      mret tt
  | ev_scrape => _ ← Collect; mret tt
  end.
(** An error is logged and the next event served; a panic ends the process. *)
Definition serve (shared : Registry S) (events : list event) : M S unit :=
  for_range events tt (λ _ e, _ ← try (handle shared e); mret tt).

Lemma handle_calm shared e :
  calm_world (S:=S) cache_ok → Forall (calm_approver cache_ok) (approvers shared) →
  calm cache_ok (handle shared e).
Proof.
  intros HW Hr. destruct e; simpl; (apply calm_bind; [|intros; apply calm_ret]).
  - apply (request_Reconcile_calm _ HW). intros cr. apply (Review_calm _ HW).
    intros ev p. by apply (calm_Evaluators _ shared).
  - apply (policy_Reconcile_calm _ HW). intros c p. by apply (calm_Reconcilers _ shared).
  - apply (validate_calm _ HW). intros w p. by apply (calm_Webhooks _ shared).
  - apply (Collect_calm _ HW).
Qed.

(** [C5] No input stops the process.  With the two core approvers, and any others
    that do not panic themselves, the process serves every sequence of events to
    its end: whatever policies are stored, admitted by the webhook or not,
    whatever the requests hold, whatever the API server answers and however often
    it fails, no reconciliation, no admission and no scrape panics, and the
    cache of compiled rules stays coherent. *)
Theorem process_never_panics plugins events s
  (Hdecode : ∀ bytes, no_panic (DecodeX509CertificateRequestBytes bytes))
  (HW : calm_world (S:=S) cache_ok) (Hplugins : Forall (calm_approver cache_ok) plugins)
  (Hs : cache_ok s) :
  let shared := {| approvers := [allowed_approver; constraints_approver] ++ plugins |} in
  ∃ s', serve shared events s = (Ok tt, s') ∧ cache_ok s'.
Proof.
  intros shared. assert (Forall (calm_approver cache_ok) (approvers shared)) as Hr.
  { repeat (apply Forall_cons_2; [by first [apply allowed_calm|apply constraints_calm]|]). done. }
  revert s Hs. unfold serve. induction events as [|e events IH]; intros s Hs; [by exists s|].
  destruct (handle_calm shared e HW Hr s Hs) as [Hno Hs1].
  rewrite for_range_cons, !M_bind_step. unfold try at 1.
  destruct (handle shared e s) as [[[]|err|w] s1]; simpl in *; [by apply IH..|by edestruct Hno].
Qed.
End process.

Module NoPanicWitnesses.
Import SampleCluster.SampleCluster.

(** A policy with a label that does not parse and a rule that does not compile,
    a request with a key of a kind that is not recognised, and an API server
    that takes no patch. *)
Definition malformed : CertificateRequestPolicy :=
  let p := sample_policy "bad" (Some (sample_allowed [{| Rule := "self"; Message := None |}]))
    (Some (sample_constraints "Ed25519")) in
  {| p_ObjectMeta := p_ObjectMeta p;
     p_Spec := {| ps_Allowed := ps_Allowed (p_Spec p); ps_Constraints := ps_Constraints (p_Spec p);
                  ps_Plugins := {["vault" := {| pd_Values := ∅ |}]};
                  ps_Selector := {| sel_IssuerRef := None;
                    sel_Namespace := Some {| nsel_MatchNames := []; nsel_MatchLabels := Some {["" := "x"]} |} |} |};
     p_Status := p_Status p |}.
Definition offline : error := foreign_error "" "connection refused".
#[export] Instance faulty_Reader : Reader cache := {
  List_CertificateRequestPolicies := mret {| Items := [malformed] |};
  List_CertificateRequests := fail offline;
  Get_Namespace_Labels _ := mret ∅;
  Get_CertificateRequest _ := mret (sample_request [2] None);
  Get_CertificateRequestPolicy _ := mret malformed }.
#[export] Instance faulty_Client : Client cache := {
  Create_SubjectAccessReview _ := fail offline;
  Status_Patch_CertificateRequest _ := fail offline;
  Status_Patch_CertificateRequestPolicy _ := fail offline }.
#[export] Instance faulty_Recorder : Recorder cache := {
  Event_CertificateRequest _ _ _ _ := mret tt;
  Event_CertificateRequestPolicy _ _ _ _ := mret tt }.
#[export] Instance faulty_Clock : Clock cache := { Now := mret 0 }.
#[export] Instance faulty_MetricsHost : MetricsHost cache := {
  WaitForCacheSync _ := mret true;
  DescribeByCollect m := l ← m; mret (m_desc <$> l);
  MustRegister _ _ := mret tt }.

Lemma faulty_world : calm_world (S:=cache) cache_ok.
Proof.
  split; intros; try first [apply calm_ret|apply calm_fail].
  all: intros w; simpl; try by case_match. all: done.
Qed.
Definition silent : Interface cache := {|
  ap_Name := "vault"; ap_Prepare := mret tt;
  ap_Evaluator _ _ := fail offline; ap_Webhook _ := fail offline;
  ap_Reconciler := {| rec_Ready _ := fail offline; rec_EnqueueChan := None |} |}.
Definition key : NamespacedName := {| nn_Namespace := "ns"; nn_Name := "cr" |}.
Definition events : list event :=
  [ev_request key; ev_policy key; ev_admission ["vault"] (obj_CertificateRequestPolicy malformed); ev_scrape].

Lemma process_never_panics_witness :
  let shared := {| approvers := [allowed_approver; constraints_approver] ++ [silent] |} in
  ∃ s', serve shared events NewCache = (Ok tt, s') ∧ cache_ok s'.
Proof.
  apply (process_never_panics (S:=cache) [silent] events NewCache).
  - intros bytes w. simpl. by repeat case_match.
  - apply faulty_world.
  - apply Forall_singleton. split; intros; apply calm_fail.
  - apply NewCache_coherent.
Defined.

(** The request is not decided: the error says which policy text is to blame. *)
Example malformed_fails :
  match (CertificateRequests.Reconcile (Review (Manager.New (Evaluators
    {| approvers := [allowed_approver; constraints_approver] |}))) key NewCache).1 with
  | Ok (_, Some e) => error_Error e
  | _ => ""
  end = "failed to perform predicate on policies: failed to parse namespace label selector: name part must be non-empty".
Proof. vm_compute. reflexivity. Qed.
End NoPanicWitnesses.
