(* ===== verification/Gatekeeping.v ===== *)
(** * What the webhook keeps out

    A predicate that fails for one policy fails the review of every request it
    is tried on: one malformed policy would leave all requests of a namespace
    undecided.  The webhook refuses the policies that have this effect. *)
From S2P Require Import Prelude GoStrings Wildcard K8s PolicyAPI Approver Validation Samples Allowed AllowedSpec Constraints Client Predicate PredicateSpec Manager ManagerSpec Registry Webhook WebhookSpec SampleCluster System.

Section gate.
Context {S : Type} `{Hcache : Cache S} `{!CacheLaws S} `{PKILib} `{ErrorLib} `{!ErrorLibLaws}.
Context `{Reader S} `{Client S} `{LabelsLib} `{UnicodeTables}.

(** The policy passed the webhook once, in a process with the core approvers. *)
Definition let_in (registered : list string) (p : CertificateRequestPolicy) : Prop :=
  ∃ names (s : S) ws s', cache_ok s ∧ names ≡ₚ (map_to_list (ps_Plugins (p_Spec p))).*1 ∧
    validate {| registeredPlugins := registered; webhooks := Webhooks core_registry |} names
      (obj_CertificateRequestPolicy p) s = (Ok (ws, None), s').

(** The webhook does not look at an empty set of labels. *)
Context (Hempty : is_Ok (LabelSelectorAsSelector ∅)).

Lemma let_in_selector registered p cr L : let_in registered p → is_Ok (ns_keep cr L p).
Proof.
  intros (names & s & ws & s' & _ & Hn & Hrun).
  apply validate_admits in Hrun as (_ & _ & Hl & _); [|done].
  unfold ns_keep. destruct (sel_Namespace _) as [sel|] eqn:Es; [|by eexists].
  case_match; [by eexists|]. destruct (nsel_MatchLabels sel) as [ml|] eqn:Em; [|by eexists].
  assert (is_Ok (LabelSelectorAsSelector ml)) as [x Hx].
  { destruct (decide (ml = ∅)) as [->|]; [done|]. by eapply Hl. }
  unfold parseSelector. rewrite Hx. by eexists.
Qed.

(** What remains are failures that the request itself causes: its CSR does not
    decode, or its key is of a kind that is not recognised, and a policy
    constrains the key. *)
Definition recognised (cr : CertificateRequest) (items : list CertificateRequestPolicy) : Prop :=
  ∃ csr, DecodeX509CertificateRequestBytes (crs_Request (cr_Spec cr)) = Ok csr ∧
    (is_Ok (decodePublicKey (csr_PublicKey csr)) ∨
     ∀ p, p ∈ items → (ps_Constraints (p_Spec p) ≫= con_PrivateKey) = None).

Lemma recognised_evaluable cr items p : recognised cr items → p ∈ items → evaluable cr p.
Proof.
  intros (csr & Hcsr & Hkey) Hp. unfold evaluable, inspected_key. rewrite Hcsr. split; [by eexists|].
  destruct (_ ≫= con_PrivateKey) eqn:E; [|by eexists]. simpl.
  destruct Hkey as [[k ->]|Hno]; [by eexists|]. by rewrite Hno in E.
Qed.

(** [C6] No policy that the webhook let in makes the review fail of a request
    that the program can read.  When every policy of the cluster has passed the
    webhook, whatever plugins were registered at the time, and the API server
    answers, then the review of any request answers and decides by the policies,
    provided that the CSR of the request decodes and that its key is of a kind
    that the constraints approver recognises or no policy constrains the key.
    (Conditions are keyed by type, as the CRD declares, and the empty set of
    labels is a selector.)
    The proviso is needed: the webhook lets policies in on which a request with
    an Ed25519 key fails ([admitted_policy_blocks_ed25519]). *)
Theorem let_in_policies_never_block cr items labels may_use s
  (Hin : ∀ p, p ∈ items → ∃ registered, let_in registered p)
  (Hlist : returns cache_ok List_CertificateRequestPolicies (Ok {| Items := items |}))
  (Hkeyed : Forall conditions_keyed items)
  (Hlabels : returns cache_ok (Get_Namespace_Labels (cr_Namespace cr)) (Ok labels))
  (Hmay : ∀ p, p ∈ items → returns cache_ok (ask cr p) (Ok (may_use p)))
  (Hreq : recognised cr items)
  (Hs : cache_ok (S:=S) s) :
  let applies p := is_ready p ∧ issuer_selected cr p ∧ namespace_selected cr labels p ∧
    may_use p = true in
  ∃ resp s', Review (New (Evaluators core_registry)) cr s = (Ok resp, s') ∧ cache_ok s' ∧
    (manager.rv_Result resp = manager.ResultApproved ↔
       ∃ p, p ∈ items ∧ applies p ∧ permits (S:=S) cr p) ∧
    (manager.rv_Result resp = manager.ResultUnprocessed ↔ ∀ p, p ∈ items → ¬ applies p).
Proof.
  intros applies.
  assert (settled (S:=S) cr items labels may_use) as Hset by by split.
  destruct (settled_review cr items labels may_use s Hset Hs) as [Hdecides Hanswers].
  destruct Hanswers as (resp & s' & Hrun).
  { intros p Hp. split; [|by eapply recognised_evaluable]. destruct (Hin p Hp). by eapply let_in_selector. }
  destruct (Hdecides resp s' Hrun) as (? & ? & ? & _). by exists resp, s'.
Qed.
End gate.

Module GatekeepingWitnesses.
Import SampleCluster SystemWitnesses.

Lemma empty_selector : is_Ok (LabelSelectorAsSelector (∅ : gmap string string)).
Proof. by eexists. Qed.
Lemma policies_let_in p : p ∈ policies → ∃ registered, let_in (S:=cache) registered p.
Proof.
  intros Hp. exists []. repeat (apply elem_of_cons in Hp as [->|Hp]; [|]); [..|by apply elem_of_nil in Hp];
    exists [], NewCache; eexists _, _; (split; [apply NewCache_coherent|]); (split; [done|]);
    vm_compute; reflexivity.
Qed.

Lemma request_recognised : recognised new_request policies.
Proof. exists rsa_csr. split; [done|]. left. by eexists. Qed.
Lemma let_in_policies_never_block_witness :
  let applies p := is_ready p ∧ issuer_selected new_request p ∧ namespace_selected new_request ∅ p ∧
    true = true in
  ∃ resp s', Review (New (Evaluators core_registry)) new_request NewCache = (Ok resp, s') ∧ cache_ok s' ∧
    (manager.rv_Result resp = manager.ResultApproved ↔
       ∃ p, p ∈ policies ∧ applies p ∧ permits (S:=cache) new_request p) ∧
    (manager.rv_Result resp = manager.ResultUnprocessed ↔ ∀ p, p ∈ policies → ¬ applies p).
Proof.
  apply (let_in_policies_never_block empty_selector new_request policies ∅ (λ _, true)
    NewCache policies_let_in).
  - apply returns_ret.
  - repeat constructor; by intros ?%elem_of_nil.
  - apply returns_ret.
  - intros p _. apply returns_ret.
  - apply request_recognised.
  - apply NewCache_coherent.
Defined.

(** A request whose CSR has an Ed25519 key: the webhook let all the policies in,
    and the open one, which constrains the key, makes the review fail. *)
Definition ed25519_request : CertificateRequest :=
  sample_request [2] (Some 7200000000000).
Example admitted_policy_blocks_ed25519 :
  (∀ p, p ∈ policies → ∃ registered, let_in (S:=cache) registered p) ∧
  match (Review (New (Evaluators core_registry)) ed25519_request NewCache).1 with
  | Err e => error_Error e
  | _ => ""
  end = "unrecognised public key type ed25519.PublicKey".
Proof. split; [exact policies_let_in|vm_compute; reflexivity]. Qed.

(** A policy the webhook refuses, and what it would do: the review of a request
    that another policy approves fails. *)
Definition bad_labels : CertificateRequestPolicy :=
  {| p_ObjectMeta := {| om_Name := "bad"; om_Namespace := ""; om_Generation := 1 |};
     p_Spec := {| ps_Allowed := None; ps_Constraints := None; ps_Plugins := ∅;
                  ps_Selector := {| sel_IssuerRef := None;
                    sel_Namespace := Some {| nsel_MatchNames := []; nsel_MatchLabels := Some {["" := "x"]} |} |} |};
     p_Status := p_Status open_policy |}.
#[local] Instance with_bad : Reader cache := {
  List_CertificateRequestPolicies := mret {| Items := policies ++ [bad_labels] |};
  List_CertificateRequests := mret [];
  Get_Namespace_Labels _ := mret ∅;
  Get_CertificateRequest _ := fail (errors_New "none");
  Get_CertificateRequestPolicy _ := fail (errors_New "none") }.
Example bad_labels_refused :
  match (validate {| registeredPlugins := []; webhooks := Webhooks core_registry |} []
    (obj_CertificateRequestPolicy bad_labels) NewCache).1 with Ok (_, Some _) => true | _ => false end = true.
Proof. vm_compute. reflexivity. Qed.
Example bad_labels_would_block :
  match (Review (New (Evaluators core_registry)) new_request NewCache).1 with
  | Err e => error_Error e
  | _ => ""
  end = "failed to perform predicate on policies: failed to parse namespace label selector: name part must be non-empty".
Proof. vm_compute. reflexivity. Qed.
End GatekeepingWitnesses.
